(** * MySQL-ConnectionPool: sessions, replica selector and pool manager

    A shallow embedding of [src/connection.cpp], [src/load_balancer.cpp],
    [src/connection_pool.cpp] and the configuration records of
    [include/pool_config.h] and [include/db_config.h].

    - C++ [unsigned int], [size_t], [int] and [int64_t] values are [Z] with the
      wrap-around written at every arithmetic operation.
    - The MySQL client library, the clocks, the random generators and the
      condition variable are an opaque platform: a class of operations over an
      abstract world [W] that every theorem quantifies over.
    - A C++ [double] is the rational it denotes, a product of doubles being
      rounded to the nearest double.
    - Methods are computations in a state-and-exception monad; [throw] is a
      C++ exception and [try_catch] a [try]/[catch] block.
    - [Connection] objects live in a store indexed by address, so that two
      copies of one [shared_ptr] denote the same session. *)

From Stdlib Require Import ZArith QArith Qround Lia Lqa List.
From Stdlib Require SpecFloat.
From stdpp Require Import base option list gmap strings pretty sorting.

Local Open Scope Z_scope.

(** ** Machine integers *)

Definition wrap32 (z : Z) : Z := z mod 2 ^ 32.
Definition wrap64 (z : Z) : Z := z mod 2 ^ 64.
Definition UINT_MAX : Z := 2 ^ 32 - 1.
Definition INT_MAX : Z := 2 ^ 31 - 1.

(** Conversion of an [unsigned int] to [int] (modular). *)
Definition to_int (z : Z) : Z := (z + 2 ^ 31) mod 2 ^ 32 - 2 ^ 31.

(** [std::to_string] of an integer. *)
Definition to_string (z : Z) : string := pretty z.

(** ** Exceptions and the monad of methods *)

Inductive exn : Type :=
| runtime_error (what : string)
| SQLExecutionError (what : string) (m_errorCode : Z).

Definition exn_what (e : exn) : string :=
  match e with
  | runtime_error w => w
  | SQLExecutionError w _ => w
  end.

(** A computation that does not return normally throws, or has not returned
    within the given number of loop iterations, or has read through an index or
    a pointer that denotes nothing (undefined behaviour in C++). *)
Inductive res (A : Type) : Type :=
| Ok (a : A)
| Throw (e : exn)
| OutOfFuel
| Undefined.
Arguments Ok {A} a.
Arguments Throw {A} e.
Arguments OutOfFuel {A}.
Arguments Undefined {A}.

(** The call has returned or raised. *)
Definition completed {A} (r : res A) : Prop :=
  match r with
  | Ok _ | Throw _ => True
  | OutOfFuel | Undefined => False
  end.

Definition M (S A : Type) : Type := S -> res A * S.

Definition ret {S A} (a : A) : M S A := fun s => (Ok a, s).
Definition throw {S A} (e : exn) : M S A := fun s => (Throw e, s).
Definition out_of_fuel {S A} : M S A := fun s => (OutOfFuel, s).
Definition undefined {S A} : M S A := fun s => (Undefined, s).

Definition bind {S A B} (m : M S A) (k : A -> M S B) : M S B :=
  fun s =>
    match m s with
    | (Ok a, s') => k a s'
    | (Throw e, s') => (Throw e, s')
    | (OutOfFuel, s') => (OutOfFuel, s')
    | (Undefined, s') => (Undefined, s')
    end.

Definition gets {S A} (f : S -> A) : M S A := fun s => (Ok (f s), s).
Definition modify {S} (f : S -> S) : M S unit := fun s => (Ok tt, f s).

(** [try { body } catch (...) { handler }] *)
Definition try_catch {S A} (body : M S A) (handler : exn -> M S A) : M S A :=
  fun s =>
    match body s with
    | (Throw e, s') => handler e s'
    | r => r
    end.

(** [wp m Q s]: running [m] from [s] ends in a result and a state that
    satisfy [Q]. *)
Definition wp {S A} (m : M S A) (Q : res A -> S -> Prop) (s : S) : Prop :=
  Q (fst (m s)) (snd (m s)).

(** The postcondition that [bind m k] asks of [m]. *)
Definition then_wp {S A B} (k : A -> M S B) (Q : res B -> S -> Prop)
    (r : res A) (s : S) : Prop :=
  match r with
  | Ok a => wp (k a) Q s
  | Throw e => Q (Throw e) s
  | OutOfFuel => Q OutOfFuel s
  | Undefined => Q Undefined s
  end.

(** The postcondition that [try_catch body handler] asks of [body]. *)
Definition catch_wp {S A} (handler : exn -> M S A) (Q : res A -> S -> Prop)
    (r : res A) (s : S) : Prop :=
  match r with
  | Throw e => wp (handler e) Q s
  | _ => Q r s
  end.

(** Running a computation on a part of the state. *)
Definition zoom {S T A} (get : S -> T) (set : T -> S -> S) (m : M T A) : M S A :=
  fun s => let '(r, t) := m (get s) in (r, set t s).

Notation "'do' x <- c1 ; c2" := (bind c1 (fun x => c2))
  (at level 10, x name, c1 at level 100, c2 at level 200).
Notation "'run' c1 ; c2" := (bind c1 (fun _ => c2))
  (at level 10, c1 at level 100, c2 at level 200).

(** ** The platform: MySQL client library, clocks, randomness

    [MYSQL*] and [MYSQL_RES*] are opaque handles.  Every operation takes the
    world and, when it has an effect, returns the next one. *)

Definition MYSQL := nat.
Definition MYSQL_RES := nat.

Inductive cv_status := no_timeout | timeout.

Class Platform (W : Type) : Type := {
  (** [mysql_init(nullptr)]: the new handle, or null when the driver cannot
      allocate one *)
  mysql_init : W -> option MYSQL * W;
  (** [true] when [mysql_real_connect] returns a non-null result; the first
      argument is [m_mysql], null or not *)
  mysql_real_connect : option MYSQL -> string -> string -> string -> string -> Z -> W -> bool * W;
  mysql_close : MYSQL -> W -> W;
  mysql_ping : MYSQL -> W -> Z * W;
  mysql_errno : MYSQL -> W -> Z;
  mysql_error : MYSQL -> W -> string;
  mysql_query : MYSQL -> string -> W -> Z * W;
  mysql_store_result : MYSQL -> W -> option MYSQL_RES * W;
  mysql_field_count : MYSQL -> W -> Z;
  mysql_affected_rows : MYSQL -> W -> Z;
  (** [Utils::currentTimeMillis] and [std::chrono::steady_clock::now], in ms *)
  currentTimeMillis : W -> Z * W;
  steady_clock_now : W -> Z * W;
  sleep_for : Z -> W -> W;
  (** [Utils::generateRandomString] *)
  generateRandomString : Z -> W -> string * W;
  (** [std::uniform_real_distribution<double>(0.8, 1.2)(rng)]; the double is
      read as the rational it denotes *)
  uniform_real_08_12 : W -> Q * W;
  (** [std::uniform_int_distribution<int>(a, b)(m_rng)] *)
  uniform_int : Z -> Z -> W -> Z * W;
  (** [m_condition.wait_until(lock, deadline)] *)
  wait_until : Z -> W -> cv_status * W;
  (** [1 << n] on [int] for a shift count outside [0, 31], which C++ leaves
      undefined and the hardware decides *)
  shl_out_of_range : Z -> Z
}.

(** [CR_SERVER_GONE_ERROR] of [mysql/errmsg.h] *)
Definition CR_SERVER_GONE_ERROR : Z := 2006.

(** ** Telemetry counters ([performance_monitor.h]) *)

Module PerformanceMonitor.

Record t : Type := mk {
  m_totalConnectionsCreated : Z;
  m_totalConnectionsAcquired : Z;
  m_totalConnectionsReleased : Z;
  m_failedConnectionAttempts : Z;
  m_totalQueriesExecuted : Z;
  m_failedQueries : Z;
  m_reconnectionAttempts : Z;
  m_successfulReconnections : Z;
  m_totalConnectionAcquireTime : Z;
  m_totalConnectionUsageTime : Z;
  m_totalQueryExecutionTime : Z
}.

Definition zero : t := mk 0 0 0 0 0 0 0 0 0 0 0.

Definition recordConnectionCreated (m : t) : t :=
  mk (wrap64 (m_totalConnectionsCreated m + 1)) (m_totalConnectionsAcquired m)
     (m_totalConnectionsReleased m) (m_failedConnectionAttempts m)
     (m_totalQueriesExecuted m) (m_failedQueries m) (m_reconnectionAttempts m)
     (m_successfulReconnections m) (m_totalConnectionAcquireTime m)
     (m_totalConnectionUsageTime m) (m_totalQueryExecutionTime m).

Definition recordConnectionAcquired (timeTaken : Z) (m : t) : t :=
  mk (m_totalConnectionsCreated m) (wrap64 (m_totalConnectionsAcquired m + 1))
     (m_totalConnectionsReleased m) (m_failedConnectionAttempts m)
     (m_totalQueriesExecuted m) (m_failedQueries m) (m_reconnectionAttempts m)
     (m_successfulReconnections m)
     (wrap64 (m_totalConnectionAcquireTime m + timeTaken))
     (m_totalConnectionUsageTime m) (m_totalQueryExecutionTime m).

Definition recordConnectionReleased (usageTime : Z) (m : t) : t :=
  mk (m_totalConnectionsCreated m) (m_totalConnectionsAcquired m)
     (wrap64 (m_totalConnectionsReleased m + 1)) (m_failedConnectionAttempts m)
     (m_totalQueriesExecuted m) (m_failedQueries m) (m_reconnectionAttempts m)
     (m_successfulReconnections m) (m_totalConnectionAcquireTime m)
     (wrap64 (m_totalConnectionUsageTime m + usageTime))
     (m_totalQueryExecutionTime m).

Definition recordConnectionFailed (m : t) : t :=
  mk (m_totalConnectionsCreated m) (m_totalConnectionsAcquired m)
     (m_totalConnectionsReleased m) (wrap64 (m_failedConnectionAttempts m + 1))
     (m_totalQueriesExecuted m) (m_failedQueries m) (m_reconnectionAttempts m)
     (m_successfulReconnections m) (m_totalConnectionAcquireTime m)
     (m_totalConnectionUsageTime m) (m_totalQueryExecutionTime m).

Definition recordQueryExecuted (queryTime : Z) (success : bool) (m : t) : t :=
  mk (m_totalConnectionsCreated m) (m_totalConnectionsAcquired m)
     (m_totalConnectionsReleased m) (m_failedConnectionAttempts m)
     (wrap64 (m_totalQueriesExecuted m + 1))
     (if success then m_failedQueries m else wrap64 (m_failedQueries m + 1))
     (m_reconnectionAttempts m) (m_successfulReconnections m)
     (m_totalConnectionAcquireTime m) (m_totalConnectionUsageTime m)
     (wrap64 (m_totalQueryExecutionTime m + queryTime)).

Definition recordReconnection (success : bool) (m : t) : t :=
  mk (m_totalConnectionsCreated m) (m_totalConnectionsAcquired m)
     (m_totalConnectionsReleased m) (m_failedConnectionAttempts m)
     (m_totalQueriesExecuted m) (m_failedQueries m)
     (wrap64 (m_reconnectionAttempts m + 1))
     (if success then wrap64 (m_successfulReconnections m + 1)
      else m_successfulReconnections m)
     (m_totalConnectionAcquireTime m) (m_totalConnectionUsageTime m)
     (m_totalQueryExecutionTime m).

(** [resetStats]: every counter back to 0. *)
Definition resetStats (m : t) : t := zero.

(** The calls made on the monitor, and the monitor after a sequence of them
    on a new one. *)
Inductive call : Type :=
| call_recordConnectionCreated
| call_recordConnectionAcquired (timeTaken : Z)
| call_recordConnectionReleased (usageTime : Z)
| call_recordConnectionFailed
| call_recordQueryExecuted (queryTime : Z) (success : bool)
| call_recordReconnection (success : bool)
| call_resetStats.

Definition after_call (c : call) (m : t) : t :=
  match c with
  | call_recordConnectionCreated => recordConnectionCreated m
  | call_recordConnectionAcquired timeTaken => recordConnectionAcquired timeTaken m
  | call_recordConnectionReleased usageTime => recordConnectionReleased usageTime m
  | call_recordConnectionFailed => recordConnectionFailed m
  | call_recordQueryExecuted queryTime success => recordQueryExecuted queryTime success m
  | call_recordReconnection success => recordReconnection success m
  | call_resetStats => resetStats m
  end.

Definition after_calls (calls : list call) : t :=
  fold_left (fun m c => after_call c m) calls zero.

End PerformanceMonitor.

(** ** Sessions ([connection.h], [connection.cpp]) *)

Module Connection.

Record t : Type := mk {
  m_mysql : option MYSQL;
  m_host : string;
  m_user : string;
  m_password : string;
  m_database : string;
  m_port : Z;
  m_connectionId : string;
  m_creationTime : Z;
  m_lastActiveTime : Z;
  m_reconnectInterval : Z;
  m_reconnectAttempts : Z;
  m_totalReconnectAttempts : Z;
  m_successfulReconnects : Z
}.

Definition set_m_mysql (h : option MYSQL) (c : t) : t :=
  mk h (m_host c) (m_user c) (m_password c) (m_database c) (m_port c)
     (m_connectionId c) (m_creationTime c) (m_lastActiveTime c)
     (m_reconnectInterval c) (m_reconnectAttempts c)
     (m_totalReconnectAttempts c) (m_successfulReconnects c).

Definition set_m_lastActiveTime (now : Z) (c : t) : t :=
  mk (m_mysql c) (m_host c) (m_user c) (m_password c) (m_database c) (m_port c)
     (m_connectionId c) (m_creationTime c) now
     (m_reconnectInterval c) (m_reconnectAttempts c)
     (m_totalReconnectAttempts c) (m_successfulReconnects c).

Definition set_m_totalReconnectAttempts (n : Z) (c : t) : t :=
  mk (m_mysql c) (m_host c) (m_user c) (m_password c) (m_database c) (m_port c)
     (m_connectionId c) (m_creationTime c) (m_lastActiveTime c)
     (m_reconnectInterval c) (m_reconnectAttempts c)
     n (m_successfulReconnects c).

Definition set_m_successfulReconnects (n : Z) (c : t) : t :=
  mk (m_mysql c) (m_host c) (m_user c) (m_password c) (m_database c) (m_port c)
     (m_connectionId c) (m_creationTime c) (m_lastActiveTime c)
     (m_reconnectInterval c) (m_reconnectAttempts c)
     (m_totalReconnectAttempts c) n.

(** What [executeInternal] hands back: [QueryResult(result, affectedRows)]. *)
Record QueryResult : Type := mkQueryResult {
  m_result : option MYSQL_RES;
  m_affectedRows : Z
}.

(** Calls of [reconnect] and [executeInternal], logged with their outcome when
    they finish.  The log is not in the source; it is what lets a theorem say
    how often and in which order the two were invoked. *)
Inductive call : Type :=
| call_reconnect (outcome : res bool)
| call_executeInternal (outcome : res QueryResult).

(** *** Pure helpers *)

Definition isConnectionError (errorCode : Z) : bool :=
  if errorCode =? 2002 then true
  else if errorCode =? 2003 then true
  else if errorCode =? 2006 then true
  else if errorCode =? 2013 then true
  else if errorCode =? 2027 then true
  else if errorCode =? 2055 then true
  else false.

(** *** Doubles

    A [double] is read as the rational it denotes.  The product of two
    doubles is the double nearest to their exact product, the one with the
    even significand when the product is half-way between two doubles (IEEE
    754 binary64, round to nearest even). *)

(** [2^e] *)
Definition Qpow2 (e : Z) : Q :=
  if 0 <=? e then inject_Z (2 ^ e) else / inject_Z (2 ^ (- e)).

(** The floor of the binary logarithm of a positive rational: [Z.log2] of
    the numerator minus that of the denominator, or one less. *)
Definition Qlog2 (x : Q) : Z :=
  let k := Z.log2 (Qnum x) - Z.log2 (Zpos (Qden x)) in
  if Qle_bool (Qpow2 k) x then k else k - 1.

(** The integer nearest to [x], the even one of the two when [x] is half-way
    between them. *)
Definition round_half_even (x : Q) : Z :=
  let n := Qfloor x in
  match (x - inject_Z n ?= 1 # 2)%Q with
  | Lt => n
  | Eq => if Z.even n then n else n + 1
  | Gt => n + 1
  end.

(** The double nearest to a positive [x]: [x] rounded to a multiple of
    [2^e], where [e] leaves 53 bits to the significand and is not below the
    exponent of the subnormal doubles. *)
Definition round_positive (x : Q) : Q :=
  let e := Z.max (Qlog2 x - 52) (-1074) in
  (inject_Z (round_half_even (x / Qpow2 e)) * Qpow2 e)%Q.

(** The double nearest to [x].  Values beyond the largest double, which
    round to an infinity, are not modelled: no delay comes near them. *)
Definition round_double (x : Q) : Q :=
  match (x ?= 0)%Q with
  | Eq => 0
  | Gt => round_positive x
  | Lt => - round_positive (- x)
  end.

(** [a * b] on doubles. *)
Definition double_mul (a b : Q) : Q := round_double (a * b).

(** The rational denoted by a finite float of the Standard Library's
    specification of IEEE 754, against which [double_mul] is compared. *)
Definition SF2Q (f : SpecFloat.spec_float) : Q :=
  match f with
  | SpecFloat.S754_finite s m e =>
    ((if s then -1 else 1) * inject_Z (Zpos m) * Qpow2 e)%Q
  | _ => 0%Q
  end.

(** [std::max(1.0, x)] *)
Definition max_1 (x : Q) : Q := if Qle_bool x 1 then 1 else x.

(** [static_cast<unsigned int>] of a non-negative double: truncation. *)
Definition double_to_uint (x : Q) : Z := wrap32 (Qfloor x).

Section WithPlatform.
Context {W : Type} `{Platform W}.

(** [1 << n] on [int]. *)
Definition shl1 (n : Z) : Z :=
  if (0 <=? n) && (n <=? 31) then to_int (2 ^ n) else shl_out_of_range n.

(** The arithmetic of [calculateReconnectDelay], for the value [jitter] drawn
    from the distribution.  [delay] is converted to [double], exactly, and
    multiplied by [jitter] in double precision. *)
Definition reconnectDelay (reconnectInterval attempt : Z) (jitter : Q) : Z :=
  let baseDelay := reconnectInterval in
  let exponentialDelay := wrap32 (baseDelay * wrap32 (shl1 (wrap32 (attempt - 1)))) in
  let maxDelay := 30000 in
  let delay := Z.min exponentialDelay maxDelay in
  let jitteredDelay := double_mul (inject_Z delay) jitter in
  double_to_uint (max_1 jitteredDelay).

(** *** State of a method call: the object, the world, the telemetry *)

Record state : Type := mkState {
  this : t;
  world : W;
  monitor : PerformanceMonitor.t;
  calls : list call
}.

Definition with_this (f : t -> t) (st : state) : state :=
  mkState (f (this st)) (world st) (monitor st) (calls st).
Definition with_world (w : W) (st : state) : state :=
  mkState (this st) w (monitor st) (calls st).
Definition with_monitor (f : PerformanceMonitor.t -> PerformanceMonitor.t)
    (st : state) : state :=
  mkState (this st) (world st) (f (monitor st)) (calls st).
Definition with_call (c : call) (st : state) : state :=
  mkState (this st) (world st) (monitor st) (calls st ++ [c]).

Definition platform {A} (op : W -> A * W) : M state A :=
  fun st => let '(a, w) := op (world st) in (Ok a, with_world w st).
Definition platform_ (op : W -> W) : M state unit :=
  fun st => (Ok tt, with_world (op (world st)) st).
Definition observe {A} (op : W -> A) : M state A := gets (fun st => op (world st)).
Definition telemetry (f : PerformanceMonitor.t -> PerformanceMonitor.t) : M state unit :=
  modify (with_monitor f).

Definition traced {A} (ev : res A -> call) (m : M state A) : M state A :=
  fun st => let '(r, st') := m st in (r, with_call (ev r) st').

(** *** Methods *)

(** [Connection::init]: stores what [mysql_init] returns and throws when it
    is null; the [mysql_options] calls that follow only log. *)
Definition init_failed : exn :=
  runtime_error "Failed to initialize MySQL connection object".

Definition init : M state unit :=
  do h <- platform mysql_init;
  run modify (with_this (set_m_mysql h));
  match h with
  | None => throw init_failed
  | Some _ => ret tt
  end.

Definition updateLastActiveTime : M state unit :=
  do now <- platform currentTimeMillis;
  modify (with_this (set_m_lastActiveTime now)).

Definition real_connect : M state bool :=
  do c <- gets this;
  platform (mysql_real_connect (m_mysql c) (m_host c) (m_user c) (m_password c)
              (m_database c) (m_port c)).

Definition connect : M state bool :=
  do result <- real_connect;
  if negb result then ret false
  else run updateLastActiveTime; ret true.

Definition close : M state unit :=
  do c <- gets this;
  match m_mysql c with
  | Some h => run platform_ (mysql_close h); modify (with_this (set_m_mysql None))
  | None => ret tt
  end.

Definition calculateReconnectDelay (attempt : Z) : M state Z :=
  do c <- gets this;
  do jitter <- platform uniform_real_08_12;
  ret (reconnectDelay (m_reconnectInterval c) attempt jitter).

(** The [for] loop of [reconnect], from [attempt] on. *)
Fixpoint reconnect_loop (fuel : nat) (attempt : Z) : M state bool :=
  match fuel with
  | O => out_of_fuel
  | S fuel' =>
    do c <- gets this;
    if attempt <=? m_reconnectAttempts c then
      run modify (with_this
            (set_m_totalReconnectAttempts (wrap32 (m_totalReconnectAttempts c + 1))));
      do result <- real_connect;
      if result then
        run modify (with_this
              (fun c => set_m_successfulReconnects (wrap32 (m_successfulReconnects c + 1)) c));
        run telemetry (PerformanceMonitor.recordReconnection true);
        ret true
      else
        do delay <- calculateReconnectDelay attempt;
        run (if attempt <? m_reconnectAttempts c
             then platform_ (sleep_for delay) else ret tt);
        reconnect_loop fuel' (wrap32 (attempt + 1))
    else
      run telemetry (PerformanceMonitor.recordReconnection false);
      ret false
  end.

Definition reconnect (fuel : nat) : M state bool :=
  traced call_reconnect
    (do c <- gets this;
     run match m_mysql c with
         | Some h => run platform_ (mysql_close h); modify (with_this (set_m_mysql None))
         | None => ret tt
         end;
     run init;
     do c <- gets this;
     match m_mysql c with
     | None =>
       run telemetry (PerformanceMonitor.recordReconnection false);
       ret false
     | Some _ => reconnect_loop fuel 1
     end).

(** What the loop of [reconnect] does to the world after a call of
    [mysql_real_connect] that failed at [attempt]: it draws the jitter and,
    unless the attempt was the last, sleeps for the delay. *)
Definition after_failed_connect (c : t) (attempt : Z) (w : W) : W :=
  let '(jitter, w1) := uniform_real_08_12 w in
  if attempt <? m_reconnectAttempts c
  then sleep_for (reconnectDelay (m_reconnectInterval c) attempt jitter) w1
  else w1.

(** The calls of [mysql_real_connect] that the loop of [reconnect] makes from
    [attempt] on for the session [c]: [connect_calls c attempt k b w w'] when
    it makes [k] calls, each with the handle and the coordinates of [c], which
    all fail but the last one when [b] and all fail otherwise, and which take
    the world from [w] to [w']. *)
Inductive connect_calls (c : t) : Z -> nat -> bool -> W -> W -> Prop :=
| connect_calls_done attempt w :
    m_reconnectAttempts c < attempt ->
    connect_calls c attempt 0 false w w
| connect_calls_success attempt w :
    attempt <= m_reconnectAttempts c ->
    fst (mysql_real_connect (m_mysql c) (m_host c) (m_user c) (m_password c)
           (m_database c) (m_port c) w) = true ->
    connect_calls c attempt 1 true w
      (snd (mysql_real_connect (m_mysql c) (m_host c) (m_user c) (m_password c)
              (m_database c) (m_port c) w))
| connect_calls_failure attempt k b w w' :
    attempt <= m_reconnectAttempts c ->
    fst (mysql_real_connect (m_mysql c) (m_host c) (m_user c) (m_password c)
           (m_database c) (m_port c) w) = false ->
    connect_calls c (attempt + 1) k b
      (after_failed_connect c attempt
         (snd (mysql_real_connect (m_mysql c) (m_host c) (m_user c) (m_password c)
                 (m_database c) (m_port c) w)))
      w' ->
    connect_calls c attempt (S k) b w w'.

Definition isValidQuietly : M state bool :=
  do c <- gets this;
  match m_mysql c with
  | None => ret false
  | Some h =>
    do ping_result <- platform (mysql_ping h);
    if negb (ping_result =? 0) then ret false else ret true
  end.

(** [Connection::isValid].  The block that holds the lock returns on each of
    its paths, so the [return reconnect();] that follows it in the source is
    never reached and has no counterpart here. *)
Definition isValid (tryReconnect : bool) : M state bool :=
  do c <- gets this;
  match m_mysql c with
  | None => ret false
  | Some h =>
    do ping_result <- platform (mysql_ping h);
    do failed <-
      (if negb (ping_result =? 0) then
         do errorCode <- observe (mysql_errno h);
         ret (negb tryReconnect || negb (isConnectionError errorCode))
       else ret false);
    if (failed : bool) then ret false
    else run updateLastActiveTime; ret true
  end.

(** [Connection::executeInternal] *)
Definition executeInternal (sql : string) (isQuery : bool) : M state QueryResult :=
  traced call_executeInternal
    (do c <- gets this;
     match m_mysql c with
     | None =>
       let error := "Connection not established [" +:+ m_connectionId c +:+ "]" in
       throw (SQLExecutionError error CR_SERVER_GONE_ERROR)
     | Some h =>
       run updateLastActiveTime;
       do rc <- platform (mysql_query h sql);
       if negb (rc =? 0) then
         do errorCode <- observe (mysql_errno h);
         do errorMsg <- observe (mysql_error h);
         throw (SQLExecutionError
                  (errorMsg +:+ " (Code: " +:+ to_string errorCode +:+ ")") errorCode)
       else if isQuery then
         do queryResult <- platform (mysql_store_result h);
         do fieldCount <- observe (mysql_field_count h);
         match queryResult with
         | None =>
           if 0 <? fieldCount then
             do errorCode <- observe (mysql_errno h);
             do errorMsg <- observe (mysql_error h);
             throw (SQLExecutionError
                      ("Failed to store result: " +:+ errorMsg +:+
                       " (Code: " +:+ to_string errorCode +:+ ")") errorCode)
           else ret (mkQueryResult queryResult 0)
         | Some _ => ret (mkQueryResult queryResult 0)
         end
       else
         do affectedRows <- observe (mysql_affected_rows h);
         ret (mkQueryResult None affectedRows)
     end).

(** What one turn of the retry loop decides. *)
Inductive attempt_outcome : Type :=
| returned (queryResult : QueryResult)
| next_attempt (errorCode : Z) (errorMessage : string).

Definition query_kind (isQuery : bool) : string :=
  if isQuery then "query" else "update".

(** The message of the error raised once every attempt has failed. *)
Definition exhausted_message (c : t) (sql : string) (isQuery : bool)
    (errorMessage : string) : string :=
  "Failed to execute " +:+ query_kind isQuery +:+ " after " +:+
  to_string (wrap32 (m_reconnectAttempts c + 1)) +:+ " attempts [" +:+
  m_connectionId c +:+ "]: " +:+ errorMessage +:+ " SQL: " +:+ sql.

(** The [for] loop of [executeQueryWithReconnect], from [attempt] on, with the
    current values of the locals [errorCode] and [errorMessage]. *)
Fixpoint executeQueryWithReconnect_loop (fuel rfuel : nat) (sql : string)
    (isQuery : bool) (startTime : Z) (attempt errorCode : Z)
    (errorMessage : string) : M state QueryResult :=
  match fuel with
  | O => out_of_fuel
  | S fuel' =>
    do c <- gets this;
    if attempt <=? m_reconnectAttempts c then
      do reconnect_res <- (if 0 <? attempt then reconnect rfuel else ret true);
      if negb reconnect_res then
        executeQueryWithReconnect_loop fuel' rfuel sql isQuery startTime
          (wrap32 (attempt + 1)) CR_SERVER_GONE_ERROR "Failed to reconnect"
      else
        do outcome <-
          try_catch
            (do queryResult <- executeInternal sql isQuery;
             do endTime <- platform steady_clock_now;
             run telemetry (PerformanceMonitor.recordQueryExecuted (endTime - startTime) true);
             ret (returned queryResult))
            (fun e =>
               match e with
               | SQLExecutionError what errorCode =>
                 if negb (isConnectionError errorCode) then
                   do endTime <- platform steady_clock_now;
                   run telemetry
                     (PerformanceMonitor.recordQueryExecuted (endTime - startTime) false);
                   throw (runtime_error "exectuteQueryWithReconnection meet other errors")
                 else ret (next_attempt errorCode what)
               | _ => throw e
               end);
        match outcome with
        | returned queryResult => ret queryResult
        | next_attempt errorCode errorMessage =>
          executeQueryWithReconnect_loop fuel' rfuel sql isQuery startTime
            (wrap32 (attempt + 1)) errorCode errorMessage
        end
    else
      let error := exhausted_message c sql isQuery errorMessage in
      do endTime <- platform steady_clock_now;
      run telemetry (PerformanceMonitor.recordQueryExecuted (endTime - startTime) false);
      throw (runtime_error error)
  end.

(** [fuel] bounds the turns of the retry loop, [rfuel] those of the loop inside
    each [reconnect]. *)
Definition executeQueryWithReconnect (fuel rfuel : nat) (sql : string)
    (isQuery : bool) : M state QueryResult :=
  do startTime <- platform steady_clock_now;
  executeQueryWithReconnect_loop fuel rfuel sql isQuery startTime 0 0 "".

Definition executeQuery (fuel rfuel : nat) (sql : string) : M state QueryResult :=
  executeQueryWithReconnect fuel rfuel sql true.

(** [executeUpdate].  [executeQueryWithReconnect] returns what
    [std::make_shared] built, never null, so the test of the pointer always
    selects [getAffectedRows()]. *)
Definition executeUpdate (fuel rfuel : nat) (sql : string) : M state Z :=
  do queryResult_ptr <- executeQueryWithReconnect fuel rfuel sql false;
  ret (m_affectedRows queryResult_ptr).

(** The transaction statements call [executeInternal] directly and turn any
    exception into [false]. *)
Definition beginTransaction : M state bool :=
  try_catch (run executeInternal "START TRANSACTION" false; ret true)
            (fun _ => ret false).

Definition commit : M state bool :=
  try_catch (run executeInternal "COMMIT" false; ret true)
            (fun _ => ret false).

Definition rollback : M state bool :=
  try_catch (run executeInternal "ROLLBACK" false; ret true)
            (fun _ => ret false).

(** The three of them, each with the statement it sends. *)
Definition transaction_methods : list (string * M state bool) :=
  [("START TRANSACTION", beginTransaction); ("COMMIT", commit); ("ROLLBACK", rollback)].

Definition getConnectionId : M state string :=
  gets (fun st => m_connectionId (this st)).

Definition getCreationTime : M state Z :=
  gets (fun st => m_creationTime (this st)).

Definition getLastActiveTime : M state Z :=
  gets (fun st => m_lastActiveTime (this st)).

Definition getReconnectAttempts : M state Z :=
  gets (fun st => m_reconnectAttempts (this st)).

Definition getSuccessfulReconnects : M state Z :=
  gets (fun st => m_successfulReconnects (this st)).

Definition resetReconnectStats : M state unit :=
  run modify (with_this (set_m_totalReconnectAttempts 0));
  modify (with_this (set_m_successfulReconnects 0)).

(** *** Notions used to state what the retry loop does *)

(** A method that returns normally and leaves the id of the session alone. *)
Definition method_ok {A} (m : M state A) : Prop :=
  forall cs,
    wp m (fun r cs' =>
            (exists a, r = Ok a) /\
            m_connectionId (this cs') = m_connectionId (this cs)) cs.

(** What [reconnect] and [executeInternal] leave alone. *)
Record frame (st st' : state) : Prop := mkFrame {
  frame_attempts : m_reconnectAttempts (this st') = m_reconnectAttempts (this st);
  frame_id : m_connectionId (this st') = m_connectionId (this st);
  frame_queries :
    PerformanceMonitor.m_totalQueriesExecuted (monitor st') =
    PerformanceMonitor.m_totalQueriesExecuted (monitor st);
  frame_failed :
    PerformanceMonitor.m_failedQueries (monitor st') =
    PerformanceMonitor.m_failedQueries (monitor st)
}.

End WithPlatform.

(** One more query recorded in the telemetry, as a success or as a failure. *)
Definition query_recorded (success : bool) (m m' : PerformanceMonitor.t) : Prop :=
  PerformanceMonitor.m_totalQueriesExecuted m' =
    wrap64 (PerformanceMonitor.m_totalQueriesExecuted m + 1) /\
  PerformanceMonitor.m_failedQueries m' =
    (if success then PerformanceMonitor.m_failedQueries m
     else wrap64 (PerformanceMonitor.m_failedQueries m + 1)).

Definition is_executeInternal (c : call) : bool :=
  match c with
  | call_executeInternal _ => true
  | call_reconnect _ => false
  end.

(** The number of invocations of [executeInternal] in a log. *)
Definition count_executeInternal (log : list call) : Z :=
  Z.of_nat (length (List.filter is_executeInternal log)).

(** The calls that end a turn of the retry loop: an invocation of
    [executeInternal], or a [reconnect] that did not succeed; and their
    number in a log, which is the number of attempts made. *)
Definition ends_turn (c : call) : bool :=
  match c with
  | call_executeInternal _ => true
  | call_reconnect (Ok true) => false
  | call_reconnect _ => true
  end.

Definition turns (log : list call) : Z :=
  Z.of_nat (length (List.filter ends_turn log)).

Definition other_errors : exn :=
  runtime_error "exectuteQueryWithReconnection meet other errors".

(** The calls a retry loop may log from [attempt] on when the session allows
    [n] reconnect attempts, with the result of the loop.  [errorMessage] is
    the message the locals hold when the turn starts and [error_of] builds
    the message of the final error from it.  A [reconnect] that raises (the
    driver has no handle to give) ends the loop with its error, since the
    call is outside the [try] block. *)
Inductive retry_log (error_of : string -> string) (n : Z)
    : Z -> string -> list call -> res QueryResult -> Prop :=
| retry_exhausted attempt errorMessage :
    n < attempt ->
    retry_log error_of n attempt errorMessage []
      (Throw (runtime_error (error_of errorMessage)))
| retry_reconnect_failed attempt errorMessage log r :
    0 < attempt <= n ->
    retry_log error_of n (attempt + 1) "Failed to reconnect" log r ->
    retry_log error_of n attempt errorMessage (call_reconnect (Ok false) :: log) r
| retry_reconnect_raised attempt errorMessage :
    0 < attempt <= n ->
    retry_log error_of n attempt errorMessage [call_reconnect (Throw init_failed)]
      (Throw init_failed)
| retry_returned attempt errorMessage queryResult :
    attempt <= n ->
    retry_log error_of n attempt errorMessage
      ((if 0 <? attempt then [call_reconnect (Ok true)] else [])
       ++ [call_executeInternal (Ok queryResult)])
      (Ok queryResult)
| retry_other_error attempt errorMessage what errorCode :
    attempt <= n ->
    isConnectionError errorCode = false ->
    retry_log error_of n attempt errorMessage
      ((if 0 <? attempt then [call_reconnect (Ok true)] else [])
       ++ [call_executeInternal (Throw (SQLExecutionError what errorCode))])
      (Throw other_errors)
| retry_transport_error attempt errorMessage what errorCode log r :
    attempt <= n ->
    isConnectionError errorCode = true ->
    retry_log error_of n (attempt + 1) what log r ->
    retry_log error_of n attempt errorMessage
      ((if 0 <? attempt then [call_reconnect (Ok true)] else [])
       ++ call_executeInternal (Throw (SQLExecutionError what errorCode)) :: log)
      r.

(** The telemetry after a call that logged [log] and ended with [r]: one
    more query, recorded as a success or as a failure; but no query at all
    when the call was ended by a [reconnect] that raised. *)
Definition recorded {A} (log : list call) (r : res A) (m m' : PerformanceMonitor.t)
    : Prop :=
  match last log with
  | Some (call_reconnect (Throw _)) =>
    PerformanceMonitor.m_totalQueriesExecuted m' = PerformanceMonitor.m_totalQueriesExecuted m /\
    PerformanceMonitor.m_failedQueries m' = PerformanceMonitor.m_failedQueries m
  | _ =>
    match r with
    | Ok _ => query_recorded true m m'
    | Throw _ => query_recorded false m m'
    | _ => False
    end
  end.

End Connection.

(** ** Backend descriptors ([db_config.h]) *)

Module DBConfig.

Record t : Type := mk {
  host : string;
  user : string;
  password : string;
  database : string;
  port : Z;
  weight : Z
}.

Definition empty (s : string) : bool := if decide (s = "") then true else false.

Definition isValid (c : t) : bool :=
  negb (empty (host c)) && negb (empty (user c)) && negb (empty (database c))
  && (0 <? port c).

Definition set_weight (w : Z) (c : t) : t :=
  mk (host c) (user c) (password c) (database c) (port c) w.

End DBConfig.

(** ** Replica selector ([load_balancer.h], [load_balancer.cpp]) *)

Inductive LoadBalanceStrategy := RANDOM | ROUND_ROBIN | WEIGHTED.

Module LoadBalancer.

Record t : Type := mk {
  m_configs : list DBConfig.t;
  m_strategy : LoadBalanceStrategy;
  m_roundRobinIndex : Z
}.

(** The state after the constructor. *)
Definition initial : t := mk [] WEIGHTED 0.

(** [int] addition; an overflow wraps (two's complement). *)
Definition int_add (a b : Z) : Z := to_int (a + b).

(** First loop of [selectWeighted]: [totalWeights += weight] over
    [m_configs], from [totalWeights]. *)
Fixpoint sum_weights (configs : list DBConfig.t) (totalWeights : Z) : Z :=
  match configs with
  | [] => totalWeights
  | config :: rest =>
    let weight := to_int (DBConfig.weight config) in
    sum_weights rest (int_add totalWeights weight)
  end.

(** Second loop of [selectWeighted]: the first descriptor at which the running
    [currentWeight] exceeds [randomWeight].  The source also counts the
    position in [index], for its log line only. *)
Fixpoint walk_weights (configs : list DBConfig.t) (randomWeight currentWeight : Z)
    : option DBConfig.t :=
  match configs with
  | [] => None
  | config :: rest =>
    let weight := to_int (DBConfig.weight config) in
    let currentWeight := int_add currentWeight weight in
    if randomWeight <? currentWeight then Some config
    else walk_weights rest randomWeight currentWeight
  end.

(** The cumulative weight ranges the selection is specified with: the sum of
    all weights, and the sum of the weights before position [i]. *)
Definition total_weight (configs : list DBConfig.t) : Z :=
  foldr Z.add 0 (map DBConfig.weight configs).

Definition weight_before (configs : list DBConfig.t) (i : nat) : Z :=
  total_weight (take i configs).

(** The test that [addDatabase], [removeDatabase] and [updateWeight] apply to
    a stored descriptor: same host, same port. *)
Definition same_endpoint (host : string) (port : Z) (existingConfig : DBConfig.t) : bool :=
  bool_decide (DBConfig.host existingConfig = host) && (DBConfig.port existingConfig =? port).

(** [std::remove_if]: the elements that do not satisfy [pred], in their
    order. *)
Definition remove_if (pred : DBConfig.t -> bool) (configs : list DBConfig.t)
    : list DBConfig.t :=
  List.filter (fun config => negb (pred config)) configs.

Section WithPlatform.
Context {W : Type} `{Platform W}.

Record state : Type := mkState {
  this : t;
  world : W
}.

Definition with_this (f : t -> t) (st : state) : state := mkState (f (this st)) (world st).

Definition platform {A} (op : W -> A * W) : M state A :=
  fun st => let '(a, w) := op (world st) in (Ok a, mkState (this st) w).

(** [m_configs[i]] *)
Definition at_index (configs : list DBConfig.t) (i : Z) : M state DBConfig.t :=
  if i <? 0 then undefined
  else match configs !! Z.to_nat i with
       | Some config => ret config
       | None => undefined
       end.

Definition init (configs : list DBConfig.t) (strategy : LoadBalanceStrategy)
    : M state unit :=
  if decide (configs = []) then
    throw (runtime_error "Cannot initialize load balancer with empty database configs")
  else if negb (forallb DBConfig.isValid configs) then
    throw (runtime_error "config is not valid")
  else modify (with_this (fun _ => mk configs strategy 0)).

Definition initSingleDatabase (host user password database : string)
    (port weight : Z) : M state unit :=
  init [DBConfig.mk host user password database port weight] WEIGHTED.

Definition selectRandom : M state DBConfig.t :=
  do lb <- gets this;
  let size := Z.of_nat (length (m_configs lb)) in
  do selectedIndex <- platform (uniform_int 0 (to_int (wrap64 (size - 1))));
  at_index (m_configs lb) (wrap64 selectedIndex).

Definition selectRoundRobin : M state DBConfig.t :=
  do lb <- gets this;
  do config <- at_index (m_configs lb) (m_roundRobinIndex lb);
  let size := Z.of_nat (length (m_configs lb)) in
  run modify (with_this (fun lb =>
        mk (m_configs lb) (m_strategy lb) (wrap64 (m_roundRobinIndex lb + 1) mod size)));
  ret config.

Definition selectWeighted : M state DBConfig.t :=
  do lb <- gets this;
  let totalWeights := sum_weights (m_configs lb) 0 in
  do randomWeight <- platform (uniform_int 0 (to_int (totalWeights - 1)));
  match walk_weights (m_configs lb) randomWeight 0 with
  | Some config => ret config
  | None => at_index (m_configs lb) 0
  end.

Definition getNextDatabase : M state DBConfig.t :=
  do lb <- gets this;
  if decide (m_configs lb = []) then
    throw (runtime_error "No database configurations available")
  else match m_strategy lb with
       | RANDOM => selectRandom
       | ROUND_ROBIN => selectRoundRobin
       | WEIGHTED => selectWeighted
       end.

Definition setStrategy (strategy : LoadBalanceStrategy) : M state unit :=
  run modify (with_this (fun lb => mk (m_configs lb) strategy (m_roundRobinIndex lb)));
  match strategy with
  | ROUND_ROBIN => modify (with_this (fun lb => mk (m_configs lb) (m_strategy lb) 0))
  | _ => ret tt
  end.

Definition getStrategy : M state LoadBalanceStrategy :=
  gets (fun st => m_strategy (this st)).

(** [addDatabase]: the loop returns at the first descriptor with the host
    and port of [config]; validity is checked after it. *)
Definition addDatabase (config : DBConfig.t) : M state unit :=
  do lb <- gets this;
  if existsb (same_endpoint (DBConfig.host config) (DBConfig.port config)) (m_configs lb)
  then ret tt
  else if negb (DBConfig.isValid config) then throw (runtime_error "invalid config")
  else modify (with_this (fun lb =>
         mk (m_configs lb ++ [config]) (m_strategy lb) (m_roundRobinIndex lb))).

(** [removeDatabase].  [it] is the position [std::remove_if] returns, the
    number of descriptors kept; [erase] drops what follows it. *)
Definition removeDatabase (host : string) (port : Z) : M state bool :=
  do lb <- gets this;
  let kept := remove_if (same_endpoint host port) (m_configs lb) in
  let it := length kept in
  if negb (it =? length (m_configs lb))%nat then
    run modify (with_this (fun lb => mk kept (m_strategy lb) (m_roundRobinIndex lb)));
    run modify (with_this (fun lb =>
          mk (m_configs lb) (m_strategy lb)
             (if decide (m_configs lb = []) then 0
              else m_roundRobinIndex lb mod Z.of_nat (length (m_configs lb)))));
    ret true
  else ret false.

(** [updateWeight]: [std::find_if] stops at the first descriptor with the
    host and port. *)
Definition updateWeight (host : string) (port weight : Z) : M state bool :=
  do lb <- gets this;
  match list_find (fun c => same_endpoint host port c = true) (m_configs lb) with
  | Some (i, config) =>
    run modify (with_this (fun lb =>
          mk (<[i := DBConfig.set_weight weight config]> (m_configs lb))
             (m_strategy lb) (m_roundRobinIndex lb)));
    ret true
  | None => ret false
  end.

Definition getDatabaseCount : M state Z :=
  gets (fun st => Z.of_nat (length (m_configs (this st)))).

Definition getDatabaseConfigs : M state (list DBConfig.t) :=
  gets (fun st => m_configs (this st)).

(** The public methods that change the selector, as a caller may invoke
    them, and the selector after such a call, whatever the call returned or
    raised. *)
Inductive method : Type :=
| call_init (configs : list DBConfig.t) (strategy : LoadBalanceStrategy)
| call_initSingleDatabase (host user password database : string) (port weight : Z)
| call_setStrategy (strategy : LoadBalanceStrategy)
| call_getNextDatabase
| call_addDatabase (config : DBConfig.t)
| call_removeDatabase (host : string) (port : Z)
| call_updateWeight (host : string) (port weight : Z).

Definition after_call (c : method) (st : state) : state :=
  match c with
  | call_init configs strategy => snd (init configs strategy st)
  | call_initSingleDatabase host user password database port weight =>
    snd (initSingleDatabase host user password database port weight st)
  | call_setStrategy strategy => snd (setStrategy strategy st)
  | call_getNextDatabase => snd (getNextDatabase st)
  | call_addDatabase config => snd (addDatabase config st)
  | call_removeDatabase host port => snd (removeDatabase host port st)
  | call_updateWeight host port weight => snd (updateWeight host port weight st)
  end.

(** The selector after a sequence of calls on the one its constructor
    leaves. *)
Definition after_calls (calls : list method) (w : W) : state :=
  fold_left (fun st c => after_call c st) calls (mkState initial w).

(** [k] calls of [getNextDatabase] in a row, with the descriptors returned. *)
Fixpoint getNextDatabase_times (k : nat) : M state (list DBConfig.t) :=
  match k with
  | O => ret []
  | S k' =>
    do config <- getNextDatabase;
    do rest <- getNextDatabase_times k';
    ret (config :: rest)
  end.

(** The round-robin index is a position of the list, or 0 when the list is
    empty. *)
Definition index_in_range (lb : t) : Prop :=
  if decide (m_configs lb = []) then m_roundRobinIndex lb = 0
  else 0 <= m_roundRobinIndex lb < Z.of_nat (length (m_configs lb)).

(** The descriptors stored are valid and the index is in range. *)
Definition well_formed (lb : t) : Prop :=
  Forall (fun config => DBConfig.isValid config = true) (m_configs lb) /\
  index_in_range lb.

End WithPlatform.
End LoadBalancer.

(** ** Pool configuration ([pool_config.h]) *)

Module PoolConfig.

Record t : Type := mk {
  host : string;
  user : string;
  password : string;
  database : string;
  port : Z;
  minConnections : Z;
  maxConnections : Z;
  initConnections : Z;
  connectionTimeout : Z;
  maxIdleTime : Z;
  healthCheckPeriod : Z;
  reconnectInterval : Z;
  reconnectAttempts : Z;
  logQueries : bool;
  enablePerformanceStats : bool
}.

(** The default constructor. *)
Definition default : t :=
  mk "" "" "" "" 3306 5 20 5 5000 600000 30000 1000 3 false true.

Definition isValid (c : t) : bool :=
  if (minConnections c =? 0) || (maxConnections c =? 0)
     || (maxConnections c <? minConnections c)
     || (maxConnections c <? initConnections c)
  then false
  else if (connectionTimeout c =? 0) || (maxIdleTime c =? 0)
          || (healthCheckPeriod c =? 0)
  then false
  else true.

Definition setConnectionLimits (min max init : Z) (c : t) : t :=
  mk (host c) (user c) (password c) (database c) (port c)
     min max (if init =? 0 then min else Z.min init max)
     (connectionTimeout c) (maxIdleTime c) (healthCheckPeriod c)
     (reconnectInterval c) (reconnectAttempts c) (logQueries c)
     (enablePerformanceStats c).

Definition setTimeouts (connTimeout idleTimeout checkPeriod : Z) (c : t) : t :=
  mk (host c) (user c) (password c) (database c) (port c)
     (minConnections c) (maxConnections c) (initConnections c)
     connTimeout idleTimeout checkPeriod
     (reconnectInterval c) (reconnectAttempts c) (logQueries c)
     (enablePerformanceStats c).

(** Every numeric field is an [unsigned int]. *)
Definition in_range (c : t) : Prop :=
  0 <= port c <= UINT_MAX /\
  0 <= minConnections c <= UINT_MAX /\
  0 <= maxConnections c <= UINT_MAX /\
  0 <= initConnections c <= UINT_MAX /\
  0 <= connectionTimeout c <= UINT_MAX /\
  0 <= maxIdleTime c <= UINT_MAX /\
  0 <= healthCheckPeriod c <= UINT_MAX /\
  0 <= reconnectInterval c <= UINT_MAX /\
  0 <= reconnectAttempts c <= UINT_MAX.

End PoolConfig.

(** ** Pool manager ([connection_pool.h], [connection_pool.cpp]) *)

Module ConnectionPool.

(** A non-null [ConnectionPtr] is the address of a [Connection] in the store;
    [None] is [nullptr].  Only non-null pointers are ever pushed on the idle
    queue or stored in the map of checked-out sessions. *)
Definition ConnectionPtr := option nat.

Record t : Type := mk {
  m_config : PoolConfig.t;
  m_idleConnections : list nat;
  m_activeConnections : gmap string nat;
  m_isRunning : bool;
  m_totalConnections : Z
}.

(** The state after the constructor; [m_config] is default-constructed. *)
Definition initial : t := mk PoolConfig.default [] ∅ false 0.

Definition set_m_config (c : PoolConfig.t) (p : t) : t :=
  mk c (m_idleConnections p) (m_activeConnections p) (m_isRunning p)
     (m_totalConnections p).
Definition set_m_idleConnections (q : list nat) (p : t) : t :=
  mk (m_config p) q (m_activeConnections p) (m_isRunning p) (m_totalConnections p).
Definition set_m_activeConnections (a : gmap string nat) (p : t) : t :=
  mk (m_config p) (m_idleConnections p) a (m_isRunning p) (m_totalConnections p).
Definition set_m_isRunning (b : bool) (p : t) : t :=
  mk (m_config p) (m_idleConnections p) (m_activeConnections p) b
     (m_totalConnections p).
Definition set_m_totalConnections (n : Z) (p : t) : t :=
  mk (m_config p) (m_idleConnections p) (m_activeConnections p) (m_isRunning p) n.

(** What the pool's bookkeeping should satisfy, given the ids of the sessions
    in the store (the id at position [p] is that of the session at address
    [p]): the counter is the number of queued plus the number of checked-out
    sessions; no session is queued twice; a queued session is not checked
    out; the map of checked-out sessions is keyed by the sessions' ids. *)
Record consistent (pool : t) (ids : list string) : Prop := mkConsistent {
  count_ok :
    Z.of_nat (length (m_idleConnections pool))
    + Z.of_nat (size (m_activeConnections pool)) = m_totalConnections pool;
  idle_nodup : NoDup (m_idleConnections pool);
  idle_known :
    forall p, p ∈ m_idleConnections pool ->
      exists k, ids !! p = Some k /\ m_activeConnections pool !! k = None;
  active_known :
    forall k p, m_activeConnections pool !! k = Some p -> ids !! p = Some k;
  total_bound : m_totalConnections pool <= UINT_MAX;
  config_range : PoolConfig.in_range (m_config pool)
}.

Section WithPlatform.
Context {W : Type} `{Platform W}.

(** The process: the pool, the replica selector, the store of sessions, the
    world, the telemetry. *)
Record state : Type := mkState {
  this : t;
  balancer : LoadBalancer.t;
  heap : list Connection.t;
  world : W;
  monitor : PerformanceMonitor.t;
  calls : list Connection.call
}.

Definition with_this (f : t -> t) (s : state) : state :=
  mkState (f (this s)) (balancer s) (heap s) (world s) (monitor s) (calls s).
Definition with_monitor (f : PerformanceMonitor.t -> PerformanceMonitor.t)
    (s : state) : state :=
  mkState (this s) (balancer s) (heap s) (world s) (f (monitor s)) (calls s).

Definition platform {A} (op : W -> A * W) : M state A :=
  fun s => let '(a, w) := op (world s) in
           (Ok a, mkState (this s) (balancer s) (heap s) w (monitor s) (calls s)).
Definition platform_ (op : W -> W) : M state unit :=
  fun s => (Ok tt, mkState (this s) (balancer s) (heap s) (op (world s))
                     (monitor s) (calls s)).
Definition telemetry (f : PerformanceMonitor.t -> PerformanceMonitor.t) : M state unit :=
  modify (with_monitor f).

(** A method of the session at address [p]. *)
Definition on_conn {A} (p : nat) (m : M Connection.state A) : M state A :=
  fun s =>
    match heap s !! p with
    | None => (Undefined, s)
    | Some c =>
      let '(r, cs) := m (Connection.mkState c (world s) (monitor s) (calls s)) in
      (r, mkState (this s) (balancer s) (<[p := Connection.this cs]> (heap s))
            (Connection.world cs) (Connection.monitor cs) (Connection.calls cs))
    end.

(** A method of the replica selector. *)
Definition on_balancer {A} (m : M LoadBalancer.state A) : M state A :=
  zoom (fun s => LoadBalancer.mkState (balancer s) (world s))
       (fun ls s => mkState (this s) (LoadBalancer.this ls) (heap s)
                      (LoadBalancer.world ls) (monitor s) (calls s))
       m.

(** The body of a constructor, run on the object under construction: the
    object is handed back when the body returns; when it throws there is no
    object. *)
Definition construct (c : Connection.t) (body : M Connection.state unit)
    : M state Connection.t :=
  fun s =>
    let '(r, cs) := body (Connection.mkState c (world s) (monitor s) (calls s)) in
    (match r with
     | Ok _ => Ok (Connection.this cs)
     | Throw e => Throw e
     | OutOfFuel => OutOfFuel
     | Undefined => Undefined
     end,
     mkState (this s) (balancer s) (heap s) (Connection.world cs) (Connection.monitor cs)
       (Connection.calls cs)).

(** [std::make_shared<Connection>(...)]: the constructor draws the id, reads
    the clock and calls [Connection::init]; when it returns the object gets
    the next free address, and when [init] throws the exception leaves
    [make_shared] and no object is added to the store. *)
Definition make_shared (host user password database : string) (port : Z)
    (reconnectInterval reconnectAttempts : Z) : M state nat :=
  do connectionId <- platform (generateRandomString 16);
  do creationTime <- platform currentTimeMillis;
  do conn <- construct
               (Connection.mk None host user password database port connectionId
                  creationTime creationTime reconnectInterval reconnectAttempts 0 0)
               Connection.init;
  do p <- gets (fun s => length (heap s));
  run modify (fun s =>
        mkState (this s) (balancer s) (heap s ++ [conn]) (world s) (monitor s) (calls s));
  ret p.

Definition getConnectionId (p : nat) : M state string :=
  on_conn p (gets (fun cs => Connection.m_connectionId (Connection.this cs))).

Definition getLastActiveTime (p : nat) : M state Z :=
  on_conn p (gets (fun cs => Connection.m_lastActiveTime (Connection.this cs))).

(** [ConnectionPool::createConnection].  When [connect] fails the exception
    leaves the scope of [conn], whose destructor closes the handle, before the
    [catch] block records the failure a second time. *)
Definition createConnection : M state nat :=
  try_catch
    (do config <- on_balancer LoadBalancer.getNextDatabase;
     do cfg <- gets (fun s => m_config (this s));
     do conn <- make_shared (DBConfig.host config) (DBConfig.user config)
                  (DBConfig.password config) (DBConfig.database config)
                  (DBConfig.port config) (PoolConfig.reconnectInterval cfg)
                  (PoolConfig.reconnectAttempts cfg);
     do conn_res <- on_conn conn Connection.connect;
     if negb conn_res then
       run telemetry PerformanceMonitor.recordConnectionFailed;
       run on_conn conn Connection.close;
       throw (runtime_error "cannot create a connectionId")
     else
       run telemetry PerformanceMonitor.recordConnectionCreated;
       ret conn)
    (fun e =>
       run telemetry PerformanceMonitor.recordConnectionFailed;
       throw e).

Definition validateConnection (connection : ConnectionPtr) (allowReconnect : bool)
    : M state bool :=
  match connection with
  | None => ret false
  | Some p => on_conn p (Connection.isValid allowReconnect)
  end.

Definition add_total (d : Z) : M state unit :=
  modify (with_this (fun p => set_m_totalConnections (wrap64 (m_totalConnections p + d)) p)).

Definition push_idle (conn : nat) : M state unit :=
  modify (with_this (fun p => set_m_idleConnections (m_idleConnections p ++ [conn]) p)).

Definition pop_idle : M state unit :=
  modify (with_this (fun p => set_m_idleConnections (tail (m_idleConnections p)) p)).

(** What one turn of the [while (true)] of [getConnection] decides. *)
Inductive turn : Type :=
| return_connection (conn : nat)
| continue_loop.

(** The part of a turn that serves the head of a non-empty idle queue. *)
Definition getConnection_idle (idelConnection : nat) (startTime : Z) : M state turn :=
  do valid <- validateConnection (Some idelConnection) false;
  if valid then
    run pop_idle;
    do connId <- getConnectionId idelConnection;
    run modify (with_this (fun p =>
          set_m_activeConnections (<[connId := idelConnection]> (m_activeConnections p)) p));
    run on_conn idelConnection Connection.updateLastActiveTime;
    do endTime <- platform steady_clock_now;
    run telemetry (PerformanceMonitor.recordConnectionAcquired (endTime - startTime));
    ret (return_connection idelConnection)
  else
    run add_total (-1);
    ret continue_loop.

(** The part of a turn that opens a new session; [None] when none was opened.
    A session that connects but fails validation goes out of scope, and its
    destructor closes it. *)
Definition getConnection_create : M state (option nat) :=
  try_catch
    (do conn <- createConnection;
     do valid <- validateConnection (Some conn) false;
     if valid then
       run add_total 1;
       do connId <- getConnectionId conn;
       run modify (with_this (fun p =>
             set_m_activeConnections (<[connId := conn]> (m_activeConnections p)) p));
       run on_conn conn Connection.updateLastActiveTime;
       ret (Some conn)
     else
       run on_conn conn Connection.close;
       ret None)
    (fun _ => ret None).

(** One turn.  While the caller waits on the condition no other thread is
    modelled: the pool is as it was when [wait_until] returns. *)
Definition getConnection_turn (timeout startTime tiemoutPoint : Z) : M state turn :=
  do pool <- gets this;
  match m_idleConnections pool with
  | idelConnection :: _ => getConnection_idle idelConnection startTime
  | [] =>
    do created <-
      (if m_totalConnections pool <? PoolConfig.maxConnections (m_config pool)
       then getConnection_create else ret None);
    match created with
    | Some conn => ret (return_connection conn)
    | None =>
      do wait_result <- platform (wait_until tiemoutPoint);
      match wait_result with
      | timeout =>
        throw (runtime_error ("Timeout waiting for available connection after " +:+
                              to_string timeout +:+ "ms"))
      | no_timeout => ret continue_loop
      end
    end
  end.

Fixpoint getConnection_loop (fuel : nat) (timeout startTime tiemoutPoint : Z)
    : M state nat :=
  match fuel with
  | O => out_of_fuel
  | S fuel' =>
    do t <- getConnection_turn timeout startTime tiemoutPoint;
    match t with
    | return_connection conn => ret conn
    | continue_loop => getConnection_loop fuel' timeout startTime tiemoutPoint
    end
  end.

Definition getConnection (fuel : nat) (timeout : Z) : M state nat :=
  do pool <- gets this;
  if negb (m_isRunning pool) then
    run telemetry PerformanceMonitor.recordConnectionFailed;
    throw (runtime_error
      "Connection pool is not in running status, cannot get a Connection from the pool")
  else
    do startTime <- platform steady_clock_now;
    let timeout :=
      if timeout =? 0 then PoolConfig.connectionTimeout (m_config pool) else timeout in
    do now <- platform steady_clock_now;
    let tiemoutPoint := now + timeout in
    getConnection_loop fuel timeout startTime tiemoutPoint.

(** The replacement that [releaseConnection] tries to open after dropping a
    dead session. *)
Definition releaseConnection_replace : M state unit :=
  try_catch
    (do conn <- createConnection;
     do valid <- validateConnection (Some conn) false;
     if valid then
       run add_total 1;
       push_idle conn
     else
       on_conn conn Connection.close)
    (fun _ => ret tt).

Definition releaseConnection (connection : ConnectionPtr) : M state unit :=
  match connection with
  | None => ret tt
  | Some conn =>
    do connId <- getConnectionId conn;
    run modify (with_this (fun p =>
          set_m_activeConnections (delete connId (m_activeConnections p)) p));
    do now <- platform currentTimeMillis;
    do lastActiveTime <- getLastActiveTime conn;
    let usageTime := now - lastActiveTime in
    do pool <- gets this;
    if PoolConfig.maxConnections (m_config pool) <? m_totalConnections pool then
      run on_conn conn Connection.close;
      run add_total (-1);
      telemetry (PerformanceMonitor.recordConnectionReleased usageTime)
    else
      do valid <- validateConnection connection false;
      run (if valid then push_idle conn
           else
             run on_conn conn Connection.close;
             run add_total (-1);
             do pool <- gets this;
             if m_totalConnections pool <? PoolConfig.minConnections (m_config pool)
             then releaseConnection_replace
             else ret tt);
      telemetry (PerformanceMonitor.recordConnectionReleased usageTime)
  end.

(** The body of the [for] loop of [init]: one attempt to open a session;
    [true] when it was queued. *)
Definition init_attempt : M state bool :=
  try_catch
    (do conn <- createConnection;
     do valid <- validateConnection (Some conn) false;
     if negb valid then
       run on_conn conn Connection.close;
       ret false
     else
       run push_idle conn;
       run add_total 1;
       ret true)
    (fun _ => ret false).

(** [n] turns of that loop, counting in [createdConnections]. *)
Fixpoint init_loop (n : nat) (createdConnections : Z) : M state Z :=
  match n with
  | O => ret createdConnections
  | S n' =>
    do queued <- init_attempt;
    init_loop n' (if queued then createdConnections + 1 else createdConnections)
  end.

(** The [while] loop of the [catch] block of [init]. *)
Fixpoint close_all (conns : list nat) : M state unit :=
  match conns with
  | [] => ret tt
  | conn :: rest =>
    run pop_idle;
    run on_conn conn Connection.close;
    close_all rest
  end.

(** [ConnectionPool::init].  Starting the health-check thread has no effect
    on the state modelled here. *)
Definition init (config : PoolConfig.t) : M state unit :=
  do pool <- gets this;
  if m_isRunning pool then ret tt
  else if negb (PoolConfig.isValid config) then
    throw (runtime_error "ConnectionPool::init init connectionPool, but config is not valid")
  else
    run modify (with_this (set_m_config config));
    try_catch
      (let targetConnections :=
         Z.min (PoolConfig.initConnections config) (PoolConfig.maxConnections config) in
       do createdConnections <- init_loop (Z.to_nat targetConnections) 0;
       if (0 <? targetConnections) && (createdConnections =? 0) then
         throw (runtime_error "no connections has been created")
       else modify (with_this (set_m_isRunning true)))
      (fun e =>
         run modify (with_this (set_m_isRunning false));
         do pool <- gets this;
         run close_all (m_idleConnections pool);
         run modify (with_this (set_m_totalConnections 0));
         throw e).

Definition initWithSingleDatabase (poolConfig : PoolConfig.t)
    (host user password database : string) (port weight : Z) : M state unit :=
  run on_balancer (LoadBalancer.initSingleDatabase host user password database port weight);
  init poolConfig.

Definition initWithMultipleDatabases (poolConfig : PoolConfig.t)
    (databases : list DBConfig.t) (strategy : LoadBalanceStrategy) : M state unit :=
  run on_balancer (LoadBalancer.init databases strategy);
  init poolConfig.

(** The [for] loop of [ensureMinimumConnections]; an exception of
    [createConnection] leaves it. *)
Fixpoint ensureMinimumConnections_loop (n : nat) : M state unit :=
  match n with
  | O => ret tt
  | S n' =>
    do conn <- createConnection;
    do valid <- validateConnection (Some conn) false;
    run (if valid then
           run push_idle conn;
           add_total 1
         else on_conn conn Connection.close);
    ensureMinimumConnections_loop n'
  end.

Definition ensureMinimumConnections : M state unit :=
  do pool <- gets this;
  if m_totalConnections pool <? PoolConfig.minConnections (m_config pool) then
    let neededCreationCount :=
      wrap64 (PoolConfig.minConnections (m_config pool) - m_totalConnections pool) in
    ensureMinimumConnections_loop (Z.to_nat neededCreationCount)
  else ret tt.

(** The [while] loop of [cleanupIdleConnections] over the sessions still in
    the idle queue, with the queue of kept sessions built so far.  [kept] is
    [true] on the two paths that push the session and [continue], [false] on
    the paths that fall through to the code that discards it. *)
Fixpoint cleanupIdleConnections_loop (idle : list nat) (now : Z)
    (keepConnections : list nat) : M state (list nat) :=
  match idle with
  | [] => ret keepConnections
  | conn :: rest =>
    run pop_idle;
    do isValid <- on_conn conn Connection.isValidQuietly;
    do kept <-
      (if isValid then
         do lastActiveTime <- getLastActiveTime conn;
         let idelTime := now - lastActiveTime in
         do pool <- gets this;
         if idelTime <=? PoolConfig.maxIdleTime (m_config pool) then ret true
         else ret (m_totalConnections pool <? PoolConfig.minConnections (m_config pool))
       else ret false);
    if kept then
      cleanupIdleConnections_loop rest now (keepConnections ++ [conn])
    else
      run on_conn conn Connection.close;
      run add_total (-1);
      cleanupIdleConnections_loop rest now keepConnections
  end.

Definition cleanupIdleConnections : M state unit :=
  do now <- platform currentTimeMillis;
  do pool <- gets this;
  do keepConnections <- cleanupIdleConnections_loop (m_idleConnections pool) now [];
  modify (with_this (set_m_idleConnections keepConnections)).

Definition performHealthCheck : M state unit :=
  do pool <- gets this;
  if negb (m_isRunning pool) then ret tt
  else
    run cleanupIdleConnections;
    ensureMinimumConnections.

(** One turn of [healthCheckWorker], entered while the pool runs. *)
Definition healthCheckWorker_turn : M state unit :=
  try_catch
    (do pool <- gets this;
     run platform_ (sleep_for (PoolConfig.healthCheckPeriod (m_config pool)));
     do pool <- gets this;
     if negb (m_isRunning pool) then ret tt
     else
       run cleanupIdleConnections;
       ensureMinimumConnections)
    (fun _ => ret tt).

(** The [while] loop of [shrinkPoolToSize]. *)
Fixpoint shrinkPoolToSize_loop (idle : list nat) (targetSize : Z) : M state unit :=
  match idle with
  | [] => ret tt
  | conn :: rest =>
    do pool <- gets this;
    if targetSize <? m_totalConnections pool then
      run on_conn conn Connection.close;
      run add_total (-1);
      run pop_idle;
      shrinkPoolToSize_loop rest targetSize
    else ret tt
  end.

Definition shrinkPoolToSize (targetSize : Z) : M state unit :=
  do pool <- gets this;
  if negb (m_isRunning pool) then ret tt
  else if m_totalConnections pool <=? targetSize then ret tt
  else shrinkPoolToSize_loop (m_idleConnections pool) targetSize.

(** [ConnectionPool::adjustConfiguration].  Nothing in the [try] block
    throws, so the roll-back of the [catch] block has no counterpart. *)
Definition adjustConfiguration (newConfig : PoolConfig.t) : M state bool :=
  run modify (with_this (set_m_config newConfig));
  do pool <- gets this;
  run (if PoolConfig.maxConnections newConfig <? m_totalConnections pool
       then shrinkPoolToSize (PoolConfig.maxConnections newConfig) else ret tt);
  ret true.

Definition setConnectionLimits (minConnections maxConnections : Z) : M state bool :=
  if maxConnections <? minConnections then ret false
  else
    do pool <- gets this;
    let config := m_config pool in
    adjustConfiguration
      (PoolConfig.mk (PoolConfig.host config) (PoolConfig.user config)
         (PoolConfig.password config) (PoolConfig.database config)
         (PoolConfig.port config) minConnections maxConnections
         (PoolConfig.initConnections config) (PoolConfig.connectionTimeout config)
         (PoolConfig.maxIdleTime config) (PoolConfig.healthCheckPeriod config)
         (PoolConfig.reconnectInterval config) (PoolConfig.reconnectAttempts config)
         (PoolConfig.logQueries config) (PoolConfig.enablePerformanceStats config)).

Definition setTimeoutSettings (connectionTimeout maxIdleTime healthCheckPeriod : Z)
    : M state bool :=
  if (connectionTimeout =? 0) || (maxIdleTime =? 0) || (healthCheckPeriod =? 0)
  then ret false
  else
    do pool <- gets this;
    adjustConfiguration
      (PoolConfig.setTimeouts connectionTimeout maxIdleTime healthCheckPeriod
         (m_config pool)).

(** The first loop of [shutdown]: the idle queue is emptied, each session
    closed before it is popped. *)
Fixpoint shutdown_idle (conns : list nat) : M state unit :=
  match conns with
  | [] => ret tt
  | conn :: rest =>
    run on_conn conn Connection.close;
    run pop_idle;
    shutdown_idle rest
  end.

(** The sessions of a [std::map], in the order its iterator visits them:
    by ascending key. *)
Definition in_key_order (m : gmap string nat) : list nat :=
  snd <$> merge_sort (fun p q : string * nat => Is_true (String.leb (fst p) (fst q)))
            (map_to_list m).

(** The second loop of [shutdown], over the checked-out sessions. *)
Fixpoint shutdown_active (conns : list nat) : M state unit :=
  match conns with
  | [] => ret tt
  | conn :: rest =>
    run on_conn conn Connection.close;
    shutdown_active rest
  end.

(** [ConnectionPool::shutdown].  Waking the waiters and joining the
    health-check thread have no effect on the state modelled here. *)
Definition shutdown : M state unit :=
  do pool <- gets this;
  if negb (m_isRunning pool) then ret tt
  else
    run modify (with_this (set_m_isRunning false));
    do pool <- gets this;
    run shutdown_idle (m_idleConnections pool);
    do pool <- gets this;
    run shutdown_active (in_key_order (m_activeConnections pool));
    run modify (with_this (set_m_activeConnections ∅));
    modify (with_this (set_m_totalConnections 0)).

Definition isInitialized : M state bool := gets (fun s => m_isRunning (this s)).

Definition getIdleCount : M state Z :=
  gets (fun s => Z.of_nat (length (m_idleConnections (this s)))).

Definition getActiveCount : M state Z :=
  gets (fun s => Z.of_nat (size (m_activeConnections (this s)))).

Definition getTotalCount : M state Z := gets (fun s => m_totalConnections (this s)).

Definition getConfig : M state PoolConfig.t := gets (fun s => m_config (this s)).

(** The session at address [p] has no handle. *)
Definition closed (p : nat) (s : state) : Prop :=
  exists c : Connection.t, heap s !! p = Some c /\ Connection.m_mysql c = None.

(** The session at address [p] has a handle. *)
Definition has_handle (p : nat) (s : state) : Prop :=
  exists (c : Connection.t) (h : MYSQL),
    heap s !! p = Some c /\ Connection.m_mysql c = Some h.

(** What a pass that closes the sessions [conns] leaves alone: the store
    keeps its size and its ids, the other sessions are as they were, and a
    session without a handle stays without. *)
Definition untouched (conns : list nat) (s s' : state) : Prop :=
  length (heap s') = length (heap s) /\
  Connection.m_connectionId <$> heap s' = Connection.m_connectionId <$> heap s /\
  (forall q, q ∉ conns -> heap s' !! q = heap s !! q) /\
  (forall q, closed q s -> closed q s').

(** The ping that [releaseConnection] sends to the session at [conn], after
    it has read the clock, succeeds. *)
Definition ping_succeeds_on_release (conn : nat) (s : state) : Prop :=
  exists (c : Connection.t) (h : MYSQL),
    heap s !! conn = Some c /\
    Connection.m_mysql c = Some h /\
    fst (mysql_ping h (snd (currentTimeMillis (world s)))) = 0.

(** The ids of the sessions in the store, by address. *)
Definition ids (s : state) : list string := Connection.m_connectionId <$> heap s.

(** The session at [conn] is checked out: the map holds it under its id. *)
Definition checked_out (conn : nat) (s : state) : Prop :=
  exists k, ids s !! conn = Some k /\ m_activeConnections (this s) !! k = Some conn.

(** The session at the head of the idle queue, if any, answers the ping that
    [getConnection] sends it after its two readings of the steady clock. *)
Definition head_answers (s : state) : Prop :=
  forall head rest,
    m_idleConnections (this s) = head :: rest ->
    exists (c : Connection.t) (h : MYSQL),
      heap s !! head = Some c /\
      Connection.m_mysql c = Some h /\
      fst (mysql_ping h (snd (steady_clock_now (snd (steady_clock_now (world s)))))) = 0.

(** The bookkeeping is right, and a pool that does not run has no session. *)
Definition sound (s : state) : Prop :=
  consistent (this s) (ids s) /\
  (m_isRunning (this s) = false -> m_totalConnections (this s) = 0).

(** The invariant of the pool: as long as no two sessions of the store share
    an id, the bookkeeping is sound. *)
Definition invariant (s : state) : Prop := NoDup (ids s) -> sound s.

(** The store only grows, and a session keeps its id. *)
Definition grows {A} (m : M state A) : Prop :=
  forall s, wp m (fun _ s' => ids s `prefix_of` ids s') s.

(** The process before [init]: the pool and the selector as their
    constructors leave them, no session, telemetry at zero. *)
Definition start (w : W) : state :=
  mkState initial LoadBalancer.initial [] w PerformanceMonitor.zero [].

(** The calls that take the process from one state to the next: each has
    returned or raised; [releaseConnection] is given null or a session that is
    checked out; [getConnection] finds the idle queue empty or a head that
    answers the ping; configurations hold [unsigned int] values. *)
Inductive step : state -> state -> Prop :=
| step_init config s r s' :
    PoolConfig.in_range config ->
    init config s = (r, s') -> completed r -> step s s'
| step_initWithSingleDatabase config host user password database port weight s r s' :
    PoolConfig.in_range config ->
    initWithSingleDatabase config host user password database port weight s = (r, s') ->
    completed r -> step s s'
| step_initWithMultipleDatabases config databases strategy s r s' :
    PoolConfig.in_range config ->
    initWithMultipleDatabases config databases strategy s = (r, s') ->
    completed r -> step s s'
| step_getConnection fuel timeout s r s' :
    head_answers s ->
    getConnection fuel timeout s = (r, s') -> completed r -> step s s'
| step_releaseConnection connection s r s' :
    (forall conn, connection = Some conn -> checked_out conn s) ->
    releaseConnection connection s = (r, s') -> completed r -> step s s'
| step_performHealthCheck s r s' :
    performHealthCheck s = (r, s') -> completed r -> step s s'
| step_healthCheckWorker s r s' :
    healthCheckWorker_turn s = (r, s') -> completed r -> step s s'
| step_adjustConfiguration newConfig s r s' :
    PoolConfig.in_range newConfig ->
    adjustConfiguration newConfig s = (r, s') -> completed r -> step s s'.

(** The states the process can be in, from the one before [init]. *)
Definition reachable (s : state) : Prop := exists w, rtc step (start w) s.

End WithPlatform.
End ConnectionPool.

(** ** A scripted platform

    A concrete world for running the methods: the outcomes of the successive
    [mysql_real_connect], [mysql_ping], [mysql_query] and [mysql_init] calls
    are read off four scripts of error numbers (0 for success, the last entry
    repeating for ever; an empty script is all success), the clock advances
    by [tick] at every reading, ids are numbered, and a wait on the condition
    always times out. *)

Module Scripted.

Record world : Type := mk {
  clock : Z;
  tick : Z;
  handles : nat;
  ids : nat;
  connects : list Z;
  pings : list Z;
  queries : list Z;
  last_errno : Z;
  jitter : Q;
  draw : Z;
  inits : list Z
}.

(** The head of a script, and the script that remains. *)
Definition next (script : list Z) : Z * list Z :=
  match script with
  | [] => (0, [])
  | [e] => (e, [e])
  | e :: rest => (e, rest)
  end.

Definition do_connect (w : world) : bool * world :=
  let '(e, rest) := next (connects w) in
  (e =? 0, mk (clock w) (tick w) (handles w) (ids w) rest (pings w) (queries w)
             (if e =? 0 then last_errno w else e) (jitter w) (draw w) (inits w)).

Definition do_ping (w : world) : Z * world :=
  let '(e, rest) := next (pings w) in
  (e, mk (clock w) (tick w) (handles w) (ids w) (connects w) rest (queries w)
        (if e =? 0 then last_errno w else e) (jitter w) (draw w) (inits w)).

Definition do_query (w : world) : Z * world :=
  let '(e, rest) := next (queries w) in
  (e, mk (clock w) (tick w) (handles w) (ids w) (connects w) (pings w) rest
        (if e =? 0 then last_errno w else e) (jitter w) (draw w) (inits w)).

Definition do_init (w : world) : option MYSQL * world :=
  let '(e, rest) := next (inits w) in
  (if e =? 0 then Some (handles w) else None,
   mk (clock w) (tick w) (if e =? 0 then S (handles w) else handles w) (ids w)
      (connects w) (pings w) (queries w) (last_errno w) (jitter w) (draw w) rest).

Definition do_clock (w : world) : Z * world :=
  (clock w, mk (clock w + tick w) (tick w) (handles w) (ids w) (connects w) (pings w)
              (queries w) (last_errno w) (jitter w) (draw w) (inits w)).

Definition do_id (w : world) : string * world :=
  ("id" +:+ pretty (ids w),
   mk (clock w) (tick w) (handles w) (S (ids w)) (connects w) (pings w)
      (queries w) (last_errno w) (jitter w) (draw w) (inits w)).

#[global] Instance scripted_platform : Platform world := {
  mysql_init := do_init;
  mysql_real_connect := fun _ _ _ _ _ _ => do_connect;
  mysql_close := fun _ w => w;
  mysql_ping := fun _ => do_ping;
  mysql_errno := fun _ => last_errno;
  mysql_error := fun _ _ => "driver error";
  mysql_query := fun _ _ => do_query;
  mysql_store_result := fun _ w => (Some O, w);
  mysql_field_count := fun _ _ => 1;
  mysql_affected_rows := fun _ _ => 1;
  currentTimeMillis := do_clock;
  steady_clock_now := fun w => (clock w, w);
  sleep_for := fun _ w => w;
  generateRandomString := fun _ => do_id;
  uniform_real_08_12 := fun w => (jitter w, w);
  uniform_int := fun _ _ w => (draw w, w);
  wait_until := fun _ w => (timeout, w);
  shl_out_of_range := fun _ => 0
}.

(** A world in which every call succeeds. *)
Definition healthy : world := mk 1000 10 0 0 [] [] [] 0 1 0 [].

Definition with_connects (script : list Z) (w : world) : world :=
  mk (clock w) (tick w) (handles w) (ids w) script (pings w) (queries w)
     (last_errno w) (jitter w) (draw w) (inits w).
Definition with_pings (script : list Z) (w : world) : world :=
  mk (clock w) (tick w) (handles w) (ids w) (connects w) script (queries w)
     (last_errno w) (jitter w) (draw w) (inits w).
Definition with_queries (script : list Z) (w : world) : world :=
  mk (clock w) (tick w) (handles w) (ids w) (connects w) (pings w) script
     (last_errno w) (jitter w) (draw w) (inits w).
Definition with_jitter (j : Q) (w : world) : world :=
  mk (clock w) (tick w) (handles w) (ids w) (connects w) (pings w) (queries w)
     (last_errno w) j (draw w) (inits w).
Definition with_draw (r : Z) (w : world) : world :=
  mk (clock w) (tick w) (handles w) (ids w) (connects w) (pings w) (queries w)
     (last_errno w) (jitter w) r (inits w).
Definition with_inits (script : list Z) (w : world) : world :=
  mk (clock w) (tick w) (handles w) (ids w) (connects w) (pings w) (queries w)
     (last_errno w) (jitter w) (draw w) script.

(** A session on handle 0 of backend [db:3306], as [createConnection] leaves
    it, with the given reconnect policy. *)
Definition session (reconnectInterval reconnectAttempts : Z) : Connection.t :=
  Connection.mk (Some O) "db" "app" "secret" "shop" 3306 "id0" 1000 1000
    reconnectInterval reconnectAttempts 0 0.

Definition session_state (reconnectInterval reconnectAttempts : Z) (w : world)
    : Connection.state :=
  Connection.mkState (session reconnectInterval reconnectAttempts) w
    PerformanceMonitor.zero [].

(** A session that may retry [UINT_MAX] times against a server on which every
    query fails with error 2006 while every connection attempt succeeds, the
    driver always having a handle to give. *)
Definition server_gone (st : @Connection.state world) : Prop :=
  Connection.m_reconnectAttempts (Connection.this st) = UINT_MAX /\
  queries (Connection.world st) = [2006] /\
  connects (Connection.world st) = [] /\
  inits (Connection.world st) = [].

(** A pool configuration with the given limits and idle time, and a pool of
    one backend initialised with it in the world [w]. *)
Definition limits (min max init maxIdleTime : Z) : PoolConfig.t :=
  PoolConfig.setTimeouts 5000 maxIdleTime 30000
    (PoolConfig.setConnectionLimits min max init PoolConfig.default).

Definition pool (config : PoolConfig.t) (w : world) : @ConnectionPool.state world :=
  snd (ConnectionPool.initWithSingleDatabase config "db" "app" "secret" "shop" 3306 1
         (ConnectionPool.start w)).

(** Three replicas of weights 3, 2 and 1. *)
Definition replicas_3_2_1 : list DBConfig.t :=
  [DBConfig.mk "h1" "app" "secret" "shop" 3306 3;
   DBConfig.mk "h2" "app" "secret" "shop" 3306 2;
   DBConfig.mk "h3" "app" "secret" "shop" 3306 1].

End Scripted.

(** * Reasoning about computations *)

Module MonadFacts.

Section Rules.
Context {S : Type}.

Lemma wp_intro {A} (m : M S A) (Q : res A -> S -> Prop) (s : S) r s' :
  m s = (r, s') -> Q r s' -> wp m Q s.
Proof. unfold wp. intros -> HQ. exact HQ. Qed.

Lemma wp_elim {A} (m : M S A) (Q : res A -> S -> Prop) (s : S) :
  wp m Q s -> exists r s', m s = (r, s') /\ Q r s'.
Proof. unfold wp. intros HQ. exists (fst (m s)), (snd (m s)). split; [apply surjective_pairing | exact HQ]. Qed.

Lemma wp_mono {A} (m : M S A) (Q Q' : res A -> S -> Prop) (s : S) :
  wp m Q s -> (forall r s', Q r s' -> Q' r s') -> wp m Q' s.
Proof. unfold wp. intros HQ Himp. apply Himp, HQ. Qed.

Lemma wp_self {A} (m : M S A) (Q : res A -> S -> Prop) (s : S) :
  wp m Q s -> wp m (fun r s' => r = fst (m s) /\ Q r s') s.
Proof. unfold wp. intros HQ. split; [reflexivity | exact HQ]. Qed.

Lemma wp_ret {A} (a : A) (Q : res A -> S -> Prop) (s : S) :
  Q (Ok a) s -> wp (ret a) Q s.
Proof. intros HQ. exact HQ. Qed.

Lemma wp_throw {A} (e : exn) (Q : res A -> S -> Prop) (s : S) :
  Q (Throw e) s -> wp (throw e) Q s.
Proof. intros HQ. exact HQ. Qed.

Lemma wp_gets {A} (f : S -> A) (Q : res A -> S -> Prop) (s : S) :
  Q (Ok (f s)) s -> wp (gets f) Q s.
Proof. intros HQ. exact HQ. Qed.

Lemma wp_modify (f : S -> S) (Q : res unit -> S -> Prop) (s : S) :
  Q (Ok tt) (f s) -> wp (modify f) Q s.
Proof. intros HQ. exact HQ. Qed.

Lemma wp_bind {A B} (m : M S A) (k : A -> M S B) (Q : res B -> S -> Prop) (s : S) :
  wp m (then_wp k Q) s -> wp (bind m k) Q s.
Proof.
  unfold wp, then_wp, bind.
  destruct (m s) as [[a | e | |] s']; simpl; intros HQ; exact HQ.
Qed.

Lemma wp_try_catch {A} (body : M S A) (handler : exn -> M S A)
    (Q : res A -> S -> Prop) (s : S) :
  wp body (catch_wp handler Q) s -> wp (try_catch body handler) Q s.
Proof.
  unfold wp, catch_wp, try_catch.
  destruct (body s) as [[a | e | |] s']; simpl; intros HQ; exact HQ.
Qed.

End Rules.

Lemma wp_zoom {S T A} (get : S -> T) (set : T -> S -> S) (m : M T A)
    (Q : res A -> S -> Prop) (s : S) :
  wp m (fun r t => Q r (set t s)) (get s) -> wp (zoom get set m) Q s.
Proof.
  unfold wp, zoom. destruct (m (get s)) as [r t]; simpl. intros HQ; exact HQ.
Qed.

End MonadFacts.

(** * Properties of the sessions *)

Module ConnectionFacts.
Import Connection MonadFacts.

Lemma wrap32_small z : 0 <= z < 2 ^ 32 -> wrap32 z = z.
Proof. intros Hz. unfold wrap32. apply Z.mod_small. exact Hz. Qed.

Lemma wrap64_small z : 0 <= z < 2 ^ 64 -> wrap64 z = z.
Proof. intros Hz. unfold wrap64. apply Z.mod_small. exact Hz. Qed.

Lemma wrap32_range z : 0 <= wrap32 z < 2 ^ 32.
Proof. unfold wrap32. apply Z.mod_pos_bound. lia. Qed.

Lemma wrap32_to_int z : wrap32 (to_int z) = wrap32 z.
Proof.
  unfold wrap32, to_int.
  rewrite Zminus_mod, Zmod_mod, <- Zminus_mod.
  f_equal. lia.
Qed.

(** C9. The classifier answers [true] exactly on the error kinds 2002, 2003,
    2006, 2013, 2027 and 2055; every other kind is classified [false]. *)
Theorem isConnectionError_transport_set (errorCode : Z) :
  isConnectionError errorCode = true <->
  In errorCode [2002; 2003; 2006; 2013; 2027; 2055].
Proof.
  unfold isConnectionError. simpl.
  repeat match goal with
         | |- context [?a =? ?b] => destruct (Z.eqb_spec a b)
         end; split; intros Hx; try reflexivity; try discriminate; lia.
Qed.

(** *** What a log of the retry loop looks like *)

Lemma count_executeInternal_app l1 l2 :
  count_executeInternal (l1 ++ l2) = count_executeInternal l1 + count_executeInternal l2.
Proof.
  unfold count_executeInternal. rewrite List.filter_app, length_app. lia.
Qed.

Lemma count_prefix attempt :
  count_executeInternal (if 0 <? attempt then [call_reconnect (Ok true)] else []) = 0.
Proof. destruct (0 <? attempt); reflexivity. Qed.

Lemma turns_app l1 l2 : turns (l1 ++ l2) = turns l1 + turns l2.
Proof. unfold turns. rewrite List.filter_app, length_app. lia. Qed.

Lemma turns_cons c l : turns (c :: l) = (if ends_turn c then 1 else 0) + turns l.
Proof. unfold turns. cbn [List.filter]. destruct (ends_turn c); cbn [length]; lia. Qed.

Lemma turns_prefix attempt :
  turns (if 0 <? attempt then [call_reconnect (Ok true)] else []) = 0.
Proof. destruct (0 <? attempt); reflexivity. Qed.

Lemma turns_nonneg l : 0 <= turns l.
Proof. unfold turns. lia. Qed.

Lemma count_le_turns l : count_executeInternal l <= turns l.
Proof.
  induction l as [|c l IH]; [reflexivity|].
  change (c :: l) with ([c] ++ l). rewrite count_executeInternal_app, turns_app.
  assert (count_executeInternal [c] <= turns [c]); [|lia].
  destruct c as [[[]| | |]|]; vm_compute; discriminate.
Qed.

Lemma retry_log_turns error_of n attempt msg log r :
  retry_log error_of n attempt msg log r -> attempt <= n + 1 ->
  turns log <= n + 1 - attempt.
Proof.
  induction 1 as [a m Hgt | a m log r Ha _ IH | a m Ha | a m q Ha | a m what code Ha Hc
                 | a m what code log r Ha Hc _ IH]; intros Hle.
  - change (turns []) with 0. lia.
  - rewrite turns_cons. cbn [ends_turn]. lia.
  - rewrite turns_cons. cbn [ends_turn]. change (turns []) with 0. lia.
  - rewrite turns_app, turns_prefix, turns_cons. cbn [ends_turn].
    change (turns []) with 0. lia.
  - rewrite turns_app, turns_prefix, turns_cons. cbn [ends_turn].
    change (turns []) with 0. lia.
  - rewrite turns_app, turns_prefix, turns_cons. cbn [ends_turn]. lia.
Qed.

Lemma retry_log_count error_of n attempt msg log r :
  retry_log error_of n attempt msg log r -> attempt <= n + 1 ->
  count_executeInternal log <= n + 1 - attempt.
Proof.
  intros Hlog Hle. pose proof (retry_log_turns _ _ _ _ _ _ Hlog Hle).
  pose proof (count_le_turns log). lia.
Qed.

Lemma retry_log_result error_of n attempt msg log r :
  retry_log error_of n attempt msg log r ->
  (exists q, r = Ok q) \/ (exists what, r = Throw (runtime_error what)).
Proof. induction 1; eauto. Qed.

(** Where a call that ends a turn can sit in the log of a turn. *)
Lemma split_at_turn_end attempt (E X : call) (log pre post : list call) :
  ends_turn X = true ->
  (if 0 <? attempt then [call_reconnect (Ok true)] else []) ++ E :: log
    = pre ++ X :: post ->
  (pre = (if 0 <? attempt then [call_reconnect (Ok true)] else []) /\ X = E /\ post = log) \/
  (exists pre', pre = (if 0 <? attempt then [call_reconnect (Ok true)] else []) ++ E :: pre'
                /\ log = pre' ++ X :: post).
Proof.
  intros HX Heq.
  destruct (0 <? attempt); simpl in *.
  - destruct pre as [|p pre]; simpl in *.
    + injection Heq as <- _. discriminate.
    + injection Heq as <- Heq.
      destruct pre as [|p pre]; simpl in *.
      * injection Heq as <- <-. left. auto.
      * injection Heq as <- ->. right. eauto.
  - destruct pre as [|p pre]; simpl in *.
    + injection Heq as <- <-. left. auto.
    + injection Heq as <- ->. right. eauto.
Qed.

Lemma split_at_executeInternal attempt (E X : call) (log pre post : list call) :
  is_executeInternal X = true ->
  (if 0 <? attempt then [call_reconnect (Ok true)] else []) ++ E :: log
    = pre ++ X :: post ->
  (pre = (if 0 <? attempt then [call_reconnect (Ok true)] else []) /\ X = E /\ post = log) \/
  (exists pre', pre = (if 0 <? attempt then [call_reconnect (Ok true)] else []) ++ E :: pre'
                /\ log = pre' ++ X :: post).
Proof.
  intros HX. apply split_at_turn_end. destruct X; [discriminate | reflexivity].
Qed.

(** A turn that is not the first starts with a [reconnect], unless no
    attempt is left. *)
Lemma retry_log_next error_of n attempt msg log r :
  retry_log error_of n attempt msg log r -> 0 < attempt ->
  (attempt <= n -> exists c post, log = call_reconnect c :: post) /\
  (n < attempt -> log = [] /\ r = Throw (runtime_error (error_of msg))).
Proof.
  intros Hlog Hpos.
  assert (Hp : (0 <? attempt) = true) by (apply Z.ltb_lt; exact Hpos).
  destruct Hlog; rewrite ?Hp; simpl; split; intros; try lia; eauto.
Qed.

(** The first turn starts with an invocation of [executeInternal]. *)
Lemma retry_log_first error_of n msg log r :
  retry_log error_of n 0 msg log r -> 0 <= n ->
  exists outcome post, log = call_executeInternal outcome :: post.
Proof.
  intros Hlog Hn. inversion Hlog; subst; try lia; cbn; eauto.
Qed.

(** What follows a call that ends a turn, [t] attempts having been made up
    to it: a result or an error of another kind ends the loop; a transport
    error or a failed [reconnect] is followed by the [reconnect] of the next
    attempt as long as one is left, and by the final error otherwise; a
    [reconnect] that raises ends the loop. *)
Lemma retry_log_split error_of n attempt msg log r :
  retry_log error_of n attempt msg log r -> 0 <= attempt ->
  forall pre X post,
    log = pre ++ X :: post -> ends_turn X = true ->
    attempt + turns (pre ++ [X]) <= n + 1 /\
    match X with
    | call_executeInternal (Ok q) => post = [] /\ r = Ok q
    | call_executeInternal (Throw (SQLExecutionError what code)) =>
      if isConnectionError code then
        (attempt + turns (pre ++ [X]) < n + 1 ->
         exists c post', post = call_reconnect c :: post') /\
        (attempt + turns (pre ++ [X]) = n + 1 ->
         post = [] /\ r = Throw (runtime_error (error_of what)))
      else post = [] /\ r = Throw other_errors
    | call_reconnect (Ok false) =>
      (attempt + turns (pre ++ [X]) < n + 1 ->
       exists c post', post = call_reconnect c :: post') /\
      (attempt + turns (pre ++ [X]) = n + 1 ->
       post = [] /\ r = Throw (runtime_error (error_of "Failed to reconnect")))
    | call_reconnect (Throw e) => e = init_failed /\ post = [] /\ r = Throw e
    | _ => False
    end.
Proof.
  induction 1 as [a m Hgt | a m log r Ha Hlog IH | a m Ha | a m q Ha | a m what' code' Ha Hc
                 | a m what' code' log r Ha Hc Hlog IH];
    intros Hnn pre X post Heq HX.
  - destruct pre; discriminate.
  - destruct pre as [|p pre]; simpl in Heq.
    + injection Heq as <- <-. cbn [app]. rewrite turns_cons. cbn [ends_turn].
      change (turns []) with 0.
      destruct (retry_log_next _ _ _ _ _ _ Hlog ltac:(lia)) as [Hmore Hdone].
      split; [lia|]. split; intros Ht; [apply Hmore | apply Hdone]; lia.
    + injection Heq as <- Heq.
      destruct (IH ltac:(lia) _ _ _ Heq HX) as [Hle Hafter].
      cbn [app]. rewrite turns_cons. cbn [ends_turn].
      replace (a + (1 + turns (pre ++ [X]))) with (a + 1 + turns (pre ++ [X])) by lia.
      split; [exact Hle | exact Hafter].
  - destruct pre as [|p pre]; simpl in Heq.
    + injection Heq as <- <-. cbn [app]. rewrite turns_cons. cbn [ends_turn].
      change (turns []) with 0. split; [lia | auto].
    + injection Heq as _ Heq. destruct pre; discriminate.
  - apply split_at_turn_end in Heq; [|exact HX].
    destruct Heq as [(-> & -> & ->) | (pre' & _ & Heq)]; [|destruct pre'; discriminate].
    rewrite turns_app, turns_prefix, turns_cons. cbn [ends_turn].
    change (turns []) with 0. split; [lia | auto].
  - apply split_at_turn_end in Heq; [|exact HX].
    destruct Heq as [(-> & -> & ->) | (pre' & _ & Heq)]; [|destruct pre'; discriminate].
    rewrite turns_app, turns_prefix, turns_cons. cbn [ends_turn].
    change (turns []) with 0. rewrite Hc. split; [lia | auto].
  - apply split_at_turn_end in Heq; [|exact HX].
    destruct Heq as [(-> & -> & ->) | (pre' & -> & Heq)].
    + rewrite turns_app, turns_prefix, turns_cons. cbn [ends_turn].
      change (turns []) with 0. rewrite Hc.
      destruct (retry_log_next _ _ _ _ _ _ Hlog ltac:(lia)) as [Hmore Hdone].
      split; [lia|]. split; intros Ht; [apply Hmore | apply Hdone]; lia.
    + destruct (IH ltac:(lia) _ _ _ Heq HX) as [Hle Hafter].
      rewrite <- app_assoc. cbn [app]. rewrite turns_app, turns_prefix, turns_cons.
      cbn [ends_turn].
      replace (a + (0 + (1 + turns (pre' ++ [X])))) with (a + 1 + turns (pre' ++ [X]))
        by lia.
      split; [exact Hle | exact Hafter].
Qed.

(** A [reconnect] that succeeds is followed by an invocation of
    [executeInternal]. *)
Lemma retry_log_after_reconnect error_of n attempt msg log r :
  retry_log error_of n attempt msg log r ->
  forall pre post,
    log = pre ++ call_reconnect (Ok true) :: post ->
    exists outcome post', post = call_executeInternal outcome :: post'.
Proof.
  assert (Hturn : forall a (E : call) (log' pre post : list call),
            is_executeInternal E = true ->
            (if 0 <? a then [call_reconnect (Ok true)] else []) ++ E :: log'
              = pre ++ call_reconnect (Ok true) :: post ->
            (exists post', post = E :: post') \/
            (exists pre', log' = pre' ++ call_reconnect (Ok true) :: post)).
  { intros a E log' pre post HE Heq. destruct (0 <? a); simpl in Heq.
    - destruct pre as [|p pre]; simpl in Heq.
      + injection Heq as <-. left. eauto.
      + injection Heq as _ Heq. destruct pre as [|p' pre]; simpl in Heq.
        * injection Heq as -> _. discriminate.
        * injection Heq as _ ->. right. eauto.
    - destruct pre as [|p pre]; simpl in Heq.
      + injection Heq as -> _. discriminate.
      + injection Heq as _ ->. right. eauto. }
  induction 1 as [a m Hgt | a m log r Ha Hlog IH | a m Ha | a m q Ha | a m what' code' Ha Hc
                 | a m what' code' log r Ha Hc Hlog IH];
    intros pre post Heq.
  - destruct pre; discriminate.
  - destruct pre as [|p pre]; simpl in Heq; [discriminate|].
    injection Heq as _ Heq. eapply IH; exact Heq.
  - destruct pre as [|p pre]; simpl in Heq; [discriminate|].
    injection Heq as _ Heq. destruct pre; discriminate.
  - apply Hturn in Heq; [|reflexivity].
    destruct Heq as [(post' & ->) | (pre' & Heq)]; [eauto | destruct pre'; discriminate].
  - apply Hturn in Heq; [|reflexivity].
    destruct Heq as [(post' & ->) | (pre' & Heq)]; [eauto | destruct pre'; discriminate].
  - apply Hturn in Heq; [|reflexivity].
    destruct Heq as [(post' & ->) | (pre' & Heq)]; [eauto | eapply IH; exact Heq].
Qed.

Lemma retry_log_preceded error_of n attempt msg log r :
  retry_log error_of n attempt msg log r -> 0 <= attempt ->
  forall pre X post,
    log = pre ++ X :: post -> is_executeInternal X = true ->
    (attempt = 0 /\ pre = []) \/ (exists pre', pre = pre' ++ [call_reconnect (Ok true)]).
Proof.
  assert (Hprefix : forall a pre, 0 <= a ->
            pre = (if 0 <? a then [call_reconnect (Ok true)] else []) ->
            (a = 0 /\ pre = []) \/ (exists pre', pre = pre' ++ [call_reconnect (Ok true)])).
  { intros a pre Ha ->. destruct (Z.ltb_spec 0 a).
    - right. exists []. reflexivity.
    - left. split; [lia | reflexivity]. }
  induction 1 as [a m Hgt | a m log r Ha Hlog IH | a m Ha | a m q Ha | a m what' code' Ha Hc
                 | a m what' code' log r Ha Hc Hlog IH];
    intros Hnn pre X post Heq HX.
  - destruct pre; discriminate.
  - destruct pre as [|p pre]; simpl in Heq.
    + injection Heq as <- _. discriminate.
    + injection Heq as <- Heq.
      destruct (IH ltac:(lia) _ _ _ Heq HX) as [(Hc & _) | (pre' & ->)]; [lia|].
      right. exists (call_reconnect (Ok false) :: pre'). reflexivity.
  - destruct pre as [|p pre]; simpl in Heq.
    + injection Heq as <- _. discriminate.
    + injection Heq as _ Heq. destruct pre; discriminate.
  - apply split_at_executeInternal in Heq; [|exact HX].
    destruct Heq as [(Heq & _ & _) | (pre' & _ & Heq)]; [auto|].
    destruct pre'; discriminate.
  - apply split_at_executeInternal in Heq; [|exact HX].
    destruct Heq as [(Heq & _ & _) | (pre' & _ & Heq)]; [auto|].
    destruct pre'; discriminate.
  - apply split_at_executeInternal in Heq; [|exact HX].
    destruct Heq as [(Heq & _ & _) | (pre' & -> & Heq)]; [auto|].
    destruct (IH ltac:(lia) _ _ _ Heq HX) as [(Hc' & _) | (pre'' & ->)]; [lia|].
    right. eexists. rewrite app_comm_cons, app_assoc. reflexivity.
Qed.

(** The loop ends before the attempts are used up only with a result, with
    an error of another kind, or because a [reconnect] raised. *)
Lemma retry_log_early error_of n attempt msg log r :
  retry_log error_of n attempt msg log r -> 0 <= attempt ->
  attempt + turns log < n + 1 ->
  (exists q, r = Ok q /\ last log = Some (call_executeInternal (Ok q))) \/
  (exists what code,
     r = Throw other_errors /\ isConnectionError code = false /\
     last log = Some (call_executeInternal (Throw (SQLExecutionError what code)))) \/
  (r = Throw init_failed /\ last log = Some (call_reconnect (Throw init_failed))).
Proof.
  assert (Hlast : forall (l : list call) c log',
            log' <> [] -> last (l ++ c :: log') = last log').
  { intros l c log' Hne. rewrite last_app. rewrite last_cons.
    destruct (last log') eqn:Hl; [reflexivity|].
    apply last_None in Hl. contradiction. }
  assert (Hne : forall eo n' a' m' log' r',
            retry_log eo n' a' m' log' r' -> a' <= n' -> log' <> []).
  { intros eo n' a' m' log' r' Hlog Hle.
    destruct Hlog; intros Heq; try lia; try discriminate Heq.
    all: apply app_eq_nil in Heq as [_ Heq]; discriminate Heq. }
  induction 1 as [a m Hgt | a m log r Ha Hlog IH | a m Ha | a m q Ha | a m what' code' Ha Hc
                 | a m what' code' log r Ha Hc Hlog IH];
    intros Hnn Hearly.
  - change (turns []) with 0 in Hearly. lia.
  - rewrite turns_cons in Hearly. cbn [ends_turn] in Hearly.
    assert (Hle : a + 1 <= n) by (pose proof (turns_nonneg log); lia).
    change (call_reconnect (Ok false) :: log) with ([] ++ call_reconnect (Ok false) :: log).
    rewrite Hlast by (eapply Hne; eassumption).
    apply IH; lia.
  - right. right. split; reflexivity.
  - left. exists q. split; [reflexivity|]. rewrite last_snoc. reflexivity.
  - right. left. exists what', code'. split; [reflexivity|]. split; [exact Hc|].
    rewrite last_snoc. reflexivity.
  - rewrite turns_app, turns_prefix, turns_cons in Hearly. cbn [ends_turn] in Hearly.
    assert (Hle : a + 1 <= n) by (pose proof (turns_nonneg log); lia).
    rewrite Hlast by (eapply Hne; eassumption).
    apply IH; lia.
Qed.

Lemma retry_log_nil error_of n attempt msg r :
  retry_log error_of n attempt msg [] r -> r = Throw (runtime_error (error_of msg)).
Proof.
  intros Hlog. inversion Hlog; subst; try reflexivity;
    destruct (0 <? attempt); discriminate.
Qed.

Section Rules.
Context {W : Type} `{Platform W}.
Implicit Types st : @state W.

Lemma wp_platform {A} (op : W -> A * W) (Q : res A -> state -> Prop) st :
  Q (Ok (fst (op (world st)))) (with_world (snd (op (world st))) st) ->
  wp (platform op) Q st.
Proof. unfold wp, platform. destruct (op (world st)); simpl. intros HQ; exact HQ. Qed.

Lemma wp_platform_ (op : W -> W) (Q : res unit -> state -> Prop) st :
  Q (Ok tt) (with_world (op (world st)) st) -> wp (platform_ op) Q st.
Proof. intros HQ; exact HQ. Qed.

Lemma wp_traced {A} (ev : res A -> call) (m : M state A) (Q : res A -> state -> Prop) st :
  wp m (fun r st' => Q r (with_call (ev r) st')) st -> wp (traced ev m) Q st.
Proof. unfold wp, traced. destruct (m st); simpl. intros HQ; exact HQ. Qed.

End Rules.

Ltac wp_step :=
  lazymatch goal with
  | |- wp (bind _ _) _ _ => apply wp_bind
  | |- wp (ret _) _ _ => apply wp_ret
  | |- wp (throw _) _ _ => apply wp_throw
  | |- wp (gets _) _ _ => apply wp_gets
  | |- wp (observe _) _ _ => apply wp_gets
  | |- wp (modify _) _ _ => apply wp_modify
  | |- wp (telemetry _) _ _ => apply wp_modify
  | |- wp (platform _) _ _ => apply wp_platform
  | |- wp (platform_ _) _ _ => apply wp_platform_
  | |- wp (traced _ _) _ _ => apply wp_traced
  | |- wp (try_catch _ _) _ _ => apply wp_try_catch
  end;
  unfold then_wp, catch_wp; cbn beta iota.
Ltac wp_steps := repeat wp_step.


Section WithPlatform.
Context {W : Type} `{Platform W}.
Implicit Types st : @state W.

(** When the ping fails and a reconnect is either not asked for or not
    warranted by the error kind, [isValid] answers [false]. *)
Lemma isValid_ping_failure_false (tryReconnect : bool) (st : state) (h : MYSQL) :
  m_mysql (this st) = Some h ->
  fst (mysql_ping h (world st)) <> 0 ->
  tryReconnect = false \/
    isConnectionError (mysql_errno h (snd (mysql_ping h (world st)))) = false ->
  fst (isValid tryReconnect st) = Ok false.
Proof.
  intros Hh Hping Hno.
  unfold isValid, bind, gets, platform, observe; simpl. rewrite Hh.
  destruct (mysql_ping h (world st)) as [ping_result w] eqn:Hp; simpl in *.
  destruct (Z.eqb_spec ping_result 0) as [->|_]; [contradiction|]; simpl.
  destruct Hno as [-> | ->]; simpl; [reflexivity|].
  rewrite orb_true_r. reflexivity.
Qed.

(** When the ping fails with a transport error and a reconnect is asked for,
    [isValid] answers [true] without calling [reconnect]: no call is logged,
    the handle and the reconnect counter are as before. *)
Lemma isValid_transport_failure_true (st : state) (h : MYSQL) :
  m_mysql (this st) = Some h ->
  fst (mysql_ping h (world st)) <> 0 ->
  isConnectionError (mysql_errno h (snd (mysql_ping h (world st)))) = true ->
  let st' := snd (isValid true st) in
  fst (isValid true st) = Ok true /\
  calls st' = calls st /\
  m_mysql (this st') = Some h /\
  m_totalReconnectAttempts (this st') = m_totalReconnectAttempts (this st) /\
  monitor st' = monitor st.
Proof.
  intros Hh Hping Herr.
  unfold isValid, updateLastActiveTime, bind, gets, modify, platform, observe; simpl.
  rewrite Hh.
  destruct (mysql_ping h (world st)) as [ping_result w] eqn:Hp; simpl in *.
  destruct (Z.eqb_spec ping_result 0) as [->|_]; [contradiction|]; simpl.
  rewrite Herr; simpl.
  destruct (currentTimeMillis w) as [now w']; simpl.
  repeat split; assumption.
Qed.

(** *** Rounding to a double *)

Lemma round_half_even_between (y : Q) (a b : Z) :
  (inject_Z a <= y)%Q -> (y <= inject_Z b)%Q -> a <= round_half_even y <= b.
Proof.
  intros Ha Hb.
  assert (Hfa : a <= Qfloor y).
  { rewrite <- (Qfloor_Z a). apply Qfloor_resp_le. exact Ha. }
  assert (Hfb : Qfloor y <= b).
  { rewrite <- (Qfloor_Z b). apply Qfloor_resp_le. exact Hb. }
  assert (Hstep : Qfloor y = b \/ Qfloor y + 1 <= b) by lia.
  unfold round_half_even.
  destruct (Qcompare_spec (y - inject_Z (Qfloor y)) (1 # 2)) as [Heq | Hlt | Hgt].
  - destruct Hstep as [Hb' | Hb']; [|destruct (Z.even _); lia].
    exfalso. rewrite Hb' in Heq. lra.
  - lia.
  - destruct Hstep as [Hb' | Hb']; [|lia].
    exfalso. rewrite Hb' in Hgt. lra.
Qed.

Lemma round_half_even_near (y : Q) :
  (inject_Z (round_half_even y) <= y + (1 # 2))%Q.
Proof.
  pose proof (Qfloor_le y) as Hfl.
  unfold round_half_even.
  destruct (Qcompare_spec (y - inject_Z (Qfloor y)) (1 # 2)) as [Heq | Hlt | Hgt].
  - destruct (Z.even _); [lra|]. rewrite inject_Z_plus. change (inject_Z 1) with 1%Q. lra.
  - lra.
  - rewrite inject_Z_plus. change (inject_Z 1) with 1%Q.
    pose proof (Qlt_floor y) as Hfu. rewrite inject_Z_plus in Hfu.
    change (inject_Z 1) with 1%Q in Hfu. lra.
Qed.

Lemma Qlog2_below (x : Q) (p : Z) :
  0 <= p -> (0 < x)%Q -> (x < inject_Z (2 ^ p))%Q -> Qlog2 x <= p.
Proof.
  intros Hp Hpos Hlt. destruct x as [n d]. unfold Qlog2. cbn [Qnum Qden].
  assert (Hn : 0 < n) by (unfold Qlt in Hpos; cbn in Hpos; lia).
  assert (Hnd : n < 2 ^ p * Z.pos d) by (unfold Qlt in Hlt; cbn in Hlt; lia).
  pose proof (Z.log2_spec n Hn) as [Hln _].
  pose proof (Z.log2_spec (Z.pos d) ltac:(lia)) as [_ Hld].
  pose proof (Z.log2_nonneg n) as Hln0.
  pose proof (Z.log2_nonneg (Z.pos d)) as Hld0.
  assert (Hk : Z.log2 n - Z.log2 (Z.pos d) <= p).
  { assert (Hpow : 2 ^ Z.log2 n < 2 ^ (p + Z.succ (Z.log2 (Z.pos d)))).
    { rewrite Z.pow_add_r by lia.
      assert (0 < 2 ^ p) by (apply Z.pow_pos_nonneg; lia). nia. }
    apply Z.pow_lt_mono_r_iff in Hpow; lia. }
  destruct (Qle_bool _ _); lia.
Qed.

Lemma Qpow2_neg (k : Z) : 0 < k -> Qpow2 (- k) = (/ inject_Z (2 ^ k))%Q.
Proof.
  intros Hk. unfold Qpow2. destruct (Z.leb_spec 0 (- k)); [lia|].
  rewrite Z.opp_involutive. reflexivity.
Qed.

(** A positive value below [2^17] is rounded on a grid finer than 1/8: the
    double lies between any two whole numbers that enclose the value, and
    exceeds it by less than 1/8. *)
Lemma round_double_small (x : Q) :
  (0 < x)%Q -> (x < inject_Z (2 ^ 17))%Q ->
  (forall a : Z, (inject_Z a <= x)%Q -> (inject_Z a <= round_double x)%Q) /\
  (forall b : Z, (x <= inject_Z b)%Q -> (round_double x <= inject_Z b)%Q) /\
  (round_double x < x + (1 # 8))%Q.
Proof.
  intros Hpos Hlt.
  unfold round_double. destruct (Qcompare_spec x 0) as [Heq | Hneg | _]; [lra | lra |].
  unfold round_positive.
  pose proof (Qlog2_below x 17 ltac:(lia) Hpos Hlt) as Hlog.
  set (e := Z.max (Qlog2 x - 52) (-1074)).
  assert (He : e <= -35) by (unfold e; lia).
  clearbody e. replace e with (- (- e)) by lia.
  set (k := - e) in *. assert (Hk : 35 <= k) by (unfold k; lia). clearbody k.
  rewrite Qpow2_neg by lia.
  assert (Hpow : 2 ^ 35 <= 2 ^ k) by (apply Z.pow_le_mono_r; lia).
  assert (Hq : (inject_Z (2 ^ 35) <= inject_Z (2 ^ k))%Q) by (rewrite <- Zle_Qle; exact Hpow).
  change (inject_Z (2 ^ 35)) with 34359738368%Q in Hq.
  set (g := inject_Z (2 ^ k)) in *.
  assert (Hg : (0 < g)%Q) by lra.
  assert (Hdiv : (x / / g == x * g)%Q) by (field; lra).
  assert (Hscale : forall z : Z, (inject_Z (z * 2 ^ k) == inject_Z z * g)%Q)
    by (intros z; unfold g; rewrite inject_Z_mult; reflexivity).
  split; [|split].
  - intros a Ha.
    assert (Hr : a * 2 ^ k <= round_half_even (x / / g)).
    { apply (round_half_even_between _ _ (Qceiling (x / / g))).
      - rewrite Hscale, Hdiv. nra.
      - apply Qle_ceiling. }
    rewrite Zle_Qle, Hscale in Hr.
    apply Qle_shift_div_l in Hr; [|exact Hg]. unfold Qdiv in Hr. exact Hr.
  - intros b Hb.
    assert (Hr : round_half_even (x / / g) <= b * 2 ^ k).
    { apply (round_half_even_between _ (Qfloor (x / / g))).
      - apply Qfloor_le.
      - rewrite Hscale, Hdiv. nra. }
    rewrite Zle_Qle, Hscale in Hr.
    apply Qle_shift_div_r in Hr; [|exact Hg]. unfold Qdiv in Hr. exact Hr.
  - pose proof (round_half_even_near (x / / g)) as Hnear.
    set (R := inject_Z (round_half_even (x / / g))) in *.
    rewrite Hdiv in Hnear.
    assert (Hinv : (0 < / g)%Q) by (apply Qinv_lt_0_compat; exact Hg).
    assert (Hone : (g * / g == 1)%Q) by (field; lra).
    assert (Hbound : (/ g <= 1 # 34359738368)%Q).
    { apply Qle_shift_inv_r; [exact Hg|]. lra. }
    nra.
Qed.

(** The window of the jittered delay once the exponential delay [m] is known.
    The product is rounded to a double, which can lift it to the whole number
    just above; the truncation to whole milliseconds can take the delay below
    [0.8 m], by less than one. *)
Lemma jitter_window (m : Z) (jitter : Q) :
  1 <= m <= 30000 -> (4 # 5 <= jitter)%Q -> (jitter <= 6 # 5)%Q ->
  let delay := double_to_uint (max_1 (double_mul (inject_Z m) jitter)) in
  delay = Z.max 1 (Qfloor (round_double (inject_Z m * jitter))) /\
  Z.max 1 (Qfloor (inject_Z m * jitter)) <= delay /\
  delay <= Z.max 1 (Qceiling (inject_Z m * jitter)) /\
  1 <= delay /\
  (inject_Z m * (4 # 5) - 1 < inject_Z delay)%Q /\
  (inject_Z delay <= inject_Z m * (6 # 5))%Q.
Proof.
  intros Hm Hlo Hhi. unfold double_mul.
  assert (Hm1 : (1 <= inject_Z m)%Q)
    by (change (inject_Z 1 <= inject_Z m)%Q; rewrite <- Zle_Qle; lia).
  assert (Hm2 : (inject_Z m <= 30000)%Q)
    by (change (inject_Z m <= inject_Z 30000)%Q; rewrite <- Zle_Qle; lia).
  set (x := (inject_Z m * jitter)%Q).
  assert (Hx1 : (inject_Z m * (4 # 5) <= x)%Q) by (unfold x; nra).
  assert (Hx2 : (x <= inject_Z m * (6 # 5))%Q) by (unfold x; nra).
  clearbody x.
  destruct (round_double_small x) as (Hbelow & Habove & Hnear);
    [lra | change (inject_Z (2 ^ 17)) with 131072%Q; lra |].
  set (y := round_double x) in *. clearbody y.
  pose proof (Qfloor_le x) as Hfl.
  pose proof (Qlt_floor x) as Hfu.
  rewrite inject_Z_plus in Hfu. change (inject_Z 1) with 1%Q in Hfu.
  pose proof (Qle_ceiling x) as Hcl.
  pose proof (Qfloor_le y) as Hyl.
  pose proof (Qlt_floor y) as Hyu.
  rewrite inject_Z_plus in Hyu. change (inject_Z 1) with 1%Q in Hyu.
  assert (Hfy : Qfloor x <= Qfloor y).
  { rewrite <- (Qfloor_Z (Qfloor x)). apply Qfloor_resp_le. apply Hbelow. exact Hfl. }
  assert (Hyc : Qfloor y <= Qceiling x).
  { rewrite <- (Qfloor_Z (Qceiling x)). apply Qfloor_resp_le. apply Habove. exact Hcl. }
  assert (Hf0 : 0 <= Qfloor x).
  { rewrite <- (Qfloor_Z 0). apply Qfloor_resp_le. change (inject_Z 0) with 0%Q. lra. }
  assert (Hc1 : Qceiling x <= 36000).
  { rewrite <- (Qceiling_Z 36000). apply Qceiling_resp_le.
    change (inject_Z 36000) with 36000%Q. lra. }
  (* five times the floor of the double is at most six times [m] *)
  assert (Htop : (inject_Z (Qfloor y) <= inject_Z m * (6 # 5))%Q).
  { assert (Hz : 5 * Qfloor y < 6 * m + 1).
    { rewrite Zlt_Qlt, inject_Z_plus, !inject_Z_mult.
      change (inject_Z 5) with 5%Q. change (inject_Z 6) with 6%Q.
      change (inject_Z 1) with 1%Q. lra. }
    assert (Hz' : 5 * Qfloor y <= 6 * m) by lia.
    rewrite Zle_Qle, !inject_Z_mult in Hz'.
    change (inject_Z 5) with 5%Q in Hz'. change (inject_Z 6) with 6%Q in Hz'. lra. }
  unfold double_to_uint, max_1.
  destruct (Qle_bool y 1) eqn:Hle.
  - apply Qle_bool_iff in Hle.
    assert (Hf1 : Qfloor y <= 1).
    { rewrite <- (Qfloor_Z 1). apply Qfloor_resp_le. exact Hle. }
    change (Qfloor 1) with 1. change (wrap32 1) with 1.
    assert (Hqf : (inject_Z (Qfloor x) <= 1)%Q).
    { change 1%Q with (inject_Z 1). rewrite <- Zle_Qle. lia. }
    repeat split; try lia; change (inject_Z 1) with 1%Q; lra.
  - assert (Hgt : (1 < y)%Q).
    { apply Qnot_le_lt. intros Hc. apply Qle_bool_iff in Hc. congruence. }
    assert (Hf1 : 1 <= Qfloor y).
    { rewrite <- (Qfloor_Z 1). apply Qfloor_resp_le. apply Qlt_le_weak. exact Hgt. }
    rewrite wrap32_small by lia.
    assert (Hqf : (inject_Z (Qfloor x) <= inject_Z (Qfloor y))%Q)
      by (rewrite <- Zle_Qle; exact Hfy).
    repeat split; try lia; lra.
Qed.

(** Without wrap-around the exponential delay is the mathematical one. *)
Lemma exponentialDelay_exact (interval attempt : Z) :
  1 <= attempt -> 1 <= interval -> interval * 2 ^ (attempt - 1) < 2 ^ 32 ->
  wrap32 (interval * wrap32 (shl1 (wrap32 (attempt - 1)))) =
  interval * 2 ^ (attempt - 1).
Proof.
  intros Ha Hi Hno.
  assert (Hpow : 0 < 2 ^ (attempt - 1)) by (apply Z.pow_pos_nonneg; lia).
  assert (Hn : attempt - 1 < 32).
  { apply (Z.pow_lt_mono_r_iff 2); [lia | lia | nia]. }
  assert (Hp32 : 2 ^ (attempt - 1) < 2 ^ 32) by nia.
  rewrite (wrap32_small (attempt - 1)) by lia.
  unfold shl1.
  replace ((0 <=? attempt - 1) && (attempt - 1 <=? 31)) with true
    by (symmetry; apply andb_true_iff; split; [apply Z.leb_le | apply Z.leb_le]; lia).
  rewrite wrap32_to_int, (wrap32_small (2 ^ (attempt - 1))) by lia.
  apply wrap32_small. nia.
Qed.

(** C7, as the code has it.  For an attempt from 1 on, a reconnect interval of
    at least 1 ms, no wrap-around of [interval * 2^(attempt-1)] in 32 bits and
    a jitter factor in [0.8, 1.2]: with [m = min(interval * 2^(attempt-1),
    30000)], the delay is [max(1, floor(d))], where [d] is the double nearest
    to [m * jitter] (the product is formed in double precision).  It is
    [max(1, floor(m * jitter))], or the whole number above when the product
    rounds up to it; it is at least 1, at most [1.2 m], and above
    [0.8 m - 1]. *)
Theorem calculateReconnectDelay_window (st : state) (attempt : Z) :
  1 <= attempt ->
  1 <= m_reconnectInterval (this st) ->
  m_reconnectInterval (this st) * 2 ^ (attempt - 1) < 2 ^ 32 ->
  (4 # 5 <= fst (uniform_real_08_12 (world st)))%Q ->
  (fst (uniform_real_08_12 (world st)) <= 6 # 5)%Q ->
  exists delay : Z,
    fst (calculateReconnectDelay attempt st) = Ok delay /\
    delay = Z.max 1 (Qfloor (round_double
              (inject_Z (Z.min (m_reconnectInterval (this st) * 2 ^ (attempt - 1)) 30000)
               * fst (uniform_real_08_12 (world st))))) /\
    Z.max 1 (Qfloor
              (inject_Z (Z.min (m_reconnectInterval (this st) * 2 ^ (attempt - 1)) 30000)
               * fst (uniform_real_08_12 (world st)))) <= delay /\
    delay <= Z.max 1 (Qceiling
              (inject_Z (Z.min (m_reconnectInterval (this st) * 2 ^ (attempt - 1)) 30000)
               * fst (uniform_real_08_12 (world st)))) /\
    1 <= delay /\
    (inject_Z (Z.min (m_reconnectInterval (this st) * 2 ^ (attempt - 1)) 30000)
       * (4 # 5) - 1 < inject_Z delay)%Q /\
    (inject_Z delay <=
       inject_Z (Z.min (m_reconnectInterval (this st) * 2 ^ (attempt - 1)) 30000)
       * (6 # 5))%Q.
Proof.
  intros Ha Hi Hno Hlo Hhi.
  unfold calculateReconnectDelay, reconnectDelay, bind, gets, ret, platform; simpl.
  destruct (uniform_real_08_12 (world st)) as [jitter w]; simpl in *.
  rewrite exponentialDelay_exact by assumption.
  eexists; split; [reflexivity|].
  apply jitter_window; try assumption.
  assert (0 < 2 ^ (attempt - 1)) by (apply Z.pow_pos_nonneg; lia).
  split; [apply Z.min_glb; nia | apply Z.le_min_r].
Qed.

Lemma frame_refl st : frame st st.
Proof. split; reflexivity. Qed.

Lemma frame_trans st1 st2 st3 : frame st1 st2 -> frame st2 st3 -> frame st1 st3.
Proof. intros [] []; split; congruence. Qed.

Lemma reconnect_loop_returns (fuel : nat) : forall (attempt : Z) st,
  1 <= attempt <= m_reconnectAttempts (this st) + 1 ->
  m_reconnectAttempts (this st) < UINT_MAX ->
  (Z.to_nat (m_reconnectAttempts (this st) + 1 - attempt) < fuel)%nat ->
  wp (reconnect_loop fuel attempt)
     (fun r st' => exists b : bool, r = Ok b /\ frame st st' /\ calls st' = calls st) st.
Proof.
  induction fuel as [|fuel IH]; intros attempt st Ha Hn Hfuel; [lia|].
  simpl. wp_steps.
  destruct (Z.leb_spec attempt (m_reconnectAttempts (this st))) as [Hle | Hgt].
  - wp_steps. unfold real_connect. wp_steps. 
    destruct (fst (mysql_real_connect _ _ _ _ _ _ _)).
    + wp_steps. eexists. split; [reflexivity|]. split; [split; reflexivity | reflexivity].
    + wp_steps. unfold calculateReconnectDelay. wp_steps.
      destruct (attempt <? m_reconnectAttempts (this st)); wp_steps.
      all: eapply wp_mono; [apply IH; simpl; rewrite ?wrap32_small by (unfold UINT_MAX in *; lia); lia|].
      all: intros r st' (b & -> & Hf & Hc); exists b; split; [reflexivity|]; split; [destruct Hf; split; simpl in *; congruence | exact Hc].
  - wp_steps. eexists. split; [reflexivity|]. split; [split; reflexivity | reflexivity].
Qed.

Lemma reconnect_returns (rfuel : nat) st :
  0 <= m_reconnectAttempts (this st) < UINT_MAX ->
  (Z.to_nat (m_reconnectAttempts (this st)) < rfuel)%nat ->
  wp (reconnect rfuel)
     (fun r st' =>
        (r = Throw init_failed \/ exists b : bool, r = Ok b) /\
        frame st st' /\ calls st' = calls st ++ [call_reconnect r]) st.
Proof.
  intros Hn Hfuel. unfold reconnect, init. wp_steps.
  destruct (m_mysql (this st)) as [h|]; wp_steps; simpl.
  all: destruct (fst (mysql_init _)) as [h'|]; wp_steps; simpl.
  2, 4: split; [left; reflexivity|]; split; [split; reflexivity | reflexivity].
  all: eapply wp_mono; [apply reconnect_loop_returns; simpl; try lia;
                         replace (m_reconnectAttempts (this st) + 1 - 1)
                           with (m_reconnectAttempts (this st)) by lia; lia|].
  all: intros r st' (b & -> & Hf & Hc); split; [right; exists b; reflexivity|];
       split; [destruct Hf; split; simpl in *; congruence | simpl; rewrite Hc; reflexivity].
Qed.

Lemma executeInternal_outcome (sql : string) (isQuery : bool) st :
  wp (executeInternal sql isQuery)
     (fun r st' =>
        ((exists q, r = Ok q) \/ (exists what code, r = Throw (SQLExecutionError what code))) /\
        frame st st' /\ calls st' = calls st ++ [call_executeInternal r]) st.
Proof.
  unfold executeInternal, updateLastActiveTime. wp_steps.
  destruct (m_mysql (this st)) as [h|]; wp_steps.
  2: { split; [right; eauto|]. split; [split; reflexivity | reflexivity]. }
  destruct (negb _); wp_steps.
  { split; [right; eauto|]. split; [split; reflexivity | reflexivity]. }
  destruct isQuery; wp_steps.
  - destruct (fst (mysql_store_result _ _)); wp_steps.
    + split; [left; eauto|]. split; [split; reflexivity | reflexivity].
    + destruct (0 <? _); wp_steps.
      * split; [right; eauto|]. split; [split; reflexivity | reflexivity].
      * split; [left; eauto|]. split; [split; reflexivity | reflexivity].
  - split; [left; eauto|]. split; [split; reflexivity | reflexivity].
Qed.

Lemma exhausted_message_frame st st' sql isQuery :
  frame st st' ->
  exhausted_message (this st') sql isQuery = exhausted_message (this st) sql isQuery.
Proof. intros [Ha Hi _ _]. unfold exhausted_message. rewrite Ha, Hi. reflexivity. Qed.

Lemma query_recorded_frame (b : bool) st st' st'' :
  frame st st' -> 
  query_recorded b (monitor st') (monitor st'') -> query_recorded b (monitor st) (monitor st'').
Proof. intros [_ _ Hq Hf]. unfold query_recorded. rewrite Hq, Hf. tauto. Qed.

(** Calls that did not raise and left the query counters alone, put in front
    of a log, do not change what the log records. *)
Lemma recorded_after {A} (pre : list call) (X : call) (log : list call) (r : res A)
    (m0 m m' : PerformanceMonitor.t) :
  (forall e, X <> call_reconnect (Throw e)) ->
  PerformanceMonitor.m_totalQueriesExecuted m = PerformanceMonitor.m_totalQueriesExecuted m0 ->
  PerformanceMonitor.m_failedQueries m = PerformanceMonitor.m_failedQueries m0 ->
  recorded log r m m' -> recorded (pre ++ X :: log) r m0 m'.
Proof.
  intros HX Hq Hf. unfold recorded, query_recorded.
  replace (last (pre ++ X :: log))
    with (match last log with Some y => Some y | None => Some X end).
  2: { destruct log as [|c l] using rev_ind.
       - symmetry. apply last_snoc.
       - rewrite last_snoc. change (X :: l ++ [c]) with ((X :: l) ++ [c]).
         rewrite app_assoc. symmetry. apply last_snoc. }
  rewrite <- Hq, <- Hf.
  destruct (last log) as [c|]; [exact (fun H => H)|].
  destruct X as [o | o]; try exact (fun H => H).
  destruct o; try exact (fun H => H). exfalso. eapply HX. reflexivity.
Qed.

Lemma retry_loop_log (rfuel : nat) (sql : string) (isQuery : bool) (startTime : Z)
    (fuel : nat) : forall (attempt errorCode : Z) (errorMessage : string) st,
  0 <= attempt <= m_reconnectAttempts (this st) + 1 ->
  m_reconnectAttempts (this st) < UINT_MAX ->
  (Z.to_nat (m_reconnectAttempts (this st) + 1 - attempt) < fuel)%nat ->
  (Z.to_nat (m_reconnectAttempts (this st)) < rfuel)%nat ->
  wp (executeQueryWithReconnect_loop fuel rfuel sql isQuery startTime attempt
        errorCode errorMessage)
     (fun r st' => exists log,
          calls st' = calls st ++ log /\
          retry_log (exhausted_message (this st) sql isQuery)
            (m_reconnectAttempts (this st)) attempt errorMessage log r /\
          recorded log r (monitor st) (monitor st') /\
          m_reconnectAttempts (this st') = m_reconnectAttempts (this st) /\
          m_connectionId (this st') = m_connectionId (this st) /\
          (0 < attempt <= m_reconnectAttempts (this st) ->
           exists post, log = call_reconnect (fst (reconnect rfuel st)) :: post)) st.
Proof.
  induction fuel as [|fuel IH]; intros attempt errorCode errorMessage st Ha Hn Hfuel Hrfuel;
    [lia|].
  simpl. wp_steps.
  destruct (Z.leb_spec attempt (m_reconnectAttempts (this st))) as [Hle | Hgt].
  2: { wp_steps. exists []. rewrite app_nil_r.
       split; [reflexivity|]. split; [constructor; exact Hgt|].
       split; [split; reflexivity|]. split; [reflexivity|]. split; [reflexivity|].
       intros. lia. }
  (* what the turn does once the session is connected *)
  assert (Hturn : forall st1 prefix,
    frame st st1 -> calls st1 = calls st ++ prefix ->
    prefix = (if 0 <? attempt then [call_reconnect (Ok true)] else []) ->
    (0 < attempt -> Ok true = fst (reconnect rfuel st)) ->
    wp (do outcome <-
          try_catch
            (do queryResult <- executeInternal sql isQuery;
             do endTime <- platform steady_clock_now;
             run telemetry (PerformanceMonitor.recordQueryExecuted (endTime - startTime) true);
             ret (returned queryResult))
            (fun e =>
               match e with
               | SQLExecutionError what errorCode =>
                 if negb (isConnectionError errorCode) then
                   do endTime <- platform steady_clock_now;
                   run telemetry
                     (PerformanceMonitor.recordQueryExecuted (endTime - startTime) false);
                   throw (runtime_error "exectuteQueryWithReconnection meet other errors")
                 else ret (next_attempt errorCode what)
               | _ => throw e
               end);
        match outcome with
        | returned queryResult => ret queryResult
        | next_attempt errorCode errorMessage =>
          executeQueryWithReconnect_loop fuel rfuel sql isQuery startTime
            (wrap32 (attempt + 1)) errorCode errorMessage
        end)
     (fun r st' => exists log,
          calls st' = calls st ++ log /\
          retry_log (exhausted_message (this st) sql isQuery)
            (m_reconnectAttempts (this st)) attempt errorMessage log r /\
          recorded log r (monitor st) (monitor st') /\
          m_reconnectAttempts (this st') = m_reconnectAttempts (this st) /\
          m_connectionId (this st') = m_connectionId (this st) /\
          (0 < attempt <= m_reconnectAttempts (this st) ->
           exists post, log = call_reconnect (fst (reconnect rfuel st)) :: post)) st1).
  { intros st1 prefix Hf1 Hc1 Hprefix Hfirst.
    assert (Hhead : forall rest, 0 < attempt <= m_reconnectAttempts (this st) ->
              exists post, prefix ++ rest = call_reconnect (fst (reconnect rfuel st)) :: post).
    { intros rest Hpos. subst prefix. rewrite <- Hfirst by lia.
      destruct (Z.ltb_spec 0 attempt); [|lia]. eexists. reflexivity. }
    wp_steps.
    eapply wp_mono; [apply executeInternal_outcome|].
    intros r st2 (Hr & Hf2 & Hc2).
    pose proof (frame_trans _ _ _ Hf1 Hf2) as Hf.
    destruct Hr as [(q & ->) | (what & code & ->)]; cbn beta iota.
    - wp_steps.
      exists (prefix ++ [call_executeInternal (Ok q)]).
      simpl. rewrite Hc2, Hc1, <- app_assoc.
      split; [reflexivity|]. split; [subst prefix; constructor; exact Hle|].
      destruct Hf as [Hfa Hfi Hfq Hff].
      split; [unfold recorded; rewrite last_snoc; split; simpl; congruence|].
      split; [assumption|]. split; [assumption|]. apply Hhead.
    - destruct (isConnectionError code) eqn:Hcode; cbn [negb]; wp_steps.
      + (* transport error: next attempt *)
        eapply wp_mono.
        { apply IH; destruct Hf as [Hfa _ _ _]; rewrite ?Hfa;
            rewrite ?wrap32_small by (unfold UINT_MAX in *; lia); lia. }
        intros r st3 (log & Hc3 & Hlog & Hrec & Ha3 & Hi3 & _).
        exists (prefix ++ call_executeInternal (Throw (SQLExecutionError what code)) :: log).
        rewrite Hc3, Hc2, Hc1, <- !app_assoc. split; [reflexivity|].
        rewrite (exhausted_message_frame _ _ _ _ Hf) in Hlog.
        destruct Hf as [Hfa Hfi Hfq Hff].
        rewrite Hfa in Hlog. rewrite wrap32_small in Hlog by (unfold UINT_MAX in *; lia).
        split; [subst prefix; econstructor; eassumption|].
        split; [eapply recorded_after; [discriminate | exact Hfq | exact Hff | exact Hrec]|].
        split; [congruence|]. split; [congruence|]. apply Hhead.
      + exists (prefix ++ [call_executeInternal (Throw (SQLExecutionError what code))]).
        simpl. rewrite Hc2, Hc1, <- app_assoc.
        split; [reflexivity|]. split; [subst prefix; constructor; assumption|].
        destruct Hf as [Hfa Hfi Hfq Hff].
        split; [unfold recorded; rewrite last_snoc; split; simpl; congruence|].
        split; [assumption|]. split; [assumption|]. apply Hhead. }
  apply wp_bind.
  destruct (Z.ltb_spec 0 attempt) as [Hpos | Hzero].
  - eapply wp_mono; [apply wp_self, reconnect_returns; lia|].
    intros r st1 (Hself & [-> | (b & ->)] & Hf1 & Hc1); unfold then_wp.
    { exists [call_reconnect (Throw init_failed)].
      split; [exact Hc1|]. split; [constructor; lia|].
      destruct Hf1 as [Hfa Hfi Hfq Hff].
      split; [split; assumption|]. split; [assumption|]. split; [assumption|].
      intros _. rewrite <- Hself. eexists. reflexivity. }
    destruct b; cbn [negb].
    + apply (Hturn st1 [call_reconnect (Ok true)]); [assumption | assumption | |].
      * destruct (Z.ltb_spec 0 attempt); [reflexivity | lia].
      * intros _. exact Hself.
    + eapply wp_mono.
      { apply IH; destruct Hf1 as [Hfa _ _ _]; rewrite ?Hfa;
          rewrite ?wrap32_small by (unfold UINT_MAX in *; lia); lia. }
      intros r st3 (log & Hc3 & Hlog & Hrec & Ha3 & Hi3 & _).
      exists (call_reconnect (Ok false) :: log).
      rewrite Hc3, Hc1, <- app_assoc. split; [reflexivity|].
      rewrite (exhausted_message_frame _ _ _ _ Hf1) in Hlog.
      destruct Hf1 as [Hfa Hfi Hfq Hff].
      rewrite Hfa in Hlog. rewrite wrap32_small in Hlog by (unfold UINT_MAX in *; lia).
      split; [constructor; [lia | exact Hlog]|].
      split; [eapply (recorded_after []);
               [discriminate | exact Hfq | exact Hff | exact Hrec]|].
      split; [congruence|]. split; [congruence|].
      intros _. rewrite <- Hself. eexists. reflexivity.
  - wp_step. cbn [negb].
    apply (Hturn st []); [apply frame_refl | rewrite app_nil_r; reflexivity | |].
    + destruct (Z.ltb_spec 0 attempt); [lia | reflexivity].
    + intros Hpos. lia.
Qed.

(** C6, as the code has it.  For a session whose [reconnect_attempts] [n] is
    below [UINT_MAX], [executeQueryWithReconnect] ends, by returning a result
    or by raising a runtime error, and its calls of [reconnect] and
    [executeInternal] form a log of the retry loop from attempt 0.  An attempt
    is ended by an invocation of [executeInternal], by a [reconnect] that
    returns false or by a [reconnect] that raises; there are at most [n + 1]
    attempts and the first call is an invocation of [executeInternal].
    - A result ends the loop and is the result of the call.
    - An SQL error of a non-transport kind ends the loop with the "other
      errors" runtime error.
    - An SQL error of a transport kind, in an attempt that is not the last,
      is followed by the [reconnect] of the next attempt; in the last attempt
      it ends the loop and the runtime error carries its message.
    - A [reconnect] that returns false, in an attempt that is not the last, is
      followed by the [reconnect] of the next attempt; in the last attempt it
      ends the loop and the runtime error carries "Failed to reconnect".
    - A [reconnect] that raises (no driver handle could be made) ends the
      loop with its own runtime error, and no query is recorded.
    - A [reconnect] that returns true is followed by an invocation of
      [executeInternal], and every invocation but the first directly follows
      such a [reconnect].
    - The loop ends before the attempts are used up only with a result, with
      an SQL error of a non-transport kind or with a [reconnect] that raised.
    In every case but that of a [reconnect] that raised, the query is
    recorded, as a success for a result and as a failure for an error. *)
Theorem executeQueryWithReconnect_attempts (fuel rfuel : nat) (sql : string)
    (isQuery : bool) st :
  0 <= m_reconnectAttempts (this st) < UINT_MAX ->
  (Z.to_nat (m_reconnectAttempts (this st) + 1) < fuel)%nat ->
  (Z.to_nat (m_reconnectAttempts (this st)) < rfuel)%nat ->
  exists (r : res QueryResult) (st' : state) (log : list call),
    executeQueryWithReconnect fuel rfuel sql isQuery st = (r, st') /\
    calls st' = calls st ++ log /\
    retry_log (exhausted_message (this st) sql isQuery)
      (m_reconnectAttempts (this st)) 0 "" log r /\
    ((exists q, r = Ok q) \/ (exists what, r = Throw (runtime_error what))) /\
    recorded log r (monitor st) (monitor st') /\
    (exists outcome post, log = call_executeInternal outcome :: post) /\
    count_executeInternal log <= turns log <= m_reconnectAttempts (this st) + 1 /\
    (forall pre q post,
        log = pre ++ call_executeInternal (Ok q) :: post ->
        post = [] /\ r = Ok q) /\
    (forall pre post what code,
        log = pre ++ call_executeInternal (Throw (SQLExecutionError what code)) :: post ->
        isConnectionError code = false ->
        post = [] /\ r = Throw other_errors) /\
    (forall pre post what code,
        log = pre ++ call_executeInternal (Throw (SQLExecutionError what code)) :: post ->
        isConnectionError code = true ->
        (turns (pre ++ [call_executeInternal (Throw (SQLExecutionError what code))])
           < m_reconnectAttempts (this st) + 1 ->
         exists c post', post = call_reconnect c :: post') /\
        (turns (pre ++ [call_executeInternal (Throw (SQLExecutionError what code))])
           = m_reconnectAttempts (this st) + 1 ->
         post = [] /\
         r = Throw (runtime_error (exhausted_message (this st) sql isQuery what)))) /\
    (forall pre post,
        log = pre ++ call_reconnect (Ok false) :: post ->
        (turns (pre ++ [call_reconnect (Ok false)]) < m_reconnectAttempts (this st) + 1 ->
         exists c post', post = call_reconnect c :: post') /\
        (turns (pre ++ [call_reconnect (Ok false)]) = m_reconnectAttempts (this st) + 1 ->
         post = [] /\
         r = Throw (runtime_error
                      (exhausted_message (this st) sql isQuery "Failed to reconnect")))) /\
    (forall pre e post,
        log = pre ++ call_reconnect (Throw e) :: post ->
        e = init_failed /\ post = [] /\ r = Throw init_failed) /\
    (forall pre post,
        log = pre ++ call_reconnect (Ok true) :: post ->
        exists outcome post', post = call_executeInternal outcome :: post') /\
    (forall pre X post,
        log = pre ++ X :: post -> is_executeInternal X = true ->
        pre = [] \/ (exists pre', pre = pre' ++ [call_reconnect (Ok true)])) /\
    (turns log < m_reconnectAttempts (this st) + 1 ->
     (exists q, r = Ok q /\ last log = Some (call_executeInternal (Ok q))) \/
     (exists what code,
        r = Throw other_errors /\ isConnectionError code = false /\
        last log = Some (call_executeInternal (Throw (SQLExecutionError what code)))) \/
     (r = Throw init_failed /\ last log = Some (call_reconnect (Throw init_failed)))).
Proof.
  intros Hn Hfuel Hrfuel.
  assert (Hwp : wp (executeQueryWithReconnect fuel rfuel sql isQuery)
            (fun r st' => exists log,
               calls st' = calls st ++ log /\
               retry_log (exhausted_message (this st) sql isQuery)
                 (m_reconnectAttempts (this st)) 0 "" log r /\
               recorded log r (monitor st) (monitor st')) st).
  { unfold executeQueryWithReconnect. wp_steps.
    eapply wp_mono; [apply retry_loop_log; simpl; lia|].
    intros r st' (log & Hc & Hlog & Hrec & _). exists log. auto. }
  apply wp_elim in Hwp. destruct Hwp as (r & st' & Hrun & log & Hc & Hlog & Hrec).
  pose proof (retry_log_split _ _ _ _ _ _ Hlog (Z.le_refl 0)) as Hsplit.
  exists r, st', log.
  split; [exact Hrun|]. split; [exact Hc|]. split; [exact Hlog|].
  split; [eapply retry_log_result; exact Hlog|].
  split; [exact Hrec|].
  split; [eapply retry_log_first; [exact Hlog | lia]|].
  split; [split; [apply count_le_turns
                 | pose proof (retry_log_turns _ _ _ _ _ _ Hlog); lia]|].
  split.
  { intros pre q post Heq. exact (proj2 (Hsplit _ _ _ Heq eq_refl)). }
  split.
  { intros pre post what code Heq Hcode.
    pose proof (proj2 (Hsplit _ _ _ Heq eq_refl)) as Hs.
    cbn beta iota in Hs. rewrite Hcode in Hs. exact Hs. }
  split.
  { intros pre post what code Heq Hcode.
    pose proof (proj2 (Hsplit _ _ _ Heq eq_refl)) as Hs.
    cbn beta iota in Hs. rewrite Hcode in Hs. exact Hs. }
  split.
  { intros pre post Heq. exact (proj2 (Hsplit _ _ _ Heq eq_refl)). }
  split.
  { intros pre e post Heq.
    destruct (proj2 (Hsplit _ _ _ Heq eq_refl)) as (-> & -> & ->). auto. }
  split; [intros pre post Heq; eapply retry_log_after_reconnect; eassumption|].
  split.
  - intros pre X post Heq HX.
    destruct (retry_log_preceded _ _ _ _ _ _ Hlog ltac:(lia) _ _ _ Heq HX)
      as [(_ & Hp) | Hp]; auto.
  - intros Hearly. eapply retry_log_early; [exact Hlog | lia | lia].
Qed.

End WithPlatform.

Lemma calculateReconnectDelay_window_witness :
  exists delay : Z,
    fst (calculateReconnectDelay 2 (Scripted.session_state 1000 3 Scripted.healthy))
      = Ok delay /\
    1 <= delay /\
    (inject_Z (Z.min (1000 * 2 ^ (2 - 1)) 30000) * (4 # 5) - 1 < inject_Z delay)%Q /\
    (inject_Z delay <= inject_Z (Z.min (1000 * 2 ^ (2 - 1)) 30000) * (6 # 5))%Q.
Proof.
  destruct (calculateReconnectDelay_window
              (Scripted.session_state 1000 3 Scripted.healthy) 2)
    as (delay & Hrun & _ & _ & _ & Hone & Hlow & Hhigh).
  - lia.
  - simpl. lia.
  - simpl. lia.
  - vm_compute. discriminate.
  - vm_compute. discriminate.
  - exists delay. repeat split; assumption.
Defined.

Lemma executeInternal_server_gone (sql : string) (isQuery : bool) st :
  Scripted.server_gone st ->
  wp (executeInternal sql isQuery)
     (fun r st' =>
        (exists what, r = Throw (SQLExecutionError what 2006)) /\ Scripted.server_gone st' /\
        count_executeInternal (calls st') = count_executeInternal (calls st) + 1) st.
Proof.
  destruct st as [c w m log]. destruct w. unfold Scripted.server_gone. simpl.
  intros (Hn & -> & -> & ->).
  unfold executeInternal, updateLastActiveTime. wp_steps. simpl.
  destruct (m_mysql c) as [h|]; wp_steps; simpl.
  - split; [eauto|]. split; [auto|]. rewrite count_executeInternal_app. reflexivity.
  - split; [eauto|]. split; [auto|]. rewrite count_executeInternal_app. reflexivity.
Qed.

Lemma reconnect_server_gone st :
  Scripted.server_gone st ->
  wp (reconnect 1)
     (fun r st' =>
        r = Ok true /\ Scripted.server_gone st' /\
        count_executeInternal (calls st') = count_executeInternal (calls st)) st.
Proof.
  destruct st as [c w m log]. destruct w. unfold Scripted.server_gone. simpl.
  intros (Hn & -> & -> & ->).
  unfold reconnect, init. wp_steps. simpl.
  destruct (m_mysql c) as [h|]; wp_steps; simpl; wp_steps; simpl.
  all: wp_steps; simpl; rewrite Hn; simpl; unfold real_connect; wp_steps; simpl;
       wp_steps; simpl.
  all: split; [reflexivity|]; split; [auto|]; rewrite count_executeInternal_app.
  all: change (count_executeInternal [call_reconnect (Ok true)]) with 0; lia.
Qed.

Lemma retry_loop_server_gone (sql : string) (isQuery : bool) (startTime : Z)
    (fuel : nat) : forall (attempt errorCode : Z) (errorMessage : string) st,
  Scripted.server_gone st -> 0 <= attempt <= UINT_MAX ->
  wp (executeQueryWithReconnect_loop fuel 1 sql isQuery startTime attempt
        errorCode errorMessage)
     (fun r st' =>
        r = OutOfFuel /\
        count_executeInternal (calls st') = count_executeInternal (calls st) + Z.of_nat fuel) st.
Proof.
  induction fuel as [|fuel IH]; intros attempt errorCode errorMessage st Hgone Ha.
  - split; [reflexivity|]. simpl. lia.
  - cbn [executeQueryWithReconnect_loop]. wp_steps.
    pose proof Hgone as (Hn & _ & _). rewrite Hn.
    destruct (Z.leb_spec attempt UINT_MAX) as [_|]; [|lia].
    assert (Hturn : forall st1,
      Scripted.server_gone st1 -> count_executeInternal (calls st1) = count_executeInternal (calls st) ->
      wp (do outcome <-
          try_catch
            (do queryResult <- executeInternal sql isQuery;
             do endTime <- platform steady_clock_now;
             run telemetry (PerformanceMonitor.recordQueryExecuted (endTime - startTime) true);
             ret (returned queryResult))
            (fun e =>
               match e with
               | SQLExecutionError what errorCode =>
                 if negb (isConnectionError errorCode) then
                   do endTime <- platform steady_clock_now;
                   run telemetry
                     (PerformanceMonitor.recordQueryExecuted (endTime - startTime) false);
                   throw (runtime_error "exectuteQueryWithReconnection meet other errors")
                 else ret (next_attempt errorCode what)
               | _ => throw e
               end);
        match outcome with
        | returned queryResult => ret queryResult
        | next_attempt errorCode errorMessage =>
          executeQueryWithReconnect_loop fuel 1 sql isQuery startTime
            (wrap32 (attempt + 1)) errorCode errorMessage
        end)
      (fun r st' =>
        r = OutOfFuel /\
        count_executeInternal (calls st') = count_executeInternal (calls st) + Z.of_nat (S fuel)) st1).
    { intros st1 Hgone1 Hcount1. wp_steps.
      eapply wp_mono; [apply executeInternal_server_gone; exact Hgone1|].
      intros r st2 ((what & ->) & Hgone2 & Hcount2). cbn beta iota.
      change (isConnectionError 2006) with true. cbn [negb]. wp_steps.
      eapply wp_mono.
      { apply IH; [exact Hgone2|]. pose proof (wrap32_range (attempt + 1)). unfold UINT_MAX. lia. }
      intros r st3 (-> & Hcount3). split; [reflexivity|]. lia. }
    apply wp_bind.
    destruct (0 <? attempt).
    + eapply wp_mono; [apply reconnect_server_gone; exact Hgone|].
      intros r st1 (-> & Hgone1 & Hcount1). unfold then_wp. cbn [negb].
      apply Hturn; assumption.
    + wp_step. cbn [negb]. apply Hturn; [assumption | reflexivity].
Qed.

Lemma executeQueryWithReconnect_attempts_witness :
  exists (r : res QueryResult) (st' : state) (log : list call),
    executeQueryWithReconnect 4 3 "SELECT 1 AS v" true
      (Scripted.session_state 1000 2
         (Scripted.with_queries [2013; 0] Scripted.healthy)) = (r, st') /\
    count_executeInternal log <= turns log <= 2 + 1.
Proof.
  destruct (executeQueryWithReconnect_attempts 4 3 "SELECT 1 AS v" true
              (Scripted.session_state 1000 2
                 (Scripted.with_queries [2013; 0] Scripted.healthy)))
    as (r & st' & log & Hrun & _ & _ & _ & _ & _ & Hcount & _).
  - simpl. unfold UINT_MAX. lia.
  - simpl. lia.
  - simpl. lia.
  - exists r, st', log. split; [exact Hrun | exact Hcount].
Defined.

(** Transport failure and recovery: the first query fails with error 2013,
    the reconnect succeeds and the second query returns.  Two invocations of
    [executeInternal] with one [reconnect] between them, one successful
    reconnect counted by the session and by the telemetry. *)
Example executeQueryWithReconnect_recovers :
  let st := Scripted.session_state 1000 2
              (Scripted.with_queries [2013; 0] Scripted.healthy) in
  let out := executeQueryWithReconnect 4 3 "SELECT 1 AS v" true st in
  fst out = Ok (mkQueryResult (Some O) 0) /\
  calls (snd out) =
    [call_executeInternal
       (Throw (SQLExecutionError "driver error (Code: 2013)" 2013));
     call_reconnect (Ok true);
     call_executeInternal (Ok (mkQueryResult (Some O) 0))] /\
  m_totalReconnectAttempts (this (snd out)) = 1 /\
  m_successfulReconnects (this (snd out)) = 1 /\
  PerformanceMonitor.m_successfulReconnections (monitor (snd out)) = 1 /\
  PerformanceMonitor.m_failedQueries (monitor (snd out)) = 0.
Proof. vm_compute. repeat split; reflexivity. Qed.

(** All attempts used up: every query fails with error 2013 and every
    reconnect succeeds.  With [reconnect_attempts = 2] the loop makes three
    attempts, each an invocation of [executeInternal], and raises the runtime
    error that carries the last message; the query is recorded as failed. *)
Example executeQueryWithReconnect_exhausts :
  let st := Scripted.session_state 1000 2
              (Scripted.with_queries [2013] Scripted.healthy) in
  let out := executeQueryWithReconnect 4 3 "SELECT 1 AS v" true st in
  let failure :=
    call_executeInternal (Throw (SQLExecutionError "driver error (Code: 2013)" 2013)) in
  fst out = Throw (runtime_error
                     (exhausted_message (this st) "SELECT 1 AS v" true
                        "driver error (Code: 2013)")) /\
  calls (snd out) =
    [failure; call_reconnect (Ok true); failure; call_reconnect (Ok true); failure] /\
  turns (calls (snd out)) = 2 + 1 /\
  PerformanceMonitor.m_totalQueriesExecuted (monitor (snd out)) = 1 /\
  PerformanceMonitor.m_failedQueries (monitor (snd out)) = 1.
Proof. vm_compute. repeat split; reflexivity. Qed.

(** The driver has no handle to give: the first query fails with error 2013
    and [reconnect] raises from [init], outside the [try] block.  The call
    ends with that runtime error after one attempt, and no query is
    recorded. *)
Example executeQueryWithReconnect_init_fails :
  let st := Scripted.session_state 1000 2
              (Scripted.with_inits [1] (Scripted.with_queries [2013] Scripted.healthy)) in
  let out := executeQueryWithReconnect 4 3 "SELECT 1 AS v" true st in
  fst out = Throw init_failed /\
  calls (snd out) =
    [call_executeInternal (Throw (SQLExecutionError "driver error (Code: 2013)" 2013));
     call_reconnect (Throw init_failed)] /\
  m_mysql (this (snd out)) = None /\
  PerformanceMonitor.m_totalQueriesExecuted (monitor (snd out)) = 0 /\
  PerformanceMonitor.m_failedQueries (monitor (snd out)) = 0.
Proof. vm_compute. repeat split; reflexivity. Qed.

(** C6 as stated fails.  With [reconnect_attempts = UINT_MAX] the test
    [attempt <= m_reconnectAttempts] of the retry loop holds for every value
    of the 32-bit counter: against a server on which every query fails with
    error 2006, [reconnect_attempts + 2] turns of the loop have invoked
    [executeInternal] [reconnect_attempts + 2] times and the loop has not
    ended. *)
Lemma executeQueryWithReconnect_unbounded :
  let st := Scripted.session_state 1000 UINT_MAX
              (Scripted.with_queries [2006] Scripted.healthy) in
  let fuel := Z.to_nat (m_reconnectAttempts (this st) + 2) in
  fst (executeQueryWithReconnect fuel 1 "SELECT 1" true st) = OutOfFuel /\
  m_reconnectAttempts (this st) + 1 <
    count_executeInternal
      (calls (snd (executeQueryWithReconnect fuel 1 "SELECT 1" true st))).
Proof.
  intros st fuel.
  assert (Hwp : wp (executeQueryWithReconnect fuel 1 "SELECT 1" true)
            (fun r st' => r = OutOfFuel /\
               count_executeInternal (calls st') = Z.of_nat fuel) st).
  { unfold executeQueryWithReconnect. wp_steps.
    eapply wp_mono.
    { apply retry_loop_server_gone; [|unfold UINT_MAX; lia].
      repeat split. }
    intros r st' (-> & Hcount). split; [reflexivity|]. exact Hcount. }
  destruct Hwp as [Hr Hcount]. split; [exact Hr|].
  rewrite Hcount. subst fuel. rewrite Z2Nat.id.
  - lia.
  - change (m_reconnectAttempts (this st)) with UINT_MAX. unfold UINT_MAX. lia.
Qed.

(** C7 as stated fails.  With a reconnect interval of 3 ms, first attempt and
    a jitter factor of 7/8 the delay is 2 ms, below 0.8 * 3 = 2.4 ms. *)
Lemma calculateReconnectDelay_below_window :
  let st := Scripted.session_state 3 3
              (Scripted.with_jitter (7 # 8) Scripted.healthy) in
  fst (calculateReconnectDelay 1 st) = Ok 2 /\
  ~ (inject_Z (Z.min (3 * 2 ^ (1 - 1)) 30000) * (4 # 5) <= inject_Z 2)%Q.
Proof.
  split; [reflexivity|].
  vm_compute. intros Hle. apply Hle. reflexivity.
Qed.

(** The 32-bit product wraps: with the default interval of 1000 ms the
    exponential delay of attempt 30 is [1000 * 2^29 mod 2^32 = 0], and the
    delay is the floor of 1 ms instead of about 30 s. *)
Lemma calculateReconnectDelay_wraps :
  fst (calculateReconnectDelay 30 (Scripted.session_state 1000 30 Scripted.healthy))
    = Ok 1.
Proof. reflexivity. Qed.

(** The product is rounded to a double before the cast truncates it.  With
    an interval of 1000 ms, first attempt and the jitter factor
    [114138103056171 / 2^47], a double just below 0.811, the exact product is
    [811 - 2^-44]; the nearest double is 811 and the delay is 811 ms, one
    more than the floor of the exact product. *)
Lemma calculateReconnectDelay_rounds_up :
  let jitter := (114138103056171 # 140737488355328)%Q in
  let st := Scripted.session_state 1000 3
              (Scripted.with_jitter jitter Scripted.healthy) in
  fst (calculateReconnectDelay 1 st) = Ok 811 /\
  (inject_Z 1000 * jitter == 811 - (1 # 17592186044416))%Q /\
  (double_mul (inject_Z 1000) jitter == 811)%Q /\
  Qfloor (inject_Z 1000 * jitter) = 810.
Proof. repeat split; vm_compute; reflexivity. Qed.

(** [double_mul] agrees with the multiplication of the Standard Library's
    specification of IEEE 754 at binary64 ([SFmul] with a precision of 53
    bits and a maximal exponent of 1024) on these products of a delay and a
    jitter factor: the one above, 3 by 7/8, and 30000, 7 and 1 by the doubles
    nearest to 0.8 and to 1.2. *)
Example double_mul_agrees_with_SFmul :
  Forall (fun '(a, b) =>
            (double_mul (SF2Q a) (SF2Q b) == SF2Q (SpecFloat.SFmul 53 1024 a b))%Q)
    [(SpecFloat.S754_finite false 1000 0,
      SpecFloat.S754_finite false 114138103056171 (-47));
     (SpecFloat.S754_finite false 3 0, SpecFloat.S754_finite false 7 (-3));
     (SpecFloat.S754_finite false 30000 0,
      SpecFloat.S754_finite false 7205759403792794 (-53));
     (SpecFloat.S754_finite false 30000 0,
      SpecFloat.S754_finite false 5404319552844595 (-52));
     (SpecFloat.S754_finite false 7 0,
      SpecFloat.S754_finite false 7205759403792794 (-53));
     (SpecFloat.S754_finite false 7 0,
      SpecFloat.S754_finite false 5404319552844595 (-52));
     (SpecFloat.S754_finite false 1 0,
      SpecFloat.S754_finite false 7205759403792794 (-53))].
Proof. repeat constructor; vm_compute; reflexivity. Qed.

(** C1, where the code departs from it.  A session whose server is gone: the
    ping fails with error 2006 and every connection attempt fails with 2003.
    [isValid(true)] answers [true] and logs no call of [reconnect], although
    [reconnect] in the state the ping leaves answers [false]. *)
Theorem isValid_does_not_delegate_to_reconnect :
  let st := Scripted.session_state 1000 1
              (Scripted.with_pings [2006]
                 (Scripted.with_connects [2003] Scripted.healthy)) in
  let after_ping := with_world (snd (mysql_ping O (world st))) st in
  fst (isValid true st) = Ok true /\
  calls (snd (isValid true st)) = [] /\
  m_totalReconnectAttempts (this (snd (isValid true st))) = 0 /\
  fst (reconnect 2 after_ping) = Ok false /\
  isConnectionError (mysql_errno O (world after_ping)) = true.
Proof. vm_compute. repeat split; reflexivity. Qed.

Section Methods.
Context {W : Type} `{Platform W}.

Lemma gets_ok {A} (f : @state W -> A) : method_ok (gets f).
Proof. intros cs. wp_steps. eauto. Qed.

(** [init] returns with a handle or raises without one; it leaves the rest
    of the session, the telemetry and the log alone. *)
Lemma init_handle cs :
  wp init
     (fun r cs' =>
        this cs' = set_m_mysql (fst (mysql_init (world cs))) (this cs) /\
        world cs' = snd (mysql_init (world cs)) /\
        monitor cs' = monitor cs /\ calls cs' = calls cs /\
        match fst (mysql_init (world cs)) with
        | Some _ => r = Ok tt
        | None => r = Throw init_failed
        end) cs.
Proof.
  unfold init. wp_steps. simpl.
  destruct (fst (mysql_init (world cs))); wp_steps; auto.
Qed.

Lemma updateLastActiveTime_ok : method_ok updateLastActiveTime.
Proof. intros cs. unfold updateLastActiveTime. wp_steps. eauto. Qed.

Lemma connect_ok : method_ok connect.
Proof.
  intros cs. unfold connect, real_connect, updateLastActiveTime. wp_steps.
  destruct (negb _); wp_steps; eauto.
Qed.

Lemma close_ok : method_ok close.
Proof.
  intros cs. unfold close. wp_steps.
  destruct (m_mysql (this cs)); wp_steps; eauto.
Qed.

Lemma isValidQuietly_ok : method_ok isValidQuietly.
Proof.
  intros cs. unfold isValidQuietly. wp_steps.
  destruct (m_mysql (this cs)); wp_steps; [|eauto].
  destruct (negb _); wp_steps; eauto.
Qed.

Lemma isValid_ok (tryReconnect : bool) : method_ok (isValid tryReconnect).
Proof.
  intros cs. unfold isValid, updateLastActiveTime. wp_steps.
  destruct (m_mysql (this cs)); wp_steps; [|eauto].
  destruct (negb _); wp_steps.
  - destruct (_ || _); wp_steps; eauto.
  - eauto.
Qed.

(** A session whose ping succeeds passes [isValid]. *)
Lemma isValid_ping_success (tryReconnect : bool) (cs : state) (h : MYSQL) :
  m_mysql (this cs) = Some h ->
  fst (mysql_ping h (world cs)) = 0 ->
  wp (isValid tryReconnect)
     (fun r cs' => r = Ok true /\
                   m_connectionId (this cs') = m_connectionId (this cs)) cs.
Proof.
  intros Hh Hping. unfold isValid, updateLastActiveTime. wp_steps.
  rewrite Hh. wp_steps. rewrite Hping. cbn [Z.eqb negb]. wp_steps. eauto.
Qed.

End Methods.

End ConnectionFacts.

(** * Properties of the replica selector *)

Module LoadBalancerFacts.
Import LoadBalancer.

Lemma to_int_small z : - 2 ^ 31 <= z <= INT_MAX -> to_int z = z.
Proof.
  unfold to_int, INT_MAX. intros Hz.
  rewrite Z.mod_small by lia. lia.
Qed.

Lemma total_weight_cons c configs :
  total_weight (c :: configs) = DBConfig.weight c + total_weight configs.
Proof. reflexivity. Qed.

Lemma total_weight_nonneg configs :
  Forall (fun c => 1 <= DBConfig.weight c) configs -> 0 <= total_weight configs.
Proof.
  induction 1 as [|c configs Hc _ IH]; [reflexivity|].
  rewrite total_weight_cons. lia.
Qed.

(** Within the range of [int] the first loop computes the sum of the weights. *)
Lemma sum_weights_exact configs acc :
  Forall (fun c => 1 <= DBConfig.weight c) configs ->
  0 <= acc -> acc + total_weight configs <= INT_MAX ->
  sum_weights configs acc = acc + total_weight configs.
Proof.
  intros Hpos. revert acc.
  induction Hpos as [|c configs Hc Hpos IH]; intros acc Hacc Hmax; simpl.
  - unfold total_weight; simpl. lia.
  - rewrite total_weight_cons in *.
    pose proof (total_weight_nonneg configs Hpos) as Hnn.
    unfold int_add.
    rewrite (to_int_small (DBConfig.weight c)) by (unfold INT_MAX in *; lia).
    rewrite to_int_small by (unfold INT_MAX in *; lia).
    rewrite IH by lia. lia.
Qed.

(** Within the range of [int] the second loop stops at a position whose
    cumulative range holds the draw. *)
Lemma walk_weights_range configs randomWeight acc :
  Forall (fun c => 1 <= DBConfig.weight c) configs ->
  0 <= acc -> acc + total_weight configs <= INT_MAX ->
  acc <= randomWeight < acc + total_weight configs ->
  exists (i : nat) (config : DBConfig.t),
    walk_weights configs randomWeight acc = Some config /\
    configs !! i = Some config /\
    acc + weight_before configs i <= randomWeight
      < acc + weight_before configs i + DBConfig.weight config.
Proof.
  intros Hpos. revert acc.
  induction Hpos as [|c configs Hc Hpos IH]; intros acc Hacc Hmax Hr.
  - unfold total_weight in Hr; simpl in Hr. lia.
  - rewrite total_weight_cons in *.
    pose proof (total_weight_nonneg configs Hpos) as Hnn.
    simpl. unfold int_add.
    rewrite (to_int_small (DBConfig.weight c)) by (unfold INT_MAX in *; lia).
    rewrite to_int_small by (unfold INT_MAX in *; lia).
    destruct (Z.ltb_spec randomWeight (acc + DBConfig.weight c)) as [Hlt | Hge].
    + exists O, c. unfold weight_before, total_weight; simpl.
      repeat split; lia.
    + destruct (IH (acc + DBConfig.weight c)) as (i & config & Hw & Hi & Hrange);
        [lia | lia | lia |].
      exists (S i), config. split; [exact Hw|]. split; [exact Hi|].
      unfold weight_before in *. simpl. rewrite total_weight_cons. lia.
Qed.

(** The cumulative ranges of two positions do not overlap. *)
Lemma weight_before_step configs (j i : nat) (c : DBConfig.t) :
  Forall (fun c => 1 <= DBConfig.weight c) configs ->
  configs !! j = Some c -> (j < i)%nat ->
  weight_before configs j + DBConfig.weight c <= weight_before configs i.
Proof.
  intros Hpos. revert j i.
  induction Hpos as [|c0 configs Hc0 Hpos IH]; intros j i Hj Hlt.
  - discriminate.
  - destruct i as [|i]; [lia|].
    unfold weight_before in *. simpl. rewrite total_weight_cons.
    destruct j as [|j]; simpl in *.
    + injection Hj as <-. unfold total_weight at 1; simpl.
      pose proof (total_weight_nonneg (take i configs)) as Hnn.
      assert (0 <= total_weight (take i configs)).
      { apply Hnn. apply Forall_take. exact Hpos. }
      lia.
    + rewrite total_weight_cons.
      specialize (IH j i Hj). lia.
Qed.

Lemma weight_range_unique configs (i j : nat) (ci cj : DBConfig.t) (r : Z) :
  Forall (fun c => 1 <= DBConfig.weight c) configs ->
  configs !! i = Some ci -> configs !! j = Some cj ->
  weight_before configs i <= r < weight_before configs i + DBConfig.weight ci ->
  weight_before configs j <= r < weight_before configs j + DBConfig.weight cj ->
  j = i.
Proof.
  intros Hpos Hi Hj Hri Hrj.
  destruct (Nat.lt_trichotomy j i) as [Hlt | [Heq | Hgt]]; [|exact Heq|].
  - pose proof (weight_before_step configs j i cj Hpos Hj Hlt). lia.
  - pose proof (weight_before_step configs i j ci Hpos Hi Hgt). lia.
Qed.

Section WithPlatform.
Context {W : Type} `{Platform W}.

(** C8, as the code has it.  WEIGHTED strategy, a non-empty list, every
    weight at least 1 and the sum of the weights at most [INT_MAX]: the
    selector asks the generator for an integer in [0, sum - 1], and for a
    draw [r] in that range it returns the descriptor at the one position whose
    cumulative weight range holds [r]; that descriptor is in the list. *)
Theorem getNextDatabase_weighted (st : state) :
  m_strategy (this st) = WEIGHTED ->
  m_configs (this st) <> [] ->
  Forall (fun c => 1 <= DBConfig.weight c) (m_configs (this st)) ->
  total_weight (m_configs (this st)) <= INT_MAX ->
  0 <= fst (uniform_int 0 (total_weight (m_configs (this st)) - 1) (world st))
    < total_weight (m_configs (this st)) ->
  exists (i : nat) (config : DBConfig.t),
    getNextDatabase st =
      (Ok config,
       mkState (this st)
         (snd (uniform_int 0 (total_weight (m_configs (this st)) - 1) (world st)))) /\
    m_configs (this st) !! i = Some config /\
    In config (m_configs (this st)) /\
    (weight_before (m_configs (this st)) i
       <= fst (uniform_int 0 (total_weight (m_configs (this st)) - 1) (world st))
       < weight_before (m_configs (this st)) i + DBConfig.weight config) /\
    (forall (j : nat) (other : DBConfig.t),
        m_configs (this st) !! j = Some other ->
        weight_before (m_configs (this st)) j
          <= fst (uniform_int 0 (total_weight (m_configs (this st)) - 1) (world st))
          < weight_before (m_configs (this st)) j + DBConfig.weight other ->
        j = i).
Proof.
  intros Hstrategy Hne Hpos Hmax Hr.
  pose proof (total_weight_nonneg _ Hpos) as Hnn.
  unfold getNextDatabase, selectWeighted, bind, gets, platform; simpl.
  destruct (decide (m_configs (this st) = [])) as [He|_]; [contradiction|].
  rewrite Hstrategy.
  rewrite sum_weights_exact by (assumption || lia).
  rewrite Z.add_0_l.
  rewrite to_int_small by (unfold INT_MAX in *; lia).
  destruct (uniform_int 0 (total_weight (m_configs (this st)) - 1) (world st))
    as [randomWeight w] eqn:Hdraw; simpl in *.
  destruct (walk_weights_range (m_configs (this st)) randomWeight 0)
    as (i & config & Hwalk & Hi & Hrange); [assumption | lia | lia | lia |].
  exists i, config. rewrite Hwalk.
  split; [reflexivity|]. split; [exact Hi|].
  split; [apply list_elem_of_In; eapply list_elem_of_lookup_2; exact Hi|].
  split; [lia|].
  intros j other Hj Hrj.
  eapply weight_range_unique; eauto.
Qed.

End WithPlatform.

Lemma getNextDatabase_weighted_witness :
  exists (i : nat) (config : DBConfig.t),
    fst (getNextDatabase
           (mkState (mk Scripted.replicas_3_2_1 WEIGHTED 0)
              (Scripted.with_draw 4 Scripted.healthy))) = Ok config /\
    Scripted.replicas_3_2_1 !! i = Some config /\
    weight_before Scripted.replicas_3_2_1 i <= 4
      < weight_before Scripted.replicas_3_2_1 i + DBConfig.weight config.
Proof.
  destruct (getNextDatabase_weighted
              (mkState (mk Scripted.replicas_3_2_1 WEIGHTED 0)
                 (Scripted.with_draw 4 Scripted.healthy)))
    as (i & config & Hrun & Hi & _ & Hrange & _).
  - reflexivity.
  - discriminate.
  - repeat constructor; simpl; lia.
  - vm_compute. discriminate.
  - vm_compute. split; [discriminate | reflexivity].
  - exists i, config. rewrite Hrun. repeat split; try assumption; apply Hrange.
Defined.

(** C8 as stated fails.  Weights 4294967295 and 3 are both at least 1; as
    [int] the first is -1 and the total is 2, so the draw is taken from
    [0, 1] and the walk passes over the first descriptor: for the draw 0 the
    second descriptor is returned, although the range [0, 4294967295) of the
    first holds 0. *)
Lemma getNextDatabase_weighted_overflow :
  let a := DBConfig.mk "h1" "app" "secret" "shop" 3306 4294967295 in
  let b := DBConfig.mk "h2" "app" "secret" "shop" 3306 3 in
  let st := mkState (mk [a; b] WEIGHTED 0) (Scripted.with_draw 0 Scripted.healthy) in
  Forall (fun c => 1 <= DBConfig.weight c) [a; b] /\
  0 <= 0 < total_weight [a; b] /\
  fst (getNextDatabase st) = Ok b /\
  [a; b] !! 0%nat = Some a /\
  weight_before [a; b] 0 <= 0 < weight_before [a; b] 0 + DBConfig.weight a /\
  a <> b.
Proof.
  intros a b st.
  split; [repeat constructor; simpl; lia|].
  split; [vm_compute; split; [discriminate | reflexivity]|].
  split; [reflexivity|].
  split; [reflexivity|].
  split; [vm_compute; split; [discriminate | reflexivity]|].
  discriminate.
Qed.

End LoadBalancerFacts.

(** * Properties of the pool manager *)

Module ConnectionPoolFacts.
Import ConnectionPool MonadFacts.
Import ConnectionFacts.

(** *** The bookkeeping under the updates the pool makes *)

Lemma consistent_total_nonneg pool ids : consistent pool ids -> 0 <= m_totalConnections pool.
Proof. intros [Hc _ _ _ _ _]. lia. Qed.

Lemma wrap64_total pool ids (d : Z) :
  consistent pool ids -> 0 <= m_totalConnections pool + d <= UINT_MAX ->
  wrap64 (m_totalConnections pool + d) = m_totalConnections pool + d.
Proof. intros _ Hd. apply wrap64_small. unfold UINT_MAX in *. lia. Qed.

(** More sessions in the store. *)
Lemma consistent_grow pool ids ids' :
  consistent pool ids -> ids `prefix_of` ids' -> consistent pool ids'.
Proof.
  intros [Hc Hnd Hi Ha Hb Hr] Hpre. split; try assumption.
  - intros p Hp. destruct (Hi p Hp) as (k & Hk & Hnone).
    exists k. split; [eapply prefix_lookup_Some; eassumption | exact Hnone].
  - intros k p Hp. eapply prefix_lookup_Some; eauto.
Qed.

(** A session leaves the idle queue and is dropped. *)
Lemma consistent_remove_idle pool ids (l1 l2 : list nat) (p : nat) :
  consistent pool ids ->
  m_idleConnections pool = l1 ++ p :: l2 ->
  consistent
    (set_m_totalConnections (wrap64 (m_totalConnections pool + -1))
       (set_m_idleConnections (l1 ++ l2) pool)) ids.
Proof.
  intros Hcons Hidle. pose proof Hcons as [Hc Hnd Hi Ha Hb Hr].
  rewrite Hidle in Hc, Hnd, Hi. rewrite length_app in Hc. simpl in Hc.
  assert (Hw : wrap64 (m_totalConnections pool + -1) = m_totalConnections pool + -1)
    by (apply wrap64_small; unfold UINT_MAX in *; lia).
  split; simpl; rewrite ?Hw; try assumption.
  - rewrite length_app. lia.
  - apply NoDup_app in Hnd as (Hn1 & Hn12 & Hn2). apply NoDup_cons in Hn2 as [_ Hn2].
    apply NoDup_app. split; [exact Hn1|]. split; [|exact Hn2].
    intros x Hx1 Hx2. apply (Hn12 x Hx1). right. exact Hx2.
  - intros q Hq. apply Hi. apply elem_of_app in Hq as [Hq | Hq]; apply elem_of_app;
      [left; exact Hq | right; right; exact Hq].
  - lia.
Qed.

(** A new session is queued. *)
Lemma consistent_push_new pool ids (k : string) :
  consistent pool ids -> NoDup (ids ++ [k]) ->
  m_totalConnections pool < UINT_MAX ->
  consistent
    (set_m_totalConnections (wrap64 (m_totalConnections pool + 1))
       (set_m_idleConnections (m_idleConnections pool ++ [length ids]) pool))
    (ids ++ [k]).
Proof.
  intros Hcons Hnd' Hlt. pose proof Hcons as [Hc Hnd Hi Ha Hb Hr].
  assert (Hw : wrap64 (m_totalConnections pool + 1) = m_totalConnections pool + 1)
    by (apply wrap64_small; unfold UINT_MAX in *; lia).
  assert (Hfresh : forall q, ids !! q = Some k -> False).
  { intros q Hq. apply NoDup_app in Hnd' as (_ & Hdis & _).
    apply (Hdis k); [eapply list_elem_of_lookup_2; exact Hq | left]. }
  split; simpl; rewrite ?Hw; try assumption.
  - rewrite length_app. simpl. lia.
  - apply NoDup_app. split; [exact Hnd|]. split; [|apply NoDup_singleton].
    intros x Hx Hx'. apply list_elem_of_singleton in Hx'. subst x.
    destruct (Hi _ Hx) as (k' & Hk' & _).
    apply lookup_lt_Some in Hk'. lia.
  - intros q Hq. apply elem_of_app in Hq as [Hq | Hq].
    + destruct (Hi q Hq) as (k' & Hk' & Hnone). exists k'.
      split; [apply lookup_app_l_Some; exact Hk' | exact Hnone].
    + apply list_elem_of_singleton in Hq. subst q. exists k.
      split; [apply list_lookup_middle; reflexivity|].
      destruct (m_activeConnections pool !! k) as [q|] eqn:Hq; [|reflexivity].
      exfalso. eapply Hfresh. eapply Ha. exact Hq.
  - intros k' q Hq. apply lookup_app_l_Some. eapply Ha. exact Hq.
  - lia.
Qed.

(** A new session is handed out. *)
Lemma consistent_insert_new pool ids (k : string) :
  consistent pool ids -> NoDup (ids ++ [k]) ->
  m_totalConnections pool < UINT_MAX ->
  consistent
    (set_m_activeConnections (<[k := length ids]> (m_activeConnections pool))
       (set_m_totalConnections (wrap64 (m_totalConnections pool + 1)) pool))
    (ids ++ [k]).
Proof.
  intros Hcons Hnd' Hlt. pose proof Hcons as [Hc Hnd Hi Ha Hb Hr].
  assert (Hw : wrap64 (m_totalConnections pool + 1) = m_totalConnections pool + 1)
    by (apply wrap64_small; unfold UINT_MAX in *; lia).
  assert (Hfresh : forall q, ids !! q = Some k -> False).
  { intros q Hq. apply NoDup_app in Hnd' as (_ & Hdis & _).
    apply (Hdis k); [eapply list_elem_of_lookup_2; exact Hq | left]. }
  assert (Hnone : m_activeConnections pool !! k = None).
  { destruct (m_activeConnections pool !! k) as [q|] eqn:Hq; [|reflexivity].
    exfalso. eapply Hfresh. eapply Ha. exact Hq. }
  split; simpl; rewrite ?Hw; try assumption.
  - rewrite map_size_insert_None by exact Hnone. lia.
  - intros q Hq. destruct (Hi q Hq) as (k' & Hk' & Hnone'). exists k'.
    split; [apply lookup_app_l_Some; exact Hk'|].
    rewrite lookup_insert_ne; [exact Hnone'|].
    intros ->. eapply Hfresh. exact Hk'.
  - intros k' q Hq. destruct (decide (k = k')) as [<- | Hne].
    + rewrite lookup_insert_eq in Hq. injection Hq as <-.
      apply list_lookup_middle. reflexivity.
    + rewrite lookup_insert_ne in Hq by exact Hne.
      apply lookup_app_l_Some. eapply Ha. exact Hq.
  - lia.
Qed.

(** The head of the idle queue is handed out. *)
Lemma consistent_acquire_head pool ids (p : nat) (rest : list nat) (k : string) :
  consistent pool ids -> NoDup ids ->
  m_idleConnections pool = p :: rest -> ids !! p = Some k ->
  consistent
    (set_m_activeConnections (<[k := p]> (m_activeConnections pool))
       (set_m_idleConnections rest pool)) ids.
Proof.
  intros Hcons Hndi Hidle Hk. pose proof Hcons as [Hc Hnd Hi Ha Hb Hr].
  rewrite Hidle in Hc, Hnd, Hi. simpl in Hc.
  apply NoDup_cons in Hnd as [Hnotin Hnd].
  assert (Hnone : m_activeConnections pool !! k = None).
  { destruct (Hi p) as (k' & Hk' & Hnone); [left|]. congruence. }
  split; simpl; try assumption.
  - rewrite map_size_insert_None by exact Hnone. lia.
  - intros q Hq. destruct (Hi q) as (k' & Hk' & Hnone'); [right; exact Hq|].
    exists k'. split; [exact Hk'|].
    rewrite lookup_insert_ne; [exact Hnone'|].
    intros ->. apply Hnotin.
    rewrite (NoDup_lookup _ _ _ _ Hndi Hk Hk'). exact Hq.
  - intros k' q Hq. destruct (decide (k = k')) as [<- | Hne].
    + rewrite lookup_insert_eq in Hq. injection Hq as <-. exact Hk.
    + rewrite lookup_insert_ne in Hq by exact Hne. eapply Ha. exact Hq.
Qed.

(** A checked-out session goes back to the idle queue. *)
Lemma consistent_release_keep pool ids (conn : nat) (k : string) :
  consistent pool ids ->
  m_activeConnections pool !! k = Some conn ->
  consistent
    (set_m_idleConnections (m_idleConnections pool ++ [conn])
       (set_m_activeConnections (delete k (m_activeConnections pool)) pool)) ids.
Proof.
  intros Hcons Hk. pose proof Hcons as [Hc Hnd Hi Ha Hb Hr].
  assert (Hsize : size (m_activeConnections pool)
                  = S (size (delete k (m_activeConnections pool)))).
  { rewrite map_size_delete_Some by eauto.
    assert (size (m_activeConnections pool) <> 0%nat); [|lia].
    intros Hz. apply map_size_empty_inv in Hz. rewrite Hz in Hk. 
    rewrite lookup_empty in Hk. discriminate. }
  split; simpl; try assumption.
  - rewrite length_app. simpl. lia.
  - apply NoDup_app. split; [exact Hnd|]. split; [|apply NoDup_singleton].
    intros x Hx Hx'. apply list_elem_of_singleton in Hx'. subst x.
    destruct (Hi _ Hx) as (k' & Hk' & Hnone).
    pose proof (Ha _ _ Hk) as Hk2. congruence.
  - intros q Hq. apply elem_of_app in Hq as [Hq | Hq].
    + destruct (Hi q Hq) as (k' & Hk' & Hnone). exists k'. split; [exact Hk'|].
      destruct (decide (k = k')) as [<- | Hne];
        [apply lookup_delete_eq | rewrite lookup_delete_ne by exact Hne; exact Hnone].
    + apply list_elem_of_singleton in Hq. subst q. exists k.
      split; [eapply Ha; exact Hk | apply lookup_delete_eq].
  - intros k' q Hq. destruct (decide (k = k')) as [<- | Hne].
    + rewrite lookup_delete_eq in Hq. discriminate.
    + rewrite lookup_delete_ne in Hq by exact Hne. eapply Ha. exact Hq.
Qed.

(** A checked-out session is dropped. *)
Lemma consistent_release_drop pool ids (conn : nat) (k : string) :
  consistent pool ids ->
  m_activeConnections pool !! k = Some conn ->
  consistent
    (set_m_totalConnections (wrap64 (m_totalConnections pool + -1))
       (set_m_activeConnections (delete k (m_activeConnections pool)) pool)) ids.
Proof.
  intros Hcons Hk. pose proof Hcons as [Hc Hnd Hi Ha Hb Hr].
  assert (Hsize : size (m_activeConnections pool)
                  = S (size (delete k (m_activeConnections pool)))).
  { rewrite map_size_delete_Some by eauto.
    assert (size (m_activeConnections pool) <> 0%nat); [|lia].
    intros Hz. apply map_size_empty_inv in Hz. rewrite Hz in Hk. 
    rewrite lookup_empty in Hk. discriminate. }
  assert (Hw : wrap64 (m_totalConnections pool + -1) = m_totalConnections pool + -1)
    by (apply wrap64_small; unfold UINT_MAX in *; lia).
  split; simpl; rewrite ?Hw; try assumption.
  - lia.
  - intros q Hq. destruct (Hi q Hq) as (k' & Hk' & Hnone). exists k'. split; [exact Hk'|].
    destruct (decide (k = k')) as [<- | Hne];
      [apply lookup_delete_eq | rewrite lookup_delete_ne by exact Hne; exact Hnone].
  - intros k' q Hq. destruct (decide (k = k')) as [<- | Hne].
    + rewrite lookup_delete_eq in Hq. discriminate.
    + rewrite lookup_delete_ne in Hq by exact Hne. eapply Ha. exact Hq.
  - lia.
Qed.

Lemma consistent_set_config pool ids (config : PoolConfig.t) :
  consistent pool ids -> PoolConfig.in_range config ->
  consistent (set_m_config config pool) ids.
Proof. intros [Hc Hnd Hi Ha Hb Hr] Hrange. split; assumption. Qed.

Lemma consistent_set_running pool ids (b : bool) :
  consistent pool ids -> consistent (set_m_isRunning b pool) ids.
Proof. intros [Hc Hnd Hi Ha Hb Hr]. split; assumption. Qed.

(** A pool that counts no session has none. *)
Lemma consistent_empty pool ids :
  consistent pool ids -> m_totalConnections pool = 0 ->
  m_idleConnections pool = [] /\ m_activeConnections pool = ∅.
Proof.
  intros [Hc _ _ _ _ _] Hz. rewrite Hz in Hc. split.
  - apply length_zero_iff_nil. lia.
  - apply map_size_empty_inv. lia.
Qed.

Section Rules.
Context {W : Type} `{Platform W}.
Implicit Types s : @state W.

Lemma wp_pool_platform {A} (op : W -> A * W) (Q : res A -> state -> Prop) s :
  Q (Ok (fst (op (world s))))
    (mkState (this s) (balancer s) (heap s) (snd (op (world s))) (monitor s) (calls s)) ->
  wp (platform op) Q s.
Proof. unfold wp, platform. destruct (op (world s)); simpl. intros HQ; exact HQ. Qed.

Lemma wp_pool_platform_ (op : W -> W) (Q : res unit -> state -> Prop) s :
  Q (Ok tt) (mkState (this s) (balancer s) (heap s) (op (world s)) (monitor s) (calls s)) ->
  wp (platform_ op) Q s.
Proof. intros HQ; exact HQ. Qed.

Lemma wp_on_conn {A} (p : nat) (m : M Connection.state A) (Q : res A -> state -> Prop)
    s (c : Connection.t) :
  heap s !! p = Some c ->
  wp m (fun r cs =>
          Q r (mkState (this s) (balancer s) (<[p := Connection.this cs]> (heap s))
                 (Connection.world cs) (Connection.monitor cs) (Connection.calls cs)))
     (Connection.mkState c (world s) (monitor s) (calls s)) ->
  wp (on_conn p m) Q s.
Proof.
  unfold wp, on_conn. intros ->.
  destruct (m _) as [r cs]; simpl. intros HQ; exact HQ.
Qed.

Lemma wp_on_balancer {A} (m : M LoadBalancer.state A) (Q : res A -> state -> Prop) s :
  wp m (fun r ls =>
          Q r (mkState (this s) (LoadBalancer.this ls) (heap s) (LoadBalancer.world ls)
                 (monitor s) (calls s)))
     (LoadBalancer.mkState (balancer s) (world s)) ->
  wp (on_balancer m) Q s.
Proof. unfold on_balancer. intros HQ. apply wp_zoom. exact HQ. Qed.

End Rules.

Ltac pool_step :=
  lazymatch goal with
  | |- wp (bind _ _) _ _ => apply wp_bind
  | |- wp (ret _) _ _ => apply wp_ret
  | |- wp (throw _) _ _ => apply wp_throw
  | |- wp (gets _) _ _ => apply wp_gets
  | |- wp (modify _) _ _ => apply wp_modify
  | |- wp (telemetry _) _ _ => apply wp_modify
  | |- wp (add_total _) _ _ => apply wp_modify
  | |- wp (push_idle _) _ _ => apply wp_modify
  | |- wp pop_idle _ _ => apply wp_modify
  | |- wp (platform _) _ _ => apply wp_pool_platform
  | |- wp (platform_ _) _ _ => apply wp_pool_platform_
  | |- wp (try_catch _ _) _ _ => apply wp_try_catch
  | |- wp (on_balancer _) _ _ => apply wp_on_balancer
  end;
  unfold then_wp, catch_wp; cbn beta iota.
Ltac pool_steps := repeat pool_step.

Section WithPlatform.
Context {W : Type} `{Platform W}.
Implicit Types s : @state W.

(** C4, as the code has it.  On a pool that is already running [init]
    returns without raising; on a pool that is not running it raises a
    runtime error when the configuration is invalid.  In both cases the state
    is left as it was. *)
Theorem init_refused_leaves_state (config : PoolConfig.t) s :
  m_isRunning (this s) = true \/
    (PoolConfig.minConnections config = 0 \/
     PoolConfig.maxConnections config = 0 \/
     PoolConfig.maxConnections config < PoolConfig.minConnections config \/
     PoolConfig.maxConnections config < PoolConfig.initConnections config \/
     PoolConfig.connectionTimeout config = 0 \/
     PoolConfig.maxIdleTime config = 0 \/
     PoolConfig.healthCheckPeriod config = 0) ->
  snd (init config s) = s /\
  fst (init config s) =
    (if m_isRunning (this s) then Ok tt
     else Throw (runtime_error
                   "ConnectionPool::init init connectionPool, but config is not valid")).
Proof.
  intros Hcase. unfold init, bind, gets; simpl.
  destruct (m_isRunning (this s)); [split; reflexivity|].
  destruct Hcase as [Hrun | Hinvalid]; [discriminate|].
  assert (Hv : PoolConfig.isValid config = false).
  { unfold PoolConfig.isValid.
    destruct Hinvalid as [Hi | [Hi | [Hi | [Hi | [Hi | [Hi | Hi]]]]]].
    - rewrite Hi. reflexivity.
    - rewrite Hi. simpl. rewrite orb_true_r. reflexivity.
    - apply Z.ltb_lt in Hi. rewrite Hi. simpl. rewrite !orb_true_r. reflexivity.
    - apply Z.ltb_lt in Hi. rewrite Hi. simpl. rewrite !orb_true_r. reflexivity.
    - rewrite Hi. simpl. destruct (_ || _ || _ || _); reflexivity.
    - rewrite Hi. simpl. rewrite !orb_true_r. destruct (_ || _ || _ || _); reflexivity.
    - rewrite Hi. simpl. rewrite !orb_true_r. destruct (_ || _ || _ || _); reflexivity. }
  rewrite Hv. split; reflexivity.
Qed.

End WithPlatform.

Lemma init_refused_leaves_state_witness :
  let config := Scripted.limits 0 4 2 600000 in
  let s := start Scripted.healthy in
  snd (init config s) = s /\
  fst (init config s) =
    Throw (runtime_error
             "ConnectionPool::init init connectionPool, but config is not valid").
Proof.
  intros config s.
  apply (init_refused_leaves_state config s).
  right. left. reflexivity.
Defined.

(** C4 as stated fails.  A pool of one backend is initialised and runs; a
    second [init] returns normally instead of raising. *)
Lemma init_on_running_pool_returns :
  let config := Scripted.limits 1 2 1 600000 in
  let s := Scripted.pool config Scripted.healthy in
  m_isRunning (this s) = true /\
  fst (init config s) = Ok tt /\
  fst (init config s) <>
    Throw (runtime_error
             "ConnectionPool::init init connectionPool, but config is not valid").
Proof. vm_compute. repeat split; discriminate. Qed.

Section WithPlatform.
Context {W : Type} `{Platform W}.
Implicit Types s : @state W.

Lemma on_conn_this {A} (p : nat) (m : M Connection.state A) s :
  this (snd (on_conn p m s)) = this s.
Proof.
  unfold on_conn. destruct (heap s !! p); [|reflexivity].
  destruct (m _); reflexivity.
Qed.

Lemma validateConnection_this (connection : ConnectionPtr) (allowReconnect : bool) s :
  this (snd (validateConnection connection allowReconnect s)) = this s.
Proof. destruct connection; [apply on_conn_this | reflexivity]. Qed.

(** A turn of [getConnection] that finds a session at the head of the idle
    queue that fails validation: the counter goes down by one, the queue is
    as it was, with the session still at its head, and the loop goes on. *)
Lemma getConnection_turn_invalid_head (timeout startTime tiemoutPoint : Z) s
    (idelConnection : nat) (rest : list nat) :
  m_idleConnections (this s) = idelConnection :: rest ->
  fst (validateConnection (Some idelConnection) false s) = Ok false ->
  fst (getConnection_turn timeout startTime tiemoutPoint s) = Ok continue_loop /\
  m_idleConnections (this (snd (getConnection_turn timeout startTime tiemoutPoint s)))
    = idelConnection :: rest /\
  m_totalConnections (this (snd (getConnection_turn timeout startTime tiemoutPoint s)))
    = wrap64 (m_totalConnections (this s) - 1).
Proof.
  intros Hidle Hinvalid.
  pose proof (validateConnection_this (Some idelConnection) false s) as Hthis.
  change (wp (getConnection_turn timeout startTime tiemoutPoint)
            (fun r s' =>
               r = Ok continue_loop /\
               m_idleConnections (this s') = idelConnection :: rest /\
               m_totalConnections (this s') = wrap64 (m_totalConnections (this s) - 1)) s).
  unfold getConnection_turn. pool_steps. rewrite Hidle.
  unfold getConnection_idle. pool_step.
  unfold wp at 1.
  destruct (validateConnection (Some idelConnection) false s) as [r s1].
  cbn [fst snd] in *. subst r. pool_steps. cbn.
  rewrite Hthis, Hidle. repeat split.
Qed.

End WithPlatform.

(** C3, where the code departs from it.  A running pool whose only session
    sits in the idle queue and no longer answers the ping (error 2006).  One
    turn of the loop of [getConnection] decrements the counter to 0 and goes
    on, but the session has not been popped: it is still the head of the idle
    queue.  The next turns meet it again, so the loop does not end and the
    counter wraps below zero. *)
Theorem getConnection_keeps_invalid_head :
  let s := Scripted.pool (Scripted.limits 1 4 1 600000)
             (Scripted.with_pings [0; 2006] Scripted.healthy) in
  let after_turn := snd (getConnection_turn 100 0 100 s) in
  m_idleConnections (this s) = [O] /\
  m_totalConnections (this s) = 1 /\
  fst (validateConnection (Some O) false s) = Ok false /\
  fst (getConnection_turn 100 0 100 s) = Ok continue_loop /\
  m_totalConnections (this after_turn) = 0 /\
  m_idleConnections (this after_turn) = [O] /\
  fst (getConnection 3 100 s) = OutOfFuel /\
  m_idleConnections (this (snd (getConnection 3 100 s))) = [O] /\
  m_totalConnections (this (snd (getConnection 3 100 s))) = 2 ^ 64 - 2.
Proof. vm_compute. repeat split; reflexivity. Qed.

(** C5, where the code departs from it.  A running pool with
    [min_connections = 1] whose only session is idle, answers the ping, and
    has been idle for longer than [max_idle_ms = 1].  The cleanup pass keeps
    such a session only when [total < min_connections]; here [total =
    min_connections], so the session is closed and the pass ends with
    [total = 0], below the minimum. *)
Theorem cleanupIdleConnections_below_minimum :
  let s := Scripted.pool (Scripted.limits 1 4 1 1) Scripted.healthy in
  let now := fst (currentTimeMillis (world s)) in
  let after := snd (cleanupIdleConnections s) in
  m_totalConnections (this s) = 1 /\
  PoolConfig.minConnections (m_config (this s)) = 1 /\
  m_idleConnections (this s) = [O] /\
  fst (on_conn O Connection.isValidQuietly s) = Ok true /\
  (Connection.m_lastActiveTime <$> heap s !! O) = Some 1020 /\
  PoolConfig.maxIdleTime (m_config (this s)) < now - 1020 /\
  fst (cleanupIdleConnections s) = Ok tt /\
  m_idleConnections (this after) = [] /\
  m_totalConnections (this after) = 0 /\
  m_totalConnections (this after) < PoolConfig.minConnections (m_config (this after)).
Proof. vm_compute. repeat split; reflexivity. Qed.

Ltac norm :=
  cbn [this balancer heap world monitor calls with_this with_monitor
       m_config m_idleConnections m_activeConnections m_isRunning m_totalConnections
       set_m_config set_m_idleConnections set_m_activeConnections set_m_isRunning
       set_m_totalConnections
       Connection.this Connection.world Connection.monitor Connection.calls
       Connection.with_this Connection.with_world Connection.with_monitor
       Connection.with_call fst snd] in *.

Ltac conn_step :=
  first [ eapply wp_on_conn;
          [ first [ eassumption
                  | eapply list_lookup_insert_eq; rewrite ?length_insert;
                    eapply lookup_lt_Some; eassumption ] | ]
        | pool_step | ConnectionFacts.wp_step ]; norm.

Section WithPlatform.
Context {W : Type} `{Platform W}.
Implicit Types s : @state W.

Lemma lookup_insert_heap (heap : list Connection.t) (p : nat) (c c' : Connection.t) :
  heap !! p = Some c -> <[p := c']> heap !! p = Some c'.
Proof. intros Hc. apply list_lookup_insert_eq. eapply lookup_lt_Some. exact Hc. Qed.

(** A release that finds the pool within its limit and the session alive
    queues the session and leaves the counter alone. *)
Lemma releaseConnection_queues (conn : nat) s :
  ping_succeeds_on_release conn s ->
  m_totalConnections (this s) <= PoolConfig.maxConnections (m_config (this s)) ->
  wp (releaseConnection (Some conn))
     (fun r s' =>
        r = Ok tt /\
        m_idleConnections (this s') = m_idleConnections (this s) ++ [conn] /\
        m_totalConnections (this s') = m_totalConnections (this s) /\
        m_config (this s') = m_config (this s) /\
        (exists c, heap s !! conn = Some c /\
           m_activeConnections (this s') =
             delete (Connection.m_connectionId c) (m_activeConnections (this s)))) s.
Proof.
  intros (c & h & Hc & Hh & Hping) Hmax.
  unfold releaseConnection, getConnectionId, getLastActiveTime, validateConnection.
  repeat conn_step.
  destruct (Z.ltb_spec (PoolConfig.maxConnections (m_config (this s))) (m_totalConnections (this s))); [lia|].
  repeat conn_step. unfold Connection.isValid. repeat conn_step.
  rewrite Hh. repeat conn_step. rewrite Hping. cbn [Z.eqb negb].
  unfold Connection.updateLastActiveTime. repeat conn_step.
  repeat split; eauto.
Qed.

(** A release that finds more sessions than the limit allows closes the
    session. *)
Lemma releaseConnection_overshoot_closes (conn : nat) s (c : Connection.t) :
  heap s !! conn = Some c ->
  PoolConfig.maxConnections (m_config (this s)) < m_totalConnections (this s) ->
  wp (releaseConnection (Some conn))
     (fun r s' => exists c', heap s' !! conn = Some c' /\ Connection.m_mysql c' = None) s.
Proof.
  intros Hc Hmax.
  unfold releaseConnection, getConnectionId, getLastActiveTime, validateConnection.
  repeat conn_step.
  destruct (Z.ltb_spec (PoolConfig.maxConnections (m_config (this s))) (m_totalConnections (this s))); [|lia].
  repeat conn_step. unfold Connection.close. repeat conn_step.
  destruct (Connection.m_mysql c) as [h|] eqn:Hh; repeat conn_step.
  - eexists. split; [eapply lookup_insert_heap, lookup_insert_heap, lookup_insert_heap; exact Hc|].
    reflexivity.
  - eexists. split; [eapply lookup_insert_heap, lookup_insert_heap, lookup_insert_heap; exact Hc|].
    exact Hh.
Qed.

(** C10.  Release does not look the session up in the map of checked-out
    sessions.  When the same session is released twice and answers the ping
    both times, both calls return normally, each pushes the session on the
    idle queue, and the counter of sessions is as it was: the session holds
    two slots of the queue.  No assumption is made on the session having
    been handed out by the pool. *)
Theorem releaseConnection_twice (conn : nat) s :
  ping_succeeds_on_release conn s ->
  ping_succeeds_on_release conn (snd (releaseConnection (Some conn) s)) ->
  fst (releaseConnection (Some conn) s) = Ok tt /\
  fst (releaseConnection (Some conn) (snd (releaseConnection (Some conn) s))) = Ok tt /\
  m_idleConnections (this (snd (releaseConnection (Some conn) s)))
    = m_idleConnections (this s) ++ [conn] /\
  m_idleConnections
    (this (snd (releaseConnection (Some conn) (snd (releaseConnection (Some conn) s)))))
    = m_idleConnections (this s) ++ [conn; conn] /\
  m_totalConnections (this (snd (releaseConnection (Some conn) s)))
    = m_totalConnections (this s) /\
  m_totalConnections
    (this (snd (releaseConnection (Some conn) (snd (releaseConnection (Some conn) s)))))
    = m_totalConnections (this s).
Proof.
  intros Hfirst Hsecond.
  assert (Hmax : m_totalConnections (this s)
                 <= PoolConfig.maxConnections (m_config (this s))).
  { destruct (Z.le_gt_cases (m_totalConnections (this s))
                (PoolConfig.maxConnections (m_config (this s)))) as [Hle | Hgt];
      [exact Hle|].
    destruct Hfirst as (c & h & Hc & _).
    destruct (releaseConnection_overshoot_closes conn s c Hc ltac:(lia))
      as (c' & Hc' & Hclosed).
    destruct Hsecond as (c2 & h2 & Hc2 & Hh2 & _).
    congruence. }
  pose proof (releaseConnection_queues conn s Hfirst Hmax)
    as (Hr1 & Hidle1 & Htotal1 & Hconfig1 & _).
  assert (Hmax1 : m_totalConnections (this (snd (releaseConnection (Some conn) s)))
                 <= PoolConfig.maxConnections
                      (m_config (this (snd (releaseConnection (Some conn) s))))).
  { rewrite Htotal1, Hconfig1. exact Hmax. }
  pose proof (releaseConnection_queues conn _ Hsecond Hmax1)
    as (Hr2 & Hidle2 & Htotal2 & _ & _).
  repeat split; try assumption.
  - rewrite Hidle2, Hidle1, <- app_assoc. reflexivity.
  - rewrite Htotal2, Htotal1. reflexivity.
Qed.

End WithPlatform.

Lemma releaseConnection_twice_witness :
  let s := snd (getConnection 3 100
                  (Scripted.pool (Scripted.limits 1 4 1 600000) Scripted.healthy)) in
  m_idleConnections (this s) = [] /\
  m_idleConnections
    (this (snd (releaseConnection (Some O) (snd (releaseConnection (Some O) s)))))
    = [] ++ [O; O] /\
  m_totalConnections
    (this (snd (releaseConnection (Some O) (snd (releaseConnection (Some O) s)))))
    = 1.
Proof.
  intros s.
  assert (Hidle0 : m_idleConnections (this s) = []) by (vm_compute; reflexivity).
  assert (Htotal0 : m_totalConnections (this s) = 1) by (vm_compute; reflexivity).
  destruct (releaseConnection_twice O s) as (_ & _ & _ & Hidle & _ & Htotal).
  - unfold ping_succeeds_on_release. eexists _, _.
    split; [vm_compute; reflexivity|].
    split; vm_compute; reflexivity.
  - unfold ping_succeeds_on_release. eexists _, _.
    split; [vm_compute; reflexivity|].
    split; vm_compute; reflexivity.
  - rewrite Hidle0 in Hidle. rewrite Htotal0 in Htotal.
    split; [exact Hidle0|]. split; [exact Hidle | exact Htotal].
Defined.
(** ** The counting invariant

    The pool's counter against its idle queue and its map of checked-out
    sessions, over every state the process reaches. *)

Section Effects.
Context {W : Type} `{Platform W}.
Implicit Types s : @state W.

(** *** What the parts of a pool operation do to the pool and to the store *)

Lemma ids_lookup s (p : nat) (k : string) :
  ids s !! p = Some k <->
  exists c, heap s !! p = Some c /\ Connection.m_connectionId c = k.
Proof.
  unfold ids. rewrite list_lookup_fmap. destruct (heap s !! p) as [c|]; simpl.
  - split; [intros [= <-]; eauto | intros (c' & [= <-] & <-); reflexivity].
  - split; [discriminate | intros (c' & Hc & _); discriminate].
Qed.

Lemma ids_insert (heap : list Connection.t) (p : nat) (c c' : Connection.t) :
  heap !! p = Some c ->
  Connection.m_connectionId c' = Connection.m_connectionId c ->
  Connection.m_connectionId <$> <[p := c']> heap = Connection.m_connectionId <$> heap.
Proof.
  intros Hc Hid. rewrite list_fmap_insert. apply list_insert_id.
  rewrite list_lookup_fmap, Hc. simpl. congruence.
Qed.

(** A method of a session in the store returns, and changes neither the pool
    nor the ids. *)
Lemma on_conn_effect {A} (p : nat) (m : M (@Connection.state W) A) s (k : string) :
  Connection.method_ok m -> ids s !! p = Some k ->
  wp (on_conn p m)
     (fun r s' => (exists a, r = Ok a) /\ this s' = this s /\ ids s' = ids s) s.
Proof.
  intros Hm Hk. apply ids_lookup in Hk as (c & Hc & _).
  eapply wp_on_conn; [exact Hc|].
  eapply wp_mono; [apply Hm|].
  intros r cs (Hr & Hid). split; [exact Hr|]. split; [reflexivity|].
  unfold ids. cbn [heap]. eapply ids_insert; eassumption.
Qed.

Lemma on_conn_grows {A} (p : nat) (m : M (@Connection.state W) A) :
  Connection.method_ok m -> grows (on_conn p m).
Proof.
  intros Hm s. destruct (ids s !! p) as [k|] eqn:Hk.
  - eapply wp_mono; [eapply on_conn_effect; eassumption|].
    intros r s' (_ & _ & ->). reflexivity.
  - unfold wp, on_conn. destruct (heap s !! p) as [c|] eqn:Hc; [|reflexivity].
    exfalso. assert (ids s !! p = Some (Connection.m_connectionId c)) as Hk'
      by (apply ids_lookup; eauto). congruence.
Qed.

Lemma getConnectionId_effect (p : nat) s (k : string) :
  ids s !! p = Some k ->
  wp (getConnectionId p)
     (fun r s' => r = Ok k /\ this s' = this s /\ ids s' = ids s) s.
Proof.
  intros Hk. apply ids_lookup in Hk as (c & Hc & Hid).
  unfold getConnectionId. eapply wp_on_conn; [exact Hc|].
  ConnectionFacts.wp_steps. cbn. split; [congruence|]. split; [reflexivity|].
  unfold ids. cbn [heap]. eapply ids_insert; [eassumption | reflexivity].
Qed.

(** A queued session that answers the ping passes validation. *)
Lemma validateConnection_answers (p : nat) s (c : Connection.t) (h : MYSQL) :
  heap s !! p = Some c -> Connection.m_mysql c = Some h ->
  fst (mysql_ping h (world s)) = 0 ->
  wp (validateConnection (Some p) false)
     (fun r s' => r = Ok true /\ this s' = this s /\ ids s' = ids s) s.
Proof.
  intros Hc Hh Hping. unfold validateConnection.
  eapply wp_on_conn; [exact Hc|].
  eapply wp_mono; [eapply isValid_ping_success; [exact Hh | exact Hping]|].
  intros r cs (-> & Hid). split; [reflexivity|]. split; [reflexivity|].
  unfold ids. cbn [heap]. eapply ids_insert; eassumption.
Qed.

Lemma validateConnection_effect (p : nat) (allowReconnect : bool) s (k : string) :
  ids s !! p = Some k ->
  wp (validateConnection (Some p) allowReconnect)
     (fun r s' => (exists valid, r = Ok valid) /\ this s' = this s /\ ids s' = ids s) s.
Proof. intros Hk. eapply on_conn_effect; [apply isValid_ok | exact Hk]. Qed.

(** [make_shared] puts one session at the next address, unless the
    constructor raises: then the store is as it was. *)
Lemma make_shared_effect (host user password database : string)
    (port reconnectInterval reconnectAttempts : Z) s :
  wp (make_shared host user password database port reconnectInterval reconnectAttempts)
     (fun r s' =>
        this s' = this s /\
        ((r = Ok (length (ids s)) /\ exists k, ids s' = ids s ++ [k]) \/
         (r = Throw Connection.init_failed /\ ids s' = ids s))) s.
Proof.
  unfold make_shared. pool_steps. norm.
  unfold wp at 1, construct.
  match goal with
  | |- context [Connection.init ?cs] =>
    pose proof (init_handle cs) as Hinit; unfold wp in Hinit;
    destruct (Connection.init cs) as [r cs']
  end.
  cbn [fst snd Connection.this Connection.world] in Hinit.
  destruct Hinit as (Hthis & _ & _ & _ & Hr).
  destruct (fst (mysql_init _)); subst r; cbn [fst snd then_wp]; norm.
  - pool_steps. norm. split; [reflexivity|]. left.
    split; [unfold ids; rewrite length_fmap; reflexivity|].
    eexists. unfold ids. cbn [heap]. rewrite fmap_app. reflexivity.
  - split; [reflexivity|]. right. split; reflexivity.
Qed.

(** [createConnection] leaves the pool alone; when it returns, the new
    session is the one at the next address. *)
Lemma createConnection_effect s :
  wp createConnection
     (fun r s' =>
        this s' = this s /\
        match r with
        | Ok conn => conn = length (ids s) /\ exists k, ids s' = ids s ++ [k]
        | _ => ids s `prefix_of` ids s'
        end) s.
Proof.
  unfold createConnection. pool_steps.
  unfold wp at 1. destruct (LoadBalancer.getNextDatabase _) as [[config | e | |] ls];
    cbn [fst snd then_wp catch_wp]; norm.
  2: { pool_steps. split; reflexivity. }
  2, 3: split; reflexivity.
  pool_steps. norm.
  eapply wp_mono; [apply make_shared_effect|].
  intros r s1 (Hthis1 & [(-> & k & Hids1) | (-> & Hids1)]); cbn beta iota.
  2: { pool_steps. unfold ids in *; norm. split; [congruence|].
       cbn [heap] in Hids1. rewrite Hids1. reflexivity. }
  pool_step.
  eapply wp_mono.
  { eapply (on_conn_effect _ _ _ k); [apply connect_ok|].
    rewrite Hids1. apply list_lookup_middle. reflexivity. }
  intros r s2 ((conn_res & ->) & Hthis2 & Hids2). cbn beta iota.
  destruct conn_res; cbn [negb]; pool_steps; unfold ids in *; norm.
  - split; [congruence|]. split; [reflexivity|]. exists k. congruence.
  - eapply wp_mono.
    { eapply (on_conn_effect _ _ _ k); [apply close_ok|].
      unfold ids; norm.
      rewrite Hids2, Hids1. apply list_lookup_middle. reflexivity. }
    intros r s3 ((a & ->) & Hthis3 & Hids3). cbn beta iota. pool_steps.
    unfold ids in *; norm.
    split; [congruence|].
    rewrite Hids3, Hids2, Hids1. apply prefix_app_r. reflexivity.
Qed.

(** *** No operation of the pool removes a session from the store or
    changes an id *)

Lemma grows_ret {A} (a : A) : grows (W:=W) (ret a).
Proof. intros s. apply wp_ret. reflexivity. Qed.

Lemma grows_throw {A} (e : exn) : grows (W:=W) (A:=A) (throw e).
Proof. intros s. apply wp_throw. reflexivity. Qed.

Lemma grows_gets {A} (f : @state W -> A) : grows (gets f).
Proof. intros s. apply wp_gets. reflexivity. Qed.

Lemma grows_modify_this (f : t -> t) : grows (W:=W) (modify (with_this f)).
Proof. intros s. apply wp_modify. reflexivity. Qed.

Lemma grows_telemetry (f : PerformanceMonitor.t -> PerformanceMonitor.t) :
  grows (W:=W) (telemetry f).
Proof. intros s. apply wp_modify. reflexivity. Qed.

Lemma grows_platform {A} (op : W -> A * W) : grows (platform op).
Proof. intros s. apply wp_pool_platform. reflexivity. Qed.

Lemma grows_platform_ (op : W -> W) : grows (platform_ op).
Proof. intros s. apply wp_pool_platform_. reflexivity. Qed.

Lemma grows_bind {A B} (m : M (@state W) A) (k : A -> M state B) :
  grows m -> (forall a, grows (k a)) -> grows (bind m k).
Proof.
  intros Hm Hk s. apply wp_bind. eapply wp_mono; [apply Hm|].
  intros [a| | |] s' Hpre; cbn; try exact Hpre.
  eapply wp_mono; [apply Hk|]. intros ? s'' Hpre'. etrans; eassumption.
Qed.

Lemma grows_try_catch {A} (body : M (@state W) A) (handler : exn -> M state A) :
  grows body -> (forall e, grows (handler e)) -> grows (try_catch body handler).
Proof.
  intros Hm Hk s. apply wp_try_catch. eapply wp_mono; [apply Hm|].
  intros [|e | |] s' Hpre; cbn; try exact Hpre.
  eapply wp_mono; [apply Hk|]. intros ? s'' Hpre'. etrans; eassumption.
Qed.

Lemma grows_on_balancer {A} (m : M (@LoadBalancer.state W) A) : grows (on_balancer m).
Proof. intros s. apply wp_on_balancer. unfold wp. cbn. reflexivity. Qed.

Lemma grows_validateConnection (connection : ConnectionPtr) (allowReconnect : bool) :
  grows (W:=W) (validateConnection connection allowReconnect).
Proof.
  destruct connection as [p|]; [|apply grows_ret].
  apply on_conn_grows, isValid_ok.
Qed.

Lemma grows_createConnection : grows (W:=W) createConnection.
Proof.
  intros s. eapply wp_mono; [apply createConnection_effect|].
  intros [conn|e| |] s' (_ & Hids); try exact Hids.
  destruct Hids as (_ & k & ->). apply prefix_app_r. reflexivity.
Qed.

End Effects.

Create HintDb methods.
#[export] Hint Resolve gets_ok updateLastActiveTime_ok connect_ok close_ok
  isValidQuietly_ok isValid_ok : methods.

Ltac grows_step :=
  lazymatch goal with
  | |- grows (bind _ _) => apply grows_bind; [|intros ?]
  | |- grows (ret _) => apply grows_ret
  | |- grows (throw _) => apply grows_throw
  | |- grows (gets _) => apply grows_gets
  | |- grows (modify (with_this _)) => apply grows_modify_this
  | |- grows (add_total _) => apply grows_modify_this
  | |- grows (push_idle _) => apply grows_modify_this
  | |- grows pop_idle => apply grows_modify_this
  | |- grows (telemetry _) => apply grows_telemetry
  | |- grows (platform _) => apply grows_platform
  | |- grows (platform_ _) => apply grows_platform_
  | |- grows (try_catch _ _) => apply grows_try_catch; [|intros ?]
  | |- grows (on_conn _ _) => apply on_conn_grows; auto with methods
  | |- grows (getConnectionId _) => apply on_conn_grows; auto with methods
  | |- grows (getLastActiveTime _) => apply on_conn_grows; auto with methods
  | |- grows (on_balancer _) => apply grows_on_balancer
  | |- grows (validateConnection _ _) => apply grows_validateConnection
  | |- grows createConnection => apply grows_createConnection
  | |- grows (if ?b then _ else _) => destruct b
  | |- grows (match ?x with _ => _ end) => destruct x
  end.
Ltac grows_steps := repeat grows_step.

Section Grows.
Context {W : Type} `{Platform W}.

Lemma grows_getConnection_loop (fuel : nat) (timeout startTime tiemoutPoint : Z) :
  grows (W:=W) (getConnection_loop fuel timeout startTime tiemoutPoint).
Proof.
  induction fuel as [|fuel IH]; [intros s; unfold wp; cbn; reflexivity|].
  cbn [getConnection_loop]. unfold getConnection_turn, getConnection_idle, getConnection_create.
  grows_steps; exact IH.
Qed.

Lemma grows_getConnection (fuel : nat) (timeout : Z) : grows (W:=W) (getConnection fuel timeout).
Proof. unfold getConnection. grows_steps. apply grows_getConnection_loop. Qed.

Lemma grows_releaseConnection (connection : ConnectionPtr) :
  grows (W:=W) (releaseConnection connection).
Proof. unfold releaseConnection, releaseConnection_replace. grows_steps. Qed.

Lemma grows_init_loop (n : nat) : forall created, grows (W:=W) (init_loop n created).
Proof.
  induction n as [|n IH]; intros created; cbn [init_loop]; unfold init_attempt.
  - grows_steps.
  - grows_steps; apply IH.
Qed.

Lemma grows_close_all (conns : list nat) : grows (W:=W) (close_all conns).
Proof. induction conns as [|conn conns IH]; cbn [close_all]; grows_steps. exact IH. Qed.

Lemma grows_init (config : PoolConfig.t) : grows (W:=W) (init config).
Proof.
  unfold init. grows_steps; try apply grows_init_loop; try apply grows_close_all.
Qed.

Lemma grows_initWithSingleDatabase config host user password database port weight :
  grows (W:=W) (initWithSingleDatabase config host user password database port weight).
Proof. unfold initWithSingleDatabase. grows_steps. apply grows_init. Qed.

Lemma grows_initWithMultipleDatabases config databases strategy :
  grows (W:=W) (initWithMultipleDatabases config databases strategy).
Proof. unfold initWithMultipleDatabases. grows_steps. apply grows_init. Qed.

Lemma grows_ensureMinimumConnections_loop (n : nat) :
  grows (W:=W) (ensureMinimumConnections_loop n).
Proof.
  induction n as [|n IH]; cbn [ensureMinimumConnections_loop]; grows_steps; exact IH.
Qed.

Lemma grows_ensureMinimumConnections : grows (W:=W) ensureMinimumConnections.
Proof.
  unfold ensureMinimumConnections. grows_steps. apply grows_ensureMinimumConnections_loop.
Qed.

Lemma grows_cleanupIdleConnections_loop (idle : list nat) (now : Z) :
  forall keep, grows (W:=W) (cleanupIdleConnections_loop idle now keep).
Proof.
  induction idle as [|conn idle IH]; intros keep; cbn [cleanupIdleConnections_loop];
    grows_steps; apply IH.
Qed.

Lemma grows_cleanupIdleConnections : grows (W:=W) cleanupIdleConnections.
Proof.
  unfold cleanupIdleConnections. grows_steps. apply grows_cleanupIdleConnections_loop.
Qed.

Lemma grows_performHealthCheck : grows (W:=W) performHealthCheck.
Proof.
  unfold performHealthCheck. grows_steps;
    [apply grows_cleanupIdleConnections | apply grows_ensureMinimumConnections].
Qed.

Lemma grows_healthCheckWorker_turn : grows (W:=W) healthCheckWorker_turn.
Proof.
  unfold healthCheckWorker_turn. grows_steps;
    [apply grows_cleanupIdleConnections | apply grows_ensureMinimumConnections].
Qed.

Lemma grows_shrinkPoolToSize_loop (idle : list nat) (targetSize : Z) :
  grows (W:=W) (shrinkPoolToSize_loop idle targetSize).
Proof.
  induction idle as [|conn idle IH]; cbn [shrinkPoolToSize_loop]; grows_steps. exact IH.
Qed.

Lemma grows_adjustConfiguration (newConfig : PoolConfig.t) :
  grows (W:=W) (adjustConfiguration newConfig).
Proof.
  unfold adjustConfiguration, shrinkPoolToSize. grows_steps.
  apply grows_shrinkPoolToSize_loop.
Qed.

(** A step of the process keeps the ids of the sessions it found. *)
Lemma step_grows (s s' : @state W) : step s s' -> ids s `prefix_of` ids s'.
Proof.
  intros Hstep.
  destruct Hstep as [config s r s' _ Hrun _
                    | config host user password database port weight s r s' _ Hrun _
                    | config databases strategy s r s' _ Hrun _
                    | fuel timeout s r s' _ Hrun _
                    | connection s r s' _ Hrun _
                    | s r s' Hrun _
                    | s r s' Hrun _
                    | newConfig s r s' _ Hrun _];
    match type of Hrun with
    | ?m ?s = _ => assert (Hg : grows m)
    end.
  all: try (pose proof (Hg s) as Hwp; unfold wp in Hwp; rewrite Hrun in Hwp; exact Hwp).
  - apply grows_init.
  - apply grows_initWithSingleDatabase.
  - apply grows_initWithMultipleDatabases.
  - apply grows_getConnection.
  - apply grows_releaseConnection.
  - apply grows_performHealthCheck.
  - apply grows_healthCheckWorker_turn.
  - apply grows_adjustConfiguration.
Qed.

End Grows.

Section Cases.
Context {W : Type} `{Platform W}.
Implicit Types s : @state W.

(** A method of a session either finds no session at the address, or returns
    and changes neither the pool nor the ids. *)
Lemma on_conn_cases {A} (p : nat) (m : M (@Connection.state W) A) s :
  Connection.method_ok m ->
  wp (on_conn p m)
     (fun r s' =>
        r = Undefined \/
        ((exists a, r = Ok a) /\ this s' = this s /\ ids s' = ids s /\
         exists k, ids s !! p = Some k)) s.
Proof.
  intros Hm. destruct (ids s !! p) as [k|] eqn:Hk.
  - eapply wp_mono; [eapply on_conn_effect; eassumption|].
    intros r s' (Hr & Hthis & Hids). right. eauto.
  - unfold wp, on_conn. destruct (heap s !! p) as [c|] eqn:Hc; [|left; reflexivity].
    exfalso. assert (ids s !! p = Some (Connection.m_connectionId c)) as Hk'
      by (apply ids_lookup; eauto). congruence.
Qed.

Lemma validateConnection_cases (p : nat) (allowReconnect : bool) s :
  wp (validateConnection (Some p) allowReconnect)
     (fun r s' =>
        r = Undefined \/
        ((exists valid, r = Ok valid) /\ this s' = this s /\ ids s' = ids s /\
         exists k, ids s !! p = Some k)) s.
Proof. apply on_conn_cases, isValid_ok. Qed.

Lemma getConnectionId_cases (p : nat) s :
  wp (getConnectionId p)
     (fun r s' =>
        r = Undefined \/
        (exists k, r = Ok k /\ ids s !! p = Some k /\ this s' = this s /\ ids s' = ids s)) s.
Proof.
  destruct (ids s !! p) as [k|] eqn:Hk.
  - eapply wp_mono; [eapply getConnectionId_effect; eassumption|].
    intros r s' (Hr & Hthis & Hids). right. eauto.
  - unfold getConnectionId.
    eapply wp_mono; [apply on_conn_cases, gets_ok|].
    intros r s' [-> | (_ & _ & _ & k & Hk')]; [left; reflexivity | congruence].
Qed.

End Cases.

(** Runs an effect lemma on the first computation of the goal. *)
Tactic Notation "effect" uconstr(lem) :=
  lazymatch goal with
  | |- wp (bind _ _) _ _ => apply wp_bind
  | _ => idtac
  end;
  eapply wp_mono; [eapply lem; eauto with methods|]; cbn beta.

(** After an effect lemma: names the parts of the new state and replaces its
    pool by what the lemma says it is. *)
Ltac settle s' :=
  cbn [then_wp catch_wp];
  destruct s' as [? ? ? ? ? ?]; unfold ids in *; norm; subst.

(** At the end of a path: every list of ids in terms of the first store. *)
Ltac ids_back :=
  repeat match goal with
         | Hi : Connection.m_connectionId <$> _ = _ |- _ => rewrite Hi in *; clear Hi
         end.

(** *** [releaseConnection] keeps the bookkeeping sound *)

Section Sound.
Context {W : Type} `{Platform W}.
Implicit Types s : @state W.

Lemma sound_running s (k : string) (conn : nat) :
  sound s -> m_activeConnections (this s) !! k = Some conn ->
  m_isRunning (this s) = true.
Proof.
  intros [Hcons Hstop] Hk.
  destruct (m_isRunning (this s)); [reflexivity|].
  destruct (consistent_empty _ _ Hcons (Hstop eq_refl)) as [_ Hempty].
  rewrite Hempty, lookup_empty in Hk. discriminate.
Qed.

Lemma releaseConnection_replace_sound s :
  wp releaseConnection_replace
     (fun r s' =>
        completed r -> NoDup (ids s') ->
        consistent (this s) (ids s) ->
        m_totalConnections (this s) < PoolConfig.minConnections (m_config (this s)) ->
        consistent (this s') (ids s') /\ m_isRunning (this s') = m_isRunning (this s)) s.
Proof.
  unfold releaseConnection_replace. pool_step.
  effect createConnection_effect.
  intros [conn|e| |] s1 (Hthis1 & Hids1); cbn [catch_wp then_wp].
  - destruct Hids1 as (-> & k & Hids1). pool_step.
    effect validateConnection_cases.
    intros r s2 [-> | ((valid & ->) & Hthis2 & Hids2 & _)]; cbn [then_wp catch_wp];
      [intros []|].
    destruct valid; pool_steps; norm.
    + intros _ Hnd Hcons Hlt. rewrite Hthis2, Hthis1.
      change (ids (with_this _ (with_this _ s2))) with (ids s2) in *.
      rewrite Hids2, Hids1 in *. split; [|reflexivity].
      pose proof (config_range _ _ Hcons) as Hrange.
      unfold PoolConfig.in_range in Hrange.
      apply (consistent_push_new _ _ k) in Hcons; [exact Hcons | exact Hnd | lia].
    + effect on_conn_cases.
      intros r s3 [-> | ((a & ->) & Hthis3 & Hids3 & _)]; [intros []|].
      intros _ Hnd Hcons Hlt. rewrite Hthis3, Hthis2, Hthis1, Hids3, Hids2, Hids1.
      split; [|reflexivity]. eapply consistent_grow; [exact Hcons|].
      apply prefix_app_r. reflexivity.
  - pool_steps. intros _ Hnd Hcons Hlt. cbn. rewrite Hthis1. split; [|reflexivity].
    eapply consistent_grow; eassumption.
  - intros [].
  - intros [].
Qed.

Lemma releaseConnection_sound (connection : ConnectionPtr) s :
  (forall conn, connection = Some conn -> checked_out conn s) ->
  wp (releaseConnection connection)
     (fun r s' => completed r -> NoDup (ids s') -> sound s -> sound s') s.
Proof.
  intros Hside. destruct connection as [conn|]; [|apply wp_ret; auto].
  destruct (Hside conn eq_refl) as (k & Hk & Hactive).
  unfold releaseConnection.
  effect (getConnectionId_effect conn s k).
  intros r s1 (-> & Hthis1 & Hids1). settle s1. pool_steps.
  effect on_conn_cases.
  intros r s2 [-> | ((lastActiveTime & ->) & Hthis2 & Hids2 & _)]; cbn [then_wp];
    [intros []|].
  settle s2. pool_steps.
  destruct (_ <? _) eqn:Hover; pool_steps.
  - (* more sessions than the limit: the session is closed *)
    effect on_conn_cases.
    intros r s3 [-> | ((a & ->) & Hthis3 & Hids3 & _)]; cbn [then_wp]; [intros []|].
    settle s3. pool_steps. intros _ Hnd Hsound.
    pose proof (sound_running _ _ _ Hsound Hactive) as Hrun.
    destruct Hsound as [Hcons _]. unfold sound, ids in *. norm. ids_back.
    split; [|intros Hstop; congruence].
    eapply consistent_release_drop in Hcons; [exact Hcons | exact Hactive].
  - effect validateConnection_cases.
    intros r s3 [-> | ((valid & ->) & Hthis3 & Hids3 & _)]; cbn [then_wp]; [intros []|].
    settle s3. pool_step. destruct valid.
    + (* the session is queued again *)
      pool_steps. intros _ Hnd Hsound.
      pose proof (sound_running _ _ _ Hsound Hactive) as Hrun.
      destruct Hsound as [Hcons _]. unfold sound, ids in *. norm. ids_back.
      split; [|intros Hstop; congruence].
      eapply consistent_release_keep in Hcons; [exact Hcons | exact Hactive].
    + (* the session is dead: it is dropped, and perhaps replaced *)
      pool_step.
      effect on_conn_cases.
      intros r s4 [-> | ((a & ->) & Hthis4 & Hids4 & _)]; cbn [then_wp]; [intros []|].
      settle s4. pool_steps. norm.
      destruct (wrap64 _ <? _) eqn:Hbelow; pool_steps.
      * eapply wp_mono; [apply releaseConnection_replace_sound|].
        intros r s5 Hreplace.
        assert (Hthen : NoDup (ids s5) -> sound s -> completed r -> sound s5).
        { intros Hnd Hsound Hr.
          pose proof (sound_running _ _ _ Hsound Hactive) as Hrun.
          destruct Hsound as [Hcons _].
          unfold sound, ids in *. norm.
          eapply consistent_release_drop in Hcons; [|exact Hactive].
          destruct (Hreplace Hr Hnd) as [Hcons5 Hrun5].
          { ids_back. exact Hcons. }
          { apply Z.ltb_lt. exact Hbelow. }
          split; [exact Hcons5|]. intros Hstop. congruence. }
        destruct r as [[]| e | |]; cbn [then_wp].
        -- pool_steps. intros _ Hnd Hsound. apply (Hthen Hnd Hsound I).
        -- intros _ Hnd Hsound. apply (Hthen Hnd Hsound I).
        -- intros [].
        -- intros [].
      * intros _ Hnd Hsound.
        pose proof (sound_running _ _ _ Hsound Hactive) as Hrun.
        destruct Hsound as [Hcons _]. unfold sound, ids in *. norm. ids_back.
        split; [|intros Hstop; congruence].
        eapply consistent_release_drop in Hcons; [exact Hcons | exact Hactive].
Qed.

End Sound.

(** At the end of a path: the pool in terms of the first one. *)
Ltac this_back :=
  repeat match goal with
         | Hi : this _ = _ |- _ => rewrite Hi in *; clear Hi
         end.
Ltac back := unfold invariant, sound, ids in *; norm; this_back; ids_back; norm.

(** *** Every operation keeps the invariant *)

Section Invariant.
Context {W : Type} `{Platform W}.
Implicit Types s : @state W.

Lemma NoDup_prefix {A} (l k : list A) : l `prefix_of` k -> NoDup k -> NoDup l.
Proof. intros [m ->] Hnd. apply NoDup_app in Hnd as [Hl _]. exact Hl. Qed.

Lemma in_range_default : PoolConfig.in_range PoolConfig.default.
Proof. unfold PoolConfig.in_range, UINT_MAX. cbn. lia. Qed.

Lemma invariant_start (w : W) : invariant (start w).
Proof.
  intros _. split; [|reflexivity].
  split; cbn.
  - reflexivity.
  - apply NoDup_nil_2.
  - intros p Hp. apply elem_of_nil in Hp. destruct Hp.
  - intros k p Hp. rewrite lookup_empty in Hp. discriminate.
  - unfold UINT_MAX. lia.
  - apply in_range_default.
Qed.

Lemma releaseConnection_invariant (connection : ConnectionPtr) s :
  (forall conn, connection = Some conn -> checked_out conn s) ->
  invariant s ->
  wp (releaseConnection connection) (fun r s' => completed r -> invariant s') s.
Proof.
  intros Hside Hinv.
  pose proof (grows_releaseConnection connection s) as Hg.
  pose proof (releaseConnection_sound connection s Hside) as Hs.
  unfold wp in *. intros Hr Hnd. apply Hs; [exact Hr | exact Hnd |].
  apply Hinv. eapply NoDup_prefix; eassumption.
Qed.

Lemma getConnection_create_invariant s :
  invariant s -> m_isRunning (this s) = true ->
  m_totalConnections (this s) < PoolConfig.maxConnections (m_config (this s)) ->
  wp getConnection_create
     (fun r s' =>
        completed r ->
        invariant s' /\ m_isRunning (this s') = true /\
        m_idleConnections (this s') = m_idleConnections (this s)) s.
Proof.
  intros Hinv Hrun Hlt. unfold getConnection_create. pool_step.
  effect createConnection_effect.
  intros [conn|e| |] s1 (Hthis1 & Hids1); cbn [catch_wp then_wp].
  - destruct Hids1 as (-> & k & Hids1). pool_step.
    effect validateConnection_cases.
    intros r s2 [-> | ((valid & ->) & Hthis2 & Hids2 & _)]; cbn [then_wp catch_wp];
      [intros []|].
    destruct valid; pool_steps.
    + effect getConnectionId_cases.
      intros r s3 [-> | (k' & -> & Hk' & Hthis3 & Hids3)]; cbn [then_wp catch_wp];
        [intros []|].
      pool_steps.
      effect on_conn_cases.
      intros r s4 [-> | ((a & ->) & Hthis4 & Hids4 & _)]; cbn [then_wp catch_wp];
        [intros []|].
      pool_steps. intros _. back.
      rewrite list_lookup_middle in Hk' by reflexivity. injection Hk' as <-.
      split; [intros Hnd | split; [exact Hrun | reflexivity]].
      split; [|intros Hstop; congruence].
      destruct Hinv as [Hcons _];
        [apply NoDup_app in Hnd as [Hnd _]; exact Hnd|].
      pose proof (config_range _ _ Hcons) as Hrange.
      unfold PoolConfig.in_range in Hrange.
      apply (consistent_insert_new _ _ k) in Hcons; [exact Hcons | exact Hnd | lia].
    + effect on_conn_cases.
      intros r s3 [-> | ((a & ->) & Hthis3 & Hids3 & _)]; cbn [then_wp catch_wp];
        [intros []|].
      pool_steps. intros _. back.
      split; [intros Hnd | split; [exact Hrun | reflexivity]].
      destruct Hinv as [Hcons Hstop];
        [apply NoDup_app in Hnd as [Hnd _]; exact Hnd|].
      split; [|exact Hstop].
      eapply consistent_grow; [exact Hcons|]. apply prefix_app_r. reflexivity.
  - pool_steps. intros _. back.
    split; [intros Hnd | split; [exact Hrun | reflexivity]].
    destruct Hinv as [Hcons Hstop]; [eapply NoDup_prefix; eassumption|].
    split; [|exact Hstop]. eapply consistent_grow; eassumption.
  - intros [].
  - intros [].
Qed.

Lemma getConnection_idle_invariant (head : nat) (rest : list nat) (startTime : Z) s
    (c : Connection.t) (h : MYSQL) :
  invariant s -> m_isRunning (this s) = true ->
  m_idleConnections (this s) = head :: rest ->
  heap s !! head = Some c -> Connection.m_mysql c = Some h ->
  fst (mysql_ping h (world s)) = 0 ->
  wp (getConnection_idle head startTime)
     (fun r s' =>
        completed r -> (exists conn, r = Ok (return_connection conn)) /\ invariant s') s.
Proof.
  intros Hinv Hrun Hidle Hc Hh Hping. unfold getConnection_idle.
  effect (validateConnection_answers head s c h).
  intros r s1 (-> & Hthis1 & Hids1). cbn [then_wp]. pool_steps.
  effect getConnectionId_cases.
  intros r s2 [-> | (k & -> & Hk & Hthis2 & Hids2)]; cbn [then_wp]; [intros []|].
  pool_steps.
  effect on_conn_cases.
  intros r s3 [-> | ((a & ->) & Hthis3 & Hids3 & _)]; cbn [then_wp]; [intros []|].
  pool_steps. intros _. split; [eauto|]. back.
  intros Hnd. destruct (Hinv Hnd) as [Hcons _]. split; [|intros; congruence].
  rewrite Hidle. cbn [tail].
  eapply consistent_acquire_head in Hcons; [exact Hcons | exact Hnd | exact Hidle | exact Hk].
Qed.

Lemma getConnection_turn_invariant (timeout startTime tiemoutPoint : Z) s :
  invariant s -> m_isRunning (this s) = true ->
  (forall head rest, m_idleConnections (this s) = head :: rest ->
     exists (c : Connection.t) (h : MYSQL),
       heap s !! head = Some c /\ Connection.m_mysql c = Some h /\
       fst (mysql_ping h (world s)) = 0) ->
  wp (getConnection_turn timeout startTime tiemoutPoint)
     (fun r s' =>
        completed r ->
        invariant s' /\
        (r = Ok continue_loop ->
         m_isRunning (this s') = true /\ m_idleConnections (this s') = [])) s.
Proof.
  intros Hinv Hrun Hhead. unfold getConnection_turn. pool_steps.
  destruct (m_idleConnections (this s)) as [|head rest] eqn:Hidle.
  - pool_step.
    assert (Hcreated :
      wp (if m_totalConnections (this s) <? PoolConfig.maxConnections (m_config (this s))
          then getConnection_create else ret None)
         (fun r s1 =>
            completed r ->
            invariant s1 /\ m_isRunning (this s1) = true /\
            m_idleConnections (this s1) = []) s).
    { destruct (_ <? _) eqn:Hlt.
      - rewrite <- Hidle. apply getConnection_create_invariant;
          [exact Hinv | exact Hrun | apply Z.ltb_lt; exact Hlt].
      - pool_steps. intros _. auto. }
    eapply wp_mono; [exact Hcreated|].
    intros [[conn|]|e| |] s1 Hpost; cbn [then_wp].
    + pool_steps. intros _. split; [exact (proj1 (Hpost I)) | intros [=]].
    + destruct (Hpost I) as (Hinv1 & Hrun1 & Hidle1). pool_steps.
      destruct (fst (wait_until _ _)); pool_steps; intros _; back.
      * split; [exact Hinv1 | intros _; split; assumption].
      * split; [exact Hinv1 | intros [=]].
    + intros Hr. split; [exact (proj1 (Hpost Hr)) | intros [=]].
    + intros [].
    + intros [].
  - destruct (Hhead head rest eq_refl) as (c & h & Hc & Hh & Hping).
    eapply wp_mono; [eapply getConnection_idle_invariant; eassumption|].
    intros r s1 Hpost Hr. destruct (Hpost Hr) as ((conn & ->) & Hinv1).
    split; [exact Hinv1 | intros [=]].
Qed.

Lemma getConnection_loop_invariant (fuel : nat) (timeout startTime tiemoutPoint : Z) :
  forall s,
    invariant s -> m_isRunning (this s) = true ->
    (forall head rest, m_idleConnections (this s) = head :: rest ->
       exists (c : Connection.t) (h : MYSQL),
         heap s !! head = Some c /\ Connection.m_mysql c = Some h /\
         fst (mysql_ping h (world s)) = 0) ->
    wp (getConnection_loop fuel timeout startTime tiemoutPoint)
       (fun r s' => completed r -> invariant s') s.
Proof.
  induction fuel as [|fuel IH]; intros s Hinv Hrun Hhead; cbn [getConnection_loop].
  - intros [].
  - pool_step.
    eapply wp_mono; [apply getConnection_turn_invariant; eassumption|].
    intros [[conn|]|e| |] s1 Hpost; cbn [then_wp].
    + pool_steps. intros _. apply Hpost, I.
    + destruct (Hpost I) as (Hinv1 & Hcontinue).
      destruct (Hcontinue eq_refl) as (Hrun1 & Hidle1).
      apply IH; [exact Hinv1 | exact Hrun1 |].
      intros head rest Hidle. rewrite Hidle1 in Hidle. discriminate.
    + intros Hr. apply Hpost, Hr.
    + intros [].
    + intros [].
Qed.

Lemma getConnection_invariant (fuel : nat) (timeout : Z) s :
  head_answers s -> invariant s ->
  wp (getConnection fuel timeout) (fun r s' => completed r -> invariant s') s.
Proof.
  intros Hhead Hinv. unfold getConnection. pool_steps.
  destruct (m_isRunning (this s)) eqn:Hrun; cbn [negb]; pool_steps.
  - apply getConnection_loop_invariant; [exact Hinv | exact Hrun | exact Hhead].
  - intros _. exact Hinv.
Qed.

(** **** [init] *)

Lemma init_attempt_invariant (created : Z) s :
  (NoDup (ids s) ->
   consistent (this s) (ids s) /\ m_totalConnections (this s) = created) ->
  created < UINT_MAX ->
  wp init_attempt
     (fun r s' =>
        completed r ->
        exists queued, r = Ok queued /\
          (NoDup (ids s') ->
           consistent (this s') (ids s') /\
           m_totalConnections (this s') = if queued then created + 1 else created)) s.
Proof.
  intros Hpre Hlt. unfold init_attempt. pool_step.
  effect createConnection_effect.
  intros [conn|e| |] s1 (Hthis1 & Hids1); cbn [catch_wp then_wp].
  - destruct Hids1 as (-> & k & Hids1). pool_step.
    effect validateConnection_cases.
    intros r s2 [-> | ((valid & ->) & Hthis2 & Hids2 & _)]; cbn [then_wp catch_wp];
      [intros []|].
    destruct valid; cbn [negb]; pool_steps.
    + intros _. exists true. split; [reflexivity|]. back. intros Hnd.
      destruct Hpre as [Hcons Htotal];
        [apply NoDup_app in Hnd as [Hnd _]; exact Hnd|].
      split.
      * apply (consistent_push_new _ _ k) in Hcons; [exact Hcons | exact Hnd | lia].
      * rewrite <- Htotal. eapply wrap64_total; [exact Hcons|].
        pose proof (consistent_total_nonneg _ _ Hcons). lia.
    + effect on_conn_cases.
      intros r s3 [-> | ((a & ->) & Hthis3 & Hids3 & _)]; cbn [then_wp catch_wp];
        [intros []|].
      pool_steps. intros _. exists false. split; [reflexivity|]. back. intros Hnd.
      destruct Hpre as [Hcons Htotal];
        [apply NoDup_app in Hnd as [Hnd _]; exact Hnd|].
      split; [|exact Htotal].
      eapply consistent_grow; [exact Hcons|]. apply prefix_app_r. reflexivity.
  - pool_steps. intros _. exists false. split; [reflexivity|]. back. intros Hnd.
    destruct Hpre as [Hcons Htotal]; [eapply NoDup_prefix; eassumption|].
    split; [|exact Htotal]. eapply consistent_grow; eassumption.
  - intros [].
  - intros [].
Qed.

Lemma init_loop_invariant (n : nat) : forall (created : Z) s,
  (NoDup (ids s) ->
   consistent (this s) (ids s) /\ m_totalConnections (this s) = created) ->
  created + Z.of_nat n <= UINT_MAX ->
  wp (init_loop n created)
     (fun r s' =>
        completed r ->
        exists created', r = Ok created' /\
          (NoDup (ids s') ->
           consistent (this s') (ids s') /\ m_totalConnections (this s') = created')) s.
Proof.
  induction n as [|n IH]; intros created s Hpre Hle; cbn [init_loop].
  - pool_steps. intros _. exists created. split; [reflexivity | exact Hpre].
  - pool_step.
    eapply wp_mono; [apply (init_attempt_invariant created); [exact Hpre | lia]|].
    intros r s1 Hpost. destruct r as [queued|e| |]; cbn [then_wp].
    + destruct (Hpost I) as (queued' & [= <-] & Hpre1).
      apply IH; [exact Hpre1|]. destruct queued; lia.
    + destruct (Hpost I) as (queued' & [=] & _).
    + intros [].
    + intros [].
Qed.

Lemma grows_init_handler (e : exn) :
  grows (W:=W) (A:=unit)
    (run modify (with_this (set_m_isRunning false));
     do pool <- gets this;
     run close_all (m_idleConnections pool);
     run modify (with_this (set_m_totalConnections 0));
     throw e).
Proof. grows_steps. apply grows_close_all. Qed.

Lemma init_invariant (config : PoolConfig.t) s :
  PoolConfig.in_range config -> invariant s ->
  wp (init config) (fun r s' => completed r -> invariant s') s.
Proof.
  intros Hrange Hinv. unfold init. pool_steps.
  destruct (m_isRunning (this s)) eqn:Hrun; [pool_steps; intros _; exact Hinv|].
  destruct (negb (PoolConfig.isValid config)); [pool_steps; intros _; exact Hinv|].
  pool_steps.
  eapply wp_mono.
  { apply (init_loop_invariant _ 0).
    - intros Hnd. destruct (Hinv Hnd) as [Hcons Hstop].
      split; [apply consistent_set_config; assumption | apply Hstop, Hrun].
    - unfold PoolConfig.in_range in Hrange. lia. }
  intros r s1 Hpost. destruct r as [created|e| |]; cbn [then_wp catch_wp].
  - destruct (Hpost I) as (created' & [= <-] & Hpre1).
    destruct (_ && _) eqn:Hnone; [pool_step | pool_steps].
    + destruct (decide (NoDup (ids s1))) as [Hnd1 | Hdup].
      * destruct (Hpre1 Hnd1) as [Hcons1 Htotal1].
        apply andb_true_iff in Hnone as [_ Hzero]. apply Z.eqb_eq in Hzero. subst created.
        destruct (consistent_empty _ _ Hcons1 Htotal1) as [Hidle1 Hactive1].
        pool_steps. norm. rewrite Hidle1. cbn [close_all]. pool_steps. intros _ _.
        unfold sound, ids. norm. split; [|reflexivity].
        destruct Hcons1 as [Hc Hn Hi Ha Hb Hr]. split; norm; try assumption;
          [rewrite Htotal1 in Hc; exact Hc | unfold UINT_MAX; lia].
      * eapply wp_mono; [apply grows_init_handler|].
        intros r s2 Hpre _ Hnd2. exfalso. apply Hdup.
        eapply NoDup_prefix; [exact Hpre | exact Hnd2].
    + intros _ Hnd. destruct (Hpre1 Hnd) as [Hcons1 _].
      split; [|intros [=]]. apply consistent_set_running. exact Hcons1.
  - destruct (Hpost I) as (created' & [=] & _).
  - intros [].
  - intros [].
Qed.

Lemma initWithSingleDatabase_invariant (config : PoolConfig.t)
    (host user password database : string) (port weight : Z) s :
  PoolConfig.in_range config -> invariant s ->
  wp (initWithSingleDatabase config host user password database port weight)
     (fun r s' => completed r -> invariant s') s.
Proof.
  intros Hrange Hinv. unfold initWithSingleDatabase. pool_steps.
  unfold wp at 1.
  destruct (LoadBalancer.initSingleDatabase _ _ _ _ _ _ _) as [[[] | e | |] ls];
    cbn [fst snd then_wp]; try (intros []; fail).
  - apply init_invariant; [exact Hrange | exact Hinv].
  - intros _. exact Hinv.
Qed.

Lemma initWithMultipleDatabases_invariant (config : PoolConfig.t)
    (databases : list DBConfig.t) (strategy : LoadBalanceStrategy) s :
  PoolConfig.in_range config -> invariant s ->
  wp (initWithMultipleDatabases config databases strategy)
     (fun r s' => completed r -> invariant s') s.
Proof.
  intros Hrange Hinv. unfold initWithMultipleDatabases. pool_steps.
  unfold wp at 1.
  destruct (LoadBalancer.init _ _ _) as [[[] | e | |] ls];
    cbn [fst snd then_wp]; try (intros []; fail).
  - apply init_invariant; [exact Hrange | exact Hinv].
  - intros _. exact Hinv.
Qed.

(** **** The health passes *)

Lemma ensureMinimumConnections_loop_invariant (n : nat) : forall s,
  m_isRunning (this s) = true ->
  (NoDup (ids s) ->
   consistent (this s) (ids s) /\ m_totalConnections (this s) + Z.of_nat n <= UINT_MAX) ->
  wp (ensureMinimumConnections_loop n) (fun r s' => completed r -> invariant s') s.
Proof.
  induction n as [|n IH]; intros s Hrun Hpre; cbn [ensureMinimumConnections_loop].
  - pool_steps. intros _ Hnd. destruct (Hpre Hnd) as [Hcons _].
    split; [exact Hcons | intros Hstop; congruence].
  - pool_step. effect createConnection_effect.
    intros [conn|e| |] s1 (Hthis1 & Hids1); cbn [then_wp].
    + destruct Hids1 as (-> & k & Hids1). pool_step.
      effect validateConnection_cases.
      intros r s2 [-> | ((valid & ->) & Hthis2 & Hids2 & _)]; cbn [then_wp];
        [intros []|].
      pool_step. destruct valid.
      * pool_steps. apply IH; back; [exact Hrun|]. intros Hnd.
        destruct Hpre as [Hcons Hle];
          [apply NoDup_app in Hnd as [Hnd _]; exact Hnd|].
        split.
        -- apply (consistent_push_new _ _ k) in Hcons; [exact Hcons | exact Hnd | lia].
        -- rewrite (wrap64_total _ _ 1 Hcons); [lia|].
           pose proof (consistent_total_nonneg _ _ Hcons). lia.
      * effect on_conn_cases.
        intros r s3 [-> | ((a & ->) & Hthis3 & Hids3 & _)]; cbn [then_wp];
          [intros []|].
        apply IH; back; [exact Hrun|]. intros Hnd.
        destruct Hpre as [Hcons Hle];
          [apply NoDup_app in Hnd as [Hnd _]; exact Hnd|].
        split; [|lia].
        eapply consistent_grow; [exact Hcons|]. apply prefix_app_r. reflexivity.
    + intros _. back. intros Hnd.
      destruct Hpre as [Hcons _]; [eapply NoDup_prefix; eassumption|].
      split; [|intros Hstop; congruence]. eapply consistent_grow; eassumption.
    + intros [].
    + intros [].
Qed.

Lemma ensureMinimumConnections_invariant s :
  m_isRunning (this s) = true -> invariant s ->
  wp ensureMinimumConnections (fun r s' => completed r -> invariant s') s.
Proof.
  intros Hrun Hinv. unfold ensureMinimumConnections. pool_steps.
  destruct (_ <? _) eqn:Hlt; [|pool_steps; intros _; exact Hinv].
  apply Z.ltb_lt in Hlt.
  apply ensureMinimumConnections_loop_invariant; [exact Hrun|].
  intros Hnd. destruct (Hinv Hnd) as [Hcons _]. split; [exact Hcons|].
  pose proof (consistent_total_nonneg _ _ Hcons) as Hnonneg.
  pose proof (config_range _ _ Hcons) as Hrange. unfold PoolConfig.in_range in Hrange.
  rewrite wrap64_small by (unfold UINT_MAX in *; lia). lia.
Qed.

Lemma cleanupIdleConnections_loop_invariant (idle : list nat) (now : Z) :
  forall (keep : list nat) s,
    m_idleConnections (this s) = idle ->
    m_isRunning (this s) = true ->
    (NoDup (ids s) ->
     consistent (set_m_idleConnections (keep ++ idle) (this s)) (ids s)) ->
    wp (cleanupIdleConnections_loop idle now keep)
       (fun r s' =>
          completed r ->
          exists keep', r = Ok keep' /\ m_isRunning (this s') = true /\
            (NoDup (ids s') ->
             consistent (set_m_idleConnections keep' (this s')) (ids s'))) s.
Proof.
  induction idle as [|conn rest IH]; intros keep s Hidle Hrun Hpre;
    cbn [cleanupIdleConnections_loop].
  - pool_steps. intros _. exists keep. split; [reflexivity|]. split; [exact Hrun|].
    rewrite app_nil_r in Hpre. exact Hpre.
  - pool_steps. effect on_conn_cases.
    intros r s1 [-> | ((isValid & ->) & Hthis1 & Hids1 & _)]; cbn [then_wp];
      [intros []|].
    pool_step.
    assert (Hkept :
      wp (if isValid then
            do lastActiveTime <- getLastActiveTime conn;
            do pool <- gets this;
            if now - lastActiveTime <=? PoolConfig.maxIdleTime (m_config pool)
            then ret true
            else ret (m_totalConnections pool <? PoolConfig.minConnections (m_config pool))
          else ret false)
         (fun r s2 =>
            completed r ->
            (exists kept, r = Ok kept) /\ this s2 = this s1 /\ ids s2 = ids s1) s1).
    { destruct isValid; [|pool_steps; intros _; eauto].
      effect on_conn_cases.
      intros r s2 [-> | ((lastActiveTime & ->) & Hthis2 & Hids2 & _)]; cbn [then_wp];
        [intros []|].
      pool_steps. destruct (_ <=? _); pool_steps; intros _; eauto. }
    eapply wp_mono; [exact Hkept|]. clear Hkept.
    intros r s2 Hpost. destruct r as [kept|e| |]; cbn [then_wp];
      [|destruct (Hpost I) as ((kept & [=]) & _)|intros []|intros []].
    destruct (Hpost I) as (_ & Hthis2 & Hids2). clear Hpost.
    destruct kept.
    + apply IH; back; [rewrite Hidle; reflexivity | exact Hrun |].
      intros Hnd. rewrite <- app_assoc. exact (Hpre Hnd).
    + effect on_conn_cases.
      intros r s3 [-> | ((a & ->) & Hthis3 & Hids3 & _)]; cbn [then_wp];
        [intros []|].
      pool_steps.
      apply IH; back; [rewrite Hidle; reflexivity | exact Hrun |].
      intros Hnd. specialize (Hpre Hnd).
      eapply (consistent_remove_idle _ _ keep rest conn) in Hpre; [exact Hpre | reflexivity].
Qed.

Lemma consistent_set_idle_same pool ids :
  consistent pool ids -> consistent (set_m_idleConnections (m_idleConnections pool) pool) ids.
Proof. destruct pool. intros Hcons. exact Hcons. Qed.

Lemma cleanupIdleConnections_invariant s :
  m_isRunning (this s) = true -> invariant s ->
  wp cleanupIdleConnections
     (fun r s' => completed r -> m_isRunning (this s') = true /\ invariant s') s.
Proof.
  intros Hrun Hinv. unfold cleanupIdleConnections. pool_steps. norm.
  eapply wp_mono.
  { apply (cleanupIdleConnections_loop_invariant _ _ []); [reflexivity | exact Hrun |].
    intros Hnd. destruct (Hinv Hnd) as [Hcons _].
    apply consistent_set_idle_same. exact Hcons. }
  intros r s1 Hpost. destruct r as [keep|e| |]; cbn [then_wp].
  - destruct (Hpost I) as (keep' & [= <-] & Hrun1 & Hcons1).
    pool_steps. intros _. split; [exact Hrun1|].
    intros Hnd. split; [exact (Hcons1 Hnd)|]. norm. intros Hstop. congruence.
  - destruct (Hpost I) as (keep' & [=] & _).
  - intros [].
  - intros [].
Qed.

Lemma health_pass_invariant s :
  m_isRunning (this s) = true -> invariant s ->
  wp (run cleanupIdleConnections; ensureMinimumConnections)
     (fun r s' => completed r -> invariant s') s.
Proof.
  intros Hrun Hinv. pool_step.
  eapply wp_mono; [apply cleanupIdleConnections_invariant; assumption|].
  intros r s1 Hpost. destruct r as [[]|e| |]; cbn [then_wp].
  - destruct (Hpost I) as [Hrun1 Hinv1].
    apply ensureMinimumConnections_invariant; assumption.
  - intros _. exact (proj2 (Hpost I)).
  - intros [].
  - intros [].
Qed.

Lemma performHealthCheck_invariant s :
  invariant s -> wp performHealthCheck (fun r s' => completed r -> invariant s') s.
Proof.
  intros Hinv. unfold performHealthCheck. pool_steps.
  destruct (m_isRunning (this s)) eqn:Hrun; cbn [negb].
  - apply health_pass_invariant; assumption.
  - pool_steps. intros _. exact Hinv.
Qed.

Lemma healthCheckWorker_turn_invariant s :
  invariant s -> wp healthCheckWorker_turn (fun r s' => completed r -> invariant s') s.
Proof.
  intros Hinv. unfold healthCheckWorker_turn. pool_steps. norm.
  destruct (m_isRunning (this s)) eqn:Hrun; cbn [negb].
  - eapply wp_mono; [apply health_pass_invariant; [exact Hrun | exact Hinv]|].
    intros r s1 Hpost. destruct r as [[]|e| |]; exact Hpost.
  - pool_steps. intros _. exact Hinv.
Qed.

(** **** Reconfiguration *)

Lemma shrinkPoolToSize_loop_invariant (idle : list nat) (targetSize : Z) : forall s,
  m_idleConnections (this s) = idle -> m_isRunning (this s) = true -> invariant s ->
  wp (shrinkPoolToSize_loop idle targetSize) (fun r s' => completed r -> invariant s') s.
Proof.
  induction idle as [|conn rest IH]; intros s Hidle Hrun Hinv;
    cbn [shrinkPoolToSize_loop].
  - pool_steps. intros _. exact Hinv.
  - pool_steps. destruct (_ <? _); [|pool_steps; intros _; exact Hinv].
    pool_steps. effect on_conn_cases.
    intros r s1 [-> | ((a & ->) & Hthis1 & Hids1 & _)]; cbn [then_wp];
      [intros []|].
    pool_steps. apply IH; back; [rewrite Hidle; reflexivity | exact Hrun |].
    intros Hnd. destruct (Hinv Hnd) as [Hcons _].
    split; [|intros Hstop; congruence].
    eapply (consistent_remove_idle _ _ [] rest conn) in Hcons; [|exact Hidle].
    rewrite Hidle. exact Hcons.
Qed.

Lemma shrinkPoolToSize_invariant (targetSize : Z) s :
  invariant s ->
  wp (shrinkPoolToSize targetSize) (fun r s' => completed r -> invariant s') s.
Proof.
  intros Hinv. unfold shrinkPoolToSize. pool_steps.
  destruct (m_isRunning (this s)) eqn:Hrun; cbn [negb];
    [|pool_steps; intros _; exact Hinv].
  destruct (_ <=? _); [pool_steps; intros _; exact Hinv|].
  apply shrinkPoolToSize_loop_invariant; [reflexivity | exact Hrun | exact Hinv].
Qed.

Lemma adjustConfiguration_invariant (newConfig : PoolConfig.t) s :
  PoolConfig.in_range newConfig -> invariant s ->
  wp (adjustConfiguration newConfig) (fun r s' => completed r -> invariant s') s.
Proof.
  intros Hrange Hinv. unfold adjustConfiguration. pool_steps.
  assert (Hinv0 : invariant (with_this (set_m_config newConfig) s)).
  { intros Hnd. destruct (Hinv Hnd) as [Hcons Hstop].
    split; [apply consistent_set_config; assumption | exact Hstop]. }
  eapply wp_mono.
  { instantiate (1 := fun r s' => completed r -> invariant s').
    destruct (_ <? _); [apply shrinkPoolToSize_invariant; exact Hinv0|].
    pool_steps. intros _. exact Hinv0. }
  intros r s1 Hpost. destruct r as [[]|e| |]; exact Hpost.
Qed.

End Invariant.

(** *** The reachable states *)

Section Reachable.
Context {W : Type} `{Platform W}.
Implicit Types s : @state W.

(** A step of the process keeps the invariant. *)
Lemma step_invariant s s' : step s s' -> invariant s -> invariant s'.
Proof.
  intros Hstep Hinv.
  destruct Hstep as [config s r s' Hrange Hrun Hr
                    | config host user password database port weight s r s' Hrange Hrun Hr
                    | config databases strategy s r s' Hrange Hrun Hr
                    | fuel timeout s r s' Hhead Hrun Hr
                    | connection s r s' Hout Hrun Hr
                    | s r s' Hrun Hr
                    | s r s' Hrun Hr
                    | newConfig s r s' Hrange Hrun Hr];
    match type of Hrun with
    | ?m ?s = _ => assert (Hwp : wp m (fun r s' => completed r -> invariant s') s)
    end.
  all: try (unfold wp in Hwp; rewrite Hrun in Hwp; exact (Hwp Hr)).
  - apply init_invariant; assumption.
  - apply initWithSingleDatabase_invariant; assumption.
  - apply initWithMultipleDatabases_invariant; assumption.
  - apply getConnection_invariant; assumption.
  - apply releaseConnection_invariant; assumption.
  - apply performHealthCheck_invariant; assumption.
  - apply healthCheckWorker_turn_invariant; assumption.
  - apply adjustConfiguration_invariant; assumption.
Qed.

Lemma steps_invariant s s' : rtc step s s' -> invariant s -> invariant s'.
Proof.
  induction 1 as [s | s s1 s' Hstep _ IH]; intros Hinv; [exact Hinv|].
  apply IH. eapply step_invariant; eassumption.
Qed.

(** C2, as the code has it.  Take any state that the process reaches from
    the one before [init] by calls of [init] (in its three forms),
    [getConnection], [releaseConnection], the health passes and
    [adjustConfiguration] that have returned or raised, where
    [releaseConnection] is given null or a session that is checked out,
    [getConnection] finds the idle queue empty or at its head a session that
    answers the ping, and the configurations hold [unsigned int] values.  If
    no two sessions of the store share an id, then the number of sessions in
    the idle queue plus the number of sessions in the map of checked-out
    sessions equals the counter [m_totalConnections]. *)
Theorem reachable_pool_count s :
  reachable s -> NoDup (ids s) ->
  Z.of_nat (length (m_idleConnections (this s)))
  + Z.of_nat (size (m_activeConnections (this s)))
  = m_totalConnections (this s).
Proof.
  intros [w Hsteps] Hnd.
  destruct (steps_invariant _ _ Hsteps (invariant_start w) Hnd) as [Hcons _].
  exact (count_ok _ _ Hcons).
Qed.

End Reachable.

(** A pool of one backend is initialised with two sessions, hands both out,
    takes the first back, runs a health pass and is reconfigured to a limit
    of one session, which closes the idle one: none idle, one checked out,
    one counted. *)
Lemma reachable_pool_count_witness :
  let s0 := Scripted.pool (Scripted.limits 2 4 2 600000) Scripted.healthy in
  let s1 := snd (getConnection 3 100 s0) in
  let s2 := snd (getConnection 3 100 s1) in
  let s3 := snd (releaseConnection (Some O) s2) in
  let s4 := snd (performHealthCheck s3) in
  let s5 := snd (adjustConfiguration (Scripted.limits 1 1 1 600000) s4) in
  reachable s5 /\
  m_idleConnections (this s5) = [] /\
  m_activeConnections (this s5) !! "id1" = Some 1%nat /\
  m_totalConnections (this s5) = 1 /\
  Z.of_nat (length (m_idleConnections (this s5)))
  + Z.of_nat (size (m_activeConnections (this s5)))
  = m_totalConnections (this s5).
Proof.
  intros s0 s1 s2 s3 s4 s5.
  assert (Hreach : reachable s5).
  { exists Scripted.healthy.
    apply (rtc_l _ _ s0).
    { apply (step_initWithSingleDatabase (Scripted.limits 2 4 2 600000)
               "db" "app" "secret" "shop" 3306 1 (start Scripted.healthy)
               (fst (initWithSingleDatabase (Scripted.limits 2 4 2 600000)
                       "db" "app" "secret" "shop" 3306 1 (start Scripted.healthy)))
               s0);
        [unfold PoolConfig.in_range, UINT_MAX; cbn; lia
        | apply surjective_pairing | vm_compute; exact I]. }
    apply (rtc_l _ _ s1).
    { apply (step_getConnection 3 100 s0 (fst (getConnection 3 100 s0)) s1);
        [|apply surjective_pairing | vm_compute; exact I].
      intros head rest Hidle.
      assert (Hidle0 : m_idleConnections (this s0) = [O; 1%nat])
        by (vm_compute; reflexivity).
      rewrite Hidle0 in Hidle. injection Hidle as <- <-.
      eexists _, _. split; [vm_compute; reflexivity|].
      split; vm_compute; reflexivity. }
    apply (rtc_l _ _ s2).
    { apply (step_getConnection 3 100 s1 (fst (getConnection 3 100 s1)) s2);
        [|apply surjective_pairing | vm_compute; exact I].
      intros head rest Hidle.
      assert (Hidle1 : m_idleConnections (this s1) = [1%nat])
        by (vm_compute; reflexivity).
      rewrite Hidle1 in Hidle. injection Hidle as <- <-.
      eexists _, _. split; [vm_compute; reflexivity|].
      split; vm_compute; reflexivity. }
    apply (rtc_l _ _ s3).
    { apply (step_releaseConnection (Some O) s2 (fst (releaseConnection (Some O) s2)) s3);
        [|apply surjective_pairing | vm_compute; exact I].
      intros conn [= <-]. exists "id0". split; vm_compute; reflexivity. }
    apply (rtc_l _ _ s4).
    { apply (step_performHealthCheck s3 (fst (performHealthCheck s3)) s4);
        [apply surjective_pairing | vm_compute; exact I]. }
    apply rtc_once.
    apply (step_adjustConfiguration (Scripted.limits 1 1 1 600000) s4
             (fst (adjustConfiguration (Scripted.limits 1 1 1 600000) s4)) s5);
      [unfold PoolConfig.in_range, UINT_MAX; cbn; lia
      | apply surjective_pairing | vm_compute; exact I]. }
  assert (Hnd : NoDup (ids s5)).
  { assert (Hids : ids s5 = ["id0"; "id1"]) by (vm_compute; reflexivity).
    rewrite Hids. apply NoDup_cons. split; [|apply NoDup_singleton].
    intros Hin. apply list_elem_of_singleton in Hin. discriminate. }
  split; [exact Hreach|].
  split; [vm_compute; reflexivity|].
  split; [vm_compute; reflexivity|].
  split; [vm_compute; reflexivity|].
  exact (reachable_pool_count s5 Hreach Hnd).
Defined.

(** C2 as stated fails.  A pool is initialised with one session, hands it
    out, and the caller releases it twice.  All three calls return, the ids
    are distinct, and the state reached has two entries in the idle queue, no
    checked-out session and a counter of 1. *)
Lemma double_release_breaks_count :
  let s0 := Scripted.pool (Scripted.limits 1 4 1 600000) Scripted.healthy in
  let s1 := snd (getConnection 3 100 s0) in
  let s2 := snd (releaseConnection (Some O) s1) in
  let s3 := snd (releaseConnection (Some O) s2) in
  m_isRunning (this s0) = true /\
  fst (getConnection 3 100 s0) = Ok O /\
  fst (releaseConnection (Some O) s1) = Ok tt /\
  fst (releaseConnection (Some O) s2) = Ok tt /\
  ids s3 = ["id0"] /\
  m_idleConnections (this s3) = [O; O] /\
  size (m_activeConnections (this s3)) = O /\
  m_totalConnections (this s3) = 1 /\
  Z.of_nat (length (m_idleConnections (this s3)))
  + Z.of_nat (size (m_activeConnections (this s3)))
  <> m_totalConnections (this s3).
Proof. vm_compute. repeat split; try reflexivity. intros [=]. Qed.

(** The missing pop of [getConnection] breaks the count as well.  The session
    at the head of the idle queue fails the first ping and answers the
    second: the call returns it, after having decremented the counter on the
    first turn.  One checked-out session, none counted. *)
Example getConnection_slip_breaks_count :
  let s0 := Scripted.pool (Scripted.limits 1 4 1 600000)
              (Scripted.with_pings [0; 2006; 0] Scripted.healthy) in
  let s1 := snd (getConnection 3 100 s0) in
  fst (getConnection 3 100 s0) = Ok O /\
  m_idleConnections (this s1) = [] /\
  size (m_activeConnections (this s1)) = 1%nat /\
  m_totalConnections (this s1) = 0.
Proof. vm_compute. repeat split; reflexivity. Qed.

End ConnectionPoolFacts.

(** * More on the replica selector *)

Module SelectorFacts.
Import LoadBalancer MonadFacts.

(** *** Descriptors and endpoints *)

Lemma same_endpoint_refl (config : DBConfig.t) :
  same_endpoint (DBConfig.host config) (DBConfig.port config) config = true.
Proof.
  unfold same_endpoint. rewrite bool_decide_eq_true_2 by reflexivity.
  apply Z.eqb_refl.
Qed.

Lemma isValid_set_weight (weight : Z) (config : DBConfig.t) :
  DBConfig.isValid (DBConfig.set_weight weight config) = DBConfig.isValid config.
Proof. reflexivity. Qed.

Lemma same_endpoint_set_weight host port (weight : Z) (config : DBConfig.t) :
  same_endpoint host port (DBConfig.set_weight weight config) = same_endpoint host port config.
Proof. reflexivity. Qed.

Lemma wrap64_small_index (z : Z) : 0 <= z < 2 ^ 64 -> wrap64 z = z.
Proof. intros Hz. unfold wrap64. apply Z.mod_small. exact Hz. Qed.

Lemma remove_if_none (pred : DBConfig.t -> bool) (configs : list DBConfig.t) :
  existsb pred configs = false -> remove_if pred configs = configs.
Proof.
  unfold remove_if. induction configs as [|c configs IH]; simpl; [reflexivity|].
  intros Hnone. apply orb_false_iff in Hnone as [Hc Hrest].
  rewrite Hc. simpl. rewrite IH by exact Hrest. reflexivity.
Qed.

Lemma remove_if_app (pred : DBConfig.t -> bool) (l1 l2 : list DBConfig.t) :
  remove_if pred (l1 ++ l2) = remove_if pred l1 ++ remove_if pred l2.
Proof. unfold remove_if. apply List.filter_app. Qed.

Lemma remove_if_length (pred : DBConfig.t -> bool) (configs : list DBConfig.t) :
  (length (remove_if pred configs) <= length configs)%nat.
Proof. unfold remove_if. apply List.filter_length_le. Qed.

Lemma remove_if_all_kept (pred : DBConfig.t -> bool) (configs : list DBConfig.t) :
  length (remove_if pred configs) = length configs -> existsb pred configs = false.
Proof.
  unfold remove_if. induction configs as [|c configs IH]; simpl; [reflexivity|].
  destruct (pred c); simpl; intros Hlen.
  - pose proof (List.filter_length_le (fun config => negb (pred config)) configs). lia.
  - apply IH. lia.
Qed.

Lemma remove_if_elem (pred : DBConfig.t -> bool) (configs : list DBConfig.t) c :
  c ∈ remove_if pred configs <-> c ∈ configs /\ pred c = false.
Proof.
  unfold remove_if. rewrite !list_elem_of_In, List.filter_In.
  destruct (pred c); simpl; intuition congruence.
Qed.

Lemma remove_if_existsb (pred : DBConfig.t -> bool) (configs : list DBConfig.t) :
  existsb pred (remove_if pred configs) = false.
Proof.
  unfold remove_if. induction configs as [|c configs IH]; simpl; [reflexivity|].
  destruct (pred c) eqn:Hc; simpl; [exact IH|]. rewrite Hc, IH. reflexivity.
Qed.

Lemma list_find_existsb (pred : DBConfig.t -> bool) (configs : list DBConfig.t) :
  existsb pred configs = false ->
  list_find (fun c => pred c = true) configs = None.
Proof.
  intros Hnone. apply list_find_None. apply Forall_forall.
  intros c Hc Hp. 
  assert (existsb pred configs = true); [|congruence].
  apply existsb_exists. exists c. split; [apply list_elem_of_In; exact Hc | exact Hp].
Qed.

Section Rules.
Context {W : Type} `{Platform W}.
Implicit Types st : @state W.

Lemma wp_draw {A} (op : W -> A * W) (Q : res A -> state -> Prop) st :
  Q (Ok (fst (op (world st)))) (mkState (this st) (snd (op (world st)))) ->
  wp (platform op) Q st.
Proof. unfold wp, platform. destruct (op (world st)); simpl. intros HQ; exact HQ. Qed.

Lemma wp_at_index (configs : list DBConfig.t) (i : Z) (Q : res DBConfig.t -> state -> Prop) st :
  (forall config, 0 <= i -> configs !! Z.to_nat i = Some config -> Q (Ok config) st) ->
  ((i < 0 \/ configs !! Z.to_nat i = None) -> Q Undefined st) ->
  wp (at_index configs i) Q st.
Proof.
  intros Hin Hout. unfold at_index.
  destruct (Z.ltb_spec i 0) as [Hneg | Hnn]; [apply Hout; left; exact Hneg|].
  destruct (configs !! Z.to_nat i) as [config|] eqn:Hc.
  - apply wp_ret. apply Hin; [exact Hnn | reflexivity].
  - apply Hout. right. reflexivity.
Qed.

End Rules.

Ltac lb_step :=
  lazymatch goal with
  | |- wp (bind _ _) _ _ => apply wp_bind
  | |- wp (ret _) _ _ => apply wp_ret
  | |- wp (throw _) _ _ => apply wp_throw
  | |- wp (gets _) _ _ => apply wp_gets
  | |- wp (modify _) _ _ => apply wp_modify
  | |- wp (LoadBalancer.platform _) _ _ => apply wp_draw
  end;
  unfold then_wp, catch_wp; cbn beta iota.
Ltac lb_steps := repeat lb_step.

Ltac lb_norm :=
  cbn [this world with_this m_configs m_strategy m_roundRobinIndex fst snd] in *.

Section Invariant.
Context {W : Type} `{Platform W}.
Implicit Types st : @state W.

Lemma well_formed_initial : well_formed initial.
Proof. split; [constructor | reflexivity]. Qed.

Lemma init_well_formed configs strategy st :
  well_formed (this st) ->
  wp (init configs strategy) (fun _ st' => well_formed (this st')) st.
Proof.
  intros Hwf. unfold init.
  destruct (decide (configs = [])) as [Hnil | Hne]; [lb_steps; exact Hwf|].
  destruct (forallb DBConfig.isValid configs) eqn:Hvalid; cbn [negb];
    [|lb_steps; exact Hwf].
  lb_steps. lb_norm. split; lb_norm.
  - apply Forall_forall. intros c Hc.
    rewrite forallb_forall in Hvalid. apply Hvalid, list_elem_of_In, Hc.
  - unfold index_in_range. lb_norm. destruct (decide (configs = [])); [contradiction|].
    destruct configs; [contradiction|]. simpl. lia.
Qed.

Lemma setStrategy_well_formed strategy st :
  well_formed (this st) ->
  wp (setStrategy strategy) (fun _ st' => well_formed (this st')) st.
Proof.
  intros [Hvalid Hindex]. unfold setStrategy. lb_steps.
  destruct strategy; lb_steps; lb_norm; split; lb_norm; try assumption.
  unfold index_in_range in *. lb_norm.
  destruct (decide (m_configs (this st) = [])) as [Hnil | Hne]; [reflexivity|].
  destruct (m_configs (this st)); [contradiction|]. simpl. lia.
Qed.

Lemma getNextDatabase_well_formed st :
  well_formed (this st) ->
  wp getNextDatabase (fun _ st' => well_formed (this st')) st.
Proof.
  intros Hwf. unfold getNextDatabase. lb_steps.
  destruct (decide (m_configs (this st) = [])) as [Hnil | Hne]; [lb_steps; exact Hwf|].
  destruct (m_strategy (this st)).
  - unfold selectRandom. lb_steps. apply wp_at_index; intros; exact Hwf.
  - unfold selectRoundRobin. lb_steps.
    apply wp_at_index; [|intros; exact Hwf].
    intros config Hnn Hconfig. lb_steps. lb_norm. destruct Hwf as [Hvalid Hindex].
    split; lb_norm; [exact Hvalid|].
    unfold index_in_range. lb_norm.
    destruct (decide (m_configs (this st) = [])); [contradiction|].
    apply Z.mod_pos_bound. destruct (m_configs (this st)); [contradiction|]. simpl. lia.
  - unfold selectWeighted. lb_steps.
    destruct (walk_weights _ _ _); [lb_steps; exact Hwf|].
    apply wp_at_index; intros; exact Hwf.
Qed.

Lemma addDatabase_well_formed config st :
  well_formed (this st) ->
  wp (addDatabase config) (fun _ st' => well_formed (this st')) st.
Proof.
  intros Hwf. unfold addDatabase. lb_steps.
  destruct (existsb _ _); [lb_steps; exact Hwf|].
  destruct (DBConfig.isValid config) eqn:Hvalid; cbn [negb]; [|lb_steps; exact Hwf].
  lb_steps. lb_norm. destruct Hwf as [Hall Hindex]. split; lb_norm.
  - apply Forall_app. split; [exact Hall|]. constructor; [exact Hvalid | constructor].
  - unfold index_in_range in *. lb_norm.
    destruct (decide (m_configs (this st) ++ [config] = [])) as [Hnil | _].
    { apply app_eq_nil in Hnil as [_ Hnil]. discriminate. }
    rewrite length_app. simpl.
    destruct (decide (m_configs (this st) = [])) as [Hnil | _]; lia.
Qed.

Lemma removeDatabase_well_formed host port st :
  well_formed (this st) ->
  wp (removeDatabase host port) (fun _ st' => well_formed (this st')) st.
Proof.
  intros Hwf. unfold removeDatabase. lb_steps. cbv zeta.
  destruct (negb _); [|lb_steps; exact Hwf].
  lb_steps. lb_norm. destruct Hwf as [Hall Hindex]. split; lb_norm.
  - apply Forall_forall. intros c Hc. apply remove_if_elem in Hc as [Hc _].
    rewrite Forall_forall in Hall. apply Hall, Hc.
  - unfold index_in_range. lb_norm.
    destruct (decide (remove_if _ _ = [])) as [Hnil | Hne]; [reflexivity|].
    apply Z.mod_pos_bound.
    destruct (remove_if _ _); [contradiction|]. simpl. lia.
Qed.

Lemma updateWeight_well_formed host port weight st :
  well_formed (this st) ->
  wp (updateWeight host port weight) (fun _ st' => well_formed (this st')) st.
Proof.
  intros Hwf. unfold updateWeight. lb_steps.
  destruct (list_find _ _) as [[i config]|] eqn:Hfind; [|lb_steps; exact Hwf].
  lb_steps. lb_norm. apply list_find_Some in Hfind as (Hi & _ & _).
  destruct Hwf as [Hall Hindex]. split; lb_norm.
  - apply Forall_insert; [exact Hall|]. rewrite isValid_set_weight.
    rewrite Forall_forall in Hall. apply Hall. eapply list_elem_of_lookup_2, Hi.
  - unfold index_in_range in *. lb_norm. rewrite length_insert.
    destruct (decide (m_configs (this st) = [])) as [Hnil | Hne].
    + rewrite Hnil in Hi. discriminate.
    + destruct (decide (_ = [])) as [Hnil' | _]; [|exact Hindex].
      apply (f_equal length) in Hnil'. rewrite length_insert in Hnil'.
      destruct (m_configs (this st)); [contradiction | discriminate].
Qed.

Lemma after_call_well_formed (c : method) st :
  well_formed (this st) -> well_formed (this (after_call c st)).
Proof.
  intros Hwf. destruct c; cbn [after_call].
  - exact (init_well_formed _ _ st Hwf).
  - exact (init_well_formed _ _ st Hwf).
  - exact (setStrategy_well_formed _ st Hwf).
  - exact (getNextDatabase_well_formed st Hwf).
  - exact (addDatabase_well_formed _ st Hwf).
  - exact (removeDatabase_well_formed _ _ st Hwf).
  - exact (updateWeight_well_formed _ _ _ st Hwf).
Qed.

Lemma after_calls_well_formed (calls : list method) (w : W) :
  well_formed (this (after_calls calls w)).
Proof.
  unfold after_calls.
  assert (Hgen : forall st, well_formed (this st) ->
            well_formed (this (fold_left (fun st c => after_call c st) calls st))).
  { induction calls as [|c calls IH]; intros st Hwf; simpl; [exact Hwf|].
    apply IH, after_call_well_formed, Hwf. }
  apply Hgen. exact well_formed_initial.
Qed.

Lemma getNextDatabase_empty st :
  m_configs (this st) = [] ->
  getNextDatabase st = (Throw (runtime_error "No database configurations available"), st).
Proof.
  intros Hnil. unfold getNextDatabase, bind, gets. cbn.
  destruct (decide (m_configs (this st) = [])); [reflexivity | contradiction].
Qed.

(** One call under ROUND_ROBIN with the index in range. *)
Lemma getNextDatabase_round_robin st :
  m_strategy (this st) = ROUND_ROBIN ->
  m_configs (this st) <> [] ->
  0 <= m_roundRobinIndex (this st) < Z.of_nat (length (m_configs (this st))) ->
  exists config,
    m_configs (this st) !! Z.to_nat (m_roundRobinIndex (this st)) = Some config /\
    getNextDatabase st =
      (Ok config,
       mkState (mk (m_configs (this st)) ROUND_ROBIN
                  (wrap64 (m_roundRobinIndex (this st) + 1)
                   mod Z.of_nat (length (m_configs (this st)))))
               (world st)).
Proof.
  intros Hrr Hne Hindex.
  destruct (lookup_lt_is_Some_2 (m_configs (this st)) (Z.to_nat (m_roundRobinIndex (this st))))
    as [config Hconfig]; [lia|].
  exists config. split; [exact Hconfig|].
  unfold getNextDatabase, selectRoundRobin, at_index, bind, gets, modify, ret. cbn.
  destruct (decide (m_configs (this st) = [])); [contradiction|].
  rewrite Hrr. cbn.
  destruct (Z.ltb_spec (m_roundRobinIndex (this st)) 0); [lia|].
  rewrite Hconfig. cbn. unfold with_this. cbn. rewrite Hrr. reflexivity.
Qed.

(** X1.  Whatever sequence of its public methods is called on a freshly
    constructed selector, and whatever they return or raise: every
    descriptor it stores is valid, and the round-robin index is a position of
    the list (0 when the list is empty).  Hence [getNextDatabase] raises its
    runtime error, leaving the selector alone, exactly when the list is
    empty, and under ROUND_ROBIN it otherwise returns a stored, valid
    descriptor without drawing a random number: it never reads outside the
    list. *)
Theorem selector_stays_well_formed (calls : list method) (w : W) :
  let st := after_calls calls w in
  Forall (fun config => DBConfig.isValid config = true) (m_configs (this st)) /\
  index_in_range (this st) /\
  (m_configs (this st) = [] ->
   getNextDatabase st =
     (Throw (runtime_error "No database configurations available"), st)) /\
  (m_configs (this st) <> [] -> m_strategy (this st) = ROUND_ROBIN ->
   exists config,
     fst (getNextDatabase st) = Ok config /\
     config ∈ m_configs (this st) /\
     DBConfig.isValid config = true /\
     m_configs (this (snd (getNextDatabase st))) = m_configs (this st) /\
     world (snd (getNextDatabase st)) = world st).
Proof.
  intros st. destruct (after_calls_well_formed calls w) as [Hvalid Hindex].
  fold st in Hvalid, Hindex.
  split; [exact Hvalid|]. split; [exact Hindex|].
  split; [apply getNextDatabase_empty|].
  intros Hne Hrr. unfold index_in_range in Hindex.
  destruct (decide (m_configs (this st) = [])); [contradiction|].
  destruct (getNextDatabase_round_robin st Hrr Hne Hindex) as (config & Hconfig & Hrun).
  exists config. rewrite Hrun. cbn.
  apply list_elem_of_lookup_2 in Hconfig.
  repeat split; try assumption.
  rewrite Forall_forall in Hvalid. apply Hvalid, Hconfig.
Qed.

Lemma round_robin_times (k : nat) : forall st,
  m_strategy (this st) = ROUND_ROBIN ->
  m_configs (this st) <> [] ->
  0 <= m_roundRobinIndex (this st) < Z.of_nat (length (m_configs (this st))) ->
  Z.of_nat (length (m_configs (this st))) < 2 ^ 64 ->
  exists served,
    getNextDatabase_times k st =
      (Ok served,
       mkState (mk (m_configs (this st)) ROUND_ROBIN
                  ((m_roundRobinIndex (this st) + Z.of_nat k)
                   mod Z.of_nat (length (m_configs (this st)))))
               (world st)) /\
    length served = k /\
    forall j, (j < k)%nat ->
      served !! j =
      m_configs (this st)
        !! Z.to_nat ((m_roundRobinIndex (this st) + Z.of_nat j)
                     mod Z.of_nat (length (m_configs (this st)))).
Proof.
  induction k as [|k IH]; intros st Hrr Hne Hindex Hsize.
  - exists []. split; [|split; [reflexivity | intros j Hj; lia]].
    cbn. unfold ret. rewrite Z.add_0_r, Z.mod_small by exact Hindex.
    destruct st as [[configs strategy index] w0]. cbn in *. rewrite Hrr. reflexivity.
  - destruct (getNextDatabase_round_robin st Hrr Hne Hindex) as (config & Hconfig & Hrun).
    rewrite wrap64_small_index in Hrun by lia.
    set (n := Z.of_nat (length (m_configs (this st)))) in *.
    assert (Hn : 0 < n) by lia.
    set (st1 := mkState (mk (m_configs (this st)) ROUND_ROBIN
                          ((m_roundRobinIndex (this st) + 1) mod n)) (world st)) in *.
    destruct (IH st1) as (rest & Hrest & Hlen & Hlookup); cbn; fold n.
    + reflexivity.
    + exact Hne.
    + apply Z.mod_pos_bound. exact Hn.
    + exact Hsize.
    + exists (config :: rest). cbn [getNextDatabase_times]. unfold bind at 1.
      rewrite Hrun. unfold bind at 1. rewrite Hrest. cbn. fold n.
      split; [|split; [rewrite Hlen; reflexivity|]].
      * unfold ret. do 3 f_equal.
        rewrite Zplus_mod_idemp_l. f_equal. lia.
      * intros [|j] Hj; cbn.
        -- rewrite Z.add_0_r, Z.mod_small by exact Hindex. symmetry. exact Hconfig.
        -- rewrite Hlookup by lia. cbn. fold n.
           rewrite Zplus_mod_idemp_l. do 3 f_equal. lia.
Qed.

(** X2.  Under ROUND_ROBIN, with the index in range, [k] calls of
    [getNextDatabase] in a row all return: the call number [j] (from 0)
    returns the descriptor at position [(index + j) mod n] of the [n]
    stored, the index ends at [(index + k) mod n], and neither the list nor
    the random generator is touched.  So [n] calls from index 0 return the
    list itself, every descriptor once and in order, and leave the index at
    0 again. *)
Theorem round_robin_serves_in_turn (k : nat) st :
  m_strategy (this st) = ROUND_ROBIN ->
  m_configs (this st) <> [] ->
  0 <= m_roundRobinIndex (this st) < Z.of_nat (length (m_configs (this st))) ->
  Z.of_nat (length (m_configs (this st))) < 2 ^ 64 ->
  exists served,
    fst (getNextDatabase_times k st) = Ok served /\
    length served = k /\
    (forall j, (j < k)%nat ->
       served !! j =
       m_configs (this st)
         !! Z.to_nat ((m_roundRobinIndex (this st) + Z.of_nat j)
                      mod Z.of_nat (length (m_configs (this st))))) /\
    m_configs (this (snd (getNextDatabase_times k st))) = m_configs (this st) /\
    m_roundRobinIndex (this (snd (getNextDatabase_times k st))) =
      (m_roundRobinIndex (this st) + Z.of_nat k)
      mod Z.of_nat (length (m_configs (this st))) /\
    world (snd (getNextDatabase_times k st)) = world st /\
    (m_roundRobinIndex (this st) = 0 -> k = length (m_configs (this st)) ->
     served = m_configs (this st) /\
     m_roundRobinIndex (this (snd (getNextDatabase_times k st))) = 0).
Proof.
  intros Hrr Hne Hindex Hsize.
  destruct (round_robin_times k st Hrr Hne Hindex Hsize) as (served & Hrun & Hlen & Hlookup).
  exists served. rewrite Hrun. cbn.
  split; [reflexivity|]. split; [exact Hlen|]. split; [exact Hlookup|].
  split; [reflexivity|]. split; [reflexivity|]. split; [reflexivity|].
  intros Hzero Hk. split.
  - apply list_eq. intros j.
    destruct (Nat.lt_ge_cases j k) as [Hlt | Hge].
    + rewrite Hlookup by exact Hlt. rewrite Hzero, Z.add_0_l.
      rewrite Z.mod_small by lia. rewrite Nat2Z.id. reflexivity.
    + rewrite !lookup_ge_None_2; [reflexivity | lia | lia].
  - rewrite Hzero, Hk, Z.add_0_l. apply Z_mod_same_full.
Qed.

End Invariant.

Lemma round_robin_serves_in_turn_witness :
  let st := snd (init Scripted.replicas_3_2_1 ROUND_ROBIN
                   (mkState initial Scripted.healthy)) in
  fst (getNextDatabase_times 3 st) = Ok Scripted.replicas_3_2_1 /\
  m_roundRobinIndex (this (snd (getNextDatabase_times 3 st))) = 0.
Proof.
  intros st.
  assert (Hst : this st = mk Scripted.replicas_3_2_1 ROUND_ROBIN 0)
    by (vm_compute; reflexivity).
  destruct (round_robin_serves_in_turn 3 st)
    as (served & Hrun & _ & _ & _ & _ & _ & Hall).
  - rewrite Hst. reflexivity.
  - rewrite Hst. discriminate.
  - rewrite Hst. cbn. lia.
  - rewrite Hst. cbn. lia.
  - rewrite Hst in Hall. destruct (Hall eq_refl eq_refl) as [Hserved Hindex].
    split; [rewrite Hrun, Hserved; reflexivity | exact Hindex].
Defined.

Section Catalogue.
Context {W : Type} `{Platform W}.
Implicit Types st : @state W.

(** X3.  Adding a valid descriptor whose host and port no stored descriptor
    has appends it, and removing that host and port again returns [true] and
    gives back the selector as it was: list, strategy and round-robin
    index. *)
Theorem addDatabase_then_removeDatabase (config : DBConfig.t) st :
  index_in_range (this st) ->
  DBConfig.isValid config = true ->
  existsb (same_endpoint (DBConfig.host config) (DBConfig.port config))
          (m_configs (this st)) = false ->
  let st1 := snd (addDatabase config st) in
  fst (addDatabase config st) = Ok tt /\
  m_configs (this st1) = m_configs (this st) ++ [config] /\
  removeDatabase (DBConfig.host config) (DBConfig.port config) st1 = (Ok true, st).
Proof.
  intros Hindex Hvalid Hnew st1.
  assert (Hadd : addDatabase config st =
            (Ok tt, mkState (mk (m_configs (this st) ++ [config]) (m_strategy (this st))
                               (m_roundRobinIndex (this st))) (world st))).
  { unfold addDatabase, bind, gets, modify. cbn. rewrite Hnew, Hvalid. reflexivity. }
  subst st1. rewrite Hadd. cbn [fst snd this m_configs].
  split; [reflexivity|]. split; [reflexivity|].
  unfold removeDatabase, bind, gets, modify, ret. lb_norm.
  rewrite remove_if_app, (remove_if_none _ _ Hnew).
  assert (Hself : remove_if (same_endpoint (DBConfig.host config) (DBConfig.port config))
                    [config] = []).
  { unfold remove_if. cbn. rewrite same_endpoint_refl. reflexivity. }
  rewrite Hself, app_nil_r, length_app. cbn [length].
  destruct (Nat.eqb_spec (length (m_configs (this st)))
              (length (m_configs (this st)) + 1)) as [Heq | _]; [lia|].
  cbn [negb]. unfold index_in_range in Hindex.
  destruct st as [[configs strategy index] w]. unfold with_this. lb_norm.
  assert (Hidx : (if decide (configs = []) then 0
                  else index mod Z.of_nat (length configs)) = index).
  { destruct (decide (configs = [])) as [Hnil | Hne]; [symmetry; exact Hindex|].
    apply Z.mod_small. exact Hindex. }
  rewrite Hidx. reflexivity.
Qed.

(** X4.  [removeDatabase] returns [true] exactly when some stored
    descriptor has the host and port; it removes every such descriptor and
    keeps the others; when none has them the selector is unchanged.
    Afterwards the host and port are unknown: [updateWeight] on them
    returns [false], a second [removeDatabase] returns [false], and both
    leave the selector as it is. *)
Theorem removeDatabase_forgets_endpoint (host : string) (port : Z) st :
  let st1 := snd (removeDatabase host port st) in
  fst (removeDatabase host port st)
    = Ok (existsb (same_endpoint host port) (m_configs (this st))) /\
  (forall config,
     config ∈ m_configs (this st1) <->
     config ∈ m_configs (this st) /\ same_endpoint host port config = false) /\
  (existsb (same_endpoint host port) (m_configs (this st)) = false -> st1 = st) /\
  (forall weight, updateWeight host port weight st1 = (Ok false, st1)) /\
  removeDatabase host port st1 = (Ok false, st1).
Proof.
  intros st1.
  assert (Hrun :
    (existsb (same_endpoint host port) (m_configs (this st)) = false /\
     removeDatabase host port st = (Ok false, st)) \/
    (existsb (same_endpoint host port) (m_configs (this st)) = true /\
     exists index,
       removeDatabase host port st =
         (Ok true, mkState (mk (remove_if (same_endpoint host port) (m_configs (this st)))
                              (m_strategy (this st)) index) (world st)))).
  { unfold removeDatabase, bind, gets, modify, ret. cbn.
    destruct (Nat.eqb_spec (length (remove_if (same_endpoint host port) (m_configs (this st))))
                (length (m_configs (this st)))) as [Heq | Hne]; cbn.
    - left. split; [apply remove_if_all_kept; exact Heq | reflexivity].
    - right. split; [|eexists; reflexivity].
      destruct (existsb _ _) eqn:Hex; [reflexivity|].
      rewrite remove_if_none in Hne by exact Hex. contradiction. }
  assert (Hgone : existsb (same_endpoint host port) (m_configs (this st1)) = false).
  { subst st1. destruct Hrun as [(Hex & ->) | (_ & index & ->)]; cbn;
      [exact Hex | apply remove_if_existsb]. }
  assert (Hagain : removeDatabase host port st1 = (Ok false, st1)).
  { unfold removeDatabase, bind, gets, modify, ret. cbn.
    rewrite remove_if_none by exact Hgone. rewrite Nat.eqb_refl. reflexivity. }
  split; [|split; [|split; [|split]]].
  - destruct Hrun as [(-> & ->) | (-> & index & ->)]; reflexivity.
  - intros config. subst st1. destruct Hrun as [(Hex & ->) | (_ & index & ->)]; cbn.
    + rewrite <- (remove_if_none _ _ Hex) at 1. apply remove_if_elem.
    + apply remove_if_elem.
  - intros Hex. subst st1. destruct Hrun as [(_ & ->) | (Hex' & _)]; [reflexivity | congruence].
  - intros weight. unfold updateWeight, bind, gets. cbn.
    rewrite list_find_existsb by exact Hgone. reflexivity.
  - exact Hagain.
Qed.

Lemma total_weight_insert (configs : list DBConfig.t) (i : nat) (config config' : DBConfig.t) :
  configs !! i = Some config ->
  total_weight (<[i := config']> configs)
    = total_weight configs - DBConfig.weight config + DBConfig.weight config'.
Proof.
  revert i. induction configs as [|c configs IH]; intros i Hi; [discriminate|].
  destruct i as [|i].
  - injection Hi as ->.
    change (<[0%nat := config']> (config :: configs)) with (config' :: configs).
    rewrite !LoadBalancerFacts.total_weight_cons. lia.
  - change (<[S i := config']> (c :: configs)) with (c :: <[i := config']> configs).
    rewrite !LoadBalancerFacts.total_weight_cons.
    rewrite (IH i Hi). lia.
Qed.

(** X5.  [updateWeight] returns [true] exactly when some stored descriptor
    has the host and port.  It then sets the weight of the first such
    descriptor only: the number of descriptors, their order, every other
    field, the strategy and the index stay, and the sum of the weights moves
    by the difference between the new weight and that descriptor's old one.
    When no descriptor has the host and port the selector is unchanged. *)
Theorem updateWeight_first_match (host : string) (port weight : Z) st :
  let st1 := snd (updateWeight host port weight st) in
  fst (updateWeight host port weight st)
    = Ok (existsb (same_endpoint host port) (m_configs (this st))) /\
  (existsb (same_endpoint host port) (m_configs (this st)) = false -> st1 = st) /\
  m_strategy (this st1) = m_strategy (this st) /\
  m_roundRobinIndex (this st1) = m_roundRobinIndex (this st) /\
  world st1 = world st /\
  DBConfig.set_weight 0 <$> m_configs (this st1)
    = DBConfig.set_weight 0 <$> m_configs (this st) /\
  (existsb (same_endpoint host port) (m_configs (this st)) = true ->
   exists (i : nat) (config : DBConfig.t),
     m_configs (this st) !! i = Some config /\
     same_endpoint host port config = true /\
     (forall j config', (j < i)%nat -> m_configs (this st) !! j = Some config' ->
        same_endpoint host port config' = false) /\
     m_configs (this st1) = <[i := DBConfig.set_weight weight config]> (m_configs (this st)) /\
     total_weight (m_configs (this st1))
       = total_weight (m_configs (this st)) - DBConfig.weight config + weight).
Proof.
  intros st1. subst st1. unfold updateWeight, bind, gets, modify, ret. cbn.
  destruct (list_find _ _) as [[i config]|] eqn:Hfind; cbn.
  - apply list_find_Some in Hfind as (Hi & Hmatch & Hfirst).
    assert (Hex : existsb (same_endpoint host port) (m_configs (this st)) = true).
    { apply existsb_exists. exists config.
      split; [apply list_elem_of_In; eapply list_elem_of_lookup_2, Hi | exact Hmatch]. }
    rewrite Hex.
    split; [reflexivity|]. split; [discriminate|].
    split; [reflexivity|]. split; [reflexivity|]. split; [reflexivity|].
    split.
    + rewrite list_fmap_insert. apply list_insert_id.
      rewrite list_lookup_fmap, Hi. reflexivity.
    + intros _. exists i, config.
      split; [exact Hi|]. split; [exact Hmatch|].
      split.
      * intros j config' Hj Hconfig'.
        destruct (same_endpoint host port config') eqn:Hm; [|reflexivity].
        exfalso. exact (Hfirst j config' Hconfig' Hj Hm).
      * split; [reflexivity|]. apply total_weight_insert. exact Hi.
  - assert (Hex : existsb (same_endpoint host port) (m_configs (this st)) = false).
    { destruct (existsb _ _) eqn:Hex; [|reflexivity].
      apply existsb_exists in Hex as (config & Hin & Hmatch).
      apply list_find_None in Hfind. rewrite Forall_forall in Hfind.
      exfalso. apply (Hfind config); [apply list_elem_of_In; exact Hin | exact Hmatch]. }
    rewrite Hex.
    split; [reflexivity|]. split; [reflexivity|].
    split; [reflexivity|]. split; [reflexivity|]. split; [reflexivity|].
    split; [reflexivity | discriminate].
Qed.

(** X6.  Under RANDOM, a non-empty list of at most [2^31] descriptors and a
    draw inside the range [0, n - 1] that the distribution is built with:
    [getNextDatabase] returns the descriptor at the position drawn, and
    leaves the selector as it is. *)
Theorem getNextDatabase_random st :
  m_strategy (this st) = RANDOM ->
  m_configs (this st) <> [] ->
  Z.of_nat (length (m_configs (this st))) <= 2 ^ 31 ->
  0 <= fst (uniform_int 0 (Z.of_nat (length (m_configs (this st))) - 1) (world st))
    <= Z.of_nat (length (m_configs (this st))) - 1 ->
  exists config,
    fst (getNextDatabase st) = Ok config /\
    m_configs (this st)
      !! Z.to_nat (fst (uniform_int 0 (Z.of_nat (length (m_configs (this st))) - 1)
                          (world st))) = Some config /\
    this (snd (getNextDatabase st)) = this st.
Proof.
  intros Hrandom Hne Hsize Hdraw.
  set (n := Z.of_nat (length (m_configs (this st)))) in *.
  assert (Hn : 1 <= n).
  { subst n. destruct (m_configs (this st)); [contradiction | cbn; lia]. }
  destruct (lookup_lt_is_Some_2 (m_configs (this st))
              (Z.to_nat (fst (uniform_int 0 (n - 1) (world st))))) as [config Hconfig];
    [lia|].
  assert (Hrun : getNextDatabase st =
            (Ok config, mkState (this st) (snd (uniform_int 0 (n - 1) (world st))))).
  { unfold getNextDatabase, selectRandom, bind, gets. cbn.
    destruct (decide (m_configs (this st) = [])); [contradiction|].
    rewrite Hrandom. fold n.
    rewrite (wrap64_small_index (n - 1)) by lia.
    rewrite LoadBalancerFacts.to_int_small by (unfold INT_MAX; lia).
    unfold platform. destruct (uniform_int 0 (n - 1) (world st)) as [draw w'] eqn:Hd.
    cbn in *. rewrite wrap64_small_index by lia.
    unfold at_index. destruct (Z.ltb_spec draw 0); [lia|].
    rewrite Hconfig. reflexivity. }
  exists config. rewrite Hrun. split; [reflexivity|]. split; [exact Hconfig | reflexivity].
Qed.

End Catalogue.

Lemma addDatabase_then_removeDatabase_witness :
  let st := snd (init Scripted.replicas_3_2_1 WEIGHTED (mkState initial Scripted.healthy)) in
  let config := DBConfig.mk "h4" "app" "secret" "shop" 3306 5 in
  removeDatabase "h4" 3306 (snd (addDatabase config st)) = (Ok true, st).
Proof.
  intros st config.
  assert (Hst : this st = mk Scripted.replicas_3_2_1 WEIGHTED 0)
    by (vm_compute; reflexivity).
  destruct (addDatabase_then_removeDatabase config st) as (_ & _ & Hback).
  - unfold index_in_range. rewrite Hst. cbn [m_configs m_roundRobinIndex].
    destruct (decide _) as [Hnil | _]; [discriminate Hnil|]. cbn. lia.
  - reflexivity.
  - rewrite Hst. vm_compute. reflexivity.
  - exact Hback.
Defined.

Lemma getNextDatabase_random_witness :
  let st := snd (init Scripted.replicas_3_2_1 RANDOM
                   (mkState initial (Scripted.with_draw 2 Scripted.healthy))) in
  fst (getNextDatabase st) = Ok (DBConfig.mk "h3" "app" "secret" "shop" 3306 1).
Proof.
  intros st.
  assert (Hst : this st = mk Scripted.replicas_3_2_1 RANDOM 0)
    by (vm_compute; reflexivity).
  assert (Hw : world st = Scripted.with_draw 2 Scripted.healthy)
    by (vm_compute; reflexivity).
  destruct (getNextDatabase_random st) as (config & Hrun & Hconfig & _).
  - rewrite Hst. reflexivity.
  - rewrite Hst. discriminate.
  - rewrite Hst. cbn. lia.
  - rewrite Hst, Hw. cbn. lia.
  - rewrite Hrun. rewrite Hst, Hw in Hconfig. cbn in Hconfig.
    injection Hconfig as <-. reflexivity.
Defined.

End SelectorFacts.

(** * More on the sessions *)

Module SessionFacts.
Import Connection MonadFacts ConnectionFacts.

Section WithPlatform.
Context {W : Type} `{Platform W}.
Implicit Types st : @state W.

(** [executeInternal] on a session without a handle. *)
Lemma executeInternal_closed (sql : string) (isQuery : bool) st :
  m_mysql (this st) = None ->
  executeInternal sql isQuery st =
    (Throw (SQLExecutionError
              ("Connection not established [" +:+ m_connectionId (this st) +:+ "]")
              CR_SERVER_GONE_ERROR),
     with_call (call_executeInternal
                  (Throw (SQLExecutionError
                            ("Connection not established [" +:+ m_connectionId (this st)
                             +:+ "]")
                            CR_SERVER_GONE_ERROR))) st).
Proof.
  intros Hclosed. unfold executeInternal, traced, bind, gets. cbn.
  rewrite Hclosed. reflexivity.
Qed.

(** [executeInternal] of a statement that is not a query, on a session with
    a handle: the clock is read, the statement sent, and the driver's answer
    decides. *)
Lemma executeInternal_update (sql : string) st (h : MYSQL) :
  m_mysql (this st) = Some h ->
  let w1 := snd (currentTimeMillis (world st)) in
  let rc := fst (mysql_query h sql w1) in
  let w2 := snd (mysql_query h sql w1) in
  let r : res QueryResult :=
    if rc =? 0 then Ok (mkQueryResult None (mysql_affected_rows h w2))
    else Throw (SQLExecutionError
                  (mysql_error h w2 +:+ " (Code: " +:+ to_string (mysql_errno h w2) +:+ ")")
                  (mysql_errno h w2)) in
  executeInternal sql false st =
    (r, mkState (set_m_lastActiveTime (fst (currentTimeMillis (world st))) (this st))
          w2 (monitor st) (calls st ++ [call_executeInternal r])).
Proof.
  intros Hh w1 rc w2 r.
  unfold executeInternal, traced, updateLastActiveTime, bind, gets, modify, platform,
    observe, with_call, with_this, with_world. cbn.
  rewrite Hh. cbn.
  destruct (currentTimeMillis (world st)) as [now w1'] eqn:Hnow. cbn in *.
  subst w1. destruct (mysql_query h sql w1') as [rc' w2'] eqn:Hq. cbn in *.
  subst rc w2 r. destruct (rc' =? 0); reflexivity.
Qed.

(** What a method that passes [sql] to [executeInternal] and turns an
    exception into [false] does. *)
Lemma transaction_statement (sql : string) st :
  let m : M (@state W) bool :=
    try_catch (run executeInternal sql false; ret true) (fun _ => ret false) in
  exists b : bool,
    fst (m st) = Ok b /\
    (b = true <-> exists q, fst (executeInternal sql false st) = Ok q) /\
    calls (snd (m st))
      = calls st ++ [call_executeInternal (fst (executeInternal sql false st))] /\
    monitor (snd (m st)) = monitor st /\
    m_mysql (this (snd (m st))) = m_mysql (this st) /\
    m_totalReconnectAttempts (this (snd (m st)))
      = m_totalReconnectAttempts (this st) /\
    (m_mysql (this st) = None -> b = false /\ world (snd (m st)) = world st) /\
    (forall h, m_mysql (this st) = Some h ->
       (b = true <->
        fst (mysql_query h sql (snd (currentTimeMillis (world st)))) = 0)).
Proof.
  intros m. subst m. unfold try_catch, bind.
  destruct (m_mysql (this st)) as [h|] eqn:Hh.
  - rewrite (executeInternal_update _ st h Hh). cbn zeta.
    destruct (Z.eqb_spec (fst (mysql_query h sql (snd (currentTimeMillis (world st))))) 0)
      as [Hrc | Hrc]; cbn.
    + exists true. split; [reflexivity|]. split; [split; eauto|].
      split; [reflexivity|]. split; [reflexivity|]. split; [exact Hh|].
      split; [reflexivity|]. split; [intros Hnone; congruence|].
      intros h' Hh'. assert (h' = h) as -> by congruence. split; auto.
    + exists false. split; [reflexivity|].
      split; [split; [discriminate | intros (q & Hq); discriminate Hq]|].
      split; [reflexivity|]. split; [reflexivity|]. split; [exact Hh|].
      split; [reflexivity|]. split; [intros Hnone; congruence|].
      intros h' Hh'. assert (h' = h) as -> by congruence.
      split; [discriminate | intros Hz; contradiction].
  - rewrite (executeInternal_closed _ false st Hh). cbn.
    exists false. split; [reflexivity|].
    split; [split; [discriminate | intros (q & Hq); discriminate Hq]|].
    split; [reflexivity|]. split; [reflexivity|]. split; [exact Hh|].
    split; [reflexivity|]. split; [intros _; split; reflexivity|].
    intros h' Hh'. congruence.
Qed.

(** X7.  [beginTransaction], [commit] and [rollback] never raise and never
    retry.  Each calls [executeInternal] once with its statement and
    returns [true] when that call returns, [false] when it raises; the call
    log gains that one entry and no [reconnect]; the telemetry, the handle
    and the reconnect counter are untouched.  On a session without a handle
    the answer is [false] and the driver is not called; with a handle the
    answer is [true] exactly when [mysql_query] returns 0. *)
Theorem transaction_statements_do_not_retry :
  Forall (fun '(sql, m) =>
    forall st : @state W,
      exists b : bool,
        fst (m st) = Ok b /\
        (b = true <-> exists q, fst (executeInternal sql false st) = Ok q) /\
        calls (snd (m st))
          = calls st ++ [call_executeInternal (fst (executeInternal sql false st))] /\
        monitor (snd (m st)) = monitor st /\
        m_mysql (this (snd (m st))) = m_mysql (this st) /\
        m_totalReconnectAttempts (this (snd (m st)))
          = m_totalReconnectAttempts (this st) /\
        (m_mysql (this st) = None -> b = false /\ world (snd (m st)) = world st) /\
        (forall h, m_mysql (this st) = Some h ->
           (b = true <->
            fst (mysql_query h sql (snd (currentTimeMillis (world st)))) = 0)))
    transaction_methods.
Proof.
  unfold transaction_methods.
  repeat (constructor; [intros st; apply transaction_statement|]).
  constructor.
Qed.

(** X8.  After [close] the session has no handle, and nothing that follows
    reaches the driver through it: a second [close] changes nothing (the
    handle is passed to [mysql_close] once at most), [isValid] and
    [isValidQuietly] answer [false] and leave the session and the world as
    they are, and [executeInternal] raises the SQL error "Connection not
    established" with code 2006 without calling the driver. *)
Theorem closed_session_is_inert st :
  let st1 := snd (close st) in
  fst (close st) = Ok tt /\
  m_mysql (this st1) = None /\
  world st1 = match m_mysql (this st) with
              | Some h => mysql_close h (world st)
              | None => world st
              end /\
  close st1 = (Ok tt, st1) /\
  (forall tryReconnect, isValid tryReconnect st1 = (Ok false, st1)) /\
  isValidQuietly st1 = (Ok false, st1) /\
  (forall sql isQuery,
     fst (executeInternal sql isQuery st1) =
       Throw (SQLExecutionError
                ("Connection not established [" +:+ m_connectionId (this st) +:+ "]")
                CR_SERVER_GONE_ERROR) /\
     world (snd (executeInternal sql isQuery st1)) = world st1 /\
     this (snd (executeInternal sql isQuery st1)) = this st1).
Proof.
  intros st1.
  assert (Hclose : fst (close st) = Ok tt /\ m_mysql (this st1) = None /\
                   m_connectionId (this st1) = m_connectionId (this st) /\
                   world st1 = match m_mysql (this st) with
                               | Some h => mysql_close h (world st)
                               | None => world st
                               end).
  { subst st1. unfold close, bind, gets, modify, platform_. cbn.
    destruct (m_mysql (this st)) as [h|] eqn:Hh; cbn; auto. }
  destruct Hclose as (Hr & Hnone & Hid & Hworld).
  split; [exact Hr|]. split; [exact Hnone|]. split; [exact Hworld|].
  split; [|split; [|split]].
  - unfold close, bind, gets. cbn. rewrite Hnone. reflexivity.
  - intros tryReconnect. unfold isValid, bind, gets. cbn. rewrite Hnone. reflexivity.
  - unfold isValidQuietly, bind, gets. cbn. rewrite Hnone. reflexivity.
  - intros sql isQuery. rewrite (executeInternal_closed sql isQuery st1 Hnone).
    cbn. rewrite Hid. auto.
Qed.

Lemma wrap32_add_l (a b : Z) : wrap32 (wrap32 a + b) = wrap32 (a + b).
Proof. unfold wrap32. apply Zplus_mod_idemp_l. Qed.

(** How many calls the loop of [reconnect] makes from [attempt] on. *)
Lemma connect_calls_bounds (c : t) (attempt : Z) (k : nat) (b : bool) (w w' : W) :
  connect_calls c attempt k b w w' ->
  attempt <= m_reconnectAttempts c + 1 ->
  Z.of_nat k <= m_reconnectAttempts c + 1 - attempt /\
  (b = true -> (1 <= k)%nat) /\
  (b = false -> Z.of_nat k = m_reconnectAttempts c + 1 - attempt).
Proof.
  induction 1 as [attempt w Hgt | attempt w Hle Hconn
                 | attempt k b w w' Hle Hconn Hrest IH]; intros Ha.
  - split; [lia|]. split; [discriminate | lia].
  - split; [lia|]. split; [lia | discriminate].
  - destruct IH as (Hk & Htrue & Hfalse); [lia|].
    split; [lia|]. split; [lia|]. intros Hb. specialize (Hfalse Hb). lia.
Qed.

(** The loop of [reconnect] from [attempt] on, for a session that is [c] but
    for its two counters: the calls of [mysql_real_connect] it makes, and what
    it leaves behind. *)
Lemma reconnect_loop_calls (c : t) (fuel : nat) : forall (attempt total succ : Z) st,
  this st = set_m_totalReconnectAttempts total (set_m_successfulReconnects succ c) ->
  1 <= attempt <= m_reconnectAttempts c + 1 ->
  m_reconnectAttempts c < UINT_MAX ->
  0 <= total <= UINT_MAX ->
  (Z.to_nat (m_reconnectAttempts c + 1 - attempt) < fuel)%nat ->
  wp (reconnect_loop fuel attempt)
     (fun r st' => exists (b : bool) (k : nat),
        r = Ok b /\
        connect_calls c attempt k b (world st) (world st') /\
        this st' =
          set_m_totalReconnectAttempts (wrap32 (total + Z.of_nat k))
            (set_m_successfulReconnects (if b then wrap32 (succ + 1) else succ) c) /\
        monitor st' = PerformanceMonitor.recordReconnection b (monitor st) /\
        calls st' = calls st) st.
Proof.
  induction fuel as [|fuel IH]; intros attempt total succ st Hthis Ha Hn Hrange Hfuel;
    [lia|].
  destruct st as [c0 w m log]. cbn [this] in Hthis. subst c0.
  simpl. wp_steps. cbn.
  destruct (Z.leb_spec attempt (m_reconnectAttempts c)) as [Hle | Hgt].
  - wp_steps. unfold real_connect. wp_steps. cbn.
    destruct (fst (mysql_real_connect (m_mysql c) (m_host c) (m_user c) (m_password c)
                     (m_database c) (m_port c) w)) eqn:Hconn.
    + wp_steps. exists true, 1%nat. cbn.
      split; [reflexivity|].
      split; [apply connect_calls_success; assumption|].
      repeat split; reflexivity.
    + wp_steps. unfold calculateReconnectDelay. wp_steps. cbn.
      assert (Hnext : forall w1,
        w1 = after_failed_connect c attempt
               (snd (mysql_real_connect (m_mysql c) (m_host c) (m_user c) (m_password c)
                       (m_database c) (m_port c) w)) ->
        wp (reconnect_loop fuel (wrap32 (attempt + 1)))
           (fun r st' => exists (b : bool) (k : nat),
              r = Ok b /\
              connect_calls c attempt k b w (world st') /\
              this st' =
                set_m_totalReconnectAttempts (wrap32 (total + Z.of_nat k))
                  (set_m_successfulReconnects (if b then wrap32 (succ + 1) else succ) c) /\
              monitor st' = PerformanceMonitor.recordReconnection b m /\
              calls st' = log)
           (mkState
              (set_m_totalReconnectAttempts (wrap32 (total + 1))
                 (set_m_successfulReconnects succ c)) w1 m log)).
      { intros w1 Hw1.
        rewrite wrap32_small by (unfold UINT_MAX in *; lia).
        eapply wp_mono.
        { apply (IH (attempt + 1) (wrap32 (total + 1)) succ); cbn; try reflexivity; try lia.
          pose proof (wrap32_range (total + 1)). unfold UINT_MAX. lia. }
        intros r st' (b & k & -> & Hcalls & Hthis' & Hmon & Hlog). cbn in *.
        exists b, (S k). split; [reflexivity|].
        split; [apply connect_calls_failure; [exact Hle | exact Hconn |];
                rewrite <- Hw1; exact Hcalls|].
        split; [rewrite Hthis', wrap32_add_l; do 2 f_equal; lia|].
        split; assumption. }
      unfold after_failed_connect in Hnext.
      destruct (uniform_real_08_12 _) as [jitter w1]; cbn [fst snd] in *.
      destruct (attempt <? m_reconnectAttempts c); wp_steps; apply Hnext; reflexivity.
  - wp_steps. exists false, 0%nat. cbn.
    split; [reflexivity|]. split; [apply connect_calls_done; exact Hgt|].
    rewrite Z.add_0_r, wrap32_small by (unfold UINT_MAX in *; lia).
    repeat split; reflexivity.
Qed.

(** X9.  [reconnect] closes the handle the session has, if any, and asks the
    driver for a new one.  When the driver has none to give, [reconnect]
    raises the runtime error of [init]: the session is left without a
    handle, no attempt is made, and nothing is counted or recorded.
    Otherwise [reconnect] on a session that allows fewer than [UINT_MAX]
    attempts returns, having called [mysql_real_connect] with the new handle
    [k] times in a row, all of them failing but the last when it answers
    [true]: at most [reconnect_attempts] times, at least once when it answers
    [true], and exactly [reconnect_attempts] times when it answers [false]
    (so not at all when no attempt is allowed).  The session's counter of
    attempts goes up
    by [k] and its counter of successes by one exactly when the answer is
    [true]; the telemetry records one reconnection, whatever [k]; the
    session keeps the new handle; its last-active time is not stamped. *)
Theorem reconnect_counts (rfuel : nat) st :
  0 <= m_reconnectAttempts (this st) < UINT_MAX ->
  0 <= m_totalReconnectAttempts (this st) <= UINT_MAX ->
  (Z.to_nat (m_reconnectAttempts (this st)) < rfuel)%nat ->
  let w0 := match m_mysql (this st) with
            | Some h => mysql_close h (world st)
            | None => world st
            end in
  let st' := snd (reconnect rfuel st) in
  match fst (mysql_init w0) with
  | None =>
    fst (reconnect rfuel st) = Throw init_failed /\
    world st' = snd (mysql_init w0) /\
    this st' = set_m_mysql None (this st) /\
    monitor st' = monitor st /\
    calls st' = calls st ++ [call_reconnect (Throw init_failed)]
  | Some h =>
    exists (b : bool) (k : nat),
      fst (reconnect rfuel st) = Ok b /\
      connect_calls (set_m_mysql (Some h) (this st)) 1 k b
        (snd (mysql_init w0)) (world st') /\
      Z.of_nat k <= m_reconnectAttempts (this st) /\
      (b = true -> (1 <= k)%nat) /\
      (b = false -> Z.of_nat k = m_reconnectAttempts (this st)) /\
      m_totalReconnectAttempts (this st')
        = wrap32 (m_totalReconnectAttempts (this st) + Z.of_nat k) /\
      m_successfulReconnects (this st')
        = (if b then wrap32 (m_successfulReconnects (this st) + 1)
           else m_successfulReconnects (this st)) /\
      m_mysql (this st') = Some h /\
      m_lastActiveTime (this st') = m_lastActiveTime (this st) /\
      monitor st' = PerformanceMonitor.recordReconnection b (monitor st) /\
      calls st' = calls st ++ [call_reconnect (Ok b)]
  end.
Proof.
  intros Hn Hrange Hfuel w0 st'.
  assert (Hwp : wp (reconnect rfuel)
    (fun r st' =>
       match fst (mysql_init w0) with
       | None =>
         r = Throw init_failed /\
         world st' = snd (mysql_init w0) /\
         this st' = set_m_mysql None (this st) /\
         monitor st' = monitor st /\
         calls st' = calls st ++ [call_reconnect (Throw init_failed)]
       | Some h =>
         exists (b : bool) (k : nat),
           r = Ok b /\
           connect_calls (set_m_mysql (Some h) (this st)) 1 k b
             (snd (mysql_init w0)) (world st') /\
           this st' =
             set_m_totalReconnectAttempts
               (wrap32 (m_totalReconnectAttempts (this st) + Z.of_nat k))
               (set_m_successfulReconnects
                  (if b then wrap32 (m_successfulReconnects (this st) + 1)
                   else m_successfulReconnects (this st))
                  (set_m_mysql (Some h) (this st))) /\
           monitor st' = PerformanceMonitor.recordReconnection b (monitor st) /\
           calls st' = calls st ++ [call_reconnect (Ok b)]
       end) st).
  { subst w0 st'. destruct st as [c w m log]. cbn [this world monitor calls] in *.
    unfold reconnect, init. wp_steps. cbn.
    destruct (m_mysql c) as [h0|] eqn:Hh0; wp_steps; cbn.
    all: destruct (fst (mysql_init _)) as [h|] eqn:Hinit; wp_steps; cbn.
    2, 4: repeat split; try reflexivity;
          destruct c; cbn in *; subst; reflexivity.
    all: eapply wp_mono;
      [apply (reconnect_loop_calls (set_m_mysql (Some h) c) rfuel 1
                (m_totalReconnectAttempts c) (m_successfulReconnects c));
       cbn; try reflexivity; try lia;
       replace (m_reconnectAttempts c + 1 - 1) with (m_reconnectAttempts c) by lia; lia|].
    all: intros r st1 (b & k & -> & Hcalls & Hthis & Hmon & Hlog); cbn in *;
         exists b, k; rewrite Hlog; auto. }
  unfold wp in Hwp. fold st' in Hwp.
  destruct (fst (mysql_init w0)) as [h|]; [|exact Hwp].
  destruct Hwp as (b & k & Hr & Hcalls & Hthis & Hmon & Hlog).
  destruct (connect_calls_bounds _ _ _ _ _ _ Hcalls) as (Hk & Htrue & Hfalse);
    [cbn; lia|].
  cbn in Hk, Hfalse.
  exists b, k. split; [exact Hr|]. split; [exact Hcalls|].
  split; [lia|]. split; [exact Htrue|].
  split; [intros Hb; specialize (Hfalse Hb); lia|].
  rewrite Hthis. cbn. repeat split; assumption.
Qed.

(** Whether [reconnect] returns or raises is decided by [mysql_init]. *)
Lemma reconnect_result (rfuel : nat) st :
  0 <= m_reconnectAttempts (this st) < UINT_MAX ->
  (Z.to_nat (m_reconnectAttempts (this st)) < rfuel)%nat ->
  match fst (mysql_init match m_mysql (this st) with
                        | Some h => mysql_close h (world st)
                        | None => world st
                        end) with
  | None => fst (reconnect rfuel st) = Throw init_failed
  | Some _ => exists b : bool, fst (reconnect rfuel st) = Ok b
  end.
Proof.
  intros Hn Hfuel.
  change (wp (reconnect rfuel)
            (fun r _ =>
               match fst (mysql_init match m_mysql (this st) with
                                     | Some h => mysql_close h (world st)
                                     | None => world st
                                     end) with
               | None => r = Throw init_failed
               | Some _ => exists b : bool, r = Ok b
               end) st).
  unfold reconnect, init. wp_steps.
  destruct (m_mysql (this st)) as [h0|]; wp_steps; simpl.
  all: destruct (fst (mysql_init _)) as [h|]; wp_steps; simpl; try reflexivity.
  all: eapply wp_mono;
    [apply reconnect_loop_returns; simpl; try lia;
     replace (m_reconnectAttempts (this st) + 1 - 1)
       with (m_reconnectAttempts (this st)) by lia; lia|].
  all: intros r st' (b & -> & _); exists b; reflexivity.
Qed.

(** X10.  A query on a session without a handle does not fail at once.
    [executeInternal] reports the missing handle as the SQL error
    "Connection not established" with code 2006, which is of the transport
    kind, without calling the driver: it only adds its failure to the log.
    When the session allows no reconnect attempt, that first failure is the
    only call, [executeQueryWithReconnect] raises the runtime error that
    carries its message, and all it did to the world is to read the clock
    twice.  When the session allows at least one attempt, the next call is a
    [reconnect], which asks the driver for a handle: when the driver has
    none to give, that [reconnect] raises, it is the last call and
    [executeQueryWithReconnect] raises its error; otherwise the [reconnect]
    returns. *)
Theorem query_on_closed_session (fuel rfuel : nat) (sql : string) (isQuery : bool) st :
  m_mysql (this st) = None ->
  0 <= m_reconnectAttempts (this st) < UINT_MAX ->
  (Z.to_nat (m_reconnectAttempts (this st) + 1) < fuel)%nat ->
  (Z.to_nat (m_reconnectAttempts (this st)) < rfuel)%nat ->
  let not_established :=
    "Connection not established [" +:+ m_connectionId (this st) +:+ "]" in
  let failure :=
    call_executeInternal
      (Throw (SQLExecutionError not_established CR_SERVER_GONE_ERROR)) in
  let w1 := snd (steady_clock_now (world st)) in
  let out := executeQueryWithReconnect fuel rfuel sql isQuery st in
  executeInternal sql isQuery (with_world w1 st) =
    (Throw (SQLExecutionError not_established CR_SERVER_GONE_ERROR),
     with_call failure (with_world w1 st)) /\
  exists (tail : list call),
    calls (snd out) = calls st ++ failure :: tail /\
    (m_reconnectAttempts (this st) = 0 ->
     tail = [] /\
     fst out =
       Throw (runtime_error (exhausted_message (this st) sql isQuery not_established)) /\
     world (snd out) = snd (steady_clock_now w1) /\
     this (snd out) = this st) /\
    (1 <= m_reconnectAttempts (this st) ->
     match fst (mysql_init w1) with
     | None =>
       tail = [call_reconnect (Throw init_failed)] /\ fst out = Throw init_failed
     | Some _ =>
       exists (b : bool) (rest : list call), tail = call_reconnect (Ok b) :: rest
     end).
Proof.
  intros Hclosed Hn Hfuel Hrfuel not_established failure w1 out.
  split; [apply executeInternal_closed; exact Hclosed|].
  set (st2 := with_call failure (with_world w1 st)).
  assert (Hwp : wp (executeQueryWithReconnect fuel rfuel sql isQuery)
    (fun r st' => exists tail,
       calls st' = calls st ++ failure :: tail /\
       retry_log (exhausted_message (this st) sql isQuery)
         (m_reconnectAttempts (this st)) 1 not_established tail r /\
       (1 <= m_reconnectAttempts (this st) ->
        exists post, tail = call_reconnect (fst (reconnect rfuel st2)) :: post) /\
       (m_reconnectAttempts (this st) = 0 ->
        world st' = snd (steady_clock_now w1) /\ this st' = this st)) st).
  { unfold executeQueryWithReconnect. wp_steps.
    destruct fuel as [|fuel]; [lia|]. cbn [executeQueryWithReconnect_loop]. wp_steps.
    cbn [this with_world].
    destruct (Z.leb_spec 0 (m_reconnectAttempts (this st))) as [_ | Hlt]; [|lia].
    wp_steps. change (0 <? 0) with false. cbv iota. wp_steps. cbn [negb]. wp_steps.
    unfold wp at 1. rewrite executeInternal_closed by exact Hclosed.
    cbn [fst snd]. wp_steps. cbn [this with_call with_world].
    change (isConnectionError CR_SERVER_GONE_ERROR) with true. cbn [negb]. wp_steps.
    change (wrap32 (0 + 1)) with 1.
    destruct (Z.eq_dec (m_reconnectAttempts (this st)) 0) as [Hzero | Hsome].
    - destruct fuel as [|fuel]; [lia|]. cbn [executeQueryWithReconnect_loop]. wp_steps.
      cbn [this with_call with_world]. rewrite Hzero. change (1 <=? 0) with false.
      cbv iota. wp_steps. cbn.
      exists []. split; [reflexivity|].
      split; [rewrite <- Hzero at 1; constructor; lia|].
      split; [intros; lia|]. intros _. split; reflexivity.
    - eapply wp_mono.
      { apply retry_loop_log; cbn [this with_call with_world]; lia. }
      intros r st' (log & Hcalls & Hlog & _ & _ & _ & Hfirst).
      cbn [calls this with_call with_world] in *.
      exists log. split; [rewrite Hcalls, <- app_assoc; reflexivity|].
      split; [exact Hlog|]. split; [intros Hone; apply Hfirst; lia | intros; lia]. }
  unfold wp in Hwp. fold out in Hwp.
  destruct Hwp as (tail & Hcalls & Hlog & Hfirst & Hworld).
  exists tail. split; [exact Hcalls|]. split.
  - intros Hzero. destruct (Hworld Hzero) as [Hw Hthis].
    rewrite Hzero in Hlog.
    inversion Hlog; subst; try lia. repeat split; assumption.
  - intros Hone. destruct (Hfirst Hone) as (post & Htail).
    pose proof (reconnect_result rfuel st2) as Hres.
    cbn [st2 this world with_call with_world] in Hres. rewrite Hclosed in Hres.
    specialize (Hres Hn Hrfuel).
    destruct (fst (mysql_init w1)) as [h|].
    + destruct Hres as (b & Hb). exists b, post. rewrite Htail, Hb. reflexivity.
    + rewrite Hres in Htail.
      destruct (retry_log_split _ _ _ _ _ _ Hlog ltac:(lia) [] _ _ Htail eq_refl)
        as (_ & _ & -> & Hr).
      split; assumption.
Qed.

End WithPlatform.

Lemma reconnect_counts_witness :
  let st := Scripted.session_state 1000 3
              (Scripted.with_connects [2003; 0] Scripted.healthy) in
  exists (k : nat) (h : MYSQL),
    fst (reconnect 4 st) = Ok true /\
    connect_calls (set_m_mysql (Some h) (this st)) 1 k true
      (snd (mysql_init (mysql_close O (world st)))) (world (snd (reconnect 4 st))) /\
    m_totalReconnectAttempts (this (snd (reconnect 4 st))) = wrap32 (0 + Z.of_nat k) /\
    m_totalReconnectAttempts (this (snd (reconnect 4 st))) = 2 /\
    m_successfulReconnects (this (snd (reconnect 4 st))) = 1 /\
    PerformanceMonitor.m_reconnectionAttempts (monitor (snd (reconnect 4 st))) = 1.
Proof.
  intros st.
  assert (Hb : fst (reconnect 4 st) = Ok true) by (vm_compute; reflexivity).
  pose proof (reconnect_counts 4 st) as Hc. cbv zeta in Hc.
  assert (Hc' := Hc ltac:(cbn; unfold UINT_MAX; lia) ltac:(cbn; unfold UINT_MAX; lia)
                    ltac:(cbn; lia)).
  clear Hc.
  change (m_mysql (this st)) with (Some O) in Hc'. cbv iota beta in Hc'.
  destruct (fst (mysql_init (mysql_close O (world st)))) as [h|] eqn:Hinit.
  - destruct Hc' as (b & k & Hr & Hcalls & _ & _ & _ & Ht & Hs & _ & _ & Hmon & _).
    assert (b = true) as -> by congruence.
    exists k, h. split; [exact Hb|]. split; [exact Hcalls|]. split; [exact Ht|].
    split; [vm_compute; reflexivity|]. rewrite Hmon.
    split; [rewrite Hs; reflexivity | reflexivity].
  - vm_compute in Hinit. discriminate Hinit.
Defined.

Lemma query_on_closed_session_witness :
  let st := snd (close (Scripted.session_state 1000 1 Scripted.healthy)) in
  exists (b : bool) (rest : list call),
    calls (snd (executeQueryWithReconnect 3 2 "SELECT 1" true st)) =
      call_executeInternal
        (Throw (SQLExecutionError "Connection not established [id0]" 2006))
      :: call_reconnect (Ok b) :: rest.
Proof.
  intros st.
  destruct (query_on_closed_session 3 2 "SELECT 1" true st)
    as (_ & tail & Hcalls & _ & Hnext).
  - reflexivity.
  - cbn. unfold UINT_MAX. lia.
  - cbn. lia.
  - cbn. lia.
  - specialize (Hnext ltac:(cbn; lia)).
    destruct (fst (mysql_init _)) as [h|] eqn:Hinit in Hnext.
    + destruct Hnext as (b & rest & ->). exists b, rest. exact Hcalls.
    + vm_compute in Hinit. discriminate Hinit.
Defined.

(** The driver has no handle to give: [reconnect] raises the error of
    [init], the session is left without a handle and nothing is counted. *)
Example reconnect_init_fails :
  let st := Scripted.session_state 1000 3
              (Scripted.with_inits [1] Scripted.healthy) in
  fst (reconnect 4 st) = Throw init_failed /\
  m_mysql (this (snd (reconnect 4 st))) = None /\
  m_totalReconnectAttempts (this (snd (reconnect 4 st))) = 0 /\
  monitor (snd (reconnect 4 st)) = monitor st /\
  calls (snd (reconnect 4 st)) = [call_reconnect (Throw init_failed)].
Proof. vm_compute. repeat split; reflexivity. Qed.

End SessionFacts.

(** * More on the pool manager *)

Module PoolFacts.
Import ConnectionPool MonadFacts ConnectionFacts ConnectionPoolFacts.

Section Sessions.
Context {W : Type} `{Platform W}.
Implicit Types s : @state W.

(** What [close] does to the session at [p] and to the rest of the process. *)
Lemma close_effect (p : nat) s (c : Connection.t) :
  heap s !! p = Some c ->
  wp (on_conn p Connection.close)
     (fun r s' =>
        r = Ok tt /\ this s' = this s /\ balancer s' = balancer s /\
        monitor s' = monitor s /\
        heap s' = <[p := Connection.set_m_mysql None c]> (heap s)) s.
Proof.
  intros Hc. eapply wp_on_conn; [exact Hc|].
  unfold Connection.close. wp_steps. norm.
  destruct (Connection.m_mysql c) as [h|] eqn:Hh; wp_steps; norm.
  - repeat split.
  - repeat split. f_equal. destruct c; cbn in *. subst. reflexivity.
Qed.

Lemma closed_insert (heap : list Connection.t) (p q : nat) (c : Connection.t) s s' :
  ConnectionPool.heap s' = <[p := Connection.set_m_mysql None c]> (ConnectionPool.heap s) ->
  ConnectionPool.heap s !! p = Some c ->
  closed p s' /\ (closed q s -> closed q s').
Proof.
  intros Hheap Hc. unfold closed. rewrite Hheap. split.
  - eexists. split; [eapply lookup_insert_heap; exact Hc | reflexivity].
  - intros (c' & Hc' & Hnone). destruct (decide (p = q)) as [<- | Hne].
    + eexists. split; [eapply lookup_insert_heap; exact Hc | reflexivity].
    + exists c'. split; [rewrite list_lookup_insert_ne by exact Hne; exact Hc' | exact Hnone].
Qed.

Lemma untouched_refl (conns : list nat) s : untouched conns s s.
Proof. repeat split; auto. Qed.

Lemma untouched_close (p : nat) (rest : list nat) s s1 s' (c : Connection.t) :
  heap s !! p = Some c ->
  heap s1 = <[p := Connection.set_m_mysql None c]> (heap s) ->
  untouched rest s1 s' ->
  untouched (p :: rest) s s' /\ closed p s'.
Proof.
  intros Hc Hheap (Hlen & Hids & Hframe & Hclosed).
  destruct (closed_insert (heap s) p p c s s1 Hheap Hc) as [Hp _].
  split; [|apply Hclosed, Hp].
  split; [rewrite Hlen, Hheap, length_insert; reflexivity|].
  split.
  { rewrite Hids, Hheap. eapply ids_insert; [exact Hc | reflexivity]. }
  split.
  - intros q Hq. apply not_elem_of_cons in Hq as [Hne Hq].
    rewrite (Hframe q Hq), Hheap. apply list_lookup_insert_ne. congruence.
  - intros q Hq. apply Hclosed.
    apply (closed_insert (heap s) p q c s s1 Hheap Hc). exact Hq.
Qed.

Lemma shutdown_idle_effect (conns : list nat) :
  forall s,
    m_idleConnections (this s) = conns ->
    (forall p, p ∈ conns -> is_Some (heap s !! p)) ->
    wp (shutdown_idle conns)
       (fun r s' =>
          r = Ok tt /\ this s' = set_m_idleConnections [] (this s) /\
          balancer s' = balancer s /\ monitor s' = monitor s /\
          untouched conns s s' /\ (forall p, p ∈ conns -> closed p s')) s.
Proof.
  induction conns as [|conn rest IH]; intros s Hidle Hstore; cbn [shutdown_idle].
  - apply wp_ret. split; [reflexivity|].
    split; [destruct s as [[]]; cbn in *; subst; reflexivity|].
    split; [reflexivity|]. split; [reflexivity|].
    split; [apply untouched_refl|]. intros p Hp. apply elem_of_nil in Hp. destruct Hp.
  - destruct (Hstore conn) as [c Hc]; [left|].
    effect (close_effect conn s c).
    intros r s1 (-> & Hthis1 & Hbal1 & Hmon1 & Hheap1). cbn [then_wp]. pool_steps.
    eapply wp_mono.
    { apply IH.
      - norm. rewrite Hthis1, Hidle. reflexivity.
      - intros p Hp. cbn [heap with_this]. rewrite Hheap1.
        destruct (Hstore p) as [c' Hc']; [right; exact Hp|].
        apply lookup_lt_is_Some. rewrite length_insert. eapply lookup_lt_Some. exact Hc'. }
    cbn beta. intros r s' (-> & Hthis' & Hbal' & Hmon' & Hun & Hclosed).
    split; [reflexivity|].
    split; [rewrite Hthis'; norm; rewrite Hthis1; reflexivity|].
    split; [rewrite Hbal'; exact Hbal1|]. split; [rewrite Hmon'; exact Hmon1|].
    destruct (untouched_close conn rest s (with_this
       (fun p => set_m_idleConnections (tail (m_idleConnections p)) p) s1) s' c Hc Hheap1 Hun)
      as [Hun' Hconn].
    split; [exact Hun'|].
    intros p Hp. apply elem_of_cons in Hp as [-> | Hp]; [exact Hconn | apply Hclosed, Hp].
Qed.

Lemma shutdown_active_effect (conns : list nat) :
  forall s,
    (forall p, p ∈ conns -> is_Some (heap s !! p)) ->
    wp (shutdown_active conns)
       (fun r s' =>
          r = Ok tt /\ this s' = this s /\
          balancer s' = balancer s /\ monitor s' = monitor s /\
          untouched conns s s' /\ (forall p, p ∈ conns -> closed p s')) s.
Proof.
  induction conns as [|conn rest IH]; intros s Hstore; cbn [shutdown_active].
  - apply wp_ret. split; [reflexivity|]. split; [reflexivity|].
    split; [reflexivity|]. split; [reflexivity|].
    split; [apply untouched_refl|]. intros p Hp. apply elem_of_nil in Hp. destruct Hp.
  - destruct (Hstore conn) as [c Hc]; [left|].
    effect (close_effect conn s c).
    intros r s1 (-> & Hthis1 & Hbal1 & Hmon1 & Hheap1). cbn [then_wp].
    eapply wp_mono.
    { apply IH. intros p Hp. rewrite Hheap1.
      destruct (Hstore p) as [c' Hc']; [right; exact Hp|].
      apply lookup_lt_is_Some. rewrite length_insert. eapply lookup_lt_Some. exact Hc'. }
    cbn beta. intros r s' (-> & Hthis' & Hbal' & Hmon' & Hun & Hclosed).
    split; [reflexivity|]. split; [congruence|].
    split; [congruence|]. split; [congruence|].
    destruct (untouched_close conn rest s s1 s' c Hc Hheap1 Hun) as [Hun' Hconn].
    split; [exact Hun'|].
    intros p Hp. apply elem_of_cons in Hp as [-> | Hp]; [exact Hconn | apply Hclosed, Hp].
Qed.

Lemma elem_of_in_key_order (m : gmap string nat) (p : nat) :
  p ∈ in_key_order m <-> exists k, m !! k = Some p.
Proof.
  unfold in_key_order. rewrite list_elem_of_fmap. split.
  - intros ([k q] & -> & Hin). rewrite merge_sort_Permutation in Hin.
    apply elem_of_map_to_list in Hin. eauto.
  - intros (k & Hk). exists (k, p). split; [reflexivity|].
    rewrite merge_sort_Permutation. apply elem_of_map_to_list. exact Hk.
Qed.

(** X11.  On a running pool whose queued and checked-out sessions are all in
    the store, [shutdown] returns normally.  It leaves the pool stopped, with
    an empty idle queue, an empty map of checked-out sessions, the counter at
    0 and the configuration it had; every session that was queued or checked
    out has lost its handle, the other sessions and all the ids are as they
    were.  The status getters then report a stopped, empty pool, a second
    [shutdown] changes nothing, and [getConnection] raises the error of a
    pool that does not run. *)
Theorem shutdown_closes_every_session s :
  m_isRunning (this s) = true ->
  (forall p, p ∈ m_idleConnections (this s) -> is_Some (heap s !! p)) ->
  (forall k p, m_activeConnections (this s) !! k = Some p -> is_Some (heap s !! p)) ->
  exists s',
    shutdown s = (Ok tt, s') /\
    this s' = mk (m_config (this s)) [] ∅ false 0 /\
    (forall p, p ∈ m_idleConnections (this s) -> closed p s') /\
    (forall k p, m_activeConnections (this s) !! k = Some p -> closed p s') /\
    ids s' = ids s /\
    (forall q, q ∉ m_idleConnections (this s) ->
               (forall k, m_activeConnections (this s) !! k <> Some q) ->
               heap s' !! q = heap s !! q) /\
    (fst (isInitialized s'), fst (getIdleCount s'), fst (getActiveCount s'),
     fst (getTotalCount s')) = (Ok false, Ok 0, Ok 0, Ok 0) /\
    shutdown s' = (Ok tt, s') /\
    (forall fuel timeout,
       fst (getConnection fuel timeout s') =
         Throw (runtime_error
           "Connection pool is not in running status, cannot get a Connection from the pool")).
Proof.
  intros Hrun Hidle Hactive.
  assert (Hwp : wp shutdown
    (fun r s' =>
       r = Ok tt /\
       this s' = mk (m_config (this s)) [] ∅ false 0 /\
       (forall p, p ∈ m_idleConnections (this s) -> closed p s') /\
       (forall k p, m_activeConnections (this s) !! k = Some p -> closed p s') /\
       ids s' = ids s /\
       (forall q, q ∉ m_idleConnections (this s) ->
                  (forall k, m_activeConnections (this s) !! k <> Some q) ->
                  heap s' !! q = heap s !! q)) s).
  { unfold shutdown. pool_steps. rewrite Hrun. cbn [negb]. pool_steps. norm.
    eapply wp_mono.
    { apply shutdown_idle_effect; [reflexivity | exact Hidle]. }
    cbn beta. intros r s1 (-> & Hthis1 & _ & _ & Hun1 & Hclosed1). cbn [then_wp].
    pool_steps.
    destruct Hun1 as (Hlen1 & Hids1 & Hframe1 & Hkeep1). norm.
    eapply wp_mono.
    { apply shutdown_active_effect. intros p Hp.
      apply elem_of_in_key_order in Hp as (k & Hk).
      rewrite Hthis1 in Hk. norm. destruct (Hactive k p Hk) as [c Hc].
      apply lookup_lt_is_Some. rewrite Hlen1. eapply lookup_lt_Some. exact Hc. }
    cbn beta. intros r s2 (-> & Hthis2 & _ & _ & Hun2 & Hclosed2). cbn [then_wp].
    destruct Hun2 as (Hlen2 & Hids2 & Hframe2 & Hkeep2).
    pool_steps. norm. rewrite Hthis2, Hthis1. norm.
    split; [reflexivity|]. split; [reflexivity|].
    split; [intros p Hp; apply Hkeep2, Hclosed1, Hp|].
    split.
    { intros k p Hk. apply Hclosed2. apply elem_of_in_key_order. exists k.
      rewrite Hthis1. exact Hk. }
    split; [unfold ids; norm; congruence|].
    intros q Hq Hnot. rewrite Hframe2, Hframe1; [reflexivity | exact Hq |].
    intros Hin. apply elem_of_in_key_order in Hin as (k & Hk).
    rewrite Hthis1 in Hk. norm. exact (Hnot k Hk). }
  unfold wp in Hwp. destruct (shutdown s) as [r s'] eqn:Hrun'. cbn [fst snd] in Hwp.
  destruct Hwp as (-> & Hthis & Hi & Ha & Hids & Hframe).
  exists s'. split; [reflexivity|]. split; [exact Hthis|].
  split; [exact Hi|]. split; [exact Ha|]. split; [exact Hids|]. split; [exact Hframe|].
  split.
  { unfold isInitialized, getIdleCount, getActiveCount, getTotalCount, gets. cbn [fst].
    rewrite Hthis. cbn [m_isRunning m_idleConnections m_activeConnections
                        m_totalConnections length].
    rewrite map_size_empty. reflexivity. }
  split.
  - unfold shutdown, bind, gets. rewrite Hthis. reflexivity.
  - intros fuel timeout. unfold getConnection, bind, gets. rewrite Hthis. reflexivity.
Qed.

End Sessions.

Section Acquire.
Context {W : Type} `{Platform W}.
Implicit Types s : @state W.

Lemma wp_both {S A} (m : M S A) (Q1 Q2 : res A -> S -> Prop) (st : S) :
  wp m Q1 st -> wp m Q2 st -> wp m (fun r st' => Q1 r st' /\ Q2 r st') st.
Proof. unfold wp. intros H1 H2. split; assumption. Qed.

(** What a method of the session at [p] does to that session. *)
Lemma on_conn_session {A} (p : nat) (m : M (@Connection.state W) A)
    (Q : Connection.t -> res A -> Connection.t -> Prop) s :
  (forall cs, wp m (fun r cs' => Q (Connection.this cs) r (Connection.this cs')) cs) ->
  wp (on_conn p m)
     (fun r s' =>
        forall c, heap s !! p = Some c ->
          exists c', heap s' !! p = Some c' /\ Q c r c') s.
Proof.
  intros Hm. destruct (heap s !! p) as [c|] eqn:Hc.
  - eapply wp_on_conn; [exact Hc|].
    eapply wp_mono; [apply Hm|]. cbn beta. intros r cs' HQ c' [= <-].
    eexists. split; [cbn [heap]; eapply lookup_insert_heap; exact Hc | exact HQ].
  - unfold wp. intros c [=].
Qed.

Lemma isValid_handle (tryReconnect : bool) (cs : @Connection.state W) :
  wp (Connection.isValid tryReconnect)
     (fun r cs' => r = Ok true -> is_Some (Connection.m_mysql (Connection.this cs'))) cs.
Proof.
  unfold Connection.isValid, Connection.updateLastActiveTime. wp_steps.
  destruct (Connection.m_mysql (Connection.this cs)) as [h|] eqn:Hh; wp_steps;
    [|intros [=]].
  destruct (negb _); wp_steps.
  - destruct (_ || _); wp_steps; [intros [=]|]. intros _. cbn. rewrite Hh. eauto.
  - intros _. cbn. rewrite Hh. eauto.
Qed.

Lemma updateLastActiveTime_handle (cs : @Connection.state W) :
  wp Connection.updateLastActiveTime
     (fun r cs' =>
        Connection.m_mysql (Connection.this cs') = Connection.m_mysql (Connection.this cs)) cs.
Proof. unfold Connection.updateLastActiveTime. wp_steps. reflexivity. Qed.

(** A session that passes validation has a handle. *)
Lemma validateConnection_handle (p : nat) s :
  wp (validateConnection (Some p) false)
     (fun r s' =>
        r = Undefined \/
        ((exists valid, r = Ok valid /\ (valid = true -> has_handle p s')) /\
         this s' = this s /\ ids s' = ids s /\ exists k, ids s !! p = Some k)) s.
Proof.
  eapply wp_mono.
  { apply wp_both; [apply validateConnection_cases|].
    unfold validateConnection.
    apply (on_conn_session p _ (fun _ r c' => r = Ok true -> is_Some (Connection.m_mysql c'))).
    intros cs. apply isValid_handle. }
  cbn beta. intros r s' [[-> | ((valid & ->) & Hthis & Hids & k & Hk)] Hsession];
    [left; reflexivity | right].
  split; [|eauto]. exists valid. split; [reflexivity|]. intros ->.
  apply ids_lookup in Hk as (c & Hc & _).
  destruct (Hsession c Hc) as (c' & Hc' & Hh). destruct (Hh eq_refl) as [h Hh'].
  exists c', h. split; assumption.
Qed.

(** Stamping a session keeps its handle. *)
Lemma updateLastActiveTime_keeps_handle (p : nat) s :
  has_handle p s ->
  wp (on_conn p Connection.updateLastActiveTime)
     (fun r s' => r = Ok tt /\ this s' = this s /\ ids s' = ids s /\ has_handle p s') s.
Proof.
  intros (c & h & Hc & Hh).
  eapply wp_mono.
  { apply wp_both.
    - apply (on_conn_effect p _ s (Connection.m_connectionId c));
        [apply updateLastActiveTime_ok | apply ids_lookup; eauto].
    - apply (on_conn_session p _ (fun c r c' => Connection.m_mysql c' = Connection.m_mysql c)).
      intros cs. apply updateLastActiveTime_handle. }
  cbn beta. intros r s' (((a & ->) & Hthis & Hids) & Hsession).
  destruct a. split; [reflexivity|]. split; [exact Hthis|]. split; [exact Hids|].
  destruct (Hsession c Hc) as (c' & Hc' & Hh'). exists c', h. split; congruence.
Qed.

(** Reading a field of a session changes nothing. *)
Lemma on_conn_gets {A} (p : nat) (f : @Connection.state W -> A) s :
  wp (on_conn p (gets f))
     (fun r s' =>
        s' = s /\
        match heap s !! p with
        | Some c => r = Ok (f (Connection.mkState c (world s) (monitor s) (calls s)))
        | None => r = Undefined
        end) s.
Proof.
  unfold wp, on_conn. destruct (heap s !! p) as [c|] eqn:Hc; cbn; [|auto].
  split; [|reflexivity]. rewrite list_insert_id by exact Hc. destruct s; reflexivity.
Qed.

Lemma getConnectionId_reads (p : nat) s :
  wp (getConnectionId p)
     (fun r s' =>
        s' = s /\
        ((r = Undefined /\ heap s !! p = None) \/
         exists k, r = Ok k /\ ids s !! p = Some k)) s.
Proof.
  unfold getConnectionId. eapply wp_mono; [apply on_conn_gets|].
  cbn beta. intros r s' [-> Hr]. split; [reflexivity|].
  destruct (heap s !! p) as [c|] eqn:Hc; [right | left; split; [exact Hr | reflexivity]].
  eexists. split; [exact Hr|]. apply ids_lookup. eauto.
Qed.

Lemma getConnection_idle_hands_out (head : nat) (startTime : Z) s :
  wp (getConnection_idle head startTime)
     (fun r s' =>
        forall conn, r = Ok (return_connection conn) ->
          conn = head /\ checked_out conn s' /\ has_handle conn s') s.
Proof.
  unfold getConnection_idle.
  effect validateConnection_handle.
  intros r s1 [-> | ((valid & -> & Hhandle) & Hthis1 & Hids1 & _)]; cbn [then_wp];
    [intros conn [=]|].
  destruct valid; pool_steps; [|intros conn [=]].
  specialize (Hhandle eq_refl).
  effect getConnectionId_reads.
  intros r s2 [-> [[-> _] | (k & -> & Hk)]]; cbn [then_wp]; [intros conn [=]|].
  pool_steps.
  effect updateLastActiveTime_keeps_handle.
  intros r s3 (-> & Hthis3 & Hids3 & Hhandle3). cbn [then_wp]. pool_steps.
  intros conn [= <-]. split; [reflexivity|]. split.
  - exists k. unfold ids in *. norm. rewrite Hthis3, Hids3. norm.
    split; [exact Hk | apply lookup_insert_eq].
  - exact Hhandle3.
Qed.

Lemma getConnection_create_hands_out s :
  wp getConnection_create
     (fun r s' =>
        forall conn, r = Ok (Some conn) ->
          conn = length (heap s) /\ checked_out conn s' /\ has_handle conn s') s.
Proof.
  unfold getConnection_create. pool_step.
  effect createConnection_effect.
  intros [conn|e| |] s1 (Hthis1 & Hids1); cbn [catch_wp then_wp];
    [|pool_steps; intros conn [=] | intros conn [=] | intros conn [=]].
  destruct Hids1 as (-> & k & Hids1). pool_step.
  effect validateConnection_handle.
  intros r s2 [-> | ((valid & -> & Hhandle) & Hthis2 & Hids2 & _)]; cbn [then_wp catch_wp];
    [intros conn [=]|].
  destruct valid; pool_steps.
  - specialize (Hhandle eq_refl).
    effect getConnectionId_reads.
    intros r s3 [-> [[-> _] | (k' & -> & Hk')]]; cbn [then_wp catch_wp]; [intros conn [=]|].
    pool_steps.
    effect updateLastActiveTime_keeps_handle.
    intros r s4 (-> & Hthis4 & Hids4 & Hhandle4). cbn [then_wp catch_wp]. pool_steps.
    intros conn [= <-]. split; [unfold ids; rewrite length_fmap; reflexivity|]. split.
    + exists k'. unfold ids in *. norm. rewrite Hthis4, Hids4. norm.
      split; [exact Hk' | apply lookup_insert_eq].
    + exact Hhandle4.
  - effect on_conn_cases.
    intros r s3 [-> | ((a & ->) & _)]; cbn [then_wp catch_wp]; [intros conn [=]|].
    pool_steps. intros conn [=].
Qed.

Lemma getConnection_loop_hands_out (fuel : nat) (timeout startTime tiemoutPoint : Z) :
  forall s,
    wp (getConnection_loop fuel timeout startTime tiemoutPoint)
       (fun r s' => forall conn, r = Ok conn -> checked_out conn s' /\ has_handle conn s') s.
Proof.
  induction fuel as [|fuel IH]; intros s; cbn [getConnection_loop]; [intros conn [=]|].
  pool_step.
  assert (Hturn : wp (getConnection_turn timeout startTime tiemoutPoint)
            (fun r s' => forall conn, r = Ok (return_connection conn) ->
                           checked_out conn s' /\ has_handle conn s') s).
  { unfold getConnection_turn. pool_steps.
    destruct (m_idleConnections (this s)) as [|head rest].
    - pool_step.
      assert (Hcreated :
        wp (if m_totalConnections (this s) <? PoolConfig.maxConnections (m_config (this s))
            then getConnection_create else ret None)
           (fun r s1 => forall conn, r = Ok (Some conn) ->
                          checked_out conn s1 /\ has_handle conn s1) s).
      { destruct (_ <? _).
        - eapply wp_mono; [apply getConnection_create_hands_out|].
          cbn beta. intros r s1 Hpost conn Hr. apply (Hpost conn Hr).
        - pool_steps. intros conn [=]. }
      eapply wp_mono; [exact Hcreated|].
      intros [[conn|]|e| |] s1 Hpost; cbn [then_wp].
      + pool_steps. intros conn' [= <-]. apply Hpost. reflexivity.
      + pool_steps. destruct (fst (wait_until _ _)); pool_steps; intros conn' [=].
      + intros conn' [=].
      + intros conn' [=].
      + intros conn' [=].
    - eapply wp_mono; [apply getConnection_idle_hands_out|].
      cbn beta. intros r s1 Hpost conn Hr. apply (Hpost conn Hr). }
  eapply wp_mono; [exact Hturn|].
  intros [[conn|]|e| |] s1 Hpost; cbn [then_wp].
  - pool_steps. intros conn' [= <-]. apply Hpost. reflexivity.
  - apply IH.
  - intros conn' [=].
  - intros conn' [=].
  - intros conn' [=].
Qed.

(** X12.  Whenever [getConnection] returns a session, the pool was running
    when it was called, and in the state it leaves the session is in the map
    of checked-out sessions under its own id and has a handle.  Nothing is
    assumed of the pool, the store or the platform. *)
Theorem getConnection_hands_out (fuel : nat) (timeout : Z) s :
  wp (getConnection fuel timeout)
     (fun r s' =>
        forall conn, r = Ok conn ->
          m_isRunning (this s) = true /\ checked_out conn s' /\ has_handle conn s') s.
Proof.
  unfold getConnection. pool_steps.
  destruct (m_isRunning (this s)) eqn:Hrun; cbn [negb]; pool_steps; [|intros conn [=]].
  eapply wp_mono; [apply getConnection_loop_hands_out|].
  cbn beta. intros r s' Hpost conn Hr. split; [reflexivity | apply (Hpost conn Hr)].
Qed.

End Acquire.

Section Shrink.
Context {W : Type} `{Platform W}.
Implicit Types s : @state W.

Lemma consistent_in_store s :
  consistent (this s) (ids s) ->
  (forall p, p ∈ m_idleConnections (this s) -> is_Some (heap s !! p)) /\
  (forall k p, m_activeConnections (this s) !! k = Some p -> is_Some (heap s !! p)).
Proof.
  intros Hcons. split.
  - intros p Hp. destruct (idle_known _ _ Hcons p Hp) as (k & Hk & _).
    apply ids_lookup in Hk as (c & Hc & _). eauto.
  - intros k p Hp. pose proof (active_known _ _ Hcons k p Hp) as Hk.
    apply ids_lookup in Hk as (c & Hc & _). eauto.
Qed.

Lemma untouched_nil s s' (conns : list nat) :
  untouched [] s s' -> untouched conns s s'.
Proof.
  intros (Hlen & Hids & Hframe & Hclosed). repeat split; try assumption.
  intros q _. apply Hframe. apply not_elem_of_nil.
Qed.

Lemma shrinkPoolToSize_loop_effect (idle : list nat) (targetSize : Z) :
  forall s,
    m_idleConnections (this s) = idle ->
    (forall p, p ∈ idle -> is_Some (heap s !! p)) ->
    0 <= targetSize -> m_totalConnections (this s) <= UINT_MAX ->
    wp (shrinkPoolToSize_loop idle targetSize)
       (fun r s' =>
          let j := Z.to_nat (Z.min (Z.of_nat (length idle))
                               (m_totalConnections (this s) - targetSize)) in
          r = Ok tt /\
          this s' = set_m_totalConnections (m_totalConnections (this s) - Z.of_nat j)
                      (set_m_idleConnections (drop j idle) (this s)) /\
          untouched (take j idle) s s' /\
          (forall p, p ∈ take j idle -> closed p s')) s.
Proof.
  induction idle as [|conn rest IH]; intros s Hidle Hstore Htarget Hbound;
    cbn [shrinkPoolToSize_loop].
  - apply wp_ret. cbn zeta. cbn [length]. 
    replace (Z.to_nat _) with O by lia. cbn [drop take].
    split; [reflexivity|].
    split; [cbn [Z.of_nat]; rewrite Z.sub_0_r, <- Hidle; destruct (this s); reflexivity|].
    split; [apply untouched_refl|]. intros p Hp. apply elem_of_nil in Hp. destruct Hp.
  - pool_steps. destruct (Z.ltb_spec targetSize (m_totalConnections (this s))) as [Hlt | Hge].
    + destruct (Hstore conn) as [c Hc]; [left|].
      effect (close_effect conn s c).
      intros r s1 (-> & Hthis1 & Hbal1 & Hmon1 & Hheap1). cbn [then_wp]. pool_steps.
      assert (Hw : wrap64 (m_totalConnections (this s) + -1) = m_totalConnections (this s) - 1)
        by (apply wrap64_small; unfold UINT_MAX in *; lia).
      eapply wp_mono.
      { apply IH.
        - norm. rewrite Hthis1, Hidle. reflexivity.
        - intros p Hp. cbn [heap with_this]. rewrite Hheap1.
          destruct (Hstore p) as [c' Hc']; [right; exact Hp|].
          apply lookup_lt_is_Some. rewrite length_insert. eapply lookup_lt_Some. exact Hc'.
        - exact Htarget.
        - norm. rewrite Hthis1, Hw. lia. }
      cbn beta zeta. norm. rewrite Hthis1, Hw. intros r s' (-> & Hthis' & Hun & Hclosed).
      cbn [length].
      replace (Z.to_nat (Z.min (Z.of_nat (S (length rest))) (m_totalConnections (this s) - targetSize)))
        with (S (Z.to_nat (Z.min (Z.of_nat (length rest))
                             (m_totalConnections (this s) - 1 - targetSize)))) by lia.
      set (j := Z.to_nat _) in *. cbn [drop take].
      split; [reflexivity|].
      split.
      { rewrite Hthis'. norm. rewrite Hidle. cbn [tail].
        unfold set_m_totalConnections, set_m_idleConnections. cbn. f_equal. lia. }
      destruct (untouched_close conn (take j rest) s _ s' c Hc Hheap1 Hun) as [Hun' Hconn].
      split; [exact Hun'|].
      intros p Hp. apply elem_of_cons in Hp as [-> | Hp]; [exact Hconn | apply Hclosed, Hp].
    + pool_steps. cbn zeta. replace (Z.to_nat _) with O by lia. cbn [drop take].
      split; [reflexivity|].
      split; [cbn [Z.of_nat]; rewrite Z.sub_0_r, <- Hidle; destruct (this s); reflexivity|].
      split; [apply untouched_refl|]. intros p Hp. apply elem_of_nil in Hp. destruct Hp.
Qed.

(** X13.  On a running pool with consistent bookkeeping,
    [adjustConfiguration] returns [true] and installs the new configuration
    without validating it.  When the counter exceeds the new maximum it closes
    sessions from the head of the idle queue only, [min (|idle|, total - max)]
    of them; checked-out sessions are never closed, so the counter ends at
    [min (total, max (new maximum, number checked out))], which can stay above
    the new maximum.  The closed sessions have no handle and every other
    session is as it was. *)
Theorem adjustConfiguration_shrinks_idle (newConfig : PoolConfig.t) s :
  m_isRunning (this s) = true ->
  consistent (this s) (ids s) ->
  0 <= PoolConfig.maxConnections newConfig ->
  exists s',
    adjustConfiguration newConfig s = (Ok true, s') /\
    let pool := this s in
    let j := Z.to_nat (Z.min (Z.of_nat (length (m_idleConnections pool)))
                         (m_totalConnections pool - PoolConfig.maxConnections newConfig)) in
    this s' = mk newConfig (drop j (m_idleConnections pool)) (m_activeConnections pool)
                true (m_totalConnections pool - Z.of_nat j) /\
    m_totalConnections (this s') =
      Z.min (m_totalConnections pool)
            (Z.max (PoolConfig.maxConnections newConfig)
                   (Z.of_nat (size (m_activeConnections pool)))) /\
    (forall p, p ∈ take j (m_idleConnections pool) -> closed p s') /\
    (forall q, q ∉ take j (m_idleConnections pool) -> heap s' !! q = heap s !! q).
Proof.
  intros Hrun Hcons Hmax. cbn zeta.
  set (j := Z.to_nat _).
  assert (Hwp : wp (adjustConfiguration newConfig)
    (fun r s' =>
       r = Ok true /\
       this s' = mk newConfig (drop j (m_idleConnections (this s)))
                   (m_activeConnections (this s)) true
                   (m_totalConnections (this s) - Z.of_nat j) /\
       (forall p, p ∈ take j (m_idleConnections (this s)) -> closed p s') /\
       (forall q, q ∉ take j (m_idleConnections (this s)) -> heap s' !! q = heap s !! q)) s).
  { unfold adjustConfiguration. pool_steps. norm.
    destruct (Z.ltb_spec (PoolConfig.maxConnections newConfig) (m_totalConnections (this s)))
      as [Hlt | Hge].
    - unfold shrinkPoolToSize. pool_steps. norm. rewrite Hrun. cbn [negb].
      destruct (Z.leb_spec (m_totalConnections (this s)) (PoolConfig.maxConnections newConfig))
        as [Hle | _]; [lia|].
      eapply wp_mono.
      { apply shrinkPoolToSize_loop_effect.
        - reflexivity.
        - apply (consistent_in_store s Hcons).
        - exact Hmax.
        - norm. apply (total_bound _ _ Hcons). }
      cbn beta zeta. norm. fold j. intros r s' (-> & Hthis' & Hun & Hclosed).
      cbn [then_wp]. pool_steps.
      split; [reflexivity|].
      split; [rewrite Hthis'; destruct (this s); cbn in *; subst; reflexivity|].
      split; [exact Hclosed|]. destruct Hun as (_ & _ & Hframe & _). exact Hframe.
    - pool_steps. norm. unfold j. replace (Z.to_nat _) with O by lia. cbn [drop take].
      split; [reflexivity|].
      split; [cbn [Z.of_nat]; rewrite Z.sub_0_r; destruct (this s); cbn in *; subst;
              reflexivity|].
      split; [intros p Hp; apply elem_of_nil in Hp; destruct Hp | reflexivity]. }
  unfold wp in Hwp. destruct (adjustConfiguration newConfig s) as [r s'].
  cbn [fst snd] in Hwp. destruct Hwp as (-> & Hthis & Hclosed & Hframe).
  exists s'. split; [reflexivity|]. split; [exact Hthis|].
  split; [|split; assumption].
  rewrite Hthis. cbn [m_totalConnections].
  pose proof (count_ok _ _ Hcons) as Hcount. unfold j. lia.
Qed.

End Shrink.

Section Cleanup.
Context {W : Type} `{Platform W}.
Implicit Types s : @state W.

(** A method that does not open a handle, run on the session at [q]. *)
Lemma on_conn_untouched {A} (q : nat) (m : M (@Connection.state W) A) s :
  Connection.method_ok m ->
  (forall cs, wp m (fun _ cs' =>
                      Connection.m_mysql (Connection.this cs) = None ->
                      Connection.m_mysql (Connection.this cs') = None) cs) ->
  wp (on_conn q m)
     (fun r s' =>
        this s' = this s /\ untouched [q] s s' /\
        (is_Some (heap s !! q) -> exists a, r = Ok a)) s.
Proof.
  intros Hok Hkeeps. unfold wp, on_conn.
  destruct (heap s !! q) as [c|] eqn:Hc.
  - specialize (Hok (Connection.mkState c (world s) (monitor s) (calls s))).
    specialize (Hkeeps (Connection.mkState c (world s) (monitor s) (calls s))).
    unfold wp in Hok, Hkeeps.
    destruct (m _) as [r cs']. cbn [fst snd] in *. norm.
    destruct Hok as [Hr Hid].
    split; [reflexivity|]. split; [|intros _; exact Hr].
    split; [cbn [heap]; apply length_insert|].
    split; [cbn [heap]; eapply ids_insert; eassumption|].
    split.
    + intros q' Hq'. cbn [heap]. apply list_lookup_insert_ne.
      intros <-. apply Hq'. left.
    + intros q' (c' & Hc' & Hnone). unfold closed. cbn [heap].
      destruct (decide (q = q')) as [<- | Hne].
      * exists (Connection.this cs'). split; [eapply lookup_insert_heap; exact Hc|].
        apply Hkeeps. congruence.
      * exists c'. split; [rewrite list_lookup_insert_ne by exact Hne; exact Hc' | exact Hnone].
  - cbn. split; [reflexivity|]. split; [apply untouched_refl|]. intros [c' [=]].
Qed.

Lemma untouched_trans (l1 l2 l : list nat) s s1 s2 :
  untouched l1 s s1 -> untouched l2 s1 s2 ->
  (forall q, q ∈ l1 -> q ∈ l) -> (forall q, q ∈ l2 -> q ∈ l) ->
  untouched l s s2.
Proof.
  intros (Hlen1 & Hids1 & Hframe1 & Hclosed1) (Hlen2 & Hids2 & Hframe2 & Hclosed2) Hl1 Hl2.
  split; [congruence|]. split; [congruence|]. split.
  - intros q Hq. rewrite Hframe2, Hframe1; [reflexivity | |]; intros Hin; apply Hq; auto.
  - intros q Hq. apply Hclosed2, Hclosed1, Hq.
Qed.

Lemma isValidQuietly_keeps_closed (cs : @Connection.state W) :
  wp Connection.isValidQuietly
     (fun _ cs' =>
        Connection.m_mysql (Connection.this cs) = None ->
        Connection.m_mysql (Connection.this cs') = None) cs.
Proof.
  unfold Connection.isValidQuietly. wp_steps.
  destruct (Connection.m_mysql (Connection.this cs)) as [h|] eqn:Hh; wp_steps;
    [|intros _; exact Hh].
  destruct (negb _); wp_steps; intros [=].
Qed.

Lemma cleanupIdleConnections_loop_effect (idle : list nat) (now : Z) :
  forall (keepConnections : list nat) s,
    m_idleConnections (this s) = idle ->
    (forall p, p ∈ idle -> is_Some (heap s !! p)) ->
    Z.of_nat (length idle) <= m_totalConnections (this s) <= UINT_MAX ->
    wp (cleanupIdleConnections_loop idle now keepConnections)
       (fun r s' =>
          exists kept,
            r = Ok (keepConnections ++ kept) /\ kept `sublist_of` idle /\
            this s' =
              set_m_totalConnections
                (m_totalConnections (this s)
                 - (Z.of_nat (length idle) - Z.of_nat (length kept)))
                (set_m_idleConnections [] (this s)) /\
            untouched idle s s' /\
            (forall p, p ∈ idle -> p ∉ kept -> closed p s')) s.
Proof.
  induction idle as [|conn rest IH]; intros keep s Hidle Hstore Hbound;
    cbn [cleanupIdleConnections_loop].
  - apply wp_ret. exists []. rewrite app_nil_r. split; [reflexivity|].
    split; [reflexivity|].
    split; [cbn [length Z.of_nat]; change (0 - 0) with 0; rewrite Z.sub_0_r, <- Hidle;
            destruct (this s); reflexivity|].
    split; [apply untouched_refl|]. intros p Hp. apply elem_of_nil in Hp. destruct Hp.
  - cbn [length] in Hbound. pool_steps.
    destruct (Hstore conn) as [c Hc]; [left|].
    effect (on_conn_untouched conn Connection.isValidQuietly).
    { intros cs. apply isValidQuietly_keeps_closed. }
    intros r s1 (Hthis1 & Hun1 & Hr). norm.
    destruct Hr as [isValid ->]; [eauto|]. cbn [then_wp]. pool_step.
    assert (Hstore1 : forall p, p ∈ conn :: rest -> is_Some (heap s1 !! p)).
    { intros p Hp. destruct (Hstore p Hp) as [c' Hc'].
      apply lookup_lt_is_Some. destruct Hun1 as (Hlen1 & _). rewrite Hlen1.
      eapply lookup_lt_Some. exact Hc'. }
    assert (Hkept :
      wp (if isValid then
            do lastActiveTime <- getLastActiveTime conn;
            do pool <- gets this;
            if now - lastActiveTime <=? PoolConfig.maxIdleTime (m_config pool)
            then ret true
            else ret (m_totalConnections pool <? PoolConfig.minConnections (m_config pool))
          else ret false)
         (fun r s2 => s2 = s1 /\ exists kept : bool, r = Ok kept) s1).
    { destruct isValid; [|pool_steps; eauto].
      unfold getLastActiveTime. effect on_conn_gets.
      intros r s2 [-> Hr]. destruct (Hstore1 conn) as [c1 Hc1]; [left|].
      rewrite Hc1 in Hr. subst r. cbn [then_wp]. pool_steps.
      destruct (_ <=? _); pool_steps; eauto. }
    eapply wp_mono; [exact Hkept|].
    cbn beta. intros r s2 (-> & kept & ->). cbn [then_wp].
    assert (Hidle1 : m_idleConnections (this s1) = rest).
    { rewrite Hthis1. norm. rewrite Hidle. reflexivity. }
    destruct kept.
    + eapply wp_mono.
      { apply (IH (keep ++ [conn]) s1 Hidle1).
        - intros p Hp. apply Hstore1. right. exact Hp.
        - rewrite Hthis1. norm. lia. }
      cbn beta. intros r s' (kept & -> & Hsub & Hthis' & Hun' & Hclosed').
      exists (conn :: kept). rewrite <- app_assoc. split; [reflexivity|].
      split; [apply sublist_skip; exact Hsub|].
      split.
      { rewrite Hthis', Hthis1. norm. cbn [length].
        unfold set_m_totalConnections, set_m_idleConnections. cbn. f_equal. lia. }
      split.
      { eapply (untouched_trans [conn] rest); [exact Hun1 | exact Hun' | |].
        - intros q Hq. apply list_elem_of_singleton in Hq as ->. left.
        - intros q Hq. right. exact Hq. }
      intros p Hp Hnot. apply not_elem_of_cons in Hnot as [Hne Hnot].
      apply elem_of_cons in Hp as [-> | Hp]; [congruence|].
      apply Hclosed'; assumption.
    + destruct (Hstore1 conn) as [c1 Hc1]; [left|].
      pool_step.
      effect (close_effect conn s1 c1).
      intros r s3 (-> & Hthis3 & _ & _ & Hheap3). cbn [then_wp]. pool_steps.
      assert (Hw : wrap64 (m_totalConnections (this s) + -1) = m_totalConnections (this s) - 1)
        by (apply wrap64_small; unfold UINT_MAX in *; lia).
      eapply wp_mono.
      { apply (IH keep).
        - norm. rewrite Hthis3. exact Hidle1.
        - intros p Hp. cbn [heap with_this]. rewrite Hheap3.
          destruct (Hstore1 p) as [c' Hc']; [right; exact Hp|].
          apply lookup_lt_is_Some. rewrite length_insert. eapply lookup_lt_Some. exact Hc'.
        - norm. rewrite Hthis3, Hthis1. norm. rewrite Hw. lia. }
      cbn beta. norm. rewrite Hthis3, Hthis1. norm. rewrite Hw.
      intros r s' (kept & -> & Hsub & Hthis' & Hun' & Hclosed').
      exists kept. split; [reflexivity|].
      split; [apply sublist_cons; exact Hsub|].
      split.
      { rewrite Hthis'. cbn [length].
        unfold set_m_totalConnections, set_m_idleConnections. cbn. f_equal. lia. }
      destruct (untouched_close conn rest s1 _ s' c1 Hc1 Hheap3 Hun') as [Hun3 Hconn].
      split.
      { eapply (untouched_trans [conn] (conn :: rest)); [exact Hun1 | exact Hun3 | |].
        - intros q Hq. apply list_elem_of_singleton in Hq as ->. left.
        - auto. }
      intros p Hp Hnot. apply elem_of_cons in Hp as [-> | Hp]; [exact Hconn|].
      apply Hclosed'; assumption.
Qed.

(** X14.  On a pool with consistent bookkeeping, [cleanupIdleConnections]
    returns normally; the idle queue it leaves is a sublist of the one it
    found (the sessions kept stay in their order), the counter goes down by
    the number of sessions dropped, every dropped session has no handle, and
    the map of checked-out sessions, the configuration, the running flag, the
    sessions that were not queued and all the ids are as they were. *)
Theorem cleanupIdleConnections_prunes_queue s :
  consistent (this s) (ids s) ->
  exists s',
    cleanupIdleConnections s = (Ok tt, s') /\
    let pool := this s in
    let pool' := this s' in
    m_idleConnections pool' `sublist_of` m_idleConnections pool /\
    m_totalConnections pool' =
      m_totalConnections pool
      - (Z.of_nat (length (m_idleConnections pool))
         - Z.of_nat (length (m_idleConnections pool'))) /\
    m_activeConnections pool' = m_activeConnections pool /\
    m_config pool' = m_config pool /\
    m_isRunning pool' = m_isRunning pool /\
    (forall p, p ∈ m_idleConnections pool -> p ∉ m_idleConnections pool' -> closed p s') /\
    (forall q, q ∉ m_idleConnections pool -> heap s' !! q = heap s !! q) /\
    ids s' = ids s.
Proof.
  intros Hcons. cbn zeta.
  assert (Hwp : wp cleanupIdleConnections
    (fun r s' =>
       r = Ok tt /\
       m_idleConnections (this s') `sublist_of` m_idleConnections (this s) /\
       m_totalConnections (this s') =
         m_totalConnections (this s)
         - (Z.of_nat (length (m_idleConnections (this s)))
            - Z.of_nat (length (m_idleConnections (this s')))) /\
       m_activeConnections (this s') = m_activeConnections (this s) /\
       m_config (this s') = m_config (this s) /\
       m_isRunning (this s') = m_isRunning (this s) /\
       (forall p, p ∈ m_idleConnections (this s) -> p ∉ m_idleConnections (this s') ->
                  closed p s') /\
       (forall q, q ∉ m_idleConnections (this s) -> heap s' !! q = heap s !! q) /\
       ids s' = ids s) s).
  { unfold cleanupIdleConnections. pool_steps. norm.
    eapply wp_mono.
    { apply cleanupIdleConnections_loop_effect.
      - reflexivity.
      - apply (consistent_in_store s Hcons).
      - norm. pose proof (count_ok _ _ Hcons). pose proof (total_bound _ _ Hcons). lia. }
    cbn beta. norm. intros r s' (kept & -> & Hsub & Hthis' & Hun & Hclosed).
    cbn [then_wp app]. pool_steps. norm. rewrite Hthis'. norm.
    destruct Hun as (_ & Hids & Hframe & _).
    repeat split; try assumption; reflexivity. }
  unfold wp in Hwp. destruct (cleanupIdleConnections s) as [r s'].
  cbn [fst snd] in Hwp. destruct Hwp as (-> & Hrest).
  exists s'. split; [reflexivity | exact Hrest].
Qed.

End Cleanup.

Section Create.
Context {W : Type} `{Platform W}.
Implicit Types s : @state W.

(** A method of a session that records nothing. *)
Lemma on_conn_monitor {A} (p : nat) (m : M (@Connection.state W) A) s :
  (forall cs, wp m (fun _ cs' => Connection.monitor cs' = Connection.monitor cs) cs) ->
  wp (on_conn p m) (fun _ s' => monitor s' = monitor s /\ length (heap s') = length (heap s)) s.
Proof.
  intros Hm. unfold wp, on_conn. destruct (heap s !! p) as [c|]; [|split; reflexivity].
  specialize (Hm (Connection.mkState c (world s) (monitor s) (calls s))).
  unfold wp in Hm. destruct (m _) as [r cs']. cbn in *.
  split; [exact Hm | apply length_insert].
Qed.




End Create.

Section TopUp.
Context {W : Type} `{Platform W}.
Implicit Types s : @state W.

Lemma ids_length s : length (ids s) = length (heap s).
Proof. unfold ids. apply length_fmap. Qed.

Lemma ensureMinimumConnections_loop_effect (n : nat) :
  forall s,
    0 <= m_totalConnections (this s) ->
    m_totalConnections (this s) + Z.of_nat n < 2 ^ 64 ->
    wp (ensureMinimumConnections_loop n)
       (fun r s' =>
          exists news,
            this s' =
              set_m_totalConnections (m_totalConnections (this s) + Z.of_nat (length news))
                (set_m_idleConnections (m_idleConnections (this s) ++ news) (this s)) /\
            (length news <= n)%nat /\
            (forall p, p ∈ news -> (length (heap s) <= p < length (heap s'))%nat) /\
            ids s `prefix_of` ids s' /\
            (r = Ok tt -> length (heap s') = (length (heap s) + n)%nat)) s.
Proof.
  induction n as [|n IH]; intros s Hlow Hhigh; cbn [ensureMinimumConnections_loop].
  - apply wp_ret. exists []. rewrite app_nil_r. cbn [length Z.of_nat].
    split; [rewrite Z.add_0_r; destruct (this s); reflexivity|].
    split; [lia|]. split; [intros p Hp; apply elem_of_nil in Hp; destruct Hp|].
    split; [reflexivity | intros _; lia].
  - assert (Hstop : forall r s1, this s1 = this s -> ids s `prefix_of` ids s1 ->
              r <> Ok tt ->
              exists news,
                this s1 =
                  set_m_totalConnections (m_totalConnections (this s) + Z.of_nat (length news))
                    (set_m_idleConnections (m_idleConnections (this s) ++ news) (this s)) /\
                (length news <= S n)%nat /\
                (forall p, p ∈ news -> (length (heap s) <= p < length (heap s1))%nat) /\
                ids s `prefix_of` ids s1 /\
                (r = Ok tt -> length (heap s1) = (length (heap s) + S n)%nat)).
    { intros r s1 Hthis1 Hpre Hr. exists []. rewrite app_nil_r. cbn [length Z.of_nat].
      split; [rewrite Z.add_0_r, Hthis1; destruct (this s); reflexivity|].
      split; [lia|]. split; [intros p Hp; apply elem_of_nil in Hp; destruct Hp|].
      split; [exact Hpre | intros Hr'; congruence]. }
    effect createConnection_effect.
    intros [conn|e| |] s1 (Hthis1 & Hids1); cbn [then_wp];
      [|apply Hstop; [assumption | assumption | discriminate] ..].
    destruct Hids1 as (-> & k & Hids1).
    assert (Hk1 : ids s1 !! length (ids s) = Some k)
      by (rewrite Hids1; apply list_lookup_middle; reflexivity).
    effect (validateConnection_effect (length (ids s)) false s1 k).
    intros r s2 ((valid & ->) & Hthis2 & Hids2). cbn [then_wp]. pool_step.
    assert (Hlen1 : length (heap s2) = S (length (heap s))).
    { rewrite <- !ids_length, Hids2, Hids1, length_app. cbn. lia. }
    destruct valid.
    + pool_steps.
      assert (Hw : wrap64 (m_totalConnections (this s) + 1) = m_totalConnections (this s) + 1)
        by (apply wrap64_small; lia).
      eapply wp_mono.
      { apply IH; norm; rewrite Hthis2, Hthis1, Hw; lia. }
      cbn beta. norm. rewrite Hthis2, Hthis1. norm. rewrite Hw.
      intros r s' (news & Hthis' & Hn & Hfresh & Hpre & Hok).
      exists (length (ids s) :: news).
      split.
      { rewrite Hthis'. unfold set_m_totalConnections, set_m_idleConnections. cbn.
        rewrite <- app_assoc. cbn. f_equal. lia. }
      split; [cbn; lia|].
      split.
      { intros p Hp. apply elem_of_cons in Hp as [-> | Hp].
        - rewrite ids_length. apply prefix_length in Hpre.
          rewrite !ids_length in Hpre. norm. lia.
        - specialize (Hfresh p Hp). norm. lia. }
      split.
      { etrans; [|exact Hpre]. unfold ids in *. norm. rewrite Hids2, Hids1.
        apply prefix_app_r. reflexivity. }
      intros Hr. rewrite (Hok Hr). norm. lia.
    + assert (Hk2 : ids s2 !! length (ids s) = Some k) by (rewrite Hids2; exact Hk1).
      effect (on_conn_effect (length (ids s)) Connection.close s2 k).
      intros r s3 ((a & ->) & Hthis3 & Hids3). cbn [then_wp].
      assert (Hlen3 : length (heap s3) = S (length (heap s))).
      { rewrite <- !ids_length, Hids3, Hids2, Hids1, length_app. cbn. lia. }
      eapply wp_mono.
      { apply IH; rewrite Hthis3, Hthis2, Hthis1; lia. }
      cbn beta. rewrite Hthis3, Hthis2, Hthis1.
      intros r s' (news & Hthis' & Hn & Hfresh & Hpre & Hok).
      exists news. split; [exact Hthis'|]. split; [lia|].
      split; [intros p Hp; specialize (Hfresh p Hp); lia|].
      split.
      { etrans; [|exact Hpre]. rewrite Hids3, Hids2, Hids1.
        apply prefix_app_r. reflexivity. }
      intros Hr. rewrite (Hok Hr). lia.
Qed.

(** X16.  [ensureMinimumConnections], on a pool whose counter is not negative
    and whose minimum is an [unsigned int]: whatever the outcome, the pool is
    as it was but for new sessions appended to the idle queue and counted, all
    of them at addresses that were free; their number is at most
    [minConnections - total] (none when the counter is at the minimum already),
    so the counter never passes the minimum.  When the call returns normally,
    exactly [minConnections - total] sessions have been added to the store,
    queued or not: an attempt that fails validation is not retried. *)
Theorem ensureMinimumConnections_tops_up s :
  0 <= m_totalConnections (this s) ->
  PoolConfig.minConnections (m_config (this s)) <= UINT_MAX ->
  wp ensureMinimumConnections
     (fun r s' =>
        let pool := this s in
        let needed := PoolConfig.minConnections (m_config pool) - m_totalConnections pool in
        exists news,
          this s' =
            mk (m_config pool) (m_idleConnections pool ++ news) (m_activeConnections pool)
               (m_isRunning pool) (m_totalConnections pool + Z.of_nat (length news)) /\
          Z.of_nat (length news) <= Z.max 0 needed /\
          (forall p, p ∈ news -> (length (heap s) <= p < length (heap s'))%nat) /\
          (r = Ok tt -> length (heap s') = (length (heap s) + Z.to_nat needed)%nat)) s.
Proof.
  intros Hlow Hmin. unfold ensureMinimumConnections. pool_steps. cbn zeta.
  destruct (Z.ltb_spec (m_totalConnections (this s))
              (PoolConfig.minConnections (m_config (this s)))) as [Hlt | Hge].
  - assert (Hw : wrap64 (PoolConfig.minConnections (m_config (this s))
                         - m_totalConnections (this s))
                 = PoolConfig.minConnections (m_config (this s)) - m_totalConnections (this s))
      by (apply wrap64_small; unfold UINT_MAX in *; lia).
    rewrite Hw.
    eapply wp_mono.
    { apply ensureMinimumConnections_loop_effect; [exact Hlow|].
      unfold UINT_MAX in *. lia. }
    cbn beta. intros r s' (news & Hthis' & Hn & Hfresh & _ & Hok).
    exists news. split; [rewrite Hthis'; destruct (this s); reflexivity|].
    split; [lia|]. split; assumption.
  - pool_steps. exists []. rewrite app_nil_r. cbn [length Z.of_nat].
    split; [rewrite Z.add_0_r; destruct (this s); reflexivity|].
    split; [lia|]. split; [intros p Hp; apply elem_of_nil in Hp; destruct Hp|].
    intros _. lia.
Qed.

Lemma init_loop_effect (n : nat) :
  forall (createdConnections : Z) s,
    0 <= m_totalConnections (this s) ->
    m_totalConnections (this s) + Z.of_nat n < 2 ^ 64 ->
    wp (init_loop n createdConnections)
       (fun r s' =>
          exists news,
            this s' =
              set_m_totalConnections (m_totalConnections (this s) + Z.of_nat (length news))
                (set_m_idleConnections (m_idleConnections (this s) ++ news) (this s)) /\
            (length news <= n)%nat /\
            (forall p, p ∈ news -> (length (heap s) <= p < length (heap s'))%nat) /\
            ids s `prefix_of` ids s' /\
            match r with
            | Ok created => created = createdConnections + Z.of_nat (length news)
            | Throw _ => False
            | OutOfFuel | Undefined => True
            end) s.
Proof.
  induction n as [|n IH]; intros created s Hlow Hhigh; cbn [init_loop].
  - apply wp_ret. exists []. rewrite app_nil_r. cbn [length Z.of_nat].
    split; [rewrite Z.add_0_r; destruct (this s); reflexivity|].
    split; [lia|]. split; [intros p Hp; apply elem_of_nil in Hp; destruct Hp|].
    split; [reflexivity | lia].
  - assert (Hattempt :
      wp init_attempt
         (fun r s1 =>
            ids s `prefix_of` ids s1 /\
            match r with
            | Ok true =>
              this s1 =
                set_m_totalConnections (m_totalConnections (this s) + 1)
                  (set_m_idleConnections (m_idleConnections (this s) ++ [length (heap s)])
                     (this s)) /\
              length (heap s1) = S (length (heap s))
            | Ok false => this s1 = this s
            | Throw _ => False
            | OutOfFuel | Undefined => this s1 = this s
            end) s).
    { unfold init_attempt. pool_step.
      effect createConnection_effect.
      intros [conn|e| |] s1 (Hthis1 & Hids1); cbn [then_wp catch_wp];
        [|pool_steps; auto |auto|auto].
      destruct Hids1 as (-> & k & Hids1).
      assert (Hk1 : ids s1 !! length (ids s) = Some k)
        by (rewrite Hids1; apply list_lookup_middle; reflexivity).
      pool_step.
      effect (validateConnection_effect (length (ids s)) false s1 k).
      intros r s2 ((valid & ->) & Hthis2 & Hids2). cbn [then_wp catch_wp].
      destruct valid; cbn [negb]; pool_steps.
      - assert (Hw : wrap64 (m_totalConnections (this s) + 1) = m_totalConnections (this s) + 1)
          by (apply wrap64_small; lia).
        unfold ids in *. norm. rewrite Hthis2, Hthis1. norm. rewrite Hw.
        split; [rewrite Hids2, Hids1; apply prefix_app_r; reflexivity|].
        rewrite length_fmap. split; [reflexivity|].
        rewrite <- (length_fmap Connection.m_connectionId (heap s2)), Hids2, Hids1, length_app,
          length_fmap. cbn. lia.
      - assert (Hk2 : ids s2 !! length (ids s) = Some k) by (rewrite Hids2; exact Hk1).
        effect (on_conn_effect (length (ids s)) Connection.close s2 k).
        intros r s3 ((a & ->) & Hthis3 & Hids3). cbn [then_wp catch_wp]. pool_steps.
        split; [rewrite Hids3, Hids2, Hids1; apply prefix_app_r; reflexivity | congruence]. }
    pool_step. eapply wp_mono; [exact Hattempt|].
    intros [[|]|e| |] s1 [Hpre1 Hpost]; cbn [then_wp].
    + destruct Hpost as [Hthis1 Hlen1].
      eapply wp_mono.
      { apply IH; rewrite Hthis1; norm; lia. }
      cbn beta. rewrite Hthis1. norm.
      intros r s' (news & Hthis' & Hn & Hfresh & Hpre & Hr).
      exists (length (heap s) :: news).
      split.
      { rewrite Hthis'. unfold set_m_totalConnections, set_m_idleConnections. cbn.
        rewrite <- app_assoc. cbn. f_equal. lia. }
      split; [cbn; lia|].
      split.
      { intros p Hp. apply elem_of_cons in Hp as [-> | Hp].
        - apply prefix_length in Hpre. rewrite !ids_length in Hpre. lia.
        - specialize (Hfresh p Hp). lia. }
      split; [etrans; eassumption|].
      destruct r; try exact Hr. cbn [length]. lia.
    + eapply wp_mono.
      { apply IH; rewrite Hpost; lia. }
      cbn beta. rewrite Hpost.
      intros r s' (news & Hthis' & Hn & Hfresh & Hpre & Hr).
      exists news. split; [exact Hthis'|]. split; [lia|].
      split.
      { intros p Hp. specialize (Hfresh p Hp).
        apply prefix_length in Hpre1. rewrite !ids_length in Hpre1. lia. }
      split; [etrans; eassumption | exact Hr].
    + destruct Hpost.
    + exists []. rewrite app_nil_r. cbn [length Z.of_nat].
      split; [rewrite Z.add_0_r, Hpost; destruct (this s); reflexivity|].
      split; [lia|]. split; [intros p Hp; apply elem_of_nil in Hp; destruct Hp|].
      split; [exact Hpre1 | exact I].
    + exists []. rewrite app_nil_r. cbn [length Z.of_nat].
      split; [rewrite Z.add_0_r, Hpost; destruct (this s); reflexivity|].
      split; [lia|]. split; [intros p Hp; apply elem_of_nil in Hp; destruct Hp|].
      split; [exact Hpre1 | exact I].
Qed.

(** X17.  [init] with a valid configuration on a pool that is not running,
    has an empty idle queue and counts no session.  If it returns, the pool
    runs with the new configuration, the idle queue holds new sessions only,
    at most [initConnections] of them, the counter is their number, and there
    is at least one unless [initConnections] is 0.  If it raises, the error is
    [no connections has been created], [initConnections] is not 0, and the
    pool is stopped and empty, with the new configuration left in place.  A
    run that neither returns nor raises leaves the pool stopped.  The map of
    checked-out sessions is never touched. *)
Theorem init_outcome (config : PoolConfig.t) s :
  m_isRunning (this s) = false ->
  m_idleConnections (this s) = [] ->
  m_totalConnections (this s) = 0 ->
  PoolConfig.isValid config = true ->
  PoolConfig.in_range config ->
  wp (init config)
     (fun r s' =>
        match r with
        | Ok _ =>
          exists news,
            this s' = mk config news (m_activeConnections (this s)) true
                        (Z.of_nat (length news)) /\
            Z.of_nat (length news) <= PoolConfig.initConnections config /\
            (0 < PoolConfig.initConnections config -> news <> []) /\
            (forall p, p ∈ news -> (length (heap s) <= p < length (heap s'))%nat)
        | Throw e =>
          e = runtime_error "no connections has been created" /\
          0 < PoolConfig.initConnections config /\
          this s' = mk config [] (m_activeConnections (this s)) false 0
        | OutOfFuel | Undefined => m_isRunning (this s') = false
        end) s.
Proof.
  intros Hrun Hidle Htotal Hvalid Hrange.
  assert (Htarget : Z.min (PoolConfig.initConnections config) (PoolConfig.maxConnections config)
                    = PoolConfig.initConnections config).
  { unfold PoolConfig.isValid in Hvalid.
    destruct (Z.ltb_spec (PoolConfig.maxConnections config) (PoolConfig.initConnections config));
      [|lia].
    rewrite !orb_true_r in Hvalid. discriminate. }
  destruct Hrange as (_ & _ & _ & Hinit & _).
  unfold init. pool_steps. rewrite Hrun, Hvalid. cbn [negb]. pool_steps. cbn zeta.
  rewrite Htarget.
  eapply wp_mono.
  { apply init_loop_effect; norm; rewrite Htotal; unfold UINT_MAX in *; lia. }
  cbn beta. norm. rewrite Htotal, Hidle. cbn [app].
  intros r s1 (news & Hthis1 & Hn & Hfresh & _ & Hr).
  destruct r as [created|e| |]; cbn [then_wp catch_wp]; [| destruct Hr | |].
  - subst created.
    destruct (Z.ltb_spec 0 (PoolConfig.initConnections config)) as [Hpos | Hzero];
      cbn [andb].
    + destruct (Z.eqb_spec (0 + Z.of_nat (length news)) 0) as [Hnone | Hsome].
      * pool_steps. norm. rewrite Hthis1. norm.
        destruct news as [|p news]; [|cbn in Hnone; lia].
        cbn [close_all]. pool_steps. norm.
        split; [reflexivity|]. split; [exact Hpos|].
        rewrite Hthis1. destruct (this s); cbn in *; subst; reflexivity.
      * pool_steps. norm. exists news.
        split; [rewrite Hthis1; destruct (this s); cbn in *; subst; reflexivity|].
        split; [lia|]. split; [intros _ ->; cbn in Hsome; lia | exact Hfresh].
    + pool_steps. norm. exists news.
      split; [rewrite Hthis1; destruct (this s); cbn in *; subst; reflexivity|].
      split; [lia|]. split; [intros Hpos; lia | exact Hfresh].
  - rewrite Hthis1. norm. exact Hrun.
  - rewrite Hthis1. norm. exact Hrun.
Qed.

End TopUp.

Section Serve.
Context {W : Type} `{Platform W}.
Implicit Types s : @state W.

Lemma isValid_monitor (tryReconnect : bool) (cs : @Connection.state W) :
  wp (Connection.isValid tryReconnect)
     (fun _ cs' => Connection.monitor cs' = Connection.monitor cs) cs.
Proof.
  unfold Connection.isValid, Connection.updateLastActiveTime. wp_steps.
  destruct (Connection.m_mysql (Connection.this cs)); wp_steps; [|reflexivity].
  destruct (negb _); wp_steps; [|reflexivity].
  destruct (_ || _); wp_steps; reflexivity.
Qed.

Lemma updateLastActiveTime_monitor (cs : @Connection.state W) :
  wp Connection.updateLastActiveTime
     (fun _ cs' => Connection.monitor cs' = Connection.monitor cs) cs.
Proof. unfold Connection.updateLastActiveTime. wp_steps. reflexivity. Qed.

(** X18.  The idle queue is served first in, first out.  On a running pool
    whose queue head answers the ping, [getConnection] returns the head at its
    first turn: the rest of the queue stays in order, the head is entered in
    the map of checked-out sessions under its id, the counter and the ids do
    not change, the session still has its handle, and one acquisition is
    recorded. *)
Theorem getConnection_serves_queue_head (fuel : nat) (ms : Z) s (head : nat)
    (rest : list nat) :
  m_isRunning (this s) = true ->
  m_idleConnections (this s) = head :: rest ->
  head_answers s ->
  exists s' k,
    getConnection (S fuel) ms s = (Ok head, s') /\
    ids s !! head = Some k /\
    this s' = mk (m_config (this s)) rest (<[k := head]> (m_activeConnections (this s)))
                true (m_totalConnections (this s)) /\
    ids s' = ids s /\
    has_handle head s' /\
    PerformanceMonitor.m_totalConnectionsAcquired (monitor s') =
      wrap64 (PerformanceMonitor.m_totalConnectionsAcquired (monitor s) + 1).
Proof.
  intros Hrun Hidle Hanswers.
  destruct (Hanswers head rest Hidle) as (c & h & Hc & Hh & Hping).
  assert (Hk0 : ids s !! head = Some (Connection.m_connectionId c))
    by (apply ids_lookup; eauto).
  assert (Hwp : wp (getConnection (S fuel) ms)
    (fun r s' =>
       r = Ok head /\
       this s' = mk (m_config (this s)) rest
                   (<[Connection.m_connectionId c := head]> (m_activeConnections (this s)))
                   true (m_totalConnections (this s)) /\
       ids s' = ids s /\ has_handle head s' /\
       PerformanceMonitor.m_totalConnectionsAcquired (monitor s') =
         wrap64 (PerformanceMonitor.m_totalConnectionsAcquired (monitor s) + 1)) s).
  { unfold getConnection. pool_steps. rewrite Hrun. cbn [negb]. pool_steps. cbn zeta.
    cbn [getConnection_loop]. pool_step. unfold getConnection_turn. pool_steps. norm.
    rewrite Hidle. unfold getConnection_idle.
    eapply wp_bind. eapply wp_mono.
    { apply wp_both; [apply wp_both|].
      - eapply (validateConnection_answers head _ c h); [exact Hc | exact Hh | exact Hping].
      - apply validateConnection_handle.
      - unfold validateConnection.
        apply (on_conn_monitor head (Connection.isValid false)).
        intros cs. apply isValid_monitor. }
    cbn beta. intros r s1 (((-> & Hthis1 & Hids1) & Hhandle) & Hmon1 & _).
    destruct Hhandle as [[=] | ((valid & [= <-] & Hhandle) & _)].
    specialize (Hhandle eq_refl). cbn [then_wp]. pool_steps.
    effect getConnectionId_reads.
    intros r s2 [-> [[-> Hnone] | (k & -> & Hk)]]; cbn [then_wp].
    { exfalso. destruct Hhandle as (c1 & h1 & Hc1 & _). norm. congruence. }
    pool_steps.
    eapply wp_mono.
    { apply wp_both.
      - apply updateLastActiveTime_keeps_handle. exact Hhandle.
      - apply (on_conn_monitor head Connection.updateLastActiveTime).
        intros cs. apply updateLastActiveTime_monitor. }
    cbn beta. intros r s3 ((-> & Hthis3 & Hids3 & Hhandle3) & Hmon3 & _). cbn [then_wp].
    pool_steps. unfold ids in *. norm.
    split; [reflexivity|].
    assert (k = Connection.m_connectionId c) as -> by congruence.
    split.
    { rewrite Hthis3. norm. rewrite Hthis1. norm. rewrite Hidle. cbn [tail].
      rewrite <- Hrun. destruct (this s); reflexivity. }
    split; [congruence|]. split; [exact Hhandle3|].
    rewrite Hmon3, Hmon1. reflexivity. }
  unfold wp in Hwp. destruct (getConnection (S fuel) ms s) as [r s'].
  cbn [fst snd] in Hwp. destruct Hwp as (-> & Hrest).
  exists s', (Connection.m_connectionId c). split; [reflexivity|]. split; [exact Hk0 | exact Hrest].
Qed.

(** X19.  A running pool with an empty idle queue and at least
    [maxConnections] sessions opens no session: when the wait on the
    condition times out, [getConnection] raises [Timeout waiting for
    available connection after Nms], where N is the timeout passed or, when 0
    was passed, [connectionTimeout] of the configuration.  The pool, the store
    and the telemetry are as they were (no failure is recorded). *)
Theorem getConnection_times_out (fuel : nat) (ms : Z) s :
  let limit := if ms =? 0 then PoolConfig.connectionTimeout (m_config (this s)) else ms in
  let started := steady_clock_now (snd (steady_clock_now (world s))) in
  m_isRunning (this s) = true ->
  m_idleConnections (this s) = [] ->
  PoolConfig.maxConnections (m_config (this s)) <= m_totalConnections (this s) ->
  fst (wait_until (fst started + limit) (snd started)) = timeout ->
  exists s',
    getConnection (S fuel) ms s =
      (Throw (runtime_error ("Timeout waiting for available connection after " +:+
                             to_string limit +:+ "ms")), s') /\
    this s' = this s /\ heap s' = heap s /\ monitor s' = monitor s.
Proof.
  intros limit started Hrun Hidle Hfull Hwait.
  assert (Hwp : wp (getConnection (S fuel) ms)
    (fun r s' =>
       r = Throw (runtime_error ("Timeout waiting for available connection after " +:+
                                 to_string limit +:+ "ms")) /\
       this s' = this s /\ heap s' = heap s /\ monitor s' = monitor s) s).
  { unfold getConnection. pool_steps. rewrite Hrun. cbn [negb]. pool_steps. cbn zeta.
    cbn [getConnection_loop]. pool_step. unfold getConnection_turn. pool_steps. norm.
    rewrite Hidle.
    destruct (Z.ltb_spec (m_totalConnections (this s))
                (PoolConfig.maxConnections (m_config (this s)))) as [Hlt | _]; [lia|].
    pool_steps. norm. fold started. fold limit. rewrite Hwait. pool_steps.
    repeat split. }
  unfold wp in Hwp. destruct (getConnection (S fuel) ms s) as [r s'].
  cbn [fst snd] in Hwp. destruct Hwp as (-> & Hrest).
  exists s'. split; [reflexivity | exact Hrest].
Qed.

(** X20.  Releasing a session that has no handle to a pool whose counter is
    0 (as after [shutdown]) makes the counter wrap: the session fails
    validation, the counter is decremented below zero and ends at
    [2^64 - 1], and no replacement is opened.  The call returns normally; the
    session is removed from the map of checked-out sessions and the idle
    queue is as it was. *)
Theorem releaseConnection_at_zero_wraps (conn : nat) s :
  closed conn s ->
  m_totalConnections (this s) = 0 ->
  0 <= PoolConfig.maxConnections (m_config (this s)) ->
  PoolConfig.minConnections (m_config (this s)) <= UINT_MAX ->
  exists s' k,
    releaseConnection (Some conn) s = (Ok tt, s') /\
    ids s !! conn = Some k /\
    this s' = mk (m_config (this s)) (m_idleConnections (this s))
                (delete k (m_activeConnections (this s))) (m_isRunning (this s))
                (2 ^ 64 - 1) /\
    heap s' = heap s.
Proof.
  intros (c & Hc & Hnone) Htotal Hmax Hmin.
  assert (Hk0 : ids s !! conn = Some (Connection.m_connectionId c))
    by (apply ids_lookup; eauto).
  assert (Hwp : wp (releaseConnection (Some conn))
    (fun r s' =>
       r = Ok tt /\
       this s' = mk (m_config (this s)) (m_idleConnections (this s))
                   (delete (Connection.m_connectionId c) (m_activeConnections (this s)))
                   (m_isRunning (this s)) (2 ^ 64 - 1) /\
       heap s' = heap s) s).
  { unfold releaseConnection, getConnectionId, getLastActiveTime, validateConnection.
    repeat conn_step.
    destruct (Z.ltb_spec (PoolConfig.maxConnections (m_config (this s)))
                (m_totalConnections (this s))) as [Hlt | _]; [lia|].
    repeat conn_step. unfold Connection.isValid. repeat conn_step.
    rewrite Hnone. repeat conn_step. unfold Connection.close. repeat conn_step.
    rewrite Hnone. repeat conn_step.
    assert (Hw : wrap64 (m_totalConnections (this s) + -1) = 2 ^ 64 - 1)
      by (rewrite Htotal; reflexivity).
    rewrite Hw.
    destruct (Z.ltb_spec (2 ^ 64 - 1) (PoolConfig.minConnections (m_config (this s))))
      as [Hlt | _]; [unfold UINT_MAX in *; lia|].
    repeat conn_step.
    split; [reflexivity|]. split; [rewrite Hw; reflexivity|].
    rewrite !list_insert_insert_eq. apply list_insert_id. exact Hc. }
  unfold wp in Hwp. destruct (releaseConnection (Some conn) s) as [r s'].
  cbn [fst snd] in Hwp. destruct Hwp as (-> & Hrest).
  exists s', (Connection.m_connectionId c). split; [reflexivity|]. split; [exact Hk0 | exact Hrest].
Qed.

End Serve.

Section Setup.
Context {W : Type} `{Platform W}.
Implicit Types s : @state W.

(** X21.  [initWithMultipleDatabases] sets up the replica selector before it
    looks at the pool.  With an empty list, or a list that holds an invalid
    descriptor, it raises the selector's error and changes nothing.  With a
    valid list on a pool that already runs it returns normally and the pool is
    as it was, but the selector now holds the new list and strategy, with the
    round-robin index back at 0. *)
Theorem initWithMultipleDatabases_selector_first (poolConfig : PoolConfig.t)
    (databases : list DBConfig.t) (strategy : LoadBalanceStrategy) s :
  let outcome := initWithMultipleDatabases poolConfig databases strategy s in
  if decide (databases = []) then
    outcome =
      (Throw (runtime_error "Cannot initialize load balancer with empty database configs"), s)
  else if forallb DBConfig.isValid databases then
    m_isRunning (this s) = true ->
    outcome =
      (Ok tt, mkState (this s) (LoadBalancer.mk databases strategy 0) (heap s) (world s)
                (monitor s) (calls s))
  else outcome = (Throw (runtime_error "config is not valid"), s).
Proof.
  cbn zeta. unfold initWithMultipleDatabases, on_balancer, zoom, bind, LoadBalancer.init.
  destruct (decide (databases = [])) as [Hnil | Hsome]; cbn.
  - destruct s; reflexivity.
  - destruct (forallb DBConfig.isValid databases); cbn.
    + intros Hrun. unfold init, bind, gets. cbn. rewrite Hrun. reflexivity.
    + destruct s; reflexivity.
Qed.

(** X22.  [PoolConfig::setConnectionLimits] followed by [isValid]: the
    configuration is valid exactly when [min] and [max] are not 0, [min] is
    at most [max] and none of the three timeouts is 0.  The value of [init]
    never makes it invalid, since it is replaced by [min] when 0 and capped at
    [max] otherwise: whenever [min <= max] the stored [initConnections] is at
    most [max]. *)
Theorem setConnectionLimits_validity (min max init : Z) (c : PoolConfig.t) :
  PoolConfig.isValid (PoolConfig.setConnectionLimits min max init c) =
    negb ((min =? 0) || (max =? 0) || (max <? min)) &&
    negb ((PoolConfig.connectionTimeout c =? 0) || (PoolConfig.maxIdleTime c =? 0)
          || (PoolConfig.healthCheckPeriod c =? 0)) /\
  (min <= max ->
   PoolConfig.initConnections (PoolConfig.setConnectionLimits min max init c) <= max).
Proof.
  unfold PoolConfig.isValid, PoolConfig.setConnectionLimits. cbn. split.
  - destruct (Z.eqb_spec min 0) as [Hmin | Hmin]; [reflexivity|].
    destruct (Z.eqb_spec max 0) as [Hmax | Hmax]; [reflexivity|].
    destruct (Z.ltb_spec max min) as [Hlt | Hle]; [reflexivity|]. cbn.
    destruct (Z.eqb_spec init 0) as [Hinit | Hinit].
    + destruct (Z.ltb_spec max min); [lia|]. cbn. destruct (_ || _ || _); reflexivity.
    + destruct (Z.ltb_spec max (Z.min init max)); [lia|]. cbn.
      destruct (_ || _ || _); reflexivity.
  - intros Hle. destruct (init =? 0); lia.
Qed.

End Setup.

(** *** The theorems at work on a pool of two sessions *)

Lemma two_sessions_consistent :
  let s := Scripted.pool (Scripted.limits 2 4 2 600000) Scripted.healthy in
  this s = mk (Scripted.limits 2 4 2 600000) [0%nat; 1%nat] ∅ true 2 /\
  ids s = ["id0"; "id1"] /\
  consistent (this s) (ids s).
Proof.
  intros s.
  assert (Hthis : this s = mk (Scripted.limits 2 4 2 600000) [0%nat; 1%nat] ∅ true 2)
    by (vm_compute; reflexivity).
  assert (Hids : ids s = ["id0"; "id1"]) by (vm_compute; reflexivity).
  split; [exact Hthis|]. split; [exact Hids|].
  rewrite Hthis, Hids. split; cbn [m_idleConnections m_activeConnections m_totalConnections
                                   m_config].
  - reflexivity.
  - apply NoDup_cons. split; [|apply NoDup_singleton].
    intros Hin. apply list_elem_of_singleton in Hin. discriminate.
  - intros p Hp. apply elem_of_cons in Hp as [-> | Hp].
    + exists "id0". split; reflexivity.
    + apply list_elem_of_singleton in Hp as ->. exists "id1". split; reflexivity.
  - intros k p Hk. rewrite lookup_empty in Hk. discriminate.
  - unfold UINT_MAX. lia.
  - unfold PoolConfig.in_range, UINT_MAX. cbn. lia.
Qed.

Lemma one_handed_out_consistent :
  let s := snd (getConnection 3 100
                  (Scripted.pool (Scripted.limits 2 4 2 600000) Scripted.healthy)) in
  this s = mk (Scripted.limits 2 4 2 600000) [1%nat] {["id0" := 0%nat]} true 2 /\
  ids s = ["id0"; "id1"] /\
  consistent (this s) (ids s).
Proof.
  intros s.
  assert (Hthis : this s = mk (Scripted.limits 2 4 2 600000) [1%nat] {["id0" := 0%nat]} true 2)
    by (vm_compute; reflexivity).
  assert (Hids : ids s = ["id0"; "id1"]) by (vm_compute; reflexivity).
  split; [exact Hthis|]. split; [exact Hids|].
  rewrite Hthis, Hids. split; cbn [m_idleConnections m_activeConnections m_totalConnections
                                   m_config].
  - rewrite map_size_singleton. reflexivity.
  - apply NoDup_singleton.
  - intros p Hp. apply list_elem_of_singleton in Hp as ->. exists "id1".
    split; [reflexivity|]. apply lookup_singleton_ne. discriminate.
  - intros k p Hk. apply lookup_singleton_Some in Hk as [<- <-]. reflexivity.
  - unfold UINT_MAX. lia.
  - unfold PoolConfig.in_range, UINT_MAX. cbn. lia.
Qed.

Lemma shutdown_closes_every_session_witness :
  let s := snd (getConnection 3 100
                  (Scripted.pool (Scripted.limits 2 4 2 600000) Scripted.healthy)) in
  exists s',
    shutdown s = (Ok tt, s') /\
    this s' = mk (m_config (this s)) [] ∅ false 0 /\
    closed 0%nat s' /\ closed 1%nat s'.
Proof.
  intros s.
  destruct one_handed_out_consistent as (Hthis & _ & Hcons). fold s in Hthis, Hcons.
  destruct (shutdown_closes_every_session s) as (s' & Hrun & Hthis' & Hidle & Hactive & _).
  - rewrite Hthis. reflexivity.
  - apply (consistent_in_store s Hcons).
  - apply (consistent_in_store s Hcons).
  - exists s'. split; [exact Hrun|]. split; [exact Hthis'|]. split.
    + apply (Hactive "id0"). rewrite Hthis. apply lookup_singleton_eq.
    + apply Hidle. rewrite Hthis. left.
Defined.

Lemma adjustConfiguration_shrinks_idle_witness :
  let s := snd (getConnection 3 100
                  (Scripted.pool (Scripted.limits 2 4 2 600000) Scripted.healthy)) in
  exists s',
    adjustConfiguration (Scripted.limits 1 1 1 600000) s = (Ok true, s') /\
    m_totalConnections (this s') = 1 /\
    closed 1%nat s'.
Proof.
  intros s.
  destruct one_handed_out_consistent as (Hthis & _ & Hcons). fold s in Hthis, Hcons.
  destruct (adjustConfiguration_shrinks_idle (Scripted.limits 1 1 1 600000) s)
    as (s' & Hrun & _ & Htotal & Hclosed & _).
  - rewrite Hthis. reflexivity.
  - exact Hcons.
  - cbn. lia.
  - exists s'. split; [exact Hrun|]. rewrite Hthis in Htotal, Hclosed. split.
    + rewrite Htotal. cbn [m_totalConnections m_activeConnections].
      rewrite map_size_singleton. reflexivity.
    + apply Hclosed. cbn. left.
Defined.

Lemma cleanupIdleConnections_prunes_queue_witness :
  let s := Scripted.pool (Scripted.limits 2 4 2 600000) Scripted.healthy in
  exists s',
    cleanupIdleConnections s = (Ok tt, s') /\
    m_idleConnections (this s') `sublist_of` [0%nat; 1%nat].
Proof.
  intros s.
  destruct two_sessions_consistent as (Hthis & _ & Hcons). fold s in Hthis, Hcons.
  destruct (cleanupIdleConnections_prunes_queue s Hcons) as (s' & Hrun & Hsub & _).
  exists s'. split; [exact Hrun|]. rewrite Hthis in Hsub. exact Hsub.
Defined.

Lemma ensureMinimumConnections_tops_up_witness :
  let s := Scripted.pool (Scripted.limits 2 4 1 600000) Scripted.healthy in
  m_totalConnections (this s) = 1 /\
  exists news,
    m_idleConnections (this (snd (ensureMinimumConnections s))) = [0%nat] ++ news /\
    Z.of_nat (length news) <= 1.
Proof.
  intros s.
  assert (Hthis : this s = mk (Scripted.limits 2 4 1 600000) [0%nat] ∅ true 1)
    by (vm_compute; reflexivity).
  split; [rewrite Hthis; reflexivity|].
  destruct (ensureMinimumConnections_tops_up s) as (news & Hthis' & Hn & _).
  - rewrite Hthis. cbn. lia.
  - rewrite Hthis. unfold UINT_MAX. cbn. lia.
  - exists news. rewrite Hthis'. rewrite Hthis in Hn |- *. split; [reflexivity | exact Hn].
Defined.

Lemma init_outcome_witness :
  let s := snd (on_balancer
                  (LoadBalancer.initSingleDatabase "db" "app" "secret" "shop" 3306 1)
                  (start Scripted.healthy)) in
  let config := Scripted.limits 1 2 1 600000 in
  fst (init config s) = Ok tt /\
  exists news,
    this (snd (init config s)) = mk config news ∅ true (Z.of_nat (length news)) /\
    news <> [].
Proof.
  intros s config.
  assert (Hr : fst (init config s) = Ok tt) by (vm_compute; reflexivity).
  split; [exact Hr|].
  pose proof (init_outcome config s) as Hinit. unfold wp in Hinit. rewrite Hr in Hinit.
  destruct Hinit as (news & Hthis' & _ & Hsome & _).
  - reflexivity.
  - reflexivity.
  - reflexivity.
  - reflexivity.
  - unfold PoolConfig.in_range, UINT_MAX. cbn. lia.
  - exists news. split; [exact Hthis'|]. apply Hsome. cbn. lia.
Defined.

Lemma getConnection_serves_queue_head_witness :
  let s := Scripted.pool (Scripted.limits 2 4 2 600000) Scripted.healthy in
  exists s',
    getConnection 1 100 s = (Ok 0%nat, s') /\
    m_idleConnections (this s') = [1%nat] /\
    m_activeConnections (this s') !! "id0" = Some 0%nat.
Proof.
  intros s.
  destruct two_sessions_consistent as (Hthis & Hids & _). fold s in Hthis, Hids.
  destruct (getConnection_serves_queue_head 0 100 s 0 [1%nat])
    as (s' & k & Hrun & Hk & Hthis' & _).
  - rewrite Hthis. reflexivity.
  - rewrite Hthis. reflexivity.
  - intros head rest Hidle. rewrite Hthis in Hidle. injection Hidle as <- <-.
    eexists _, _. split; [vm_compute; reflexivity|].
    split; vm_compute; reflexivity.
  - exists s'. split; [exact Hrun|]. rewrite Hids in Hk. injection Hk as <-.
    rewrite Hthis'. cbn [m_idleConnections m_activeConnections].
    split; [reflexivity | apply lookup_insert_eq].
Defined.

Lemma getConnection_times_out_witness :
  let s := snd (getConnection 3 100
                  (Scripted.pool (Scripted.limits 1 1 1 600000) Scripted.healthy)) in
  exists s',
    getConnection 1 0 s =
      (Throw (runtime_error "Timeout waiting for available connection after 5000ms"), s') /\
    this s' = this s.
Proof.
  intros s.
  destruct (getConnection_times_out 0 0 s) as (s' & Hrun & Hthis' & _).
  - vm_compute. reflexivity.
  - vm_compute. reflexivity.
  - vm_compute. discriminate.
  - vm_compute. reflexivity.
  - exists s'. split; [exact Hrun | exact Hthis'].
Defined.

Lemma releaseConnection_at_zero_wraps_witness :
  let s := snd (shutdown (snd (getConnection 3 100
                  (Scripted.pool (Scripted.limits 2 4 2 600000) Scripted.healthy)))) in
  exists s',
    releaseConnection (Some 0%nat) s = (Ok tt, s') /\
    m_totalConnections (this s') = 18446744073709551615.
Proof.
  intros s.
  destruct (releaseConnection_at_zero_wraps 0 s) as (s' & k & Hrun & _ & Hthis' & _).
  - eexists. split; vm_compute; reflexivity.
  - vm_compute. reflexivity.
  - vm_compute. discriminate.
  - vm_compute. discriminate.
  - exists s'. split; [exact Hrun|]. rewrite Hthis'. reflexivity.
Defined.

End PoolFacts.

(** * The telemetry counters *)

Module TelemetryFacts.
Import PerformanceMonitor ConnectionFacts.

(** The counters after [n] calls: none has wrapped, failures are counted
    among the attempts. *)
Lemma after_call_counts (c : call) (m : t) (n : Z) :
  0 <= n -> n + 1 < 2 ^ 64 ->
  (0 <= m_failedQueries m <= m_totalQueriesExecuted m /\ m_totalQueriesExecuted m <= n) ->
  (0 <= m_successfulReconnections m <= m_reconnectionAttempts m /\
   m_reconnectionAttempts m <= n) ->
  (0 <= m_failedQueries (after_call c m) <= m_totalQueriesExecuted (after_call c m) /\
   m_totalQueriesExecuted (after_call c m) <= n + 1) /\
  (0 <= m_successfulReconnections (after_call c m)
     <= m_reconnectionAttempts (after_call c m) /\
   m_reconnectionAttempts (after_call c m) <= n + 1).
Proof.
  intros Hn Hbound Hq Hr.
  destruct c as [| t | t | | t [|] | [|] |]; cbn;
    rewrite ?(wrap64_small (m_totalQueriesExecuted m + 1)),
            ?(wrap64_small (m_failedQueries m + 1)),
            ?(wrap64_small (m_reconnectionAttempts m + 1)),
            ?(wrap64_small (m_successfulReconnections m + 1)) by lia; lia.
Qed.

Lemma fold_after_call_counts (calls : list call) :
  forall (m : t) (n : Z),
    0 <= n -> n + Z.of_nat (length calls) < 2 ^ 64 ->
    (0 <= m_failedQueries m <= m_totalQueriesExecuted m /\ m_totalQueriesExecuted m <= n) ->
    (0 <= m_successfulReconnections m <= m_reconnectionAttempts m /\
     m_reconnectionAttempts m <= n) ->
    (0 <= m_failedQueries (fold_left (fun m c => after_call c m) calls m)
       <= m_totalQueriesExecuted (fold_left (fun m c => after_call c m) calls m) /\
     m_totalQueriesExecuted (fold_left (fun m c => after_call c m) calls m)
       <= n + Z.of_nat (length calls)) /\
    (0 <= m_successfulReconnections (fold_left (fun m c => after_call c m) calls m)
       <= m_reconnectionAttempts (fold_left (fun m c => after_call c m) calls m) /\
     m_reconnectionAttempts (fold_left (fun m c => after_call c m) calls m)
       <= n + Z.of_nat (length calls)).
Proof.
  induction calls as [|c calls IH]; intros m n Hn Hbound Hq Hr; cbn [fold_left length].
  - cbn [Z.of_nat]. lia.
  - cbn [length] in Hbound. rewrite Nat2Z.inj_succ in Hbound |- *.
    destruct (after_call_counts c m n Hn ltac:(lia) Hq Hr) as [Hq' Hr'].
    specialize (IH (after_call c m) (n + 1) ltac:(lia) ltac:(lia) Hq' Hr').
    lia.
Qed.

(** X23.  After any sequence of fewer than [2^64] calls on a new monitor
    ([resetStats] included), the failed queries are counted among the
    queries executed and the successful reconnections among the reconnection
    attempts, and neither total exceeds the number of calls made: no counter
    has wrapped. *)
Theorem failures_counted_among_attempts (calls : list call) :
  Z.of_nat (length calls) < 2 ^ 64 ->
  let m := after_calls calls in
  0 <= m_failedQueries m <= m_totalQueriesExecuted m /\
  m_totalQueriesExecuted m <= Z.of_nat (length calls) /\
  0 <= m_successfulReconnections m <= m_reconnectionAttempts m /\
  m_reconnectionAttempts m <= Z.of_nat (length calls).
Proof.
  intros Hbound. unfold after_calls.
  pose proof (fold_after_call_counts calls zero 0 ltac:(lia) ltac:(lia)) as Hfold.
  cbn [zero m_failedQueries m_totalQueriesExecuted
       m_successfulReconnections m_reconnectionAttempts] in Hfold.
  specialize (Hfold ltac:(lia) ltac:(lia)). cbn zeta. lia.
Qed.

Lemma failures_counted_among_attempts_witness :
  let m := after_calls [call_recordQueryExecuted 5 false; call_recordQueryExecuted 7 true;
                        call_resetStats; call_recordQueryExecuted 3 false;
                        call_recordReconnection true] in
  m_failedQueries m <= m_totalQueriesExecuted m /\
  m_successfulReconnections m <= m_reconnectionAttempts m.
Proof.
  intros m.
  destruct (failures_counted_among_attempts
              [call_recordQueryExecuted 5 false; call_recordQueryExecuted 7 true;
               call_resetStats; call_recordQueryExecuted 3 false;
               call_recordReconnection true])
    as ((_ & Hq) & _ & (_ & Hr) & _).
  - cbn. lia.
  - split; [exact Hq | exact Hr].
Defined.

End TelemetryFacts.
